(** * NVM3 image codec of zwave-js' nvmedit package

    A shallow embedding of [packages/nvmedit/src/page.ts] (page header codec,
    [readPage], [writePageHeader]) and of the image codec ([comparePages],
    [parseNVM], [encodeNVM]), together with the properties of the
    specification that concern them.

    Buffers are lists of bytes, JavaScript numbers that hold integers are [Z]
    with the 32-bit wrap-around of the bitwise operators written out, thrown
    exceptions are the [Err] results of an error monad. *)

From Stdlib Require Import ZArith List Lia Bool.
From Stdlib Require Import Strings.Byte.
From Stdlib Require Import Sorting.Sorted Sorting.Permutation.
Import ListNotations.
Open Scope Z_scope.

Set Implicit Arguments.

(** ** Errors and the error monad *)

(** The exceptions the code can raise.  [OutOfRange] is Node's
    [ERR_OUT_OF_RANGE], raised by the [Buffer] accessors; [ObjectError] stands
    for whatever the object layer raises; [Diverges] marks the one input on
    which [encodeNVM] does not return (a page size of zero). *)
Inductive NVMError : Type :=
| NotValidPage
| UnsupportedVersion (version : Z)
| BergerCodeError
| InvalidEraseCount
| IncompletePage
| NotEnoughPages
| OutOfRange
| ObjectError (detail : Z)
| Diverges.

Inductive result (A : Type) : Type :=
| OK (a : A)
| Err (e : NVMError).

Arguments OK {A} a.
Arguments Err {A} e.

Definition bind {A B : Type} (r : result A) (k : A -> result B) : result B :=
  match r with
  | OK a => k a
  | Err e => Err e
  end.

Notation "x <- r ;; k" := (bind r (fun x => k))
  (at level 61, r at next level, right associativity).
Notation "' p <- r ;; k" := (bind r (fun p => k))
  (at level 61, p pattern, r at next level, right associativity).

(** ** JavaScript's 32-bit integer operators *)

Definition toUint32 (z : Z) : Z := z mod 2 ^ 32.
Definition toInt32 (z : Z) : Z := (z + 2 ^ 31) mod 2 ^ 32 - 2 ^ 31.

(** [a & b], [a | b], [~a], [a << n], [a >> n], [a >>> n] *)
Definition js_and (a b : Z) : Z := toInt32 (Z.land (toInt32 a) (toInt32 b)).
Definition js_or (a b : Z) : Z := toInt32 (Z.lor (toInt32 a) (toInt32 b)).
Definition js_not (a : Z) : Z := toInt32 (Z.lnot (toInt32 a)).
Definition js_shl (a n : Z) : Z := toInt32 (Z.shiftl (toInt32 a) (n mod 32)).
Definition js_shr (a n : Z) : Z := Z.shiftr (toInt32 a) (n mod 32).
Definition js_ushr (a n : Z) : Z := Z.shiftr (toUint32 a) (n mod 32).

(** ** Buffers *)

Definition Buffer : Type := list byte.

Definition byte_to_Z (b : byte) : Z := Z.of_N (Byte.to_N b).

Definition byte_of_Z (z : Z) : byte :=
  match Byte.of_N (Z.to_N (z mod 256)) with
  | Some b => b
  | None => x00
  end.

Definition len (b : Buffer) : Z := Z.of_nat (length b).

(** [Buffer.alloc(size, fill)] *)
Definition alloc (size : Z) (fill : byte) : Buffer := repeat fill (Z.to_nat size).

(** [buffer.slice(start, end)] for [0 <= start] *)
Definition slice (b : Buffer) (start stop : Z) : Buffer :=
  firstn (Z.to_nat (stop - start)) (skipn (Z.to_nat start) b).

(** The byte at index [i], as a number. *)
Definition at_ (b : Buffer) (i : Z) : Z := byte_to_Z (nth (Z.to_nat i) b x00).

Definition inBounds (b : Buffer) (offset size : Z) : bool :=
  (0 <=? offset) && (offset + size <=? len b).

Definition readUInt16LE (b : Buffer) (offset : Z) : result Z :=
  if inBounds b offset 2
  then OK (at_ b offset + 2 ^ 8 * at_ b (offset + 1))
  else Err OutOfRange.

Definition readUInt32LE (b : Buffer) (offset : Z) : result Z :=
  if inBounds b offset 4
  then OK (at_ b offset + 2 ^ 8 * at_ b (offset + 1)
           + 2 ^ 16 * at_ b (offset + 2) + 2 ^ 24 * at_ b (offset + 3))
  else Err OutOfRange.

(** The [n] little-endian bytes of [v] (of its two's complement when [v] is
    negative). *)
Fixpoint le_bytes (n : nat) (v : Z) : list byte :=
  match n with
  | O => []
  | S n' => byte_of_Z v :: le_bytes n' (v / 256)
  end.

(** Overwrite [b] from [offset] on with [bs]; the callers check the bounds. *)
Definition writeBytes (b : Buffer) (offset : Z) (bs : list byte) : Buffer :=
  firstn (Z.to_nat offset) b ++ bs ++ skipn (Z.to_nat offset + length bs) b.

Definition writeUInt16LE (b : Buffer) (value offset : Z) : result Buffer :=
  if (0 <=? value) && (value <=? 2 ^ 16 - 1) && inBounds b offset 2
  then OK (writeBytes b offset (le_bytes 2 value))
  else Err OutOfRange.

Definition writeUInt32LE (b : Buffer) (value offset : Z) : result Buffer :=
  if (0 <=? value) && (value <=? 2 ^ 32 - 1) && inBounds b offset 4
  then OK (writeBytes b offset (le_bytes 4 value))
  else Err OutOfRange.

Definition writeInt32LE (b : Buffer) (value offset : Z) : result Buffer :=
  if (- 2 ^ 31 <=? value) && (value <=? 2 ^ 31 - 1) && inBounds b offset 4
  then OK (writeBytes b offset (le_bytes 4 value))
  else Err OutOfRange.

(** [source.copy(target, targetStart)] for [0 <= targetStart]: as many bytes of
    [source] as fit are copied, the target keeps its length. *)
Definition copy (source target : Buffer) (targetStart : Z) : Buffer :=
  if len target <=? targetStart then target
  else
    firstn (Z.to_nat targetStart) target
    ++ firstn (length target - Z.to_nat targetStart) source
    ++ skipn (Z.to_nat targetStart + length source) target.

(** ** Integrity primitives (utils.ts) *)

Fixpoint popcount (width : nat) (v : Z) : Z :=
  match width with
  | O => 0
  | S w => (if Z.testbit v (Z.of_nat w) then 1 else 0) + popcount w v
  end.

(** Modelled from the spec: [computeBergerCode] is declared in utils.ts, which
    is not part of the sources at hand.  Section 4.1: the code of a value is the
    width minus the number of set bits among its low [width] bits, truncated to
    [ceil (log2 (width + 1))] bits. *)
Definition computeBergerCode (word numBits : Z) : Z :=
  (numBits - popcount (Z.to_nat numBits) word) mod 2 ^ Z.log2_up (numBits + 1).

(** Modelled from the spec: [validateBergerCode] is declared in utils.ts too.
    Section 4.1: it recomputes the code and compares; a mismatch is reported
    as an integrity error. *)
Definition validateBergerCode (word code numBits : Z) : result unit :=
  if computeBergerCode word numBits =? code then OK tt
  else Err BergerCodeError.

(** ** Objects (object.ts) *)

(** Modelled from the spec: the type declarations of object.ts are not part of
    the sources at hand.  Section 3 lists the object types and the fragment
    statuses, and the attributes of an object. *)
Inductive ObjectType : Type :=
| DataLarge | CounterLarge | CounterSmall | Deleted | DataSmall | Link.

Inductive FragmentType : Type :=
| FragmentNone | FragmentFirst | FragmentNext | FragmentLast.

Record NVMObject : Type := mkObject {
  type : ObjectType;
  fragmentType : FragmentType;
  key : Z;
  data : option Buffer
}.

Definition ObjectType_eqb (a b : ObjectType) : bool :=
  match a, b with
  | DataLarge, DataLarge | CounterLarge, CounterLarge
  | CounterSmall, CounterSmall | Deleted, Deleted
  | DataSmall, DataSmall | Link, Link => true
  | _, _ => false
  end.

(** [obj.data?.length ?? 0] *)
Definition dataLength (obj : NVMObject) : Z :=
  match data obj with
  | Some d => len d
  | None => 0
  end.

(** ** Pages (page.ts) *)

Definition NVM3_MIN_PAGE_SIZE : Z := 512.
Definition FLASH_MAX_PAGE_SIZE : Z := 2048.
Definition NVM3_PAGE_HEADER_SIZE : Z := 20.
Definition NVM3_PAGE_COUNTER_SIZE : Z := 27.
Definition NVM3_PAGE_COUNTER_MASK : Z := js_shl 1 NVM3_PAGE_COUNTER_SIZE - 1.
Definition NVM3_PAGE_MAGIC : Z := 0xb29a.

Record PageHeader : Type := mkHeader {
  offset : Z;
  version : Z;
  eraseCount : Z;
  status : Z;
  encrypted : bool;
  pageSize : Z;
  writeSize : Z;
  memoryMapped : bool;
  deviceFamily : Z
}.

(** [enum PageStatus] *)
Definition PageStatus_OK : Z := 0xffffffff.
Definition PageStatus_OK_ErasePending : Z := 0xffffa5a5.
Definition PageStatus_Bad : Z := 0x0000ffff.
Definition PageStatus_Bad_ErasePending : Z := 0x0000a5a5.

(** [enum PageWriteSize] *)
Definition WRITE_SIZE_32 : Z := 0.
Definition WRITE_SIZE_16 : Z := 1.

Record NVMPage : Type := mkPage {
  header : PageHeader;
  objects : list NVMObject
}.

(** [Math.ceil(Math.log2(pageSize) - Math.log2(NVM3_MIN_PAGE_SIZE))] on a
    positive integer; the shift by 13 that follows in [writePageHeader] turns
    the infinite and undefined results of the other numbers into 0. *)
Definition pageSizeToBits (pageSize : Z) : Z :=
  if 0 <? pageSize then Z.log2_up pageSize - Z.log2 NVM3_MIN_PAGE_SIZE else 0.

Definition pageSizeFromBits (bits : Z) : Z := NVM3_MIN_PAGE_SIZE * 2 ^ bits.

Definition writePageHeader (h : PageHeader) : result Buffer :=
  let ret := alloc NVM3_PAGE_HEADER_SIZE x00 in
  ret <- writeUInt16LE ret (version h) 0 ;;
  ret <- writeUInt16LE ret NVM3_PAGE_MAGIC 2 ;;
  let count := js_and (eraseCount h) NVM3_PAGE_COUNTER_MASK in
  let eraseCountCode := computeBergerCode count NVM3_PAGE_COUNTER_SIZE in
  let count := js_or count (js_shl eraseCountCode NVM3_PAGE_COUNTER_SIZE) in
  ret <- writeInt32LE ret count 4 ;;
  let countInv := js_and (js_not (eraseCount h)) NVM3_PAGE_COUNTER_MASK in
  let eraseCountInvCode := computeBergerCode countInv NVM3_PAGE_COUNTER_SIZE in
  let countInv := js_or countInv (js_shl eraseCountInvCode NVM3_PAGE_COUNTER_SIZE) in
  ret <- writeInt32LE ret countInv 8 ;;
  ret <- writeUInt32LE ret (status h) 12 ;;
  let devInfo :=
    js_or (js_or (js_or (js_and (deviceFamily h) 0x7ff)
                        (js_shl (js_and (writeSize h) 1) 11))
                 (js_shl (if memoryMapped h then 1 else 0) 12))
          (js_shl (pageSizeToBits (pageSize h)) 13) in
  ret <- writeUInt16LE ret devInfo 16 ;;
  let formatInfo := if encrypted h then 0xfffe else 0xffff in
  ret <- writeUInt16LE ret formatInfo 18 ;;
  OK ret.

(** ** Compaction (object.ts) *)

(** A JavaScript [Map] with number keys: an association list in insertion
    order, with at most one entry per key. *)
Definition ObjectMap : Type := list (Z * NVMObject).

Fixpoint map_get (k : Z) (m : ObjectMap) : option NVMObject :=
  match m with
  | [] => None
  | (k', v) :: m' => if k' =? k then Some v else map_get k m'
  end.

(** [map.set(k, v)]: an existing key keeps its place, a new one goes last. *)
Fixpoint map_set (k : Z) (v : NVMObject) (m : ObjectMap) : ObjectMap :=
  match m with
  | [] => [(k, v)]
  | (k', v') :: m' => if k' =? k then (k, v) :: m' else (k', v') :: map_set k v m'
  end.

Fixpoint map_delete (k : Z) (m : ObjectMap) : ObjectMap :=
  match m with
  | [] => []
  | (k', v') :: m' => if k' =? k then map_delete k m' else (k', v') :: map_delete k m'
  end.

(** [map.values()] *)
Definition map_values (m : ObjectMap) : list NVMObject := List.map snd m.

(** The fragments received so far of the large objects that are not complete
    yet, by key, each chain in the order received. *)
Definition Pending : Type := list (Z * list NVMObject).

Fixpoint pending_get (k : Z) (p : Pending) : option (list NVMObject) :=
  match p with
  | [] => None
  | (k', fs) :: p' => if k' =? k then Some fs else pending_get k p'
  end.

Fixpoint pending_delete (k : Z) (p : Pending) : Pending :=
  match p with
  | [] => []
  | (k', fs) :: p' =>
      if k' =? k then pending_delete k p' else (k', fs) :: pending_delete k p'
  end.

Definition pending_set (k : Z) (fs : list NVMObject) (p : Pending) : Pending :=
  (k, fs) :: pending_delete k p.

(** The payloads of a chain, concatenated in the order received. *)
Definition payloads (fs : list NVMObject) : Buffer :=
  List.concat (List.map (fun f => match data f with Some d => d | None => [] end) fs).

Definition reassemble (fs : list NVMObject) (last : NVMObject) : NVMObject :=
  mkObject (type last) FragmentNone (key last) (Some (payloads (fs ++ [last]))).

(** Modelled from the spec: [compressObjects] is declared in object.ts, which is
    not part of the sources at hand.  Section 4.6, one step per object of the
    log: a [Deleted] record removes its key; a small object or a large one that
    is not fragmented is inserted or overwrites its key in place; the fragments
    of a large object are buffered by key until the last one arrives, and the
    reassembled object then overwrites the key; a first fragment discards an
    incomplete chain of its key; a next or last fragment without a first is
    ignored.  The section gives no case for [Link], which is skipped. *)
Definition compressStep (st : ObjectMap * Pending) (obj : NVMObject)
  : ObjectMap * Pending :=
  let (m, p) := st in
  match type obj with
  | Deleted => (map_delete (key obj) m, p)
  | DataSmall | CounterSmall => (map_set (key obj) obj m, p)
  | DataLarge | CounterLarge =>
      match fragmentType obj with
      | FragmentNone => (map_set (key obj) obj m, p)
      | FragmentFirst => (m, pending_set (key obj) [obj] p)
      | FragmentNext =>
          match pending_get (key obj) p with
          | Some fs => (m, pending_set (key obj) (fs ++ [obj]) p)
          | None => (m, p)
          end
      | FragmentLast =>
          match pending_get (key obj) p with
          | Some fs =>
              (map_set (key obj) (reassemble fs obj) m, pending_delete (key obj) p)
          | None => (m, p)
          end
      end
  | Link => (m, p)
  end.

Definition compressObjects (objs : list NVMObject) : ObjectMap :=
  fst (fold_left compressStep objs ([], [])).

(** ** The image codec *)

Definition ZWAVE_APPLICATION_NVM_SIZE : Z := 0x3000.
Definition ZWAVE_PROTOCOL_NVM_SIZE : Z := 0xc000 - ZWAVE_APPLICATION_NVM_SIZE.

Definition comparePages (p1 p2 : NVMPage) : Z :=
  if eraseCount (header p1) =? eraseCount (header p2)
  then offset (header p1) - offset (header p2)
  else eraseCount (header p1) - eraseCount (header p2).

(** [array.sort(compare)]: the sort of ECMAScript is stable and, for a
    comparison that is a consistent order, yields the sorted permutation.  It is
    modelled by a stable insertion sort. *)
Section Sort.
  Variable A : Type.
  Variable compare : A -> A -> Z.

Fixpoint insert (x : A) (l : list A) : list A :=
    match l with
    | [] => [x]
    | y :: l' => if compare x y <=? 0 then x :: y :: l' else y :: insert x l'
    end.

Fixpoint sort (l : list A) : list A :=
    match l with
    | [] => []
    | x :: l' => insert x (sort l')
    end.
End Sort.

Record EncodeNVMOptions : Type := mkOptions {
  opt_pageSize : Z;
  opt_deviceFamily : Z;
  opt_writeSize : Z;
  opt_memoryMapped : bool
}.

(** The defaults of the destructuring in [encodeNVM]. *)
Definition defaultOptions : EncodeNVMOptions :=
  mkOptions FLASH_MAX_PAGE_SIZE 2047 WRITE_SIZE_16 true.

Record ParsedNVM : Type := mkParsed {
  applicationPages : list NVMPage;
  protocolPages : list NVMPage;
  applicationObjects : ObjectMap;
  protocolObjects : ObjectMap
}.

(** [list[i] = v] for an index inside the list *)
Fixpoint setNth {A : Type} (i : nat) (v : A) (l : list A) : list A :=
  match l, i with
  | [], _ => []
  | _ :: l', O => v :: l'
  | x :: l', S i' => x :: setNth i' v l'
  end.

Section Codec.

  (** The constants and functions of object.ts that the image codec uses.
      The file is not part of the sources at hand: the development is
      parametric in them, and states what it needs of them where it does. *)
  Variables NVM3_WORD_SIZE NVM3_OBJ_HEADER_SIZE_SMALL NVM_COUNTER_SIZE : Z.
  Variable writeObject : NVMObject -> Buffer.
  Variable readObjects : Buffer -> result (list NVMObject).
  Variable fragmentLargeObject : NVMObject -> Z -> Z -> list NVMObject.

  (** *** [readPage] *)

Definition readPage (buffer : Buffer) (offset : Z) : result (NVMPage * Z) :=
    version <- readUInt16LE buffer offset ;;
    magic <- readUInt16LE buffer (offset + 2) ;;
    if negb (magic =? NVM3_PAGE_MAGIC) then Err NotValidPage else
    if negb (version =? 0x01) then Err (UnsupportedVersion version) else
    (* The erase counter is saved twice, once normally, once inverted *)
    eraseCountWord <- readUInt32LE buffer (offset + 4) ;;
    let eraseCountCode := js_ushr eraseCountWord NVM3_PAGE_COUNTER_SIZE in
    let eraseCount := js_and eraseCountWord NVM3_PAGE_COUNTER_MASK in
    _ <- validateBergerCode eraseCount eraseCountCode NVM3_PAGE_COUNTER_SIZE ;;
    eraseCountInvWord <- readUInt32LE buffer (offset + 8) ;;
    let eraseCountInvCode := js_ushr eraseCountInvWord NVM3_PAGE_COUNTER_SIZE in
    let eraseCountInv := js_and eraseCountInvWord NVM3_PAGE_COUNTER_MASK in
    _ <- validateBergerCode eraseCountInv eraseCountInvCode NVM3_PAGE_COUNTER_SIZE ;;
    if negb (eraseCount =? js_and (js_not eraseCountInv) NVM3_PAGE_COUNTER_MASK)
    then Err InvalidEraseCount else
    (* Page status *)
    status <- readUInt32LE buffer (offset + 12) ;;
    devInfo <- readUInt16LE buffer (offset + 16) ;;
    let deviceFamily := js_and devInfo 0x7ff in
    let writeSize := js_and (js_shr devInfo 11) 1 in
    let memoryMapped := negb (js_and (js_shr devInfo 12) 1 =? 0) in
    let pageSize := pageSizeFromBits (js_and (js_shr devInfo 13) 7) in
    (* Application NVM pages seem to get written with a page size of 0xffff *)
    let actualPageSize := Z.min pageSize FLASH_MAX_PAGE_SIZE in
    if len buffer <? offset + actualPageSize then Err IncompletePage else
    formatInfo <- readUInt16LE buffer (offset + 18) ;;
    let encrypted := js_and formatInfo 1 =? 0 in
    let header :=
      mkHeader offset version eraseCount status encrypted pageSize writeSize
               memoryMapped deviceFamily in
    let bytesRead := actualPageSize in
    let data := slice buffer (offset + 20) (offset + bytesRead) in
    objects <- readObjects data ;;
    OK (mkPage header objects, bytesRead).

  (** *** [parseNVM] *)

  (** The [while (offset < buffer.length)] loop.  Every page read advances the
      offset, so a fuel of the buffer's length is never used up
      ([readPages_fuel] below); a loop out of fuel stops. *)
Fixpoint readPages (fuel : nat) (buffer : Buffer) (offset : Z)
    : result (list NVMPage) :=
    if offset <? len buffer then
      match fuel with
      | O => OK []
      | S fuel' =>
          '(page, bytesRead) <- readPage buffer offset ;;
          pages <- readPages fuel' buffer (offset + bytesRead) ;;
          OK (page :: pages)
      end
    else OK [].

  (** [pages.reduce((acc, page) => acc.concat(page.objects), [])] *)
Definition allObjects (pages : list NVMPage) : list NVMObject :=
    fold_left (fun acc page => acc ++ objects page) pages [].

Definition parseNVM (buffer : Buffer) : result ParsedNVM :=
    pages <- readPages (length buffer) buffer 0 ;;
    let applicationPages :=
      filter (fun p => offset (header p) <? ZWAVE_APPLICATION_NVM_SIZE) pages in
    let protocolPages :=
      filter (fun p => offset (header p) >=? ZWAVE_APPLICATION_NVM_SIZE) pages in
    (* The pages are written in a ring buffer, find the one with the lowest
       erase count and start reading from there in order *)
    let applicationPages := sort comparePages applicationPages in
    let protocolPages := sort comparePages protocolPages in
    (* Build a compressed view of the NVM objects *)
    let applicationObjects := compressObjects (allObjects applicationPages) in
    let protocolObjects := compressObjects (allObjects protocolPages) in
    OK (mkParsed applicationPages protocolPages applicationObjects protocolObjects).

  (** *** [encodeNVM] *)

  Section Writer.
    (** The placement of [writeObjects] never reads a page: it is written here
        over any representation of the pages with an operation [put] that
        stores a fragment at an offset.  The code is the instance where a page
        is a buffer and [put] copies the serialized fragment ([writeObjects]
        below); the instance where a page is the list of the fragments it
        received serves to state where the code puts them. *)
    Variable Page : Type.
    Variable put : NVMObject -> Z -> Page -> Page.
    Variable pageSize : Z.

    (** The variables [pageIndex], [offsetInPage] and [remainingSpace] of
        [writeObjects], with the array of pages; [currentPage] is
        [pages[pageIndex]], the very object of the array. *)
Record Writer : Type := mkWriter {
      pages : list Page;
      pageIndex : Z;
      offsetInPage : Z;
      remainingSpace : Z
    }.

Definition nextPage (w : Writer) : result Writer :=
      let pageIndex := pageIndex w + 1 in
      if pageIndex >=? Z.of_nat (length (pages w)) then Err NotEnoughPages
      else
        let offsetInPage := NVM3_PAGE_HEADER_SIZE in
        OK (mkWriter (pages w) pageIndex offsetInPage (pageSize - offsetInPage)).

Definition incrementOffset (w : Writer) (by_ : Z) : Writer :=
      let alignedDelta :=
        js_and (by_ + NVM3_WORD_SIZE - 1) (js_not (NVM3_WORD_SIZE - 1)) in
      let offsetInPage := offsetInPage w + alignedDelta in
      mkWriter (pages w) (pageIndex w) offsetInPage (pageSize - offsetInPage).

    (** [objBuffer.copy(currentPage, offsetInPage)] *)
Definition putFragment (w : Writer) (fragment : NVMObject) : Writer :=
      let i := Z.to_nat (pageIndex w) in
      match nth_error (pages w) i with
      | Some currentPage =>
          mkWriter (setNth i (put fragment (offsetInPage w) currentPage) (pages w))
                   (pageIndex w) (offsetInPage w) (remainingSpace w)
      | None => w
      end.

    (** The body of [for (const fragment of fragments)]; [several] is
        [fragments.length > 1]. *)
Definition writeFragment (several : bool) (w : Writer) (fragment : NVMObject)
      : result Writer :=
      let objBuffer := writeObject fragment in
      let w := putFragment w fragment in
      let w := incrementOffset w (len objBuffer) in
      (* Each following fragment needs to be written to a different page *)
      if several then nextPage w else OK w.

Fixpoint writeFragments (several : bool) (w : Writer) (fragments : list NVMObject)
      : result Writer :=
      match fragments with
      | [] => OK w
      | fragment :: rest =>
          w <- writeFragment several w fragment ;;
          writeFragments several w rest
      end.

    (** The first part of the body of [for (const obj of objects.values())]: the
        writer, moved to the next page for a small object that does not fit,
        and the fragments to write. *)
Definition chooseFragments (w : Writer) (obj : NVMObject)
      : result (Writer * list NVMObject) :=
      if (ObjectType_eqb (type obj) CounterSmall
          && (remainingSpace w <? NVM3_OBJ_HEADER_SIZE_SMALL + NVM_COUNTER_SIZE))
         || (ObjectType_eqb (type obj) DataSmall
             && (remainingSpace w <? NVM3_OBJ_HEADER_SIZE_SMALL + dataLength obj))
      then
        (* Small objects cannot be fragmented and need to go on the next page *)
        w <- nextPage w ;;
        OK (w, [obj])
      else if ObjectType_eqb (type obj) CounterLarge
              || ObjectType_eqb (type obj) DataLarge
      then
        (* Large objects may be fragmented *)
        OK (w, fragmentLargeObject obj (remainingSpace w)
                 (pageSize - NVM3_PAGE_HEADER_SIZE))
      else OK (w, [obj]).

Definition placeObject (w : Writer) (obj : NVMObject) : result Writer :=
      if ObjectType_eqb (type obj) Deleted then OK w
      else
        '(w, fragments) <- chooseFragments w obj ;;
        writeFragments (1 <? Z.of_nat (length fragments)) w fragments.

Fixpoint placeObjects (w : Writer) (objs : list NVMObject) : result Writer :=
      match objs with
      | [] => OK w
      | obj :: rest =>
          w <- placeObject w obj ;;
          placeObjects w rest
      end.

Definition writeObjectsWith (pages0 : list Page) (objs : ObjectMap)
      : result (list Page) :=
      (* Keep track where we are at with writing in the pages *)
      w <- nextPage (mkWriter pages0 (-1) (-1) (-1)) ;;
      w <- placeObjects w (map_values objs) ;;
      OK (pages w).
  End Writer.

  (** [writeObjects]: the pages are buffers, a fragment is stored by
      [objBuffer.copy(currentPage, offsetInPage)]. *)
Definition putBytes (fragment : NVMObject) (offsetInPage : Z) (page : Buffer)
    : Buffer :=
    copy (writeObject fragment) page offsetInPage.

Definition writeObjects (pageSize : Z) (pages0 : list Buffer) (objs : ObjectMap)
    : result (list Buffer) :=
    writeObjectsWith putBytes pageSize pages0 objs.

Definition createEmptyPage (options : EncodeNVMOptions) : result Buffer :=
    let ret := alloc (opt_pageSize options) xff in
    h <- writePageHeader
           (mkHeader 0 0x01 0 PageStatus_OK false (opt_pageSize options)
                     (opt_writeSize options) (opt_memoryMapped options)
                     (opt_deviceFamily options)) ;;
    OK (copy h ret 0).

  (** [for (let i = 0; i < size / pageSize; i++) pages.push(createEmptyPage())]:
      the number of rounds, for a page size that is an integer and not 0, ... *)
Definition pageCount (regionSize pageSize : Z) : nat :=
    if pageSize <? 0 then O
    else Z.to_nat ((regionSize + pageSize - 1) / pageSize).

  (** ... and the rounds. *)
Fixpoint createPages (n : nat) (options : EncodeNVMOptions) : result (list Buffer) :=
    match n with
    | O => OK []
    | S n' =>
        page <- createEmptyPage options ;;
        rest <- createPages n' options ;;
        OK (page :: rest)
    end.

  (** With a page size of 0 the first loop never ends. *)
Definition encodeNVM (applicationObjects protocolObjects : ObjectMap)
             (options : EncodeNVMOptions) : result Buffer :=
    let pageSize := opt_pageSize options in
    if pageSize =? 0 then Err Diverges else
    applicationPages <-
      createPages (pageCount ZWAVE_APPLICATION_NVM_SIZE pageSize) options ;;
    protocolPages <-
      createPages (pageCount ZWAVE_PROTOCOL_NVM_SIZE pageSize) options ;;
    applicationPages <- writeObjects pageSize applicationPages applicationObjects ;;
    protocolPages <- writeObjects pageSize protocolPages protocolObjects ;;
    OK (List.concat (applicationPages ++ protocolPages)).

End Codec.

(** ** A reference object codec *)

(** Modelled from the spec: [writeObject], [readObjects], [fragmentLargeObject]
    and the constants of object.ts are not part of the sources at hand.  The
    properties below are proved for every object codec; this module is one
    codec, written after sections 4.2 and 6, at which they are instantiated.
    Section 4.2 names the fields of the header word and their widths, not their
    positions, which are chosen here (type, fragment status, key and length,
    from the lowest bit up); the CRC, out of the scope of the specification, is
    left out. *)
Module Reference.

Definition NVM3_WORD_SIZE : Z := 4.
Definition NVM3_OBJ_HEADER_SIZE_SMALL : Z := 4.
Definition NVM3_OBJ_HEADER_SIZE_LARGE : Z := 8.
Definition NVM_COUNTER_SIZE : Z := 4.

Definition typeCode (t : ObjectType) : Z :=
    match t with
    | DataLarge => 0 | CounterLarge => 1 | CounterSmall => 2
    | Deleted => 3 | DataSmall => 4 | Link => 5
    end.

Definition typeOfCode (c : Z) : option ObjectType :=
    match c with
    | 0 => Some DataLarge | 1 => Some CounterLarge | 2 => Some CounterSmall
    | 3 => Some Deleted | 4 => Some DataSmall | 5 => Some Link
    | _ => None
    end.

Definition fragmentCode (f : FragmentType) : Z :=
    match f with
    | FragmentNone => 0 | FragmentFirst => 1 | FragmentNext => 2 | FragmentLast => 3
    end.

Definition fragmentOfCode (c : Z) : FragmentType :=
    match c with
    | 1 => FragmentFirst | 2 => FragmentNext | 3 => FragmentLast | _ => FragmentNone
    end.

  (** The header word: type (3 bits), fragment status (2 bits), key (20 bits),
      length (7 bits). *)
Definition headerWord (obj : NVMObject) (length : Z) : Z :=
    typeCode (type obj) + 2 ^ 3 * fragmentCode (fragmentType obj)
    + 2 ^ 5 * (key obj mod 2 ^ 20) + 2 ^ 25 * (length mod 2 ^ 7).

Definition payload (obj : NVMObject) : Buffer :=
    match data obj with
    | Some d => d
    | None => []
    end.

  (** The padding to a multiple of 4 bytes, in the erased pattern. *)
Definition pad (b : Buffer) : Buffer :=
    b ++ repeat xff (Z.to_nat ((- len b) mod 4)).

Definition writeObject (obj : NVMObject) : Buffer :=
    match type obj with
    | DataSmall =>
        pad (le_bytes 4 (headerWord obj (dataLength obj)) ++ payload obj)
    | CounterSmall =>
        le_bytes 4 (headerWord obj 0)
        ++ firstn (Z.to_nat NVM_COUNTER_SIZE)
                  (payload obj ++ repeat x00 (Z.to_nat NVM_COUNTER_SIZE))
    | Deleted | Link => le_bytes 4 (headerWord obj 0)
    | DataLarge | CounterLarge =>
        pad (le_bytes 4 (headerWord obj 0) ++ le_bytes 4 (dataLength obj)
             ++ payload obj)
    end.

Definition align (n : Z) : Z := 4 * ((n + 3) / 4).

  (** One object of the window [b], and the bytes it takes with its padding. *)
Definition readObject (b : Buffer) (w : Z) : result (NVMObject * Z) :=
    match typeOfCode (w mod 2 ^ 3) with
    | None => Err (ObjectError 1)
    | Some t =>
        let f := fragmentOfCode ((w / 2 ^ 3) mod 2 ^ 2) in
        let k := (w / 2 ^ 5) mod 2 ^ 20 in
        match t with
        | DataSmall =>
            let n := w / 2 ^ 25 in
            if len b <? 4 + n then Err (ObjectError 2)
            else OK (mkObject t f k (Some (slice b 4 (4 + n))), align (4 + n))
        | CounterSmall =>
            if len b <? 4 + NVM_COUNTER_SIZE then Err (ObjectError 2)
            else OK (mkObject t f k (Some (slice b 4 (4 + NVM_COUNTER_SIZE))),
                     4 + NVM_COUNTER_SIZE)
        | Deleted | Link => OK (mkObject t f k None, 4)
        | DataLarge | CounterLarge =>
            n <- readUInt32LE b 4 ;;
            if len b <? 8 + n then Err (ObjectError 2)
            else OK (mkObject t f k (Some (slice b 8 (8 + n))), align (8 + n))
        end
    end.

  (** Objects are decoded until the next word is erased or the body ends. *)
Fixpoint readObjectsFrom (fuel : nat) (b : Buffer) : result (list NVMObject) :=
    match fuel with
    | O => OK []
    | S fuel' =>
        match readUInt32LE b 0 with
        | Err _ => OK []
        | OK w =>
            if w =? 0xffffffff then OK []
            else
              '(obj, n) <- readObject b w ;;
              rest <- readObjectsFrom fuel' (skipn (Z.to_nat n) b) ;;
              OK (obj :: rest)
        end
    end.

Definition readObjects (b : Buffer) : result (list NVMObject) :=
    readObjectsFrom (length b) b.

  (** The payload that is left after the first fragment, cut into pieces of
      at most [c] bytes, the last one possibly shorter. *)
Fixpoint chunks (fuel : nat) (c : nat) (rest : Buffer) : list Buffer :=
    match fuel with
    | O => [rest]
    | S fuel' =>
        if (length rest <=? c)%nat then [rest]
        else firstn c rest :: chunks fuel' c (skipn c rest)
    end.

Fixpoint continuation (obj : NVMObject) (cs : list Buffer) : list NVMObject :=
    match cs with
    | [] => []
    | [c] => [mkObject (type obj) FragmentLast (key obj) (Some c)]
    | c :: cs' => mkObject (type obj) FragmentNext (key obj) (Some c)
                  :: continuation obj cs'
    end.

  (** Section 4.2: an object that fits [firstFit] bytes with its header is
      left whole; otherwise its first fragment takes what [firstFit] leaves
      after the header, and the following ones a page body each. *)
Definition fragmentLargeObject (obj : NVMObject) (firstFit subsequentFit : Z)
    : list NVMObject :=
    if NVM3_OBJ_HEADER_SIZE_LARGE + dataLength obj <=? firstFit then [obj]
    else
      let n0 := Z.to_nat (firstFit - NVM3_OBJ_HEADER_SIZE_LARGE) in
      let c := Z.to_nat (Z.max 1 (subsequentFit - NVM3_OBJ_HEADER_SIZE_LARGE)) in
      let rest := skipn n0 (payload obj) in
      mkObject (type obj) FragmentFirst (key obj) (Some (firstn n0 (payload obj)))
      :: continuation obj (chunks (length rest) c rest).

Definition readPage := readPage readObjects.
Definition parseNVM := parseNVM readObjects.
Definition encodeNVM :=
    encodeNVM NVM3_WORD_SIZE NVM3_OBJ_HEADER_SIZE_SMALL NVM_COUNTER_SIZE
              writeObject fragmentLargeObject.

  (** Sample objects: a small data object, a counter, a tombstone, and a large
      data object of 3000 bytes, more than a page body holds. *)
Definition sampleSmall : NVMObject :=
    mkObject DataSmall FragmentNone 0x00123 (Some [xde; xad; xbe; xef]).
Definition sampleCounter : NVMObject :=
    mkObject CounterSmall FragmentNone 9 (Some [x01; x00; x00; x00]).
Definition sampleDeleted : NVMObject :=
    mkObject Deleted FragmentNone 1 None.
Definition sampleLarge : NVMObject :=
    mkObject DataLarge FragmentNone 7 (Some (repeat x5a 3000)).

(** Sample maps: three live application objects, one of them fragmented over
    two pages, and one live protocol object. *)
Definition sampleApplication : ObjectMap :=
    [(0x00123, sampleSmall); (9, sampleCounter); (7, sampleLarge)].
Definition sampleProtocol : ObjectMap := [(0x00123, sampleSmall)].

(** The image of the sample maps with the default options. *)
Definition sampleImage : Buffer :=
    match encodeNVM sampleApplication sampleProtocol defaultOptions with
    | OK image => image
    | Err _ => []
    end.

(** The image of two empty maps with the default options. *)
Definition emptyImage : Buffer :=
    match encodeNVM [] [] defaultOptions with
    | OK image => image
    | Err _ => []
    end.

(** A page of [size] bytes as a device writes it: the header, the objects, and
    erased bytes up to the end. *)
Definition pageImage (eraseCount status declaredSize size : Z)
    (objs : list NVMObject) : Buffer :=
    match writePageHeader (mkHeader 0 0x01 eraseCount status false declaredSize
                                    WRITE_SIZE_16 true 2047) with
    | OK h => copy (h ++ List.concat (List.map writeObject objs)) (alloc size xff) 0
    | Err _ => []
    end.

(** Scenario S5: two application pages with one write of key 7 each, value A
    on the page of erase count 5, value B on the page of erase count 3. *)
Definition valueA : NVMObject :=
    mkObject DataSmall FragmentNone 7 (Some [x0a; x0a]).
Definition valueB : NVMObject :=
    mkObject DataSmall FragmentNone 7 (Some [x0b; x0b]).
Definition ringImage : Buffer :=
    pageImage 5 PageStatus_OK 2048 2048 [valueA]
    ++ pageImage 3 PageStatus_OK 2048 2048 [valueB].

(** The pages of [ringImage] as [readPage] decodes them. *)
Definition pageA : NVMPage :=
    mkPage (mkHeader 0 1 5 PageStatus_OK false 2048 WRITE_SIZE_16 true 2047)
           [valueA].
Definition pageB : NVMPage :=
    mkPage (mkHeader 2048 1 3 PageStatus_OK false 2048 WRITE_SIZE_16 true 2047)
           [valueB].

(** [ringImage] with the status [Bad] on its first page. *)
Definition ringImageBad : Buffer :=
    writeBytes ringImage (0 + 12) [xff; xff; x00; x00].

(** A map with a large object of 13000 bytes, more than the application
    region holds, and a map with a [Deleted] entry. *)
Definition sampleHuge : NVMObject :=
    mkObject DataLarge FragmentNone 7 (Some (repeat x5a (Z.to_nat 13000))).
Definition hugeApplication : ObjectMap := [(7, sampleHuge)].
Definition deletedApplication : ObjectMap := [(1, sampleDeleted)].

(** A page that declares a size of 65536 bytes and is laid out on 2048. *)
Definition clampedImage : Buffer :=
    pageImage 0 PageStatus_OK 65536 2048 [sampleSmall].

(** Writers over erased pages of 2048 bytes: one with 4 bytes left on the first
    of two pages, one with 12 bytes left there, one at the top of the first of
    six pages. *)
Definition fullWriter : Writer Buffer :=
    mkWriter [alloc 2048 xff; alloc 2048 xff] 0 2044 4.
Definition tightWriter : Writer Buffer :=
    mkWriter [alloc 2048 xff; alloc 2048 xff] 0 2036 12.
Definition freshWriter : Writer Buffer :=
    mkWriter (repeat (alloc 2048 xff) 6) 0 NVM3_PAGE_HEADER_SIZE 2028.

(** Options with a page size that divides neither region size. *)
Definition oddOptions : EncodeNVMOptions :=
    mkOptions 5000 2047 WRITE_SIZE_16 true.

End Reference.

Unset Implicit Arguments.

(** ** Vocabulary of the statements *)

(** What [readPage] checks of a page at [offset] before it looks at the page
    size: the version and the magic word, the Berger codes of the two
    erase-count words and that the counts are complements; with the words it
    has read on the way. *)
Record ValidHeader (buffer : Buffer) (offset : Z)
       (eraseCountWord eraseCountInvWord status devInfo : Z) : Prop := {
  vh_version : readUInt16LE buffer offset = OK 1;
  vh_magic : readUInt16LE buffer (offset + 2) = OK NVM3_PAGE_MAGIC;
  vh_count : readUInt32LE buffer (offset + 4) = OK eraseCountWord;
  vh_code :
    computeBergerCode (js_and eraseCountWord NVM3_PAGE_COUNTER_MASK)
                      NVM3_PAGE_COUNTER_SIZE
    = js_ushr eraseCountWord NVM3_PAGE_COUNTER_SIZE;
  vh_countInv : readUInt32LE buffer (offset + 8) = OK eraseCountInvWord;
  vh_codeInv :
    computeBergerCode (js_and eraseCountInvWord NVM3_PAGE_COUNTER_MASK)
                      NVM3_PAGE_COUNTER_SIZE
    = js_ushr eraseCountInvWord NVM3_PAGE_COUNTER_SIZE;
  vh_complement :
    js_and eraseCountWord NVM3_PAGE_COUNTER_MASK
    = js_and (js_not (js_and eraseCountInvWord NVM3_PAGE_COUNTER_MASK))
             NVM3_PAGE_COUNTER_MASK;
  vh_status : readUInt32LE buffer (offset + 12) = OK status;
  vh_devInfo : readUInt16LE buffer (offset + 16) = OK devInfo
}.

(** The page size a device-info word declares in its bits 13 to 15. *)
Definition declaredPageSize (devInfo : Z) : Z :=
  pageSizeFromBits (js_and (js_shr devInfo 13) 7).

(** [(by + NVM3_WORD_SIZE - 1) & ~(NVM3_WORD_SIZE - 1)], the step of
    [incrementOffset]. *)
Definition alignedDelta (wordSize by_ : Z) : Z :=
  js_and (by_ + wordSize - 1) (js_not (wordSize - 1)).

(** The test of [writeObjects] that sends a small object to the next page. *)
Definition smallDoesNotFit (headerSize counterSize : Z) (remaining : Z)
           (obj : NVMObject) : Prop :=
  (type obj = CounterSmall /\ remaining < headerSize + counterSize)
  \/ (type obj = DataSmall /\ remaining < headerSize + dataLength obj).

(** The ring order of the pages: by erase count, and by offset among pages of
    the same erase count. *)
Definition pageLe (p1 p2 : NVMPage) : Prop :=
  eraseCount (header p1) < eraseCount (header p2)
  \/ (eraseCount (header p1) = eraseCount (header p2)
      /\ offset (header p1) <= offset (header p2)).

(** A record of the log that writes its key: a small object, or a large one
    that is not fragmented. *)
Definition isWrite (obj : NVMObject) : Prop :=
  type obj = DataSmall \/ type obj = CounterSmall
  \/ ((type obj = DataLarge \/ type obj = CounterLarge)
      /\ fragmentType obj = FragmentNone).

Definition inApplicationRegion (p : NVMPage) : bool :=
  offset (header p) <? ZWAVE_APPLICATION_NVM_SIZE.

Definition inProtocolRegion (p : NVMPage) : bool :=
  offset (header p) >=? ZWAVE_APPLICATION_NVM_SIZE.

(** The page [p] with another status word. *)
Definition withStatus (s : Z) (p : NVMPage) : NVMPage :=
  let h := header p in
  mkPage (mkHeader (offset h) (version h) (eraseCount h) s (encrypted h)
                   (pageSize h) (writeSize h) (memoryMapped h) (deviceFamily h))
         (objects p).

(** Two pages that differ at most in their status. *)
Definition sameButStatus (p1 p2 : NVMPage) : Prop :=
  p2 = withStatus (status (header p2)) p1.

(** Two results of [parseNVM] that fail alike, or hold the same live maps and
    pages that differ at most in their status. *)
Definition sameObjects (r1 r2 : result ParsedNVM) : Prop :=
  match r1, r2 with
  | OK p1, OK p2 =>
      applicationObjects p1 = applicationObjects p2
      /\ protocolObjects p1 = protocolObjects p2
      /\ Forall2 sameButStatus (applicationPages p1) (applicationPages p2)
      /\ Forall2 sameButStatus (protocolPages p1) (protocolPages p2)
  | Err e1, Err e2 => e1 = e2
  | _, _ => False
  end.

(** The offsets of the pages of a list, in order. *)
Definition pageOffsets (pages : list NVMPage) : list Z :=
  List.map (fun p => offset (header p)) pages.

(** Images that differ only in status words of their pages: [b'] is reached
    from [b] by overwriting, any number of times, the four bytes of the status
    word of a page of the image. *)
Inductive statusVariant (readObjects : Buffer -> result (list NVMObject))
  : Buffer -> Buffer -> Prop :=
| variant_same (b : Buffer) : statusVariant readObjects b b
| variant_step (b b' : Buffer) (pages : list NVMPage) (o : Z) (s : list byte) :
    statusVariant readObjects b b' ->
    readPages readObjects (length b') b' 0 = OK pages ->
    In o (pageOffsets pages) ->
    length s = 4%nat ->
    statusVariant readObjects b (writeBytes b' (o + 12) s).

(** The byte [b] with its bit [j] flipped. *)
Definition flipBit (b : byte) (j : Z) : byte :=
  byte_of_Z (Z.lxor (byte_to_Z b) (2 ^ j)).

(** The image with bit [j] of the byte at [pos] flipped.  The Berger code of
    the erase count of the page at [o] is the bits 3 to 7 of the byte at
    [o + 7]. *)
Definition flipBitAt (buffer : Buffer) (pos j : Z) : Buffer :=
  writeBytes buffer pos [flipBit (nth (Z.to_nat pos) buffer x00) j].

(** The bytes an object takes in a region, its payload plus the overhead of its
    header: a small header before the payload of a small data object or the
    payload of fixed size of a small counter, a large header before the payload
    of a large object.  A [Deleted] entry of the map is not written. *)
Definition objectCost (headerSmall counterSize headerLarge : Z) (obj : NVMObject)
  : Z :=
  match type obj with
  | CounterSmall => headerSmall + counterSize
  | DataSmall => headerSmall + dataLength obj
  | DataLarge | CounterLarge => headerLarge + dataLength obj
  | Deleted | Link => 0
  end.

Definition totalCost (headerSmall counterSize headerLarge : Z)
           (objs : list NVMObject) : Z :=
  fold_right (fun obj acc => objectCost headerSmall counterSize headerLarge obj + acc)
             0 objs.

Definition totalDataLength (fragments : list NVMObject) : Z :=
  fold_right (fun f acc => dataLength f + acc) 0 fragments.

(** What section 4.2 asks of the fragments of a large object: an object is
    left whole only if it fits the space of the first fragment with its header,
    and is then serialized in at least that many bytes; otherwise the
    fragments share its payload, the first one within what the first space
    leaves after a header, the following ones within a page body each. *)
Definition LargeFit (headerLarge : Z) (writeObject : NVMObject -> Buffer)
           (obj : NVMObject) (firstFit subsequentFit : Z)
           (fragments : list NVMObject) : Prop :=
  match fragments with
  | [] => False
  | [f] =>
      headerLarge + dataLength obj <= firstFit
      /\ headerLarge + dataLength obj <= len (writeObject f) < 2 ^ 31 - 3
  | f :: rest =>
      dataLength f <= Z.max 0 (firstFit - headerLarge)
      /\ Forall (fun g => dataLength g <= subsequentFit - headerLarge) rest
      /\ totalDataLength (f :: rest) = dataLength obj
  end.

(** What the placement relies on for an object of a map: it is of one of the
    types that are written or [Deleted]; a small object fits a page body and is
    serialized in at least header plus payload bytes (and fewer than 2 GiB, so
    that the 32-bit alignment does not wrap); the fragments of a large object
    are as section 4.2 says. *)
Record SizeContract (headerSmall counterSize headerLarge : Z)
       (writeObject : NVMObject -> Buffer)
       (fragmentLargeObject : NVMObject -> Z -> Z -> list NVMObject)
       (pageSize : Z) (obj : NVMObject) : Prop := {
  sc_type : type obj <> Link;
  sc_small :
    type obj = CounterSmall \/ type obj = DataSmall ->
    objectCost headerSmall counterSize headerLarge obj
    <= pageSize - NVM3_PAGE_HEADER_SIZE
    /\ objectCost headerSmall counterSize headerLarge obj
       <= len (writeObject obj) < 2 ^ 31 - 3;
  sc_large :
    type obj = CounterLarge \/ type obj = DataLarge ->
    forall firstFit,
      LargeFit headerLarge writeObject obj firstFit
               (pageSize - NVM3_PAGE_HEADER_SIZE)
               (fragmentLargeObject obj firstFit (pageSize - NVM3_PAGE_HEADER_SIZE))
}.

Definition isLargeType (t : ObjectType) : Prop := t = DataLarge \/ t = CounterLarge.

(** The fragments of an object as the compaction expects them: the object
    itself, or, for a large object, a first fragment, next fragments and a last
    fragment of its key and type that share its payload. *)
Definition FragmentChain (obj : NVMObject) (fragments : list NVMObject) : Prop :=
  fragments = [obj]
  \/ (isLargeType (type obj)
      /\ exists first mids last,
          fragments = first :: mids ++ [last]
          /\ fragmentType first = FragmentFirst
          /\ Forall (fun f => fragmentType f = FragmentNext) mids
          /\ fragmentType last = FragmentLast
          /\ Forall (fun f => key f = key obj /\ type f = type obj) fragments
          /\ data obj = Some (payloads fragments)).

(** An object of a live map: whole, and of a type that is written. *)
Definition wellFormedObject (obj : NVMObject) : Prop :=
  fragmentType obj = FragmentNone
  /\ (type obj = DataSmall \/ type obj = CounterSmall \/ isLargeType (type obj)).

(** A live map: one entry per key, each under the key of its object. *)
Definition WellFormedMap (m : ObjectMap) : Prop :=
  NoDup (List.map fst m)
  /\ Forall (fun e => fst e = key (snd e) /\ wellFormedObject (snd e)) m.

(** The placement, told by fragments: a page is the list of the fragments put
    on it, in order. *)
Definition putLog (fragment : NVMObject) (offsetInPage : Z)
           (page : list NVMObject) : list NVMObject :=
  page ++ [fragment].

(** The fragments that [writeObjects] puts on each of the [n] pages of a
    region. *)
Definition placementLog (wordSize headerSmall counterSize : Z)
           (writeObject : NVMObject -> Buffer)
           (fragmentLargeObject : NVMObject -> Z -> Z -> list NVMObject)
           (pageSize : Z) (n : nat) (objs : ObjectMap)
  : result (list (list NVMObject)) :=
  writeObjectsWith wordSize headerSmall counterSize writeObject
                   fragmentLargeObject putLog pageSize (repeat [] n) objs.

(** The fragments that [writeObjects] writes for an object: none for a
    [Deleted] entry, those of [fragmentLargeObject] for a large object, the
    object itself otherwise. *)
Definition chosenFragments
           (fragmentLargeObject : NVMObject -> Z -> Z -> list NVMObject)
           (pageSize : Z) (obj : NVMObject) (chain : list NVMObject) : Prop :=
  match type obj with
  | Deleted => chain = []
  | DataLarge | CounterLarge =>
      exists firstFit,
        chain = fragmentLargeObject obj firstFit (pageSize - NVM3_PAGE_HEADER_SIZE)
  | CounterSmall | DataSmall | Link => chain = [obj]
  end.

(** The aligned length of a serialized fragment does not wrap around 32 bits:
    the offset in the page does not go back. *)
Definition sizeFits (wordSize : Z) (writeObject : NVMObject -> Buffer)
           (fragment : NVMObject) : Prop :=
  0 <= alignedDelta wordSize (len (writeObject fragment)).

Definition FragmentsFit (wordSize : Z) (writeObject : NVMObject -> Buffer)
           (fragmentLargeObject : NVMObject -> Z -> Z -> list NVMObject)
           (pageSize : Z) (obj : NVMObject) : Prop :=
  forall chain,
    chosenFragments fragmentLargeObject pageSize obj chain ->
    Forall (sizeFits wordSize writeObject) chain.

(** The 20 bytes of the header of the pages that [encodeNVM] creates with the
    default options. *)
Definition defaultHeaderBytes : Buffer :=
  Eval vm_compute in
    match createEmptyPage defaultOptions with
    | OK page => firstn 20 page
    | Err _ => []
    end.

(** The page that [readPage] decodes at the [i]-th page of such an image, with
    the objects [objs] of its body. *)
Definition defaultPage (i : nat) (objs : list NVMObject) : NVMPage :=
  mkPage (mkHeader (2048 * Z.of_nat i) 1 0 PageStatus_OK false 2048 WRITE_SIZE_16
                   true 2047)
         objs.

Fixpoint pagesFrom (i : nat) (logs : list (list NVMObject)) : list NVMPage :=
  match logs with
  | [] => []
  | objs :: rest => defaultPage i objs :: pagesFrom (S i) rest
  end.

(** The object codec reads, from the body of each page of the image, the
    fragments that the placement has put on the page. *)
Definition decodes (readObjects : Buffer -> result (list NVMObject))
           (buf : Buffer) (logs : list (list NVMObject)) : Prop :=
  forall (i : nat) (fragments : list NVMObject),
    nth_error logs i = Some fragments ->
    readObjects (slice buf (2048 * Z.of_nat i + 20) (2048 * Z.of_nat i + 2048))
    = OK fragments.

(** The fragments chosen for an object are a chain that the compaction
    reassembles. *)
Definition ChainsOK (fragmentLargeObject : NVMObject -> Z -> Z -> list NVMObject)
           (pageSize : Z) (obj : NVMObject) : Prop :=
  forall chain,
    chosenFragments fragmentLargeObject pageSize obj chain ->
    FragmentChain obj chain.

(** A result that is a value. *)
Definition succeeds {A : Type} (r : result A) : bool :=
  match r with
  | OK _ => true
  | Err _ => false
  end.

(** ** Sample placements *)

(** The fragments that the reference codec puts on the pages of the
    application region for the sample application map. *)
Definition sampleApplicationLog : list (list NVMObject) :=
  match placementLog Reference.NVM3_WORD_SIZE Reference.NVM3_OBJ_HEADER_SIZE_SMALL
                     Reference.NVM_COUNTER_SIZE Reference.writeObject
                     Reference.fragmentLargeObject 2048 6
                     Reference.sampleApplication with
  | OK logs => logs
  | Err _ => []
  end.

(** ** Invariants of the writer *)

(** The number of pages of the region the writer fills. *)
Definition pageCountOf (Page : Type) (w : Writer Page) : Z :=
  Z.of_nat (length (pages w)).

(** The writer after [putFragment] and [incrementOffset]. *)
Definition afterFragment (NVM3_WORD_SIZE : Z) (writeObject : NVMObject -> Buffer)
    (pageSize : Z) (Page : Type) (put : NVMObject -> Z -> Page -> Page)
    (w : Writer Page) (fragment : NVMObject) : Writer Page :=
  incrementOffset NVM3_WORD_SIZE pageSize (putFragment put w fragment)
                  (len (writeObject fragment)).

(** What every step of the placement keeps: the number of pages and a property
    [P] of the pages; its only failure is the lack of pages. *)
Definition keeps (Page : Type) (P : Page -> Prop)
    (w : Writer Page) (r : result (Writer Page)) : Prop :=
  match r with
  | OK w' =>
      length (pages w') = length (pages w)
      /\ (Forall P (pages w) -> Forall P (pages w'))
  | Err e => e = NotEnoughPages
  end.

(** Two buffers that hold the same bytes from [lo] up to [hi]. *)
Definition agree (b b' : Buffer) (lo hi : Z) : Prop :=
  forall i : nat, lo <= Z.of_nat i < hi -> nth_error b i = nth_error b' i.

(** How far the writer is in the region, in bytes of page bodies. *)
Definition position (pageSize : Z) (Page : Type) (w : Writer Page) : Z :=
  pageIndex w * (pageSize - NVM3_PAGE_HEADER_SIZE)
  + (pageSize - NVM3_PAGE_HEADER_SIZE - Z.max 0 (remainingSpace w)).

(** The writer is on a page of the region, and the objects placed so far took
    no more than the bytes behind it. *)
Definition placed (pageSize : Z) (Page : Type) (w : Writer Page) (spent : Z) : Prop :=
  0 <= pageIndex w < pageCountOf Page w
  /\ remainingSpace w = pageSize - offsetInPage w
  /\ remainingSpace w <= pageSize - NVM3_PAGE_HEADER_SIZE
  /\ spent <= position pageSize Page w.

(** The writer is on a page of the region, and the pages after it are empty. *)
Definition logInv (w : Writer (list NVMObject)) : Prop :=
  0 <= pageIndex w < pageCountOf (list NVMObject) w
  /\ List.concat (skipn (S (Z.to_nat (pageIndex w))) (pages w)) = [].

(** The offset is behind the page header, and the pages have the property. *)
Definition behindHeader (Page : Type) (P : Page -> Prop) (w : Writer Page) : Prop :=
  NVM3_PAGE_HEADER_SIZE <= offsetInPage w /\ Forall P (pages w).

(** ** Vocabulary of the further properties *)

(** The pages lie one after the other from [start] to [stop], each on
    [min pageSize 2048] bytes. *)
Fixpoint tiles (pages : list NVMPage) (start stop : Z) : Prop :=
  match pages with
  | [] => start = stop
  | p :: rest =>
      offset (header p) = start
      /\ tiles rest (start + Z.min (pageSize (header p)) FLASH_MAX_PAGE_SIZE) stop
  end.

(** The entries of a map that [writeObjects] does not skip. *)
Definition live (m : ObjectMap) : ObjectMap :=
  filter (fun e => negb (ObjectType_eqb (type (snd e)) Deleted)) m.

(** The placement, told by offsets: a page is the list of the offsets at which
    a fragment has been copied to it, in order. *)
Definition putOffset (fragment : NVMObject) (offsetInPage : Z) (page : list Z)
  : list Z :=
  page ++ [offsetInPage].

(** The offsets at which [writeObjects] copies fragments to each of the [n]
    pages of a region. *)
Definition placementOffsets (wordSize headerSmall counterSize : Z)
           (writeObject : NVMObject -> Buffer)
           (fragmentLargeObject : NVMObject -> Z -> Z -> list NVMObject)
           (pageSize : Z) (n : nat) (objs : ObjectMap)
  : result (list (list Z)) :=
  writeObjectsWith wordSize headerSmall counterSize writeObject
                   fragmentLargeObject putOffset pageSize (repeat [] n) objs.

(** The header that [createEmptyPage] writes. *)
Definition emptyHeader (options : EncodeNVMOptions) : PageHeader :=
  mkHeader 0 0x01 0 PageStatus_OK false (opt_pageSize options)
           (opt_writeSize options) (opt_memoryMapped options)
           (opt_deviceFamily options).

(** The header that [readPage] decodes from the bytes that [writePageHeader]
    writes for [h], at [pos]: the erase count on 27 bits, the device family on
    11 bits, the write size on one bit, and the page size rounded up to a
    power of two. *)
Definition decodedHeader (pos : Z) (h : PageHeader) : PageHeader :=
  mkHeader pos 1 (eraseCount h mod 2 ^ 27) (status h) (encrypted h)
           (pageSizeFromBits (pageSizeToBits (pageSize h)))
           (writeSize h mod 2) (memoryMapped h) (deviceFamily h mod 2 ^ 11).

(** The offset of the writer is a multiple of 4, and the pages have the
    property [P]. *)
Definition alignedWriter (Page : Type) (P : Page -> Prop) (w : Writer Page) : Prop :=
  offsetInPage w mod 4 = 0 /\ Forall P (pages w).

(** A writer at the top of the first of two erased pages of 2048 bytes. *)
Definition lastPagesWriter : Writer Buffer :=
  mkWriter [alloc 2048 xff; alloc 2048 xff] 0 NVM3_PAGE_HEADER_SIZE 2028.

(** An erase count of 27 bits with its Berger code above, the word that
    [writePageHeader] writes for it. *)
Definition counterWord (count : Z) : Z :=
  js_or count (js_shl (computeBergerCode count NVM3_PAGE_COUNTER_SIZE)
                      NVM3_PAGE_COUNTER_SIZE).

(** The device-info word that [writePageHeader] writes. *)
Definition devInfoWord (h : PageHeader) : Z :=
  js_or (js_or (js_or (js_and (deviceFamily h) 0x7ff)
                      (js_shl (js_and (writeSize h) 1) 11))
               (js_shl (if memoryMapped h then 1 else 0) 12))
        (js_shl (pageSizeToBits (pageSize h)) 13).

(** The 20 bytes of a page header, field by field, little-endian. *)
Definition headerBytes (h : PageHeader) : Buffer :=
  le_bytes 2 (version h)
  ++ le_bytes 2 NVM3_PAGE_MAGIC
  ++ le_bytes 4 (counterWord (js_and (eraseCount h) NVM3_PAGE_COUNTER_MASK))
  ++ le_bytes 4 (counterWord (js_and (js_not (eraseCount h)) NVM3_PAGE_COUNTER_MASK))
  ++ le_bytes 4 (status h)
  ++ le_bytes 2 (devInfoWord h)
  ++ le_bytes 2 (if encrypted h then 0xfffe else 0xffff).

(** Further sample images and options: the image of scenario S5 with version 2
    in its first header, and with a byte of its second page changed; options
    with page sizes of 4096 and of 256 bytes. *)
Definition versionTwoImage : Buffer := writeBytes Reference.ringImage 0 [x02; x00].
Definition touchedImage : Buffer := writeBytes Reference.ringImage 4000 [x00].
Definition largePageOptions : EncodeNVMOptions :=
  mkOptions 4096 2047 WRITE_SIZE_16 true.
Definition smallPageOptions : EncodeNVMOptions :=
  mkOptions 256 2047 WRITE_SIZE_16 true.

(** ** Vocabulary of the round trip *)

(** The placement, told by fragments and offsets: a page is the list of the
    fragments copied to it, each with the offset of the copy, in order. *)
Definition putPlaced (fragment : NVMObject) (offsetInPage : Z)
           (page : list (NVMObject * Z)) : list (NVMObject * Z) :=
  page ++ [(fragment, offsetInPage)].

(** The fragments that [writeObjects] copies to each of the [n] pages of a
    region, with the offsets. *)
Definition placement (wordSize headerSmall counterSize : Z)
           (writeObject : NVMObject -> Buffer)
           (fragmentLargeObject : NVMObject -> Z -> Z -> list NVMObject)
           (pageSize : Z) (n : nat) (objs : ObjectMap)
  : result (list (list (NVMObject * Z))) :=
  writeObjectsWith wordSize headerSmall counterSize writeObject
                   fragmentLargeObject putPlaced pageSize (repeat [] n) objs.

(** The placement, told by bytes and by fragments at once: a page is its
    buffer together with the fragments copied to it. *)
Definition Traced : Type := (Buffer * list (NVMObject * Z))%type.

Definition putTraced (writeObject : NVMObject -> Buffer)
           (fragment : NVMObject) (offsetInPage : Z) (page : Traced) : Traced :=
  (copy (writeObject fragment) (fst page) offsetInPage,
   putPlaced fragment offsetInPage (snd page)).

(** A writer seen through a function on its pages. *)
Definition mapWriter (Page1 Page2 : Type) (h : Page1 -> Page2)
           (w : Writer Page1) : Writer Page2 :=
  mkWriter (List.map h (pages w)) (pageIndex w) (offsetInPage w)
           (remainingSpace w).

(** A result seen through a function on its value. *)
Definition mapResult (A B : Type) (h : A -> B) (r : result A) : result B :=
  match r with
  | OK a => OK (h a)
  | Err e => Err e
  end.

(** A fragment of a large object is copied where the page has room for the
    header of a large object at least. *)
Definition headerFits (headerLarge pageSize : Z) (e : NVMObject * Z) : Prop :=
  isLargeType (type (fst e)) -> snd e + headerLarge <= pageSize.

(** In the placement of a map on [n] pages of 2048 bytes by the reference
    codec, every large object finds room for its header on the current
    page. *)
Definition largeHeadersFit (n : nat) (objs : ObjectMap) : Prop :=
  match placement Reference.NVM3_WORD_SIZE Reference.NVM3_OBJ_HEADER_SIZE_SMALL
                  Reference.NVM_COUNTER_SIZE Reference.writeObject
                  Reference.fragmentLargeObject 2048 n objs with
  | OK placed =>
      Forall (Forall (headerFits Reference.NVM3_OBJ_HEADER_SIZE_LARGE 2048)) placed
  | Err _ => True
  end.

(** An object or fragment within the data model of section 3 and the header
    layout of section 4.2: a key of 20 bits, a payload of fewer than 128 bytes
    for small data (the length field has 7 bits), of 4 bytes for a small
    counter, of less than 2 GiB for a large object. *)
Definition withinDataModel (obj : NVMObject) : Prop :=
  0 <= key obj < 2 ^ 20
  /\ exists d,
      data obj = Some d
      /\ match type obj with
         | DataSmall => len d < 2 ^ 7
         | CounterSmall => len d = 4
         | DataLarge | CounterLarge => len d < 2 ^ 31 - 16
         | Deleted | Link => False
         end.

(** A live map of such objects. *)
Definition LiveMap (m : ObjectMap) : Prop :=
  WellFormedMap m /\ Forall withinDataModel (map_values m).

(** The bytes of the fragments of a page, one after the other. *)
Definition written (placed : list (NVMObject * Z)) : Buffer :=
  List.concat (List.map (fun e => Reference.writeObject (fst e)) placed).

(** A page of 2048 bytes whose fragments found room for their headers holds
    the page header, the fragments one after the other, and erased bytes. *)
Definition tracedPage (hdr : Buffer) (page : Traced) : Prop :=
  Forall (headerFits Reference.NVM3_OBJ_HEADER_SIZE_LARGE 2048) (snd page) ->
  fst page
  = hdr ++ written (snd page)
        ++ repeat xff (Z.to_nat (2028 - len (written (snd page))))
  /\ len (written (snd page)) <= 2028.

(** The writer is on a page of the region; the pages are as [tracedPage]
    says, their fragments within the data model; the offset is behind the
    fragments of the current page; the pages after it are untouched. *)
Definition tracedInv (hdr : Buffer) (w : Writer Traced) : Prop :=
  0 <= pageIndex w < pageCountOf Traced w
  /\ remainingSpace w = 2048 - offsetInPage w
  /\ Forall (tracedPage hdr) (pages w)
  /\ Forall (fun page => Forall withinDataModel (List.map fst (snd page)))
            (pages w)
  /\ (forall page,
         nth_error (pages w) (Z.to_nat (pageIndex w)) = Some page ->
         Forall (headerFits Reference.NVM3_OBJ_HEADER_SIZE_LARGE 2048) (snd page) ->
         offsetInPage w = 20 + len (written (snd page)))
  /\ (forall (j : nat) page,
         (Z.to_nat (pageIndex w) < j)%nat ->
         nth_error (pages w) j = Some page ->
         page = (hdr ++ repeat xff 2028, [])).

(** A map with two large objects: the first leaves 4 bytes on the first page,
    fewer than the header of the second takes. *)
Definition crowdedApplication : ObjectMap :=
  [(1, mkObject DataLarge FragmentNone 1 (Some (repeat x5a 2016)));
   (2, mkObject DataLarge FragmentNone 2 (Some (repeat x5a 100)))].

(** * Properties *)

(** The powers of two that occur, as numerals, for [lia]. *)
Ltac pow2 :=
  change (2 ^ 3) with 8 in *; change (2 ^ 5) with 32 in *;
  change (2 ^ 7) with 128 in *; change (2 ^ 8) with 256 in *;
  change (2 ^ 16) with 65536 in *; change (2 ^ 20) with 1048576 in *;
  change (2 ^ 24) with 16777216 in *; change (2 ^ 25) with 33554432 in *;
  change (2 ^ 27) with 134217728 in *; change (2 ^ 30) with 1073741824 in *;
  change (2 ^ 31) with 2147483648 in *; change (2 ^ 32) with 4294967296 in *.

(** ** Bytes and buffers *)

Lemma byte_to_Z_range (b : byte) : 0 <= byte_to_Z b < 256.
Proof.
  unfold byte_to_Z. pose proof (Byte.to_N_bounded b) as H.
  split; [apply N2Z.is_nonneg|].
  apply N2Z.inj_le in H. simpl in H. lia.
Qed.

Lemma byte_to_of_Z (z : Z) : byte_to_Z (byte_of_Z z) = z mod 256.
Proof.
  unfold byte_to_Z, byte_of_Z.
  assert (Hr : 0 <= z mod 256 < 256) by (apply Z.mod_pos_bound; lia).
  destruct (Byte.of_N (Z.to_N (z mod 256))) as [b|] eqn:E.
  - apply Byte.to_of_N in E. rewrite E. apply Z2N.id. lia.
  - apply Byte.of_N_None_iff in E.
    apply N2Z.inj_lt in E. rewrite Z2N.id in E; simpl in E; lia.
Qed.

Lemma byte_of_to_Z (b : byte) : byte_of_Z (byte_to_Z b) = b.
Proof.
  unfold byte_of_Z, byte_to_Z.
  pose proof (byte_to_Z_range b) as Hr. unfold byte_to_Z in Hr.
  rewrite Z.mod_small by lia. rewrite N2Z.id, Byte.of_to_N. reflexivity.
Qed.

Lemma len_nonneg (b : Buffer) : 0 <= len b.
Proof. unfold len. lia. Qed.

Lemma len_app (a b : Buffer) : len (a ++ b) = len a + len b.
Proof. unfold len. rewrite length_app. lia. Qed.

Lemma at_range (b : Buffer) (i : Z) : 0 <= at_ b i < 256.
Proof. apply byte_to_Z_range. Qed.

Lemma OK_inj (A : Type) (a b : A) : OK a = OK b -> a = b.
Proof. congruence. Qed.

Lemma readUInt16LE_range (b : Buffer) (i v : Z) :
  readUInt16LE b i = OK v -> 0 <= v < 2 ^ 16.
Proof.
  unfold readUInt16LE. destruct (inBounds b i 2); [|discriminate].
  intros E. apply (OK_inj Z) in E. subst v.
  pose proof (at_range b i). pose proof (at_range b (i + 1)). pow2. lia.
Qed.

Lemma readUInt32LE_range (b : Buffer) (i v : Z) :
  readUInt32LE b i = OK v -> 0 <= v < 2 ^ 32.
Proof.
  unfold readUInt32LE. destruct (inBounds b i 4); [|discriminate].
  intros E. apply (OK_inj Z) in E. subst v.
  pose proof (at_range b i). pose proof (at_range b (i + 1)).
  pose proof (at_range b (i + 2)). pose proof (at_range b (i + 3)). pow2. lia.
Qed.

Lemma inBounds_true (b : Buffer) (i n : Z) :
  inBounds b i n = true <-> 0 <= i /\ i + n <= len b.
Proof. unfold inBounds. rewrite andb_true_iff, Z.leb_le, Z.leb_le. tauto. Qed.

Lemma readUInt16LE_OK (b : Buffer) (i v : Z) :
  readUInt16LE b i = OK v -> 0 <= i /\ i + 2 <= len b.
Proof.
  unfold readUInt16LE. destruct (inBounds b i 2) eqn:E; [|discriminate].
  intros _. now apply inBounds_true.
Qed.

Lemma readUInt32LE_OK (b : Buffer) (i v : Z) :
  readUInt32LE b i = OK v -> 0 <= i /\ i + 4 <= len b.
Proof.
  unfold readUInt32LE. destruct (inBounds b i 4) eqn:E; [|discriminate].
  intros _. now apply inBounds_true.
Qed.

(** ** The 32-bit operators on the values the codec meets *)

Lemma toInt32_small (z : Z) : - 2 ^ 31 <= z < 2 ^ 31 -> toInt32 z = z.
Proof. intros H. unfold toInt32. pow2. rewrite Z.mod_small; lia. Qed.

Lemma toInt32_range (z : Z) : - 2 ^ 31 <= toInt32 z < 2 ^ 31.
Proof.
  unfold toInt32. pow2. pose proof (Z.mod_pos_bound (z + 2147483648) 4294967296).
  lia.
Qed.

Lemma js_and_ones (x : Z) (n : Z) :
  0 <= n < 31 -> js_and x (Z.ones n) = toInt32 x mod 2 ^ n.
Proof.
  intros Hn. unfold js_and.
  assert (Hp : 0 < 2 ^ n) by (apply Z.pow_pos_nonneg; lia).
  assert (Hle : 2 ^ n <= 2 ^ 30) by (apply Z.pow_le_mono_r; lia).
  assert (Ho : toInt32 (Z.ones n) = Z.ones n).
  { apply toInt32_small. rewrite Z.ones_equiv. pow2. lia. }
  rewrite Ho, Z.land_ones by lia.
  apply toInt32_small.
  pose proof (Z.mod_pos_bound (toInt32 x) (2 ^ n) Hp). pow2. lia.
Qed.

Lemma js_and_ones_range (x : Z) (n : Z) :
  0 <= n < 31 -> 0 <= js_and x (Z.ones n) < 2 ^ n.
Proof.
  intros Hn. rewrite js_and_ones by assumption.
  apply Z.mod_pos_bound, Z.pow_pos_nonneg; lia.
Qed.

Lemma pageSizeFromBits_range (x : Z) :
  512 <= pageSizeFromBits (js_and x 7) <= 65536.
Proof.
  pose proof (js_and_ones_range x 3 ltac:(lia)) as H.
  change (Z.ones 3) with 7 in H. change (2 ^ 3) with 8 in H.
  unfold pageSizeFromBits, NVM3_MIN_PAGE_SIZE.
  assert (C : js_and x 7 = 0 \/ js_and x 7 = 1 \/ js_and x 7 = 2 \/ js_and x 7 = 3
              \/ js_and x 7 = 4 \/ js_and x 7 = 5 \/ js_and x 7 = 6 \/ js_and x 7 = 7)
    by lia.
  destruct C as [-> | [-> | [-> | [-> | [-> | [-> | [-> | ->]]]]]]]; simpl; lia.
Qed.

(** ** [readPage] *)

Section PageFacts.
  Variable readObjects : Buffer -> result (list NVMObject).

Lemma validateBergerCode_OK (word code numBits : Z) :
    validateBergerCode word code numBits = OK tt
    <-> computeBergerCode word numBits = code.
  Proof.
    unfold validateBergerCode.
    destruct (computeBergerCode word numBits =? code) eqn:E.
    - apply Z.eqb_eq in E. tauto.
    - apply Z.eqb_neq in E. split; [discriminate | tauto].
  Qed.

  (** [readPage] on a page whose header passes the checks. *)
Lemma readPage_valid
    (buffer : Buffer) (pos eraseCountWord eraseCountInvWord status devInfo : Z) :
    ValidHeader buffer pos eraseCountWord eraseCountInvWord status devInfo ->
    readPage readObjects buffer pos
    = if len buffer <? pos + Z.min (declaredPageSize devInfo) FLASH_MAX_PAGE_SIZE
      then Err IncompletePage
      else
        bind (readUInt16LE buffer (pos + 18))
             (fun formatInfo =>
                bind (readObjects
                        (slice buffer (pos + 20)
                               (pos + Z.min (declaredPageSize devInfo)
                                            FLASH_MAX_PAGE_SIZE)))
                     (fun objects =>
                        OK (mkPage
                              (mkHeader pos 1
                                 (js_and eraseCountWord NVM3_PAGE_COUNTER_MASK)
                                 status (js_and formatInfo 1 =? 0)
                                 (declaredPageSize devInfo)
                                 (js_and (js_shr devInfo 11) 1)
                                 (negb (js_and (js_shr devInfo 12) 1 =? 0))
                                 (js_and devInfo 0x7ff))
                              objects,
                            Z.min (declaredPageSize devInfo) FLASH_MAX_PAGE_SIZE))).
  Proof.
    intros [Hv Hm Hc Hcode Hci Hcodei Hcompl Hs Hd].
    unfold readPage.
    rewrite Hv, Hm. cbn [bind]. rewrite Z.eqb_refl. cbn [negb].
    change (1 =? 1) with true. cbn [negb].
    rewrite Hc. cbn [bind].
    apply validateBergerCode_OK in Hcode. rewrite Hcode. cbn [bind].
    rewrite Hci. cbn [bind].
    apply validateBergerCode_OK in Hcodei. rewrite Hcodei. cbn [bind].
    rewrite <- Hcompl, Z.eqb_refl. cbn [negb].
    rewrite Hs, Hd. cbn [bind]. reflexivity.
  Qed.

  (** C8.  A page whose header passes the checks is laid out on the clamped
      page size [min declared 2048]: a buffer that holds fewer bytes from the
      page offset on is refused as incomplete; otherwise exactly that many
      bytes are consumed, the object body is the slice from [pos + 20] to
      [pos + min declared 2048], and the header keeps the declared size.
      For a declared size above the flash maximum the clamped size is 2048. *)
Theorem readPage_clamps_pageSize
    (buffer : Buffer) (pos eraseCountWord eraseCountInvWord status devInfo : Z) :
    ValidHeader buffer pos eraseCountWord eraseCountInvWord status devInfo ->
    let declared := declaredPageSize devInfo in
    let actual := Z.min declared FLASH_MAX_PAGE_SIZE in
    (FLASH_MAX_PAGE_SIZE < declared -> actual = 2048)
    /\ (len buffer < pos + actual ->
        readPage readObjects buffer pos = Err IncompletePage)
    /\ (pos + actual <= len buffer ->
        exists h,
          readPage readObjects buffer pos
          = bind (readObjects (slice buffer (pos + NVM3_PAGE_HEADER_SIZE)
                                     (pos + actual)))
                 (fun objects => OK (mkPage h objects, actual))
          /\ pageSize h = declared
          /\ offset h = pos).
  Proof.
    intros Hvalid declared actual.
    pose proof (pageSizeFromBits_range (js_shr devInfo 13)) as Hr.
    fold (declaredPageSize devInfo) in Hr. fold declared in Hr.
    assert (Hact : 512 <= actual <= 2048)
      by (unfold actual, FLASH_MAX_PAGE_SIZE; lia).
    split; [unfold actual, FLASH_MAX_PAGE_SIZE; lia|].
    rewrite (readPage_valid _ _ _ _ _ _ Hvalid).
    fold declared actual.
    split.
    - intros Hshort. apply Z.ltb_lt in Hshort. now rewrite Hshort.
    - intros Hlong.
      assert (E : (len buffer <? pos + actual) = false) by (apply Z.ltb_ge; lia).
      rewrite E.
      destruct Hvalid as [Hv _ _ _ _ _ _ _ _]. apply readUInt16LE_OK in Hv.
      assert (Hb : inBounds buffer (pos + 18) 2 = true)
        by (apply inBounds_true; lia).
      unfold readUInt16LE at 1. rewrite Hb. cbn [bind].
      eexists. split; [reflexivity|]. split; reflexivity.
  Qed.
End PageFacts.

(** ** Lists and buffers, continued *)

Lemma setNth_length (A : Type) (i : nat) (v : A) (l : list A) :
  length (setNth i v l) = length l.
Proof.
  revert i. induction l as [|x l IH]; intros [|i]; simpl; auto.
Qed.

Lemma nth_error_setNth_same (A : Type) (i : nat) (v : A) (l : list A) :
  (i < length l)%nat -> nth_error (setNth i v l) i = Some v.
Proof.
  revert i. induction l as [|x l IH]; intros [|i] Hi; simpl in *; try lia; auto.
  apply IH. lia.
Qed.

Lemma nth_error_setNth_other (A : Type) (i j : nat) (v : A) (l : list A) :
  i <> j -> nth_error (setNth i v l) j = nth_error l j.
Proof.
  revert i j. induction l as [|x l IH]; intros [|i] [|j] Hij; simpl; auto;
    try congruence.
Qed.

Lemma copy_length (source target : Buffer) (start : Z) :
  length (copy source target start) = length target.
Proof.
  unfold copy, len.
  destruct (Z.of_nat (length target) <=? start) eqn:E; [reflexivity|].
  apply Z.leb_gt in E.
  rewrite !length_app, !length_firstn, length_skipn. lia.
Qed.

Lemma slice_copy (source target : Buffer) (start : Z) :
  0 <= start -> start + len source <= len target ->
  slice (copy source target start) start (start + len source) = source.
Proof.
  intros Hs Hfit. unfold copy, slice, len in *.
  replace (Z.to_nat (start + Z.of_nat (length source) - start))
    with (length source) by lia.
  destruct (Z.of_nat (length target) <=? start) eqn:E.
  - apply Z.leb_le in E. assert (length source = 0%nat) as H0 by lia.
    destruct source; [|discriminate]. reflexivity.
  - apply Z.leb_gt in E.
    rewrite (firstn_all2 (n := (length target - Z.to_nat start)%nat) source) by lia.
    rewrite skipn_app.
    rewrite length_firstn.
    replace (Nat.min (Z.to_nat start) (length target)) with (Z.to_nat start) by lia.
    rewrite skipn_all2 by (rewrite length_firstn; lia).
    rewrite Nat.sub_diag. simpl.
    rewrite firstn_app, Nat.sub_diag, firstn_all. simpl. apply app_nil_r.
Qed.

Lemma ObjectType_eqb_eq (a b : ObjectType) : ObjectType_eqb a b = true <-> a = b.
Proof. destruct a, b; simpl; split; intros E; congruence. Qed.

Lemma ObjectType_eqb_refl (a : ObjectType) : ObjectType_eqb a a = true.
Proof. now apply ObjectType_eqb_eq. Qed.

(** ** The placement of [writeObjects] *)

Section WriterFacts.
  Variables NVM3_WORD_SIZE NVM3_OBJ_HEADER_SIZE_SMALL NVM_COUNTER_SIZE : Z.
  Variable writeObject : NVMObject -> Buffer.
  Variable fragmentLargeObject : NVMObject -> Z -> Z -> list NVMObject.
  Variable pageSize : Z.

  Section AnyPage.
    Variable Page : Type.
    Variable put : NVMObject -> Z -> Page -> Page.

    Local Abbreviation next := (@nextPage Page pageSize).
    Local Abbreviation writeFrag :=
      (writeFragment NVM3_WORD_SIZE writeObject put pageSize).
    Local Abbreviation writeFrags :=
      (writeFragments NVM3_WORD_SIZE writeObject put pageSize).
    Local Abbreviation choose :=
      (@chooseFragments NVM3_OBJ_HEADER_SIZE_SMALL NVM_COUNTER_SIZE
                        fragmentLargeObject Page pageSize).
    Local Abbreviation place :=
      (placeObject NVM3_WORD_SIZE NVM3_OBJ_HEADER_SIZE_SMALL NVM_COUNTER_SIZE
                   writeObject fragmentLargeObject put pageSize).
    Local Abbreviation placeAll :=
      (placeObjects NVM3_WORD_SIZE NVM3_OBJ_HEADER_SIZE_SMALL NVM_COUNTER_SIZE
                    writeObject fragmentLargeObject put pageSize).

    Local Abbreviation pageCountOf := (pageCountOf Page).

Lemma nextPage_OK (w : Writer Page) :
      pageIndex w + 1 < pageCountOf w ->
      next w = OK (mkWriter (pages w) (pageIndex w + 1) NVM3_PAGE_HEADER_SIZE
                            (pageSize - NVM3_PAGE_HEADER_SIZE)).
    Proof.
      intros Hlt. unfold nextPage, pageCountOf in *.
      destruct (pageIndex w + 1 >=? Z.of_nat (length (pages w))) eqn:E; [|reflexivity].
      apply Z.geb_le in E. lia.
    Qed.

Lemma nextPage_Err (w : Writer Page) :
      pageCountOf w <= pageIndex w + 1 -> next w = Err NotEnoughPages.
    Proof.
      intros Hge. unfold nextPage, pageCountOf in *.
      destruct (pageIndex w + 1 >=? Z.of_nat (length (pages w))) eqn:E; [reflexivity|].
      rewrite Z.geb_leb in E. apply Z.leb_gt in E. lia.
    Qed.

Lemma nextPage_cases (w : Writer Page) :
      (pageCountOf w <= pageIndex w + 1 /\ next w = Err NotEnoughPages)
      \/ (pageIndex w + 1 < pageCountOf w
          /\ next w = OK (mkWriter (pages w) (pageIndex w + 1) NVM3_PAGE_HEADER_SIZE
                                   (pageSize - NVM3_PAGE_HEADER_SIZE))).
    Proof.
      destruct (Z_lt_le_dec (pageIndex w + 1) (pageCountOf w)) as [Hlt | Hge].
      - right. split; [assumption | now apply nextPage_OK].
      - left. split; [assumption | now apply nextPage_Err].
    Qed.

    Local Abbreviation afterFragment :=
      (afterFragment NVM3_WORD_SIZE writeObject pageSize Page put).

Lemma putFragment_fields (w : Writer Page) (fragment : NVMObject) :
      pageIndex (putFragment put w fragment) = pageIndex w
      /\ offsetInPage (putFragment put w fragment) = offsetInPage w
      /\ remainingSpace (putFragment put w fragment) = remainingSpace w
      /\ length (pages (putFragment put w fragment)) = length (pages w).
    Proof.
      unfold putFragment.
      destruct (nth_error (pages w) (Z.to_nat (pageIndex w))); simpl;
        rewrite ?setNth_length; auto.
    Qed.

Lemma putFragment_pages (w : Writer Page) (fragment : NVMObject) (page : Page) :
      nth_error (pages w) (Z.to_nat (pageIndex w)) = Some page ->
      pages (putFragment put w fragment)
      = setNth (Z.to_nat (pageIndex w)) (put fragment (offsetInPage w) page) (pages w).
    Proof. intros E. unfold putFragment. now rewrite E. Qed.

Lemma afterFragment_fields (w : Writer Page) (fragment : NVMObject) :
      pageIndex (afterFragment w fragment) = pageIndex w
      /\ offsetInPage (afterFragment w fragment)
         = offsetInPage w + alignedDelta NVM3_WORD_SIZE (len (writeObject fragment))
      /\ remainingSpace (afterFragment w fragment)
         = pageSize - offsetInPage (afterFragment w fragment)
      /\ pages (afterFragment w fragment) = pages (putFragment put w fragment).
    Proof.
      destruct (putFragment_fields w fragment) as (Hi & Ho & _ & _).
      unfold afterFragment, incrementOffset, alignedDelta. simpl.
      rewrite Hi, Ho. auto.
    Qed.

Lemma writeFragment_single (w : Writer Page) (fragment : NVMObject) :
      writeFrag false w fragment = OK (afterFragment w fragment).
    Proof. reflexivity. Qed.

Lemma writeFragment_several (w : Writer Page) (fragment : NVMObject) :
      writeFrag true w fragment = next (afterFragment w fragment).
    Proof. reflexivity. Qed.

    (** Several fragments: each one is put on a page of its own, the first on
        the current page at the current offset, the following ones at the top
        of the next pages; the writer ends on the page after the last one, or
        fails when there is none. *)
Lemma writeFragments_several (fragments : list NVMObject) :
      forall w : Writer Page,
        0 <= pageIndex w < pageCountOf w ->
        match writeFrags true w fragments with
        | Err e =>
            e = NotEnoughPages
            /\ pageCountOf w <= pageIndex w + Z.of_nat (length fragments)
        | OK w' =>
            pageIndex w' = pageIndex w + Z.of_nat (length fragments)
            /\ (fragments <> [] ->
                pageIndex w' < pageCountOf w
                /\ offsetInPage w' = NVM3_PAGE_HEADER_SIZE
                /\ remainingSpace w' = pageSize - NVM3_PAGE_HEADER_SIZE)
            /\ length (pages w') = length (pages w)
            /\ (forall (k : nat) (fragment : NVMObject),
                   nth_error fragments k = Some fragment ->
                   exists page,
                     nth_error (pages w) (Z.to_nat (pageIndex w) + k) = Some page
                     /\ nth_error (pages w') (Z.to_nat (pageIndex w) + k)
                        = Some (put fragment
                                    (if (k =? 0)%nat then offsetInPage w
                                     else NVM3_PAGE_HEADER_SIZE)
                                    page))
            /\ (forall j : nat,
                   (j < Z.to_nat (pageIndex w)
                    \/ Z.to_nat (pageIndex w) + length fragments <= j)%nat ->
                   nth_error (pages w') j = nth_error (pages w) j)
        end.
    Proof.
      induction fragments as [|f fs IH]; intros w Hw.
      - simpl. repeat split; try lia; try congruence.
        intros k fragment E. destruct k; discriminate.
      - cbn [writeFragments]. rewrite writeFragment_several.
        destruct (afterFragment_fields w f) as (Hi & Ho & Hr & Hp).
        destruct (putFragment_fields w f) as (_ & _ & _ & Hl).
        assert (Hcnt : pageCountOf (afterFragment w f) = pageCountOf w).
        { unfold pageCountOf. now rewrite Hp, Hl. }
        destruct (nth_error (pages w) (Z.to_nat (pageIndex w))) as [page|] eqn:Epage.
        2:{ apply nth_error_None in Epage. unfold pageCountOf in Hw. lia. }
        pose proof (putFragment_pages w f page Epage) as Hpp.
        destruct (nextPage_cases (afterFragment w f)) as [[Hge ->] | [Hlt ->]];
          cbn [bind].
        + split; [reflexivity|]. rewrite Hcnt, Hi in Hge. simpl length. lia.
        + rewrite Hcnt, Hi in Hlt.
          set (w1 := mkWriter (pages (afterFragment w f)) (pageIndex (afterFragment w f) + 1)
                              NVM3_PAGE_HEADER_SIZE (pageSize - NVM3_PAGE_HEADER_SIZE)).
          assert (Hw1 : 0 <= pageIndex w1 < pageCountOf w1).
          { unfold pageCountOf in *. unfold w1. cbn [pageIndex pages].
            rewrite Hcnt, Hi. lia. }
          specialize (IH w1 Hw1).
          destruct fs as [|f' fs'].
          { cbn [writeFragments]. clear IH.
            assert (Ew1p : pages w1 = setNth (Z.to_nat (pageIndex w))
                                             (put f (offsetInPage w) page) (pages w)).
            { unfold w1. cbn [pages]. now rewrite Hp, Hpp. }
            unfold w1 at 1 2 3 4. cbn [pageIndex offsetInPage remainingSpace].
            rewrite Hi. change (length [f]) with 1%nat.
            split; [lia|]. split; [intros _; lia|].
            split; [rewrite Ew1p; apply setNth_length|].
            split.
            - intros [|k] fragment Ek; simpl in Ek; [|destruct k; discriminate].
              injection Ek as <-. exists page. rewrite Nat.add_0_r.
              split; [assumption|]. rewrite Ew1p.
              apply nth_error_setNth_same. apply nth_error_Some. congruence.
            - intros j Hj. rewrite Ew1p. apply nth_error_setNth_other. lia. }
          remember (f' :: fs') as fs eqn:Efs.
          destruct (writeFrags true w1 fs) as [w'|e].
          * destruct IH as (IHi & IHo & IHl & IHk & IHj).
            assert (Ew1i : pageIndex w1 = pageIndex w + 1)
              by (unfold w1; cbn [pageIndex]; lia).
            assert (Ew1p : pages w1 = setNth (Z.to_nat (pageIndex w))
                                             (put f (offsetInPage w) page) (pages w)).
            { unfold w1. cbn [pages]. now rewrite Hp, Hpp. }
            assert (Ew1c : pageCountOf w1 = pageCountOf w).
            { unfold pageCountOf. rewrite Ew1p, setNth_length. reflexivity. }
            split; [simpl length; lia|].
            split.
            { intros _.
              destruct IHo as (A1 & A2 & A3); [subst fs; discriminate|].
              rewrite Ew1c in A1. auto. }
            split; [rewrite IHl, Ew1p, setNth_length; reflexivity|].
            split.
            { intros k fragment Ek. destruct k as [|k].
              - simpl in Ek. injection Ek as <-.
                exists page. rewrite Nat.add_0_r. split; [assumption|].
                rewrite IHj, Ew1p.
                + apply nth_error_setNth_same.
                  apply nth_error_Some. congruence.
                + left. lia.
              - simpl in Ek. destruct (IHk k fragment Ek) as (pg & Hpg & Hpg').
                replace (Z.to_nat (pageIndex w) + S k)%nat
                  with (Z.to_nat (pageIndex w1) + k)%nat by lia.
                exists pg. split.
                + rewrite Ew1p in Hpg.
                  rewrite nth_error_setNth_other in Hpg by lia. assumption.
                + rewrite Hpg'. destruct k; reflexivity. }
            { intros j Hj. rewrite IHj by (simpl length in Hj; lia).
              rewrite Ew1p. apply nth_error_setNth_other.
              simpl length in Hj. lia. }
          * destruct IH as (-> & IHge). split; [reflexivity|].
            unfold pageCountOf in *. unfold w1 in IHge. cbn [pageIndex pages] in IHge.
            rewrite Hcnt, Hi in IHge. simpl length. lia.
    Qed.

    (** What every step of the placement keeps: the number of pages and any
        property of the pages that [put] keeps; and its only failure is the
        one of [nextPage]. *)
    Section Kept.
      Variable P : Page -> Prop.
      Hypothesis put_keeps : forall f pos page, P page -> P (put f pos page).

      Local Abbreviation keeps := (keeps Page P).

Lemma keeps_refl (w : Writer Page) : keeps w (OK w).
      Proof. split; auto. Qed.

Lemma keeps_bind (w : Writer Page) (r : result (Writer Page))
            (k : Writer Page -> result (Writer Page)) :
        keeps w r -> (forall w1, r = OK w1 -> keeps w1 (k w1)) -> keeps w (bind r k).
      Proof.
        intros Hr Hk. destruct r as [w1|e]; cbn [bind]; [|exact Hr].
        specialize (Hk w1 eq_refl). destruct Hr as (L1 & F1).
        destruct (k w1) as [w2|e]; [|exact Hk].
        destruct Hk as (L2 & F2). split; [congruence | auto].
      Qed.

Lemma nextPage_keeps (w : Writer Page) : keeps w (next w).
      Proof.
        destruct (nextPage_cases w) as [[_ ->] | [_ ->]]; [reflexivity|].
        split; auto.
      Qed.

Lemma setNth_Forall (i : nat) (v : Page) (l : list Page) :
        Forall P l -> P v -> Forall P (setNth i v l).
      Proof.
        intros Hl Hv. revert i. induction Hl as [|x l Hx Hl IH]; intros [|i]; simpl;
          constructor; auto.
      Qed.

Lemma afterFragment_keeps (w : Writer Page) (f : NVMObject) :
        keeps w (OK (afterFragment w f)).
      Proof.
        destruct (afterFragment_fields w f) as (_ & _ & _ & Hp).
        destruct (putFragment_fields w f) as (_ & _ & _ & Hl).
        split; rewrite Hp; [exact Hl|].
        intros HF. unfold putFragment.
        destruct (nth_error (pages w) (Z.to_nat (pageIndex w))) as [page|] eqn:E;
          [|exact HF].
        cbn [pages]. apply setNth_Forall; [exact HF|].
        apply put_keeps. apply nth_error_In in E.
        rewrite Forall_forall in HF. auto.
      Qed.

Lemma writeFragment_keeps (several : bool) (w : Writer Page) (f : NVMObject) :
        keeps w (writeFrag several w f).
      Proof.
        destruct several.
        - rewrite writeFragment_several.
          apply (keeps_bind w (OK (afterFragment w f)) next).
          + apply afterFragment_keeps.
          + intros w1 _. apply nextPage_keeps.
        - rewrite writeFragment_single. apply afterFragment_keeps.
      Qed.

Lemma writeFragments_keeps (several : bool) (fs : list NVMObject) :
        forall w, keeps w (writeFrags several w fs).
      Proof.
        induction fs as [|f fs IH]; intros w; cbn [writeFragments].
        - apply keeps_refl.
        - apply keeps_bind; [apply writeFragment_keeps | intros; apply IH].
      Qed.

Lemma placeObject_keeps (w : Writer Page) (obj : NVMObject) :
        keeps w (place w obj).
      Proof.
        unfold placeObject.
        destruct (ObjectType_eqb (type obj) Deleted); [apply keeps_refl|].
        unfold chooseFragments.
        destruct (_ || _).
        - pose proof (nextPage_keeps w) as Hn.
          destruct (next w) as [w1|e]; cbn [bind]; [|exact Hn].
          pose proof (writeFragments_keeps (1 <? Z.of_nat (length [obj])) [obj] w1)
            as Hf.
          apply (keeps_bind w (OK w1) (fun w1 => writeFrags _ w1 [obj]));
            [exact Hn | now intros ? [= <-]].
        - destruct (_ || _); cbn [bind]; apply writeFragments_keeps.
      Qed.

Lemma placeObjects_keeps (objs : list NVMObject) :
        forall w, keeps w (placeAll w objs).
      Proof.
        induction objs as [|obj objs IH]; intros w; cbn [placeObjects].
        - apply keeps_refl.
        - apply keeps_bind; [apply placeObject_keeps | intros; apply IH].
      Qed.

Lemma writeObjectsWith_keeps (pages0 : list Page) (objs : ObjectMap) :
        match writeObjectsWith NVM3_WORD_SIZE NVM3_OBJ_HEADER_SIZE_SMALL
                               NVM_COUNTER_SIZE writeObject fragmentLargeObject
                               put pageSize pages0 objs with
        | OK pages' =>
            length pages' = length pages0 /\ (Forall P pages0 -> Forall P pages')
        | Err e => e = NotEnoughPages
        end.
      Proof.
        unfold writeObjectsWith.
        set (w0 := mkWriter pages0 (-1) (-1) (-1)).
        pose proof (keeps_bind w0 (next w0) (fun w => placeAll w (map_values objs))
                      (nextPage_keeps w0)
                      (fun w1 _ => placeObjects_keeps (map_values objs) w1)) as H.
        destruct (bind (next w0) _) as [w'|e] eqn:E.
        - unfold bind in E |- *. destruct (next w0) as [w1|]; [|discriminate].
          rewrite E. exact H.
        - unfold bind in E |- *. destruct (next w0) as [w1|].
          + rewrite E. exact H.
          + congruence.
      Qed.
    End Kept.
  End AnyPage.

  Local Abbreviation placeBytes :=
    (placeObject NVM3_WORD_SIZE NVM3_OBJ_HEADER_SIZE_SMALL NVM_COUNTER_SIZE
                 writeObject fragmentLargeObject (putBytes writeObject) pageSize).


  (** C7.  When [fragmentLargeObject] returns more than one fragment for a
      large object, the writer calls [nextPage] after each of them: fragment
      [k] is copied to page [pageIndex + k], the first at the current offset
      and the following ones at offset 20, and the writer ends at the top of
      the page after the last fragment; if the region has no such page the
      placement fails with "Not enough pages!".  And if
      [fragmentLargeObject] leaves an object whole only when its payload fits
      the first-fragment space (section 4.2), a payload that exceeds the page
      body comes in at least two fragments. *)
Theorem large_object_one_fragment_per_page (w : Writer Buffer) (obj : NVMObject) :
    let fragments :=
      fragmentLargeObject obj (remainingSpace w) (pageSize - NVM3_PAGE_HEADER_SIZE) in
    type obj = CounterLarge \/ type obj = DataLarge ->
    0 <= pageIndex w < pageCountOf Buffer w ->
    ((1 < length fragments)%nat ->
     match placeBytes w obj with
     | Err e =>
         e = NotEnoughPages
         /\ pageCountOf Buffer w <= pageIndex w + Z.of_nat (length fragments)
     | OK w' =>
         pageIndex w' = pageIndex w + Z.of_nat (length fragments)
         /\ pageIndex w' < pageCountOf Buffer w
         /\ offsetInPage w' = NVM3_PAGE_HEADER_SIZE
         /\ forall (k : nat) (fragment : NVMObject),
             nth_error fragments k = Some fragment ->
             exists page,
               nth_error (pages w) (Z.to_nat (pageIndex w) + k) = Some page
               /\ nth_error (pages w') (Z.to_nat (pageIndex w) + k)
                  = Some (copy (writeObject fragment) page
                               (if (k =? 0)%nat then offsetInPage w
                                else NVM3_PAGE_HEADER_SIZE))
     end)
    /\ ((forall o firstFit subsequentFit,
            (length (fragmentLargeObject o firstFit subsequentFit) <= 1)%nat ->
            dataLength o <= firstFit) ->
        remainingSpace w <= pageSize - NVM3_PAGE_HEADER_SIZE ->
        pageSize - NVM3_PAGE_HEADER_SIZE < dataLength obj ->
        (2 <= length fragments)%nat).
  Proof.
    intros fragments Ht Hw. split.
    - intros Hseveral.
      assert (Hnd : ObjectType_eqb (type obj) Deleted = false)
        by (destruct Ht as [-> | ->]; reflexivity).
      assert (Hchoose :
                chooseFragments NVM3_OBJ_HEADER_SIZE_SMALL NVM_COUNTER_SIZE
                                fragmentLargeObject pageSize w obj
                = OK (w, fragments)).
      { unfold chooseFragments.
        destruct Ht as [-> | ->]; cbn [ObjectType_eqb andb orb]; reflexivity. }
      unfold placeObject. rewrite Hnd, Hchoose. cbn [bind].
      assert (Hs : (1 <? Z.of_nat (length fragments)) = true)
        by (apply Z.ltb_lt; lia).
      rewrite Hs.
      pose proof (writeFragments_several Buffer (putBytes writeObject) fragments w Hw)
        as Hall.
      destruct (writeFragments NVM3_WORD_SIZE writeObject (putBytes writeObject)
                               pageSize true w fragments) as [w'|e].
      + destruct Hall as (Hi & Ho & _ & Hk & _).
        destruct Ho as (Ho1 & Ho2 & _).
        { intros E. rewrite E in Hseveral. simpl in Hseveral. lia. }
        repeat split; try assumption.
      + exact Hall.
    - intros Hcontract Hrem Hbig.
      destruct (le_lt_dec (length fragments) 1) as [Hle | Hgt]; [|lia].
      apply Hcontract in Hle. lia.
  Qed.
End WriterFacts.

(** ** The page header written by [createEmptyPage] *)

Lemma writeBytes_length (b : Buffer) (pos : Z) (bs : list byte) :
  0 <= pos -> pos + Z.of_nat (length bs) <= len b ->
  length (writeBytes b pos bs) = length b.
Proof.
  intros H0 H1. unfold writeBytes, len in *.
  rewrite !length_app, length_firstn, length_skipn. lia.
Qed.

Lemma le_bytes_length (n : nat) (v : Z) : length (le_bytes n v) = n.
Proof. revert v. induction n; intros v; simpl; auto. Qed.

Lemma writeUInt16LE_OK (b : Buffer) (value pos : Z) :
  0 <= value <= 65535 -> 0 <= pos -> pos + 2 <= len b ->
  exists b', writeUInt16LE b value pos = OK b' /\ length b' = length b.
Proof.
  intros Hv H0 H1. unfold writeUInt16LE.
  assert (E : ((0 <=? value) && (value <=? 2 ^ 16 - 1) && inBounds b pos 2) = true).
  { rewrite !andb_true_iff, !Z.leb_le, inBounds_true. pow2. lia. }
  rewrite E. eexists. split; [reflexivity|].
  apply writeBytes_length; [lia|]. rewrite le_bytes_length. lia.
Qed.

Lemma writeUInt32LE_OK (b : Buffer) (value pos : Z) :
  0 <= value <= 4294967295 -> 0 <= pos -> pos + 4 <= len b ->
  exists b', writeUInt32LE b value pos = OK b' /\ length b' = length b.
Proof.
  intros Hv H0 H1. unfold writeUInt32LE.
  assert (E : ((0 <=? value) && (value <=? 2 ^ 32 - 1) && inBounds b pos 4) = true).
  { rewrite !andb_true_iff, !Z.leb_le, inBounds_true. pow2. lia. }
  rewrite E. eexists. split; [reflexivity|].
  apply writeBytes_length; [lia|]. rewrite le_bytes_length. lia.
Qed.

Lemma writeInt32LE_OK (b : Buffer) (value pos : Z) :
  0 <= pos -> pos + 4 <= len b ->
  exists b', writeInt32LE b (toInt32 value) pos = OK b' /\ length b' = length b.
Proof.
  intros H0 H1. unfold writeInt32LE.
  pose proof (toInt32_range value) as Hr.
  assert (E : ((- 2 ^ 31 <=? toInt32 value) && (toInt32 value <=? 2 ^ 31 - 1)
               && inBounds b pos 4) = true).
  { rewrite !andb_true_iff, !Z.leb_le, inBounds_true. pow2. lia. }
  rewrite E. eexists. split; [reflexivity|].
  apply writeBytes_length; [lia|]. rewrite le_bytes_length. lia.
Qed.

Lemma lor_range (a b n : Z) :
  0 <= n -> 0 <= a < 2 ^ n -> 0 <= b < 2 ^ n -> 0 <= Z.lor a b < 2 ^ n.
Proof.
  intros Hn Ha Hb.
  assert (H0 : 0 <= Z.lor a b) by (apply Z.lor_nonneg; lia).
  split; [assumption|].
  destruct (Z.eq_dec (Z.lor a b) 0) as [E | NE].
  - rewrite E. apply Z.pow_pos_nonneg; lia.
  - assert (Hpos : 0 < n).
    { destruct (Z.eq_dec n 0) as [-> | Nn]; [|lia].
      change (2 ^ 0) with 1 in *. assert (a = 0) as -> by lia.
      assert (b = 0) as -> by lia. now contradict NE. }
    apply Z.log2_lt_pow2; [lia|].
    rewrite Z.log2_lor by lia.
    apply Z.max_lub_lt.
    + destruct (Z.eq_dec a 0) as [-> | Na]; [simpl; lia|].
      apply Z.log2_lt_pow2; lia.
    + destruct (Z.eq_dec b 0) as [-> | Nb]; [simpl; lia|].
      apply Z.log2_lt_pow2; lia.
Qed.

Lemma js_or_range16 (a b : Z) :
  0 <= a < 2 ^ 16 -> 0 <= b < 2 ^ 16 -> 0 <= js_or a b < 2 ^ 16.
Proof.
  intros Ha Hb. unfold js_or.
  rewrite (toInt32_small a), (toInt32_small b) by (pow2; lia).
  pose proof (lor_range a b 16 ltac:(lia) Ha Hb) as H.
  rewrite toInt32_small by (pow2; lia). assumption.
Qed.

Lemma js_shl_small (a n : Z) :
  0 <= n < 32 -> 0 <= a -> a * 2 ^ n < 2 ^ 31 -> js_shl a n = a * 2 ^ n.
Proof.
  intros Hn Ha Hlt. unfold js_shl.
  assert (Hp : 1 <= 2 ^ n) by (apply (Z.pow_le_mono_r 2 0 n); lia).
  rewrite Z.mod_small by lia.
  rewrite (toInt32_small a) by (pow2; nia).
  rewrite Z.shiftl_mul_pow2 by lia.
  apply toInt32_small. pow2. nia.
Qed.

Lemma pageSizeToBits_range (pageSize : Z) :
  256 < pageSize <= 65536 -> 0 <= pageSizeToBits pageSize <= 7.
Proof.
  intros H. unfold pageSizeToBits, NVM3_MIN_PAGE_SIZE.
  assert (E : (0 <? pageSize) = true) by (apply Z.ltb_lt; lia).
  rewrite E. change (Z.log2 512) with 9.
  pose proof (Z.log2_up_le_mono 257 pageSize ltac:(lia)) as H1.
  pose proof (Z.log2_up_le_mono pageSize 65536 ltac:(lia)) as H2.
  change (Z.log2_up 257) with 9 in H1. change (Z.log2_up 65536) with 16 in H2.
  lia.
Qed.

(** The header of the pages of [encodeNVM] is written whenever the page size
    is one that the three bits of the device-info word can hold. *)
Lemma writePageHeader_OK (options : EncodeNVMOptions) :
  256 < opt_pageSize options <= 65536 ->
  exists h,
    writePageHeader
      (mkHeader 0 0x01 0 PageStatus_OK false (opt_pageSize options)
                (opt_writeSize options) (opt_memoryMapped options)
                (opt_deviceFamily options)) = OK h
    /\ length h = 20%nat.
Proof.
  intros Hps. unfold writePageHeader.
  cbn [version eraseCount status encrypted pageSize writeSize memoryMapped
       deviceFamily].
  set (b0 := alloc NVM3_PAGE_HEADER_SIZE x00).
  assert (L0 : length b0 = 20%nat) by reflexivity.
  destruct (writeUInt16LE_OK b0 1 0) as (b1 & -> & L1);
    [lia | lia | unfold len; lia |]. cbn [bind].
  destruct (writeUInt16LE_OK b1 NVM3_PAGE_MAGIC 2) as (b2 & -> & L2);
    [unfold NVM3_PAGE_MAGIC; lia | lia | unfold len; lia |]. cbn [bind].
  unfold js_or at 1.
  destruct (writeInt32LE_OK b2
              (Z.lor (toInt32 (js_and 0 NVM3_PAGE_COUNTER_MASK))
                     (toInt32 (js_shl (computeBergerCode
                                         (js_and 0 NVM3_PAGE_COUNTER_MASK)
                                         NVM3_PAGE_COUNTER_SIZE)
                                      NVM3_PAGE_COUNTER_SIZE))) 4)
    as (b3 & -> & L3); [lia | unfold len; lia |]. cbn [bind].
  unfold js_or at 1.
  destruct (writeInt32LE_OK b3
              (Z.lor (toInt32 (js_and (js_not 0) NVM3_PAGE_COUNTER_MASK))
                     (toInt32 (js_shl (computeBergerCode
                                         (js_and (js_not 0) NVM3_PAGE_COUNTER_MASK)
                                         NVM3_PAGE_COUNTER_SIZE)
                                      NVM3_PAGE_COUNTER_SIZE))) 8)
    as (b4 & -> & L4); [lia | unfold len; lia |]. cbn [bind].
  destruct (writeUInt32LE_OK b4 PageStatus_OK 12) as (b5 & -> & L5);
    [unfold PageStatus_OK; lia | lia | unfold len; lia |]. cbn [bind].
  set (devInfo := js_or _ _).
  assert (Hdev : 0 <= devInfo < 2 ^ 16).
  { unfold devInfo.
    pose proof (js_and_ones_range (opt_deviceFamily options) 11 ltac:(lia)) as Hf.
    change (Z.ones 11) with 0x7ff in Hf.
    pose proof (js_and_ones_range (opt_writeSize options) 1 ltac:(lia)) as Hw.
    change (Z.ones 1) with 1 in Hw.
    pose proof (pageSizeToBits_range (opt_pageSize options) Hps) as Hb.
    rewrite (js_shl_small (js_and (opt_writeSize options) 1) 11)
      by (pow2; change (2 ^ 1) with 2 in *; change (2 ^ 11) with 2048; lia).
    rewrite (js_shl_small (if opt_memoryMapped options then 1 else 0) 12)
      by (pow2; change (2 ^ 12) with 4096; destruct (opt_memoryMapped options); lia).
    rewrite (js_shl_small (pageSizeToBits (opt_pageSize options)) 13)
      by (pow2; change (2 ^ 13) with 8192; lia).
    change (2 ^ 11) with 2048 in *. change (2 ^ 12) with 4096.
    change (2 ^ 13) with 8192. change (2 ^ 1) with 2 in Hw.
    repeat apply js_or_range16; pow2;
      try (destruct (opt_memoryMapped options)); lia. }
  destruct (writeUInt16LE_OK b5 devInfo 16) as (b6 & -> & L6);
    [pow2; lia | lia | unfold len; lia |]. cbn [bind].
  destruct (writeUInt16LE_OK b6 0xffff 18) as (b7 & -> & L7);
    [lia | lia | unfold len; lia |]. cbn [bind].
  exists b7. split; [reflexivity | lia].
Qed.

(** ** [encodeNVM]: the pages and the length of the image *)

Lemma createEmptyPage_OK (options : EncodeNVMOptions) :
  256 < opt_pageSize options <= 65536 ->
  exists page,
    createEmptyPage options = OK page
    /\ length page = Z.to_nat (opt_pageSize options).
Proof.
  intros Hps. unfold createEmptyPage.
  destruct (writePageHeader_OK options Hps) as (h & -> & _). cbn [bind].
  eexists. split; [reflexivity|].
  rewrite copy_length. unfold alloc. apply repeat_length.
Qed.

Lemma createPages_OK (options : EncodeNVMOptions) (page : Buffer) (n : nat) :
  createEmptyPage options = OK page -> createPages n options = OK (repeat page n).
Proof.
  intros E. induction n as [|n IH]; [reflexivity|].
  cbn [createPages]. rewrite E, IH. reflexivity.
Qed.

Lemma concat_length_uniform (n : nat) (l : list Buffer) :
  Forall (fun p => length p = n) l -> length (List.concat l) = (length l * n)%nat.
Proof.
  induction 1 as [|p l Hp Hl IH]; [reflexivity|].
  simpl. rewrite length_app, IH, Hp. reflexivity.
Qed.

Lemma pageCount_pos (regionSize pageSize : Z) :
  0 < regionSize -> 0 < pageSize -> (0 < pageCount regionSize pageSize)%nat.
Proof.
  intros Hr Hp. unfold pageCount.
  assert (E : (pageSize <? 0) = false) by (apply Z.ltb_ge; lia). rewrite E.
  assert (1 <= (regionSize + pageSize - 1) / pageSize).
  { apply Z.div_le_lower_bound; lia. }
  lia.
Qed.

Section EncodeFacts.
  Variables NVM3_WORD_SIZE NVM3_OBJ_HEADER_SIZE_SMALL NVM_COUNTER_SIZE : Z.
  Variable writeObject : NVMObject -> Buffer.
  Variable fragmentLargeObject : NVMObject -> Z -> Z -> list NVMObject.

  Local Abbreviation writeObjects' :=
    (writeObjects NVM3_WORD_SIZE NVM3_OBJ_HEADER_SIZE_SMALL NVM_COUNTER_SIZE
                  writeObject fragmentLargeObject).
  Local Abbreviation encodeNVM' :=
    (encodeNVM NVM3_WORD_SIZE NVM3_OBJ_HEADER_SIZE_SMALL NVM_COUNTER_SIZE
               writeObject fragmentLargeObject).

  (** [writeObjects] keeps the number of pages and the length of each, and
      fails only for want of pages. *)
Lemma writeObjects_keeps (pageSize : Z) (n : nat) (pages0 : list Buffer)
        (objs : ObjectMap) :
    match writeObjects' pageSize pages0 objs with
    | OK pages' =>
        length pages' = length pages0
        /\ (Forall (fun p => length p = n) pages0 ->
            Forall (fun p => length p = n) pages')
    | Err e => e = NotEnoughPages
    end.
  Proof.
    unfold writeObjects.
    apply (writeObjectsWith_keeps NVM3_WORD_SIZE NVM3_OBJ_HEADER_SIZE_SMALL
             NVM_COUNTER_SIZE writeObject fragmentLargeObject pageSize Buffer
             (putBytes writeObject) (fun p => length p = n)).
    intros f pos page Hp. unfold putBytes. now rewrite copy_length.
  Qed.

  (** With no object to place, [writeObjects] returns the pages it was given. *)
Lemma writeObjects_empty (pageSize : Z) (pages0 : list Buffer) :
    pages0 <> [] -> writeObjects' pageSize pages0 [] = OK pages0.
  Proof.
    intros Hne. unfold writeObjects, writeObjectsWith.
    rewrite nextPage_OK.
    - reflexivity.
    - unfold pageCountOf. cbn [pages pageIndex].
      destruct pages0; [congruence | simpl length; lia].
  Qed.

  (** The shape of the image: the application pages followed by the protocol
      pages, as [writeObjects] left them, every page of [pageSize] bytes. *)
Lemma encodeNVM_shape (applicationObjects protocolObjects : ObjectMap)
        (options : EncodeNVMOptions) (buf : Buffer) :
    256 < opt_pageSize options <= 65536 ->
    encodeNVM' applicationObjects protocolObjects options = OK buf ->
    exists page applicationPages protocolPages,
      createEmptyPage options = OK page
      /\ writeObjects' (opt_pageSize options)
           (repeat page (pageCount ZWAVE_APPLICATION_NVM_SIZE (opt_pageSize options)))
           applicationObjects = OK applicationPages
      /\ writeObjects' (opt_pageSize options)
           (repeat page (pageCount ZWAVE_PROTOCOL_NVM_SIZE (opt_pageSize options)))
           protocolObjects = OK protocolPages
      /\ buf = List.concat applicationPages ++ List.concat protocolPages
      /\ length applicationPages
         = pageCount ZWAVE_APPLICATION_NVM_SIZE (opt_pageSize options)
      /\ length protocolPages
         = pageCount ZWAVE_PROTOCOL_NVM_SIZE (opt_pageSize options)
      /\ Forall (fun p => length p = Z.to_nat (opt_pageSize options))
                (applicationPages ++ protocolPages).
  Proof.
    intros Hps. unfold encodeNVM.
    assert (E0 : (opt_pageSize options =? 0) = false) by (apply Z.eqb_neq; lia).
    rewrite E0.
    destruct (createEmptyPage_OK options Hps) as (page & Epage & Lpage).
    rewrite !(createPages_OK options page _ Epage). cbn [bind].
    set (n := Z.to_nat (opt_pageSize options)) in *.
    pose proof (writeObjects_keeps (opt_pageSize options) n
                  (repeat page (pageCount ZWAVE_APPLICATION_NVM_SIZE
                                          (opt_pageSize options)))
                  applicationObjects) as Ha.
    destruct (writeObjects' _ _ applicationObjects) as [pa|e] eqn:Ea;
      [|discriminate].
    cbn [bind].
    pose proof (writeObjects_keeps (opt_pageSize options) n
                  (repeat page (pageCount ZWAVE_PROTOCOL_NVM_SIZE
                                          (opt_pageSize options)))
                  protocolObjects) as Hp.
    destruct (writeObjects' _ _ protocolObjects) as [pp|e] eqn:Ep; [|discriminate].
    cbn [bind]. intros E. apply (OK_inj Buffer) in E. subst buf.
    destruct Ha as (La & Fa). destruct Hp as (Lp & Fp).
    rewrite repeat_length in La, Lp.
    exists page, pa, pp.
    split; [exact Epage|]. split; [exact Ea|]. split; [exact Ep|].
    split; [apply concat_app|]. split; [exact La|]. split; [exact Lp|].
    apply Forall_app. split; [apply Fa | apply Fp];
      apply Forall_forall; intros x Hx; apply repeat_spec in Hx; now subst x.
  Qed.

  (** C1, as the code has it.  With the default options every image that
      [encodeNVM] returns is the bytes of the application pages followed by the
      bytes of the protocol pages: the six pages that [writeObjects] returns
      for the application objects, then the eighteen pages that it returns for
      the protocol objects.  The application region takes the first 0x3000
      bytes and the protocol region the next 0x9000 bytes ([0xc000 - 0x3000]),
      0xC000 bytes in all. *)
Theorem encodeNVM_default_length
    (applicationObjects protocolObjects : ObjectMap) (buf : Buffer) :
    encodeNVM' applicationObjects protocolObjects defaultOptions = OK buf ->
    exists page applicationPages protocolPages,
      createEmptyPage defaultOptions = OK page
      /\ writeObjects' 2048 (repeat page 6) applicationObjects = OK applicationPages
      /\ writeObjects' 2048 (repeat page 18) protocolObjects = OK protocolPages
      /\ buf = List.concat applicationPages ++ List.concat protocolPages
      /\ len (List.concat applicationPages) = 0x3000
      /\ len (List.concat protocolPages) = 0x9000
      /\ slice buf 0 0x3000 = List.concat applicationPages
      /\ slice buf 0x3000 0xC000 = List.concat protocolPages
      /\ len buf = 0xC000.
  Proof.
    intros E.
    destruct (encodeNVM_shape applicationObjects protocolObjects defaultOptions buf)
      as (page & pa & pp & Epage & Ewa & Ewp & -> & La & Lp & Hall);
      [unfold defaultOptions, FLASH_MAX_PAGE_SIZE; cbn [opt_pageSize]; lia
      | exact E |].
    apply Forall_app in Hall. destruct Hall as (Fa & Fp).
    assert (Ea : len (List.concat pa) = 0x3000).
    { unfold len. rewrite (concat_length_uniform _ _ Fa), La. reflexivity. }
    assert (Ep : len (List.concat pp) = 0x9000).
    { unfold len. rewrite (concat_length_uniform _ _ Fp), Lp. reflexivity. }
    exists page, pa, pp.
    split; [exact Epage|]. split; [exact Ewa|]. split; [exact Ewp|].
    split; [reflexivity|]. split; [exact Ea|]. split; [exact Ep|].
    unfold len in Ea, Ep.
    split; [|split].
    - unfold slice. change (Z.to_nat 0) with 0%nat. cbn [skipn].
      replace (Z.to_nat (12288 - 0)) with (length (List.concat pa) + 0)%nat by lia.
      rewrite firstn_app_2. cbn [firstn]. apply app_nil_r.
    - unfold slice.
      replace (Z.to_nat 12288) with (length (List.concat pa)) by lia.
      rewrite skipn_app, skipn_all, Nat.sub_diag. cbn [skipn app].
      apply firstn_all2. lia.
    - rewrite len_app. unfold len. lia.
  Qed.

  (** C2, as the code has it.  [encodeNVM] does not check that the page size
      divides the region sizes: for every page size from 257 to 65536, a
      divisor or not, and empty maps it returns an image, made of
      [ceil (0x3000 / pageSize)] application pages and
      [ceil (0x9000 / pageSize)] protocol pages of [pageSize] bytes each. *)
Theorem encodeNVM_any_page_size (options : EncodeNVMOptions) :
    256 < opt_pageSize options <= 65536 ->
    exists buf,
      encodeNVM' [] [] options = OK buf
      /\ len buf
         = (Z.of_nat (pageCount ZWAVE_APPLICATION_NVM_SIZE (opt_pageSize options))
            + Z.of_nat (pageCount ZWAVE_PROTOCOL_NVM_SIZE (opt_pageSize options)))
           * opt_pageSize options.
  Proof.
    intros Hps.
    destruct (createEmptyPage_OK options Hps) as (page & Epage & Lpage).
    assert (Hna : (0 < pageCount ZWAVE_APPLICATION_NVM_SIZE (opt_pageSize options))%nat)
      by (apply pageCount_pos; [reflexivity | lia]).
    assert (Hnp : (0 < pageCount ZWAVE_PROTOCOL_NVM_SIZE (opt_pageSize options))%nat)
      by (apply pageCount_pos; [reflexivity | lia]).
    set (na := pageCount ZWAVE_APPLICATION_NVM_SIZE (opt_pageSize options)) in *.
    set (np := pageCount ZWAVE_PROTOCOL_NVM_SIZE (opt_pageSize options)) in *.
    assert (E : encodeNVM' [] [] options
                = OK (List.concat (repeat page na ++ repeat page np))).
    { unfold encodeNVM.
      assert (E0 : (opt_pageSize options =? 0) = false) by (apply Z.eqb_neq; lia).
      rewrite E0. fold na np.
      rewrite !(createPages_OK options page _ Epage). cbn [bind].
      rewrite !writeObjects_empty; [reflexivity | |];
        intros C; apply (f_equal (@length Buffer)) in C;
        rewrite repeat_length in C; simpl in C; lia. }
    eexists. split; [exact E|].
    unfold len.
    rewrite (concat_length_uniform (Z.to_nat (opt_pageSize options))).
    - rewrite length_app, !repeat_length. lia.
    - apply Forall_app. split; apply Forall_forall; intros x Hx;
        apply repeat_spec in Hx; now subst x.
  Qed.
End EncodeFacts.

(** ** The sort of the pages *)

Section SortFacts.
  Variable A : Type.
  Variable compare : A -> A -> Z.
  Hypothesis compare_total : forall x y, compare x y <= 0 \/ compare y x <= 0.

  Local Abbreviation le := (fun x y => compare x y <= 0).

Lemma insert_perm (x : A) (l : list A) : Permutation (insert compare x l) (x :: l).
  Proof.
    induction l as [|y l IH]; simpl; [reflexivity|].
    destruct (compare x y <=? 0); [reflexivity|].
    rewrite IH. apply perm_swap.
  Qed.

Lemma sort_perm (l : list A) : Permutation (sort compare l) l.
  Proof.
    induction l as [|x l IH]; simpl; [reflexivity|].
    rewrite insert_perm. now constructor.
  Qed.

Lemma insert_hd (x a : A) (l : list A) :
    compare a x <= 0 -> HdRel le a l -> HdRel le a (insert compare x l).
  Proof.
    intros Hax Hl. destruct l as [|y l]; simpl.
    - now constructor.
    - destruct (compare x y <=? 0); constructor; auto.
      now inversion Hl.
  Qed.

Lemma insert_sorted (x : A) (l : list A) :
    Sorted le l -> Sorted le (insert compare x l).
  Proof.
    induction 1 as [|y l Hl IH Hy]; simpl.
    - repeat constructor.
    - destruct (compare x y <=? 0) eqn:E.
      + apply Z.leb_le in E. repeat constructor; auto.
      + apply Z.leb_gt in E. constructor; [exact IH|].
        apply insert_hd; [|exact Hy].
        destruct (compare_total x y); lia.
  Qed.

Lemma sort_sorted (l : list A) : Sorted le (sort compare l).
  Proof.
    induction l as [|x l IH]; simpl; [constructor | now apply insert_sorted].
  Qed.
End SortFacts.

Lemma comparePages_le (p1 p2 : NVMPage) : comparePages p1 p2 <= 0 <-> pageLe p1 p2.
Proof.
  unfold comparePages, pageLe.
  destruct (eraseCount (header p1) =? eraseCount (header p2)) eqn:E.
  - apply Z.eqb_eq in E. lia.
  - apply Z.eqb_neq in E. lia.
Qed.

Lemma comparePages_total (p1 p2 : NVMPage) :
  comparePages p1 p2 <= 0 \/ comparePages p2 p1 <= 0.
Proof. rewrite !comparePages_le. unfold pageLe. lia. Qed.

Lemma sort_pages_sorted (l : list NVMPage) :
  Sorted pageLe (sort comparePages l).
Proof.
  pose proof (sort_sorted NVMPage comparePages comparePages_total l) as H.
  induction H as [|p l' Hl IH Hp]; constructor; auto.
  destruct Hp; constructor. now apply comparePages_le.
Qed.

Lemma allObjects_concat (pages : list NVMPage) :
  allObjects pages = List.concat (List.map objects pages).
Proof.
  unfold allObjects.
  assert (G : forall acc, fold_left (fun acc page => acc ++ objects page) pages acc
                          = acc ++ List.concat (List.map objects pages)).
  { induction pages as [|p ps IH]; intros acc; simpl.
    - now rewrite app_nil_r.
    - rewrite IH. now rewrite app_assoc. }
  apply (G []).
Qed.

Lemma compressStep_write (m : ObjectMap) (p : Pending) (obj : NVMObject) :
  isWrite obj -> compressStep (m, p) obj = (map_set (key obj) obj m, p).
Proof.
  unfold compressStep.
  intros [Ht | [Ht | [[Ht | Ht] Hf]]]; rewrite Ht; try rewrite Hf; reflexivity.
Qed.

Section ParseFacts.
  Variable readObjects : Buffer -> result (list NVMObject).

  (** C4.  The page lists that [parseNVM] returns are the application pages
      and the protocol pages of the image in ring order: sorted by erase count,
      and by offset among pages of equal erase count; the live maps are the
      compaction of their objects in that order.  Hence (scenario S5): when the
      application pages are two pages that hold one write of the same key each,
      the live value of the key is the one of the page with the greater erase
      count (value A on the page of erase count 5, value B on the page of
      erase count 3: A). *)
Theorem parseNVM_ring_order (buffer : Buffer) (r : ParsedNVM) :
    parseNVM readObjects buffer = OK r ->
    exists pages,
      readPages readObjects (length buffer) buffer 0 = OK pages
      /\ Permutation (applicationPages r) (filter inApplicationRegion pages)
      /\ Permutation (protocolPages r) (filter inProtocolRegion pages)
      /\ Sorted pageLe (applicationPages r)
      /\ Sorted pageLe (protocolPages r)
      /\ applicationObjects r
         = compressObjects (List.concat (List.map objects (applicationPages r)))
      /\ protocolObjects r
         = compressObjects (List.concat (List.map objects (protocolPages r)))
      /\ forall pA pB oA oB,
          Permutation (filter inApplicationRegion pages) [pA; pB] ->
          eraseCount (header pB) < eraseCount (header pA) ->
          objects pA = [oA] -> objects pB = [oB] ->
          isWrite oA -> isWrite oB -> key oA = key oB ->
          map_get (key oA) (applicationObjects r) = Some oA.
  Proof.
    unfold parseNVM. intros E.
    destruct (readPages readObjects (length buffer) buffer 0) as [pages|e];
      [|discriminate].
    cbn [bind] in E. apply (OK_inj ParsedNVM) in E. subst r.
    cbn [applicationPages protocolPages applicationObjects protocolObjects].
    exists pages. split; [reflexivity|].
    fold inApplicationRegion inProtocolRegion.
    change (fun p : NVMPage => offset (header p) <? ZWAVE_APPLICATION_NVM_SIZE)
      with inApplicationRegion.
    change (fun p : NVMPage => offset (header p) >=? ZWAVE_APPLICATION_NVM_SIZE)
      with inProtocolRegion.
    split; [apply sort_perm|]. split; [apply sort_perm|].
    split; [apply sort_pages_sorted|]. split; [apply sort_pages_sorted|].
    split; [now rewrite allObjects_concat|].
    split; [now rewrite allObjects_concat|].
    intros pA pB oA oB Hperm Hlt HA HB WA WB Hk.
    rewrite allObjects_concat.
    pose proof (sort_pages_sorted (filter inApplicationRegion pages)) as Hs.
    pose proof (sort_perm NVMPage comparePages (filter inApplicationRegion pages))
      as Hp.
    apply (fun H => Permutation_trans H Hperm) in Hp.
    set (l := sort comparePages (filter inApplicationRegion pages)) in *.
    assert (El : l = [pB; pA]).
    { pose proof (Permutation_length Hp) as Hlen.
      destruct l as [|x [|y [|z l']]]; try discriminate.
      apply Permutation_length_2_inv in Hp. destruct Hp as [Hp | Hp].
      - injection Hp as <- <-. exfalso.
        inversion Hs as [|? ? _ Hhd]; subst. inversion Hhd as [|? ? Hle]; subst.
        unfold pageLe in Hle. lia.
      - injection Hp as <- <-. reflexivity. }
    rewrite El. cbn [List.map List.concat]. rewrite HA, HB. cbn [app].
    unfold compressObjects. cbn [fold_left].
    rewrite !compressStep_write by assumption.
    cbn [fst map_set]. rewrite <- Hk, Z.eqb_refl. cbn [map_get].
    now rewrite Z.eqb_refl.
  Qed.
End ParseFacts.

(** ** Overwriting bytes of an image *)

Lemma nth_error_writeBytes (b : Buffer) (pos : Z) (bs : list byte) (i : nat) :
  0 <= pos -> pos + Z.of_nat (length bs) <= len b ->
  nth_error (writeBytes b pos bs) i
  = if (i <? Z.to_nat pos)%nat then nth_error b i
    else if (i <? Z.to_nat pos + length bs)%nat
         then nth_error bs (i - Z.to_nat pos)
         else nth_error b i.
Proof.
  intros H0 H1. unfold writeBytes, len in *.
  set (x := Z.to_nat pos) in *.
  assert (Hx : (x + length bs <= length b)%nat) by lia.
  assert (Lf : length (firstn x b) = x) by (rewrite length_firstn; lia).
  destruct (i <? x)%nat eqn:E1.
  - apply Nat.ltb_lt in E1.
    rewrite nth_error_app1 by lia. rewrite nth_error_firstn.
    apply Nat.ltb_lt in E1. now rewrite E1.
  - apply Nat.ltb_ge in E1. rewrite nth_error_app2 by lia. rewrite Lf.
    destruct (i <? x + length bs)%nat eqn:E2.
    + apply Nat.ltb_lt in E2. rewrite nth_error_app1 by lia. reflexivity.
    + apply Nat.ltb_ge in E2. rewrite nth_error_app2 by lia.
      rewrite nth_error_skipn. f_equal. lia.
Qed.

Lemma writeBytes_len (b : Buffer) (pos : Z) (bs : list byte) :
  0 <= pos -> pos + Z.of_nat (length bs) <= len b ->
  len (writeBytes b pos bs) = len b.
Proof. intros H0 H1. unfold len. now rewrite writeBytes_length. Qed.

Lemma nth_of_nth_error (b b' : Buffer) (i j : nat) :
  nth_error b i = nth_error b' j -> nth i b x00 = nth j b' x00.
Proof.
  intros E.
  destruct (nth_error b i) as [v|] eqn:E1.
  - symmetry in E. now rewrite (nth_error_nth _ _ x00 E1), (nth_error_nth _ _ x00 E).
  - symmetry in E. now rewrite (nth_error_nth_None _ _ x00 E1),
      (nth_error_nth_None _ _ x00 E).
Qed.

Lemma nth_error_slice (b : Buffer) (start stop : Z) (i : nat) :
  nth_error (slice b start stop) i
  = if (i <? Z.to_nat (stop - start))%nat
    then nth_error b (Z.to_nat start + i) else None.
Proof. unfold slice. rewrite nth_error_firstn, nth_error_skipn. reflexivity. Qed.


Lemma agree_at (b b' : Buffer) (lo hi i : Z) :
  agree b b' lo hi -> 0 <= i -> lo <= i < hi -> at_ b i = at_ b' i.
Proof.
  intros Ha H0 Hi. unfold at_. f_equal. apply nth_of_nth_error, Ha. lia.
Qed.

Lemma agree_sub (b b' : Buffer) (lo hi lo' hi' : Z) :
  agree b b' lo hi -> lo <= lo' -> hi' <= hi -> agree b b' lo' hi'.
Proof. intros Ha H1 H2 i Hi. apply Ha. lia. Qed.

Lemma agree_readUInt16LE (b b' : Buffer) (lo hi i : Z) :
  len b = len b' -> agree b b' lo hi -> lo <= i -> i + 2 <= hi ->
  readUInt16LE b i = readUInt16LE b' i.
Proof.
  intros Hl Ha H1 H2. unfold readUInt16LE, inBounds. rewrite Hl.
  destruct ((0 <=? i) && (i + 2 <=? len b')) eqn:E; [|reflexivity].
  apply andb_true_iff in E. destruct E as (E0 & _). apply Z.leb_le in E0.
  rewrite (agree_at b b' lo hi i), (agree_at b b' lo hi (i + 1)); auto; lia.
Qed.

Lemma agree_readUInt32LE (b b' : Buffer) (lo hi i : Z) :
  len b = len b' -> agree b b' lo hi -> lo <= i -> i + 4 <= hi ->
  readUInt32LE b i = readUInt32LE b' i.
Proof.
  intros Hl Ha H1 H2. unfold readUInt32LE, inBounds. rewrite Hl.
  destruct ((0 <=? i) && (i + 4 <=? len b')) eqn:E; [|reflexivity].
  apply andb_true_iff in E. destruct E as (E0 & _). apply Z.leb_le in E0.
  rewrite (agree_at b b' lo hi i), (agree_at b b' lo hi (i + 1)),
    (agree_at b b' lo hi (i + 2)), (agree_at b b' lo hi (i + 3)); auto; lia.
Qed.

Lemma agree_slice (b b' : Buffer) (lo hi start stop : Z) :
  len b = len b' -> agree b b' lo hi -> 0 <= start -> lo <= start -> stop <= hi ->
  slice b start stop = slice b' start stop.
Proof.
  intros Hl Ha H0 H1 H2. apply nth_error_ext. intros i.
  rewrite !nth_error_slice.
  destruct (i <? Z.to_nat (stop - start))%nat eqn:E; [|reflexivity].
  apply Nat.ltb_lt in E. apply Ha. lia.
Qed.

Lemma writeBytes_agree_before (b : Buffer) (pos : Z) (bs : list byte) (lo : Z) :
  0 <= pos -> pos + Z.of_nat (length bs) <= len b ->
  agree b (writeBytes b pos bs) lo pos.
Proof.
  intros H0 H1 i Hi. rewrite nth_error_writeBytes by assumption.
  assert (E : (i <? Z.to_nat pos)%nat = true) by (apply Nat.ltb_lt; lia).
  now rewrite E.
Qed.

Lemma writeBytes_agree_after (b : Buffer) (pos : Z) (bs : list byte) (hi : Z) :
  0 <= pos -> pos + Z.of_nat (length bs) <= len b ->
  agree b (writeBytes b pos bs) (pos + Z.of_nat (length bs)) hi.
Proof.
  intros H0 H1 i Hi. rewrite nth_error_writeBytes by assumption.
  assert (E1 : (i <? Z.to_nat pos)%nat = false) by (apply Nat.ltb_ge; lia).
  assert (E2 : (i <? Z.to_nat pos + length bs)%nat = false)
    by (apply Nat.ltb_ge; lia).
  now rewrite E1, E2.
Qed.

(** ** [readPage], continued: what a decoded page tells, and locality *)

Lemma withStatus_same (p : NVMPage) : withStatus (status (header p)) p = p.
Proof. destruct p as [[] ?]. reflexivity. Qed.

Lemma readUInt32LE_same_len (b b' : Buffer) (i : Z) :
  len b = len b' ->
  (readUInt32LE b i = Err OutOfRange /\ readUInt32LE b' i = Err OutOfRange)
  \/ (exists v v', readUInt32LE b i = OK v /\ readUInt32LE b' i = OK v').
Proof.
  intros Hl. unfold readUInt32LE, inBounds. rewrite Hl.
  destruct ((0 <=? i) && (i + 4 <=? len b')); [right; eauto | left; auto].
Qed.

Section PageLocality.
  Variable readObjects : Buffer -> result (list NVMObject).

  (** A page that [readPage] decodes passed every check of the header. *)
Lemma readPage_inv (buffer : Buffer) (pos : Z) (page : NVMPage) (bytesRead : Z) :
    readPage readObjects buffer pos = OK (page, bytesRead) ->
    exists eraseCountWord eraseCountInvWord st devInfo formatInfo,
      ValidHeader buffer pos eraseCountWord eraseCountInvWord st devInfo
      /\ readUInt16LE buffer (pos + 18) = OK formatInfo
      /\ bytesRead = Z.min (declaredPageSize devInfo) FLASH_MAX_PAGE_SIZE
      /\ pos + bytesRead <= len buffer
      /\ readObjects (slice buffer (pos + 20) (pos + bytesRead)) = OK (objects page)
      /\ header page
         = mkHeader pos 1 (js_and eraseCountWord NVM3_PAGE_COUNTER_MASK) st
                    (js_and formatInfo 1 =? 0) (declaredPageSize devInfo)
                    (js_and (js_shr devInfo 11) 1)
                    (negb (js_and (js_shr devInfo 12) 1 =? 0))
                    (js_and devInfo 0x7ff).
  Proof.
    unfold readPage. intros E.
    destruct (readUInt16LE buffer pos) as [v|] eqn:Ev; [|discriminate].
    cbn [bind] in E.
    destruct (readUInt16LE buffer (pos + 2)) as [m|] eqn:Em; [|discriminate].
    cbn [bind] in E.
    destruct (m =? NVM3_PAGE_MAGIC) eqn:Emagic; [|discriminate].
    apply Z.eqb_eq in Emagic. subst m. cbn [negb] in E.
    destruct (v =? 1) eqn:Ever; [|discriminate].
    apply Z.eqb_eq in Ever. subst v. cbn [negb] in E.
    destruct (readUInt32LE buffer (pos + 4)) as [w|] eqn:Ew; [|discriminate].
    cbn [bind] in E.
    destruct (validateBergerCode _ _ _) as [[]|] eqn:Ec in E; [|discriminate].
    cbn [bind] in E. apply validateBergerCode_OK in Ec.
    destruct (readUInt32LE buffer (pos + 8)) as [wi|] eqn:Ewi; [|discriminate].
    cbn [bind] in E.
    destruct (validateBergerCode _ _ _) as [[]|] eqn:Eci in E; [|discriminate].
    cbn [bind] in E. apply validateBergerCode_OK in Eci.
    destruct (_ =? _) eqn:Ecompl in E; [|discriminate].
    apply Z.eqb_eq in Ecompl. cbn [negb] in E.
    destruct (readUInt32LE buffer (pos + 12)) as [st|] eqn:Est; [|discriminate].
    cbn [bind] in E.
    destruct (readUInt16LE buffer (pos + 16)) as [dev|] eqn:Edev; [|discriminate].
    cbn [bind] in E.
    fold (declaredPageSize dev) in E.
    destruct (len buffer <? _) eqn:Elen in E; [discriminate|].
    apply Z.ltb_ge in Elen.
    destruct (readUInt16LE buffer (pos + 18)) as [fmt|] eqn:Efmt; [|discriminate].
    cbn [bind] in E.
    destruct (readObjects _) as [objs|] eqn:Eobjs in E; [|discriminate].
    cbn [bind] in E. apply (OK_inj (NVMPage * Z)) in E.
    injection E as <- <-.
    exists w, wi, st, dev, fmt.
    split; [constructor; assumption|].
    split; [reflexivity|]. split; [reflexivity|]. split; [exact Elen|].
    split; [exact Eobjs | reflexivity].
  Qed.

Lemma readPage_bytesRead (buffer : Buffer) (pos : Z) (page : NVMPage) (k : Z) :
    readPage readObjects buffer pos = OK (page, k) ->
    0 <= pos /\ 512 <= k <= 2048 /\ pos + k <= len buffer
    /\ offset (header page) = pos.
  Proof.
    intros E. apply readPage_inv in E.
    destruct E as (w & wi & st & dev & fmt & Hv & _ & -> & Hl & _ & Hh).
    pose proof (pageSizeFromBits_range (js_shr dev 13)) as Hr.
    fold (declaredPageSize dev) in Hr.
    destruct Hv as [Hv _ _ _ _ _ _ _ _]. apply readUInt16LE_OK in Hv.
    rewrite Hh. cbn [offset]. unfold FLASH_MAX_PAGE_SIZE in *. lia.
  Qed.

  (** [readPage] at [pos] looks at the length of the buffer and at the bytes of
      the page only.  Two buffers of the same length that hold the same page,
      but for the status word, give the same page, but for the status. *)
Lemma readPage_local (b b' : Buffer) (pos hi : Z) :
    len b = len b' ->
    agree b b' pos (pos + 12) ->
    agree b b' (pos + 16) hi ->
    pos + 20 <= hi ->
    (forall devInfo,
        readUInt16LE b (pos + 16) = OK devInfo ->
        pos + Z.min (declaredPageSize devInfo) FLASH_MAX_PAGE_SIZE <= hi) ->
    readPage readObjects b' pos
    = match readPage readObjects b pos with
      | OK (page, k) =>
          match readUInt32LE b' (pos + 12) with
          | OK s => OK (withStatus s page, k)
          | Err e => Err e
          end
      | Err e => Err e
      end.
  Proof.
    intros Hl H1 H2 Hhi Hsize. unfold readPage.
    rewrite <- (agree_readUInt16LE b b' pos (pos + 12) pos) by (auto; lia).
    rewrite <- (agree_readUInt16LE b b' pos (pos + 12) (pos + 2)) by (auto; lia).
    rewrite <- (agree_readUInt32LE b b' pos (pos + 12) (pos + 4)) by (auto; lia).
    rewrite <- (agree_readUInt32LE b b' pos (pos + 12) (pos + 8)) by (auto; lia).
    rewrite <- (agree_readUInt16LE b b' (pos + 16) hi (pos + 16)) by (auto; lia).
    rewrite <- (agree_readUInt16LE b b' (pos + 16) hi (pos + 18)) by (auto; lia).
    rewrite <- Hl.
    destruct (readUInt16LE b pos) as [v|]; cbn [bind]; [|reflexivity].
    destruct (readUInt16LE b (pos + 2)) as [m|]; cbn [bind]; [|reflexivity].
    destruct (negb (m =? NVM3_PAGE_MAGIC)); [reflexivity|].
    destruct (negb (v =? 1)); [reflexivity|].
    destruct (readUInt32LE b (pos + 4)) as [w|]; cbn [bind]; [|reflexivity].
    destruct (validateBergerCode _ _ _) as [[]|]; cbn [bind]; [|reflexivity].
    destruct (readUInt32LE b (pos + 8)) as [wi|]; cbn [bind]; [|reflexivity].
    destruct (validateBergerCode _ _ _) as [[]|]; cbn [bind]; [|reflexivity].
    destruct (negb (_ =? _)); [reflexivity|].
    destruct (readUInt32LE_same_len b b' (pos + 12) Hl)
      as [[-> ->] | (s & s' & -> & Es')]; cbn [bind]; [reflexivity|].
    rewrite Es'. cbn [bind].
    destruct (readUInt16LE b (pos + 16)) as [dev|] eqn:Edev; cbn [bind];
      [|reflexivity].
    specialize (Hsize dev eq_refl). fold (declaredPageSize dev) in *.
    destruct (len b <? _); [reflexivity|].
    destruct (readUInt16LE b (pos + 18)) as [fmt|] eqn:Efmt; cbn [bind];
      [|reflexivity].
    apply readUInt16LE_OK in Efmt.
    rewrite <- (agree_slice b b' (pos + 16) hi) by (auto; lia).
    destruct (readObjects _) as [objs|]; cbn [bind]; reflexivity.
  Qed.

  (** The same, when the status words agree too. *)
Lemma readPage_local_same (b b' : Buffer) (pos hi : Z) :
    len b = len b' ->
    agree b b' pos hi ->
    pos + 20 <= hi ->
    (forall devInfo,
        readUInt16LE b (pos + 16) = OK devInfo ->
        pos + Z.min (declaredPageSize devInfo) FLASH_MAX_PAGE_SIZE <= hi) ->
    readPage readObjects b' pos = readPage readObjects b pos.
  Proof.
    intros Hl Ha Hhi Hsize.
    rewrite (readPage_local b b' pos hi Hl); auto;
      try (eapply agree_sub; [exact Ha | lia | lia]).
    destruct (readPage readObjects b pos) as [[page k]|e] eqn:E; [|reflexivity].
    pose proof E as E'. apply readPage_inv in E'.
    destruct E' as (w & wi & st & dev & fmt & Hv & _ & _ & _ & _ & Hh).
    destruct Hv as [_ _ _ _ _ _ _ Hst _].
    rewrite <- (agree_readUInt32LE b b' pos hi (pos + 12)) by (auto; lia).
    rewrite Hst. f_equal. f_equal.
    replace st with (status (header page)) by (rewrite Hh; reflexivity).
    apply withStatus_same.
  Qed.
End PageLocality.

(** ** The walk over the pages of an image *)

Lemma agree_beyond (b b' : Buffer) (lo hi : Z) :
  len b = len b' -> agree b b' lo (len b) -> agree b b' lo hi.
Proof.
  intros Hl Ha i Hi. unfold len in *.
  destruct (Z_lt_le_dec (Z.of_nat i) (Z.of_nat (length b))) as [Hlt | Hge].
  - apply Ha. lia.
  - assert (E1 : nth_error b i = None) by (apply nth_error_None; lia).
    assert (E2 : nth_error b' i = None) by (apply nth_error_None; lia).
    congruence.
Qed.

Section Walk.
  Variable readObjects : Buffer -> result (list NVMObject).

  Local Abbreviation readPage' := (readPage readObjects).
  Local Abbreviation readPages' := (readPages readObjects).

  (** More fuel than the bytes that are left changes nothing: the loop of
      [parseNVM] ends by itself. *)
Lemma readPages_fuel (fuel : nat) :
    forall (buffer : Buffer) (pos : Z),
      0 <= pos -> len buffer - pos <= Z.of_nat fuel ->
      readPages' (S fuel) buffer pos = readPages' fuel buffer pos.
  Proof.
    induction fuel as [|fuel IH]; intros buffer pos H0 Hf.
    - cbn [readPages].
      destruct (pos <? len buffer) eqn:E; [|reflexivity].
      apply Z.ltb_lt in E. lia.
    - change (readPages' (S (S fuel)) buffer pos)
        with (if pos <? len buffer
              then bind (readPage' buffer pos)
                        (fun '(page, bytesRead) =>
                           bind (readPages' (S fuel) buffer (pos + bytesRead))
                                (fun pages => OK (page :: pages)))
              else OK []).
      change (readPages' (S fuel) buffer pos)
        with (if pos <? len buffer
              then bind (readPage' buffer pos)
                        (fun '(page, bytesRead) =>
                           bind (readPages' fuel buffer (pos + bytesRead))
                                (fun pages => OK (page :: pages)))
              else OK []).
      destruct (pos <? len buffer); [|reflexivity].
      destruct (readPage' buffer pos) as [[page k]|e] eqn:E; [|reflexivity].
      cbn [bind]. apply readPage_bytesRead in E.
      rewrite IH by lia. reflexivity.
  Qed.

  (** The pages read from an offset on depend on the bytes from that offset
      on only. *)
Lemma readPages_agree (fuel : nat) :
    forall (b b' : Buffer) (pos : Z),
      len b = len b' -> agree b b' pos (len b) -> 0 <= pos ->
      readPages' fuel b' pos = readPages' fuel b pos.
  Proof.
    induction fuel as [|fuel IH]; intros b b' pos Hl Ha H0; cbn [readPages];
      rewrite <- Hl; [reflexivity|].
    destruct (pos <? len b) eqn:Elt; [|reflexivity].
    assert (Ep : readPage' b' pos = readPage' b pos).
    { apply (readPage_local_same readObjects b b' pos (pos + 2048) Hl).
      - now apply agree_beyond.
      - lia.
      - intros dev _. unfold FLASH_MAX_PAGE_SIZE. lia. }
    rewrite Ep.
    destruct (readPage' b pos) as [[page k]|e] eqn:E; [|reflexivity].
    cbn [bind]. apply readPage_bytesRead in E.
    rewrite (IH b b' (pos + k) Hl); [reflexivity | | lia].
    eapply agree_sub; [exact Ha | lia | lia].
  Qed.

  (** The walk up to a page at [o]: the pages before it, the page, and the
      pages after it; a buffer of the same length that holds the same bytes
      before [o] is read alike up to that page. *)
Lemma readPages_split (fuel : nat) :
    forall (b : Buffer) (pos : Z) (pages : list NVMPage) (o : Z),
      readPages' fuel b pos = OK pages ->
      In o (pageOffsets pages) ->
      0 <= pos ->
      exists pre page k post fuel',
        pages = pre ++ page :: post
        /\ readPage' b o = OK (page, k)
        /\ readPages' fuel' b (o + k) = OK post
        /\ pos <= o
        /\ forall b',
            len b = len b' -> agree b b' pos o ->
            readPages' fuel b' pos
            = bind (readPage' b' o)
                   (fun '(page', k') =>
                      bind (readPages' fuel' b' (o + k'))
                           (fun post' => OK (pre ++ page' :: post'))).
  Proof.
    induction fuel as [|fuel IH]; intros b pos pages o E Hin H0.
    - cbn [readPages] in E. destruct (pos <? len b); apply (OK_inj _) in E;
        subst pages; contradiction.
    - cbn [readPages] in E.
      destruct (pos <? len b) eqn:Elt;
        [|apply (OK_inj _) in E; subst pages; contradiction].
      destruct (readPage' b pos) as [[page0 k0]|e] eqn:E0; [|discriminate].
      cbn [bind] in E.
      destruct (readPages' fuel b (pos + k0)) as [rest|e] eqn:Er; [|discriminate].
      cbn [bind] in E. apply (OK_inj _) in E. subst pages.
      pose proof (readPage_bytesRead readObjects b pos page0 k0 E0)
        as (_ & Hk & Hfit & Hoff).
      destruct Hin as [Ho | Hin].
      + subst o. rewrite Hoff.
        exists [], page0, k0, rest, fuel.
        split; [reflexivity|]. split; [exact E0|]. split; [exact Er|].
        split; [lia|].
        intros b' Hl _. cbn [readPages]. rewrite <- Hl, Elt. reflexivity.
      + destruct (IH b (pos + k0) rest o Er Hin ltac:(lia))
          as (pre & page & k & post & fuel' & -> & Ep & Epost & Hle & Hb').
        exists (page0 :: pre), page, k, post, fuel'.
        split; [reflexivity|]. split; [exact Ep|]. split; [exact Epost|].
        split; [lia|].
        intros b' Hl Ha. cbn [readPages]. rewrite <- Hl, Elt.
        assert (E0' : readPage' b' pos = readPage' b pos).
        { apply (readPage_local_same readObjects b b' pos o Hl Ha); [lia|].
          intros dev Hdev. apply readPage_inv in E0.
          destruct E0 as (w & wi & st & dev' & fmt & Hv & _ & Hk0 & _).
          destruct Hv as [_ _ _ _ _ _ _ _ Hdev'].
          rewrite Hdev in Hdev'. apply (OK_inj _) in Hdev'. subst dev'.
          lia. }
        rewrite E0', E0. cbn [bind].
        rewrite (Hb' b' Hl) by (eapply agree_sub; [exact Ha | lia | lia]).
        destruct (readPage' b' o) as [[page' k']|e]; [|reflexivity].
        cbn [bind].
        destruct (readPages' fuel' b' (o + k')) as [post'|e]; reflexivity.
  Qed.
End Walk.

(** ** The page status plays no part in [parseNVM] *)

Lemma sameButStatus_refl (p : NVMPage) : sameButStatus p p.
Proof. unfold sameButStatus. symmetry. apply withStatus_same. Qed.

Lemma sameButStatus_withStatus (s : Z) (p : NVMPage) :
  sameButStatus p (withStatus s p).
Proof. reflexivity. Qed.

Lemma sameButStatus_trans (p1 p2 p3 : NVMPage) :
  sameButStatus p1 p2 -> sameButStatus p2 p3 -> sameButStatus p1 p3.
Proof.
  unfold sameButStatus. intros H12 H23. rewrite H23 at 1. rewrite H12 at 1.
  reflexivity.
Qed.

Lemma sameButStatus_fields (p1 p2 : NVMPage) :
  sameButStatus p1 p2 ->
  offset (header p2) = offset (header p1)
  /\ eraseCount (header p2) = eraseCount (header p1)
  /\ objects p2 = objects p1.
Proof. unfold sameButStatus. intros ->. auto. Qed.

Lemma Forall2_refl (A : Type) (R : A -> A -> Prop) (l : list A) :
  (forall x, R x x) -> Forall2 R l l.
Proof. intros HR. induction l; constructor; auto. Qed.

Lemma Forall2_trans (A : Type) (R : A -> A -> Prop) (l1 l2 l3 : list A) :
  (forall x y z, R x y -> R y z -> R x z) ->
  Forall2 R l1 l2 -> Forall2 R l2 l3 -> Forall2 R l1 l3.
Proof.
  intros HR H12. revert l3. induction H12 as [|x y l1 l2 Hxy H12 IH]; intros l3 H23;
    inversion H23; subst; constructor; eauto.
Qed.

Lemma Forall2_filter (A : Type) (R : A -> A -> Prop) (f : A -> bool) (l l' : list A) :
  (forall x x', R x x' -> f x = f x') ->
  Forall2 R l l' -> Forall2 R (filter f l) (filter f l').
Proof.
  intros Hf. induction 1 as [|x x' l l' Hx Hl IH]; simpl; [constructor|].
  rewrite <- (Hf x x' Hx). destruct (f x); [constructor|]; auto.
Qed.

Lemma Forall2_insert (A : Type) (R : A -> A -> Prop) (cmp : A -> A -> Z)
      (x x' : A) (l l' : list A) :
  (forall a a' c c', R a a' -> R c c' -> cmp a c = cmp a' c') ->
  R x x' -> Forall2 R l l' -> Forall2 R (insert cmp x l) (insert cmp x' l').
Proof.
  intros Hc Hx. induction 1 as [|y y' l l' Hy Hl IH]; simpl.
  - repeat constructor. exact Hx.
  - rewrite <- (Hc x x' y y' Hx Hy).
    destruct (cmp x y <=? 0); repeat constructor; auto.
Qed.

Lemma Forall2_sort (A : Type) (R : A -> A -> Prop) (cmp : A -> A -> Z)
      (l l' : list A) :
  (forall a a' c c', R a a' -> R c c' -> cmp a c = cmp a' c') ->
  Forall2 R l l' -> Forall2 R (sort cmp l) (sort cmp l').
Proof.
  intros Hc. induction 1 as [|x x' l l' Hx Hl IH]; simpl; [constructor|].
  now apply Forall2_insert.
Qed.

Lemma Forall2_objects (l l' : list NVMPage) :
  Forall2 sameButStatus l l' -> List.map objects l' = List.map objects l.
Proof.
  induction 1 as [|x x' l l' Hx Hl IH]; simpl; [reflexivity|].
  apply sameButStatus_fields in Hx. destruct Hx as (_ & _ & ->). now rewrite IH.
Qed.

Lemma comparePages_sameButStatus (a a' c c' : NVMPage) :
  sameButStatus a a' -> sameButStatus c c' -> comparePages a c = comparePages a' c'.
Proof.
  intros Ha Hc. apply sameButStatus_fields in Ha, Hc.
  destruct Ha as (Ha1 & Ha2 & _). destruct Hc as (Hc1 & Hc2 & _).
  unfold comparePages. now rewrite Ha1, Ha2, Hc1, Hc2.
Qed.

Lemma sameObjects_refl (r : result ParsedNVM) : sameObjects r r.
Proof.
  destruct r as [p|e]; simpl; auto.
  repeat split; apply Forall2_refl, sameButStatus_refl.
Qed.

Lemma sameObjects_trans (r1 r2 r3 : result ParsedNVM) :
  sameObjects r1 r2 -> sameObjects r2 r3 -> sameObjects r1 r3.
Proof.
  destruct r1 as [p1|e1], r2 as [p2|e2], r3 as [p3|e3]; simpl; try tauto;
    try congruence.
  intros (A1 & B1 & C1 & D1) (A2 & B2 & C2 & D2).
  repeat split; try congruence;
    eapply Forall2_trans; eauto using sameButStatus_trans.
Qed.

Section StatusFacts.
  Variable readObjects : Buffer -> result (list NVMObject).

  (** What [parseNVM] makes of the pages it has read. *)
Lemma parseNVM_pages (buffer : Buffer) :
    parseNVM readObjects buffer
    = bind (readPages readObjects (length buffer) buffer 0)
           (fun pages =>
              let applicationPages :=
                sort comparePages (filter inApplicationRegion pages) in
              let protocolPages :=
                sort comparePages (filter inProtocolRegion pages) in
              OK (mkParsed applicationPages protocolPages
                           (compressObjects (allObjects applicationPages))
                           (compressObjects (allObjects protocolPages)))).
  Proof. reflexivity. Qed.

Lemma parseNVM_sameButStatus (b b' : Buffer) (pages pages' : list NVMPage) :
    readPages readObjects (length b) b 0 = OK pages ->
    readPages readObjects (length b') b' 0 = OK pages' ->
    Forall2 sameButStatus pages pages' ->
    sameObjects (parseNVM readObjects b) (parseNVM readObjects b').
  Proof.
    intros E E' HF. rewrite !parseNVM_pages, E, E'. cbn [bind].
    assert (Ha : Forall2 sameButStatus
                   (sort comparePages (filter inApplicationRegion pages))
                   (sort comparePages (filter inApplicationRegion pages'))).
    { apply Forall2_sort; [apply comparePages_sameButStatus|].
      apply Forall2_filter; [|exact HF].
      intros x x' Hx. apply sameButStatus_fields in Hx.
      unfold inApplicationRegion. destruct Hx as (-> & _). reflexivity. }
    assert (Hp : Forall2 sameButStatus
                   (sort comparePages (filter inProtocolRegion pages))
                   (sort comparePages (filter inProtocolRegion pages'))).
    { apply Forall2_sort; [apply comparePages_sameButStatus|].
      apply Forall2_filter; [|exact HF].
      intros x x' Hx. apply sameButStatus_fields in Hx.
      unfold inProtocolRegion. destruct Hx as (-> & _). reflexivity. }
    cbn [sameObjects applicationObjects protocolObjects applicationPages
         protocolPages].
    rewrite !allObjects_concat.
    rewrite (Forall2_objects _ _ Ha), (Forall2_objects _ _ Hp).
    auto.
  Qed.

  (** One status word overwritten: the same pages are read, but for the
      status of the page, which is the word written. *)
Lemma readPages_status (b : Buffer) (pages : list NVMPage) (o : Z) (s : list byte) :
    readPages readObjects (length b) b 0 = OK pages ->
    In o (pageOffsets pages) ->
    length s = 4%nat ->
    exists pre page post st,
      pages = pre ++ page :: post
      /\ offset (header page) = o
      /\ readUInt32LE (writeBytes b (o + 12) s) (o + 12) = OK st
      /\ readPages readObjects (length (writeBytes b (o + 12) s))
                   (writeBytes b (o + 12) s) 0
         = OK (pre ++ withStatus st page :: post).
  Proof.
    intros E Hin Hs.
    destruct (readPages_split readObjects (length b) b 0 pages o E Hin ltac:(lia))
      as (pre & page & k & post & fuel' & -> & Ep & Epost & Hle & Hb').
    pose proof (readPage_bytesRead readObjects b o page k Ep)
      as (H0 & Hk & Hfit & Hoff).
    set (b' := writeBytes b (o + 12) s).
    assert (Hin' : o + 12 + Z.of_nat (length s) <= len b) by lia.
    assert (Hl : len b = len b')
      by (symmetry; apply writeBytes_len; lia).
    assert (Hll : length b' = length b)
      by (apply writeBytes_length; lia).
    assert (Hbefore : forall lo, agree b b' lo (o + 12))
      by (intros lo; apply writeBytes_agree_before; lia).
    assert (Hafter : forall hi, agree b b' (o + 16) hi).
    { intros hi. replace (o + 16) with (o + 12 + Z.of_nat (length s)) by lia.
      apply writeBytes_agree_after; lia. }
    destruct (readUInt32LE_same_len b b' (o + 12) Hl)
      as [[Eb _] | (v & st & _ & Est)].
    { apply readPage_inv in Ep.
      destruct Ep as (w & wi & st0 & dev & fmt & [_ _ _ _ _ _ _ Hst _] & _).
      congruence. }
    exists pre, page, post, st.
    split; [reflexivity|]. split; [exact Hoff|]. split; [exact Est|].
    rewrite Hll.
    rewrite (Hb' b' Hl) by (eapply agree_sub; [apply (Hbefore 0) | lia | lia]).
    rewrite (readPage_local readObjects b b' o (o + 2048) Hl);
      [ | eapply agree_sub; [apply (Hbefore o) | lia | lia]
        | apply Hafter | lia
        | intros dev _; unfold FLASH_MAX_PAGE_SIZE; lia ].
    rewrite Ep, Est. cbn [bind].
    rewrite (readPages_agree readObjects fuel' b b' (o + k) Hl);
      [ | eapply agree_sub; [apply (Hafter (len b)) | lia | lia] | lia ].
    rewrite Epost. reflexivity.
  Qed.

  (** C10.  Two images that differ only in status words of their pages are
      parsed alike: either both are refused with the same error, or both are
      decoded, into the same pages but for their status, the same
      [applicationObjects] and the same [protocolObjects]. *)
Theorem parseNVM_ignores_page_status (b b' : Buffer) :
    statusVariant readObjects b b' ->
    sameObjects (parseNVM readObjects b) (parseNVM readObjects b').
  Proof.
    induction 1 as [b | b b' pages o s Hv IH E Hin Hs].
    - apply sameObjects_refl.
    - eapply sameObjects_trans; [exact IH|].
      destruct (readPages_status b' pages o s E Hin Hs)
        as (pre & page & post & st & -> & _ & _ & E').
      apply (parseNVM_sameButStatus _ _ _ _ E E').
      apply Forall2_app; [apply Forall2_refl, sameButStatus_refl|].
      constructor; [apply sameButStatus_withStatus|].
      apply Forall2_refl, sameButStatus_refl.
  Qed.
End StatusFacts.

(** ** The erase-count words *)

Lemma counter_mask : NVM3_PAGE_COUNTER_MASK = Z.ones 27.
Proof. reflexivity. Qed.

Lemma toInt32_mod (z : Z) : toInt32 z mod 2 ^ 27 = z mod 2 ^ 27.
Proof.
  unfold toInt32.
  rewrite (Z.mod_eq (z + 2 ^ 31) (2 ^ 32)) by (pow2; lia).
  replace (z + 2 ^ 31 - 2 ^ 32 * ((z + 2 ^ 31) / 2 ^ 32) - 2 ^ 31)
    with (z + (- (32 * ((z + 2 ^ 31) / 2 ^ 32))) * 2 ^ 27) by (pow2; lia).
  apply Z.mod_add. pow2. lia.
Qed.

Lemma js_and_mask (w : Z) : js_and w NVM3_PAGE_COUNTER_MASK = w mod 2 ^ 27.
Proof. rewrite counter_mask, js_and_ones by lia. apply toInt32_mod. Qed.

Lemma js_ushr_counter (w : Z) :
  0 <= w < 2 ^ 32 -> js_ushr w NVM3_PAGE_COUNTER_SIZE = w / 2 ^ 27.
Proof.
  intros Hw. unfold js_ushr, toUint32, NVM3_PAGE_COUNTER_SIZE.
  rewrite (Z.mod_small w) by assumption.
  change (27 mod 32) with 27. apply Z.shiftr_div_pow2. lia.
Qed.

Lemma js_complement (x : Z) :
  js_and (js_not x) NVM3_PAGE_COUNTER_MASK = Z.land (Z.lnot x) (Z.ones 27).
Proof.
  rewrite js_and_mask. rewrite Z.land_ones by lia.
  unfold js_not. rewrite toInt32_mod.
  unfold Z.lnot.
  assert (E : (toInt32 x - x) mod 2 ^ 27 = 0).
  { rewrite Zminus_mod, toInt32_mod, Z.sub_diag. reflexivity. }
  set (y := toInt32 x) in *.
  pose proof (Z.div_mod (y - x) (2 ^ 27) ltac:(pow2; lia)) as D.
  rewrite E in D.
  replace (Z.pred (- x)) with (Z.pred (- y) + ((y - x) / 2 ^ 27) * 2 ^ 27) by lia.
  now rewrite Z.mod_add by (pow2; lia).
Qed.

Lemma flipBit_code (B : byte) (j : Z) :
  3 <= j <= 7 ->
  byte_to_Z (flipBit B j) mod 8 = byte_to_Z B mod 8
  /\ byte_to_Z (flipBit B j) / 8 = Z.lxor (byte_to_Z B / 8) (2 ^ (j - 3))
  /\ byte_to_Z (flipBit B j) / 8 <> byte_to_Z B / 8.
Proof.
  intros Hj.
  assert (C : j = 3 \/ j = 4 \/ j = 5 \/ j = 6 \/ j = 7) by lia.
  destruct C as [-> | [-> | [-> | [-> | ->]]]]; destruct B; vm_compute;
    (split; [reflexivity | split; [reflexivity | discriminate]]).
Qed.

Lemma word_split (lo B : Z) :
  0 <= lo < 2 ^ 24 -> 0 <= B < 256 ->
  (lo + 2 ^ 24 * B) mod 2 ^ 27 = lo + 2 ^ 24 * (B mod 8)
  /\ (lo + 2 ^ 24 * B) / 2 ^ 27 = B / 8.
Proof.
  intros Hlo HB.
  pose proof (Z.div_mod B 8 ltac:(lia)) as D.
  pose proof (Z.mod_pos_bound B 8 ltac:(lia)) as R.
  assert (E : lo + 2 ^ 24 * B = (B / 8) * 2 ^ 27 + (lo + 2 ^ 24 * (B mod 8)))
    by (pow2; lia).
  rewrite E. split.
  - rewrite Z.add_comm, Z.mod_add by (pow2; lia).
    apply Z.mod_small. pow2. lia.
  - rewrite Z.add_comm, Z.div_add by (pow2; lia).
    rewrite Z.div_small by (pow2; lia). lia.
Qed.

Section BergerFacts.
  Variable readObjects : Buffer -> result (list NVMObject).

Lemma readUInt32LE_value (b : Buffer) (i w : Z) :
    readUInt32LE b i = OK w ->
    w = (at_ b i + 2 ^ 8 * at_ b (i + 1) + 2 ^ 16 * at_ b (i + 2))
        + 2 ^ 24 * at_ b (i + 3)
    /\ 0 <= i /\ i + 4 <= len b.
  Proof.
    intros E. pose proof (readUInt32LE_OK b i w E) as Hb.
    unfold readUInt32LE in E. destruct (inBounds b i 4); [|discriminate].
    apply (OK_inj Z) in E. split; [|exact Hb]. rewrite <- E. ring.
  Qed.

Lemma readPage_flipped (b : Buffer) (pos j : Z) (page : NVMPage) (k w : Z) :
    readPage readObjects b pos = OK (page, k) ->
    readUInt32LE b (pos + 4) = OK w ->
    3 <= j <= 7 ->
    readPage readObjects (flipBitAt b (pos + 7) j) pos
    = Err BergerCodeError.
  Proof.
    intros E Hw Hj.
    pose proof (readPage_bytesRead readObjects b pos page k E)
      as (H0 & Hk & Hfit & _).
    apply readPage_inv in E.
    destruct E as (w0 & wi & st & dev & fmt & Hv & _).
    destruct Hv as [Hver Hmag Hw0 Hcode _ _ _ _ _].
    rewrite Hw in Hw0. apply (OK_inj Z) in Hw0. subst w0.
    set (B := nth (Z.to_nat (pos + 7)) b x00).
    set (b' := flipBitAt b (pos + 7) j).
    assert (Hin : pos + 7 + Z.of_nat (length [flipBit B j]) <= len b)
      by (simpl length; lia).
    assert (Hl : len b = len b')
      by (symmetry; apply writeBytes_len; [lia | exact Hin]).
    assert (Hbefore : agree b b' pos (pos + 7))
      by (apply writeBytes_agree_before; [lia | exact Hin]).
    assert (HB : at_ b' (pos + 7) = byte_to_Z (flipBit B j)).
    { unfold at_. f_equal. apply nth_error_nth. unfold b', flipBitAt. fold B.
      rewrite nth_error_writeBytes by (lia || exact Hin).
      assert (E1 : (Z.to_nat (pos + 7) <? Z.to_nat (pos + 7))%nat = false)
        by (apply Nat.ltb_irrefl).
      assert (E2 : (Z.to_nat (pos + 7) <? Z.to_nat (pos + 7) + length [flipBit B j])%nat
                   = true) by (apply Nat.ltb_lt; simpl length; lia).
      rewrite E1, E2, Nat.sub_diag. reflexivity. }
    destruct (readUInt32LE_value b (pos + 4) w Hw) as (Ew & _ & _).
    replace (pos + 4 + 1) with (pos + 5) in Ew by lia.
    replace (pos + 4 + 2) with (pos + 6) in Ew by lia.
    replace (pos + 4 + 3) with (pos + 7) in Ew by lia.
    set (lo := at_ b (pos + 4) + 2 ^ 8 * at_ b (pos + 5) + 2 ^ 16 * at_ b (pos + 6))
      in Ew.
    assert (Hlo : 0 <= lo < 2 ^ 24).
    { unfold lo. pose proof (at_range b (pos + 4)). pose proof (at_range b (pos + 5)).
      pose proof (at_range b (pos + 6)). pow2. lia. }
    assert (Ew' : readUInt32LE b' (pos + 4)
                  = OK (lo + 2 ^ 24 * byte_to_Z (flipBit B j))).
    { unfold readUInt32LE.
      assert (Eb : inBounds b' (pos + 4) 4 = true)
        by (apply inBounds_true; lia).
      rewrite Eb. f_equal.
      replace (pos + 4 + 1) with (pos + 5) by lia.
      replace (pos + 4 + 2) with (pos + 6) by lia.
      replace (pos + 4 + 3) with (pos + 7) by lia.
      rewrite HB.
      rewrite <- (agree_at b b' pos (pos + 7) (pos + 4)) by (auto; lia).
      rewrite <- (agree_at b b' pos (pos + 7) (pos + 5)) by (auto; lia).
      rewrite <- (agree_at b b' pos (pos + 7) (pos + 6)) by (auto; lia).
      unfold lo. ring. }
    assert (HBr : at_ b (pos + 7) = byte_to_Z B) by reflexivity.
    rewrite HBr in Ew.
    pose proof (byte_to_Z_range B) as RB.
    pose proof (byte_to_Z_range (flipBit B j)) as RB'.
    destruct (word_split lo (byte_to_Z B) Hlo RB) as (M1 & D1).
    destruct (word_split lo (byte_to_Z (flipBit B j)) Hlo RB') as (M2 & D2).
    destruct (flipBit_code B j Hj) as (F1 & F2 & F3).
    rewrite <- Ew in M1, D1.
    unfold readPage.
    rewrite <- (agree_readUInt16LE b b' pos (pos + 7) pos) by (auto; lia).
    rewrite <- (agree_readUInt16LE b b' pos (pos + 7) (pos + 2)) by (auto; lia).
    rewrite Hver, Hmag. cbn [bind]. rewrite Z.eqb_refl. cbn [negb].
    change (1 =? 1) with true. cbn [negb].
    rewrite Ew'. cbn [bind].
    rewrite js_and_mask, js_ushr_counter by (pow2; lia).
    rewrite M2, D2, F1, F2, <- M1, <- D1.
    rewrite js_and_mask, js_ushr_counter in Hcode
      by (apply (readUInt32LE_range b (pos + 4)); exact Hw).
    unfold validateBergerCode. rewrite Hcode.
    assert (Ene : (w / 2 ^ 27 =? Z.lxor (w / 2 ^ 27) (2 ^ (j - 3))) = false).
    { apply Z.eqb_neq. rewrite D1, <- F2. auto. }
    rewrite Ene. reflexivity.
  Qed.

  (** C6, as the code has it.  Of a page that [readPage] decodes, the Berger
      code of the stored 27-bit erase count is the stored 5-bit code, likewise
      for the inverted word, and the erase count is
      [~eraseCountInv & ((1 << 27) - 1)].  A page of the supported version
      that fails one of the checks is refused, with the error of
      [validateBergerCode] or with "Invalid erase count!".  Hence, in an image
      that [parseNVM] reads up to a page, flipping one bit of the code of the
      erase count of that page makes [parseNVM] fail with the Berger error.
      [readPage] hands the count, the code and the width to
      [validateBergerCode] and lets its error pass: the error does not tell
      the offset of the page. *)
Theorem eraseCount_integrity (buffer : Buffer) (pos w wi : Z) :
    readUInt32LE buffer (pos + 4) = OK w ->
    readUInt32LE buffer (pos + 8) = OK wi ->
    let count := w mod 2 ^ 27 in
    let code := w / 2 ^ 27 in
    let countInv := wi mod 2 ^ 27 in
    let codeInv := wi / 2 ^ 27 in
    (forall page k,
        readPage readObjects buffer pos = OK (page, k) ->
        eraseCount (header page) = count
        /\ computeBergerCode count 27 = code
        /\ computeBergerCode countInv 27 = codeInv
        /\ count = Z.land (Z.lnot countInv) (Z.ones 27))
    /\ (readUInt16LE buffer pos = OK 1 ->
        readUInt16LE buffer (pos + 2) = OK NVM3_PAGE_MAGIC ->
        (computeBergerCode count 27 <> code ->
         readPage readObjects buffer pos = Err BergerCodeError)
        /\ (computeBergerCode count 27 = code ->
            computeBergerCode countInv 27 <> codeInv ->
            readPage readObjects buffer pos = Err BergerCodeError)
        /\ (computeBergerCode count 27 = code ->
            computeBergerCode countInv 27 = codeInv ->
            count <> Z.land (Z.lnot countInv) (Z.ones 27) ->
            readPage readObjects buffer pos = Err InvalidEraseCount))
    /\ (forall pages j,
           readPages readObjects (length buffer) buffer 0 = OK pages ->
           In pos (pageOffsets pages) ->
           3 <= j <= 7 ->
           parseNVM readObjects (flipBitAt buffer (pos + 7) j)
           = Err BergerCodeError).
  Proof.
    intros Hw Hwi count code countInv codeInv.
    pose proof (readUInt32LE_range buffer (pos + 4) w Hw) as Rw.
    pose proof (readUInt32LE_range buffer (pos + 8) wi Hwi) as Rwi.
    split; [|split].
    - intros page k E. apply readPage_inv in E.
      destruct E as (w0 & wi0 & st & dev & fmt & Hv & _ & _ & _ & _ & Hh).
      destruct Hv as [_ _ Hw0 Hcode Hwi0 Hcodei Hcompl _ _].
      rewrite Hw in Hw0. apply (OK_inj Z) in Hw0. subst w0.
      rewrite Hwi in Hwi0. apply (OK_inj Z) in Hwi0. subst wi0.
      rewrite js_complement, !js_and_mask in Hcompl.
      rewrite js_and_mask, js_ushr_counter in Hcode, Hcodei by assumption.
      rewrite Hh. cbn [eraseCount]. rewrite js_and_mask. auto.
    - intros Hver Hmag.
      unfold readPage. rewrite Hver, Hmag. cbn [bind]. rewrite Z.eqb_refl.
      cbn [negb]. change (1 =? 1) with true. cbn [negb].
      rewrite Hw. cbn [bind].
      rewrite !js_and_mask, !js_ushr_counter by assumption.
      fold count code.
      change NVM3_PAGE_COUNTER_SIZE with 27.
      split; [|split].
      + intros Hne. unfold validateBergerCode at 1.
        apply Z.eqb_neq in Hne. rewrite Hne. reflexivity.
      + intros He Hne. unfold validateBergerCode at 1.
        rewrite He, Z.eqb_refl. cbn [bind].
        rewrite Hwi. cbn [bind].
        rewrite !js_and_mask, !js_ushr_counter by assumption.
        fold countInv codeInv. unfold validateBergerCode.
        apply Z.eqb_neq in Hne. rewrite Hne. reflexivity.
      + intros He Hei Hne. unfold validateBergerCode at 1.
        rewrite He, Z.eqb_refl. cbn [bind].
        rewrite Hwi. cbn [bind].
        rewrite js_complement, !js_and_mask, !js_ushr_counter by assumption.
        fold countInv codeInv. unfold validateBergerCode.
        rewrite Hei, Z.eqb_refl. cbn [bind].
        apply Z.eqb_neq in Hne. rewrite Hne. reflexivity.
    - intros pages j E Hin Hj.
      destruct (readPages_split readObjects (length buffer) buffer 0 pages pos
                  E Hin ltac:(lia))
        as (pre & page & k & post & fuel' & -> & Ep & Epost & Hle & Hb').
      pose proof (readPage_bytesRead readObjects buffer pos page k Ep)
        as (H0 & Hk & Hfit & _).
      set (b' := flipBitAt buffer (pos + 7) j).
      assert (Hin' : pos + 7 + Z.of_nat (length [flipBit (nth (Z.to_nat (pos + 7))
                                                 buffer x00) j]) <= len buffer)
        by (simpl length; lia).
      assert (Hl : len buffer = len b')
        by (symmetry; apply writeBytes_len; [lia | exact Hin']).
      assert (Hll : length b' = length buffer)
        by (apply writeBytes_length; [lia | exact Hin']).
      rewrite parseNVM_pages, Hll.
      rewrite (Hb' b' Hl)
        by (eapply agree_sub;
            [apply (writeBytes_agree_before buffer (pos + 7) _ 0);
             [lia | exact Hin'] | lia | lia]).
      unfold b'. rewrite (readPage_flipped buffer pos j page k w Ep Hw Hj).
      reflexivity.
  Qed.
End BergerFacts.

(** ** The capacity of a region *)

Lemma alignedDelta_4 (n : Z) :
  0 <= n < 2 ^ 31 - 3 -> alignedDelta 4 n = 4 * ((n + 3) / 4).
Proof.
  intros Hn. unfold alignedDelta.
  replace (n + 4 - 1) with (n + 3) by lia.
  change (js_not (4 - 1)) with (-4).
  unfold js_and. rewrite (toInt32_small (n + 3)) by (pow2; lia).
  change (toInt32 (-4)) with (Z.lnot (Z.ones 2)).
  rewrite <- Z.ldiff_land, Z.ldiff_ones_r by lia.
  rewrite Z.shiftl_mul_pow2, Z.shiftr_div_pow2 by lia.
  change (2 ^ 2) with 4.
  pose proof (Z.div_mod (n + 3) 4 ltac:(lia)) as D.
  pose proof (Z.mod_pos_bound (n + 3) 4 ltac:(lia)) as R.
  rewrite toInt32_small by (pow2; lia). lia.
Qed.

Lemma alignedDelta_4_ge (n : Z) :
  0 <= n < 2 ^ 31 - 3 -> n <= alignedDelta 4 n.
Proof.
  intros Hn. rewrite alignedDelta_4 by assumption.
  pose proof (Z.div_mod (n + 3) 4 ltac:(lia)) as D.
  pose proof (Z.mod_pos_bound (n + 3) 4 ltac:(lia)) as R. lia.
Qed.

Lemma totalDataLength_bound (bound : Z) (fs : list NVMObject) :
  Forall (fun g => dataLength g <= bound) fs ->
  totalDataLength fs <= Z.of_nat (length fs) * bound.
Proof.
  induction 1 as [|g fs Hg Hfs IH]; [simpl; lia|].
  change (totalDataLength (g :: fs)) with (dataLength g + totalDataLength fs).
  change (length (g :: fs)) with (S (length fs)). rewrite Nat2Z.inj_succ. lia.
Qed.

Section Capacity.
  Variables NVM3_OBJ_HEADER_SIZE_SMALL NVM_COUNTER_SIZE : Z.
  Variable NVM3_OBJ_HEADER_SIZE_LARGE : Z.
  Variable writeObject : NVMObject -> Buffer.
  Variable fragmentLargeObject : NVMObject -> Z -> Z -> list NVMObject.
  Variable pageSize : Z.
  Variable Page : Type.
  Variable put : NVMObject -> Z -> Page -> Page.

  Hypothesis pageSize_ge : NVM3_PAGE_HEADER_SIZE <= pageSize.
  Hypothesis headerLarge_nonneg : 0 <= NVM3_OBJ_HEADER_SIZE_LARGE.

  Local Abbreviation cost :=
    (objectCost NVM3_OBJ_HEADER_SIZE_SMALL NVM_COUNTER_SIZE
                NVM3_OBJ_HEADER_SIZE_LARGE).
  Local Abbreviation contract :=
    (SizeContract NVM3_OBJ_HEADER_SIZE_SMALL NVM_COUNTER_SIZE
                  NVM3_OBJ_HEADER_SIZE_LARGE writeObject fragmentLargeObject
                  pageSize).
  Local Abbreviation place :=
    (placeObject 4 NVM3_OBJ_HEADER_SIZE_SMALL NVM_COUNTER_SIZE
                 writeObject fragmentLargeObject put pageSize).
  Local Abbreviation placeAll :=
    (placeObjects 4 NVM3_OBJ_HEADER_SIZE_SMALL NVM_COUNTER_SIZE
                  writeObject fragmentLargeObject put pageSize).
  Local Abbreviation body := (pageSize - NVM3_PAGE_HEADER_SIZE).

  Local Abbreviation position := (position pageSize Page).

  Local Abbreviation placed := (placed pageSize Page).

Lemma placed_afterFragment (w : Writer Page) (f : NVMObject) (spent c : Z) :
    placed w spent ->
    c <= remainingSpace w ->
    c <= len (writeObject f) < 2 ^ 31 - 3 ->
    placed (afterFragment 4 writeObject pageSize Page put w f) (spent + c).
  Proof.
    intros (Hi & Hr & Hb & Hs) Hc Hlen.
    destruct (afterFragment_fields 4 writeObject pageSize Page put w f)
      as (Ai & Ao & Ar & Ap).
    destruct (putFragment_fields Page put w f) as (_ & _ & _ & Hl).
    pose proof (alignedDelta_4_ge (len (writeObject f))
                  ltac:(pose proof (len_nonneg (writeObject f)); lia)) as Hd.
    pose proof (len_nonneg (writeObject f)) as Hn.
    unfold placed, position, pageCountOf in *.
    rewrite Ar, Ao, Ai, Ap, Hl.
    repeat split; try lia.
  Qed.

Lemma placed_next (w : Writer Page) (spent : Z) :
    placed w spent ->
    pageIndex w + 1 < pageCountOf Page w ->
    placed (mkWriter (pages w) (pageIndex w + 1) NVM3_PAGE_HEADER_SIZE body) spent.
  Proof.
    intros (Hi & Hr & Hb & Hs) Hlt.
    unfold placed, position, pageCountOf in *. cbn [pageIndex pages offsetInPage
                                                   remainingSpace].
    repeat split; try lia; unfold NVM3_PAGE_HEADER_SIZE in *; nia.
  Qed.

Lemma placed_large (w w' : Writer Page) (obj : NVMObject) (spent : Z)
        (fragments : list NVMObject) :
    placed w spent ->
    LargeFit NVM3_OBJ_HEADER_SIZE_LARGE writeObject obj (remainingSpace w) body
             fragments ->
    writeFragments 4 writeObject put pageSize (1 <? Z.of_nat (length fragments))
                   w fragments = OK w' ->
    placed w' (spent + (NVM3_OBJ_HEADER_SIZE_LARGE + dataLength obj)).
  Proof.
    intros Hp Hfit E.
    destruct fragments as [|f [|g rest]]; [contradiction | |].
    - destruct Hfit as (Hfirst & Hlen).
      change (1 <? Z.of_nat (length [f])) with false in E.
      cbn [writeFragments] in E. rewrite writeFragment_single in E.
      cbn [bind] in E. apply (OK_inj _) in E. subst w'.
      now apply placed_afterFragment.
    - destruct Hfit as (Hf & Hrest & Htotal).
      assert (Es : (1 <? Z.of_nat (length (f :: g :: rest))) = true)
        by (apply Z.ltb_lt; simpl length; lia).
      rewrite Es in E.
      destruct Hp as (Hi & Hr & Hb & Hs).
      pose proof (writeFragments_several 4 writeObject pageSize Page put
                    (f :: g :: rest) w Hi) as Hall.
      rewrite E in Hall. destruct Hall as (Ei & Ho & El & _).
      destruct Ho as (Hlt & Eo & Er); [discriminate|].
      pose proof (totalDataLength_bound _ _ Hrest) as Hsum.
      change (totalDataLength (f :: g :: rest))
        with (dataLength f + totalDataLength (g :: rest)) in Htotal.
      set (K := Z.of_nat (length (g :: rest))) in *.
      assert (HK : 1 <= K) by (unfold K; simpl length; lia).
      assert (Ek : Z.of_nat (length (f :: g :: rest)) = 1 + K)
        by (unfold K; simpl length; lia).
      rewrite Ek in Ei.
      unfold placed, position, pageCountOf in *.
      rewrite Er, Eo, Ei, El.
      repeat split; try lia; unfold NVM3_PAGE_HEADER_SIZE in *; nia.
  Qed.

Lemma placeObject_placed (w w' : Writer Page) (obj : NVMObject) (spent : Z) :
    contract obj ->
    placed w spent ->
    place w obj = OK w' ->
    placed w' (spent + cost obj).
  Proof.
    intros [Hty Hsmall Hlarge] Hp E.
    unfold placeObject in E.
    destruct (ObjectType_eqb (type obj) Deleted) eqn:Ed.
    { apply ObjectType_eqb_eq in Ed. apply (OK_inj _) in E. subst w'.
      unfold objectCost. rewrite Ed. now rewrite Z.add_0_r. }
    assert (Hsmallcase :
              forall thr,
                thr <= body ->
                thr <= len (writeObject obj) < 2 ^ 31 - 3 ->
                bind (if remainingSpace w <? thr
                      then bind (nextPage pageSize w) (fun w1 => OK (w1, [obj]))
                      else OK (w, [obj]))
                     (fun '(w1, fragments) =>
                        writeFragments 4 writeObject put pageSize
                                       (1 <? Z.of_nat (length fragments))
                                       w1 fragments) = OK w' ->
                placed w' (spent + thr)).
    { intros thr Hfit Hlen E'.
      destruct (remainingSpace w <? thr) eqn:Erem.
      - destruct (nextPage_cases pageSize Page w) as [[_ En] | [Hlt En]];
          rewrite En in E'; cbn [bind] in E'; [discriminate|].
        change (1 <? Z.of_nat (length [obj])) with false in E'.
        cbn [writeFragments] in E'. rewrite writeFragment_single in E'.
        cbn [bind] in E'. apply (OK_inj _) in E'. subst w'.
        apply placed_afterFragment; [now apply placed_next | exact Hfit | exact Hlen].
      - apply Z.ltb_ge in Erem. cbn [bind] in E'.
        change (1 <? Z.of_nat (length [obj])) with false in E'.
        cbn [writeFragments] in E'. rewrite writeFragment_single in E'.
        cbn [bind] in E'. apply (OK_inj _) in E'. subst w'.
        now apply placed_afterFragment. }
    unfold chooseFragments in E.
    destruct (type obj) eqn:Et; cbn [ObjectType_eqb andb orb] in E;
      try discriminate; try (exfalso; apply Hty; reflexivity).
    - (* DataLarge *)
      cbn [bind] in E. unfold objectCost. rewrite Et.
      apply (placed_large w w' obj spent _ Hp (Hlarge (or_intror eq_refl) _) E).
    - (* CounterLarge *)
      cbn [bind] in E. unfold objectCost. rewrite Et.
      apply (placed_large w w' obj spent _ Hp (Hlarge (or_introl eq_refl) _) E).
    - (* CounterSmall *)
      destruct (Hsmall (or_introl eq_refl)) as (Hfit & Hlen).
      unfold objectCost in *. rewrite Et in *. rewrite orb_false_r in E.
      apply Hsmallcase; assumption.
    - (* DataSmall *)
      destruct (Hsmall (or_intror eq_refl)) as (Hfit & Hlen).
      unfold objectCost in *. rewrite Et in *.
      apply Hsmallcase; assumption.
  Qed.

Lemma placeObjects_placed (objs : list NVMObject) :
    forall (w w' : Writer Page) (spent : Z),
      Forall contract objs ->
      placed w spent ->
      placeAll w objs = OK w' ->
      placed w' (spent + totalCost NVM3_OBJ_HEADER_SIZE_SMALL NVM_COUNTER_SIZE
                                   NVM3_OBJ_HEADER_SIZE_LARGE objs).
  Proof.
    induction objs as [|obj objs IH]; intros w w' spent Hc Hp E.
    - cbn [placeObjects] in E. apply (OK_inj _) in E. subst w'.
      cbn [totalCost fold_right]. now rewrite Z.add_0_r.
    - cbn [placeObjects] in E.
      destruct (place w obj) as [w1|e] eqn:E1; [|discriminate].
      cbn [bind] in E. inversion Hc as [|? ? Hobj Hobjs]; subst.
      pose proof (placeObject_placed w w1 obj spent Hobj Hp E1) as Hp1.
      specialize (IH w1 w' _ Hobjs Hp1 E).
      cbn [totalCost fold_right].
      fold (totalCost NVM3_OBJ_HEADER_SIZE_SMALL NVM_COUNTER_SIZE
                      NVM3_OBJ_HEADER_SIZE_LARGE objs).
      now rewrite Z.add_assoc.
  Qed.

  (** A region that takes the objects holds them: if the placement succeeds,
      the cost of the objects is at most the capacity of the region. *)
Lemma writeObjectsWith_capacity (pages0 pages' : list Page) (objs : ObjectMap) :
    Forall contract (map_values objs) ->
    writeObjectsWith 4 NVM3_OBJ_HEADER_SIZE_SMALL NVM_COUNTER_SIZE writeObject
                     fragmentLargeObject put pageSize pages0 objs = OK pages' ->
    totalCost NVM3_OBJ_HEADER_SIZE_SMALL NVM_COUNTER_SIZE
              NVM3_OBJ_HEADER_SIZE_LARGE (map_values objs)
    <= Z.of_nat (length pages0) * body.
  Proof.
    intros Hc E. unfold writeObjectsWith in E.
    set (w0 := mkWriter pages0 (-1) (-1) (-1)) in E.
    destruct (nextPage_cases pageSize Page w0) as [[_ En] | [Hlt En]];
      rewrite En in E; cbn [bind] in E; [discriminate|].
    set (w1 := mkWriter (pages w0) (pageIndex w0 + 1) NVM3_PAGE_HEADER_SIZE body)
      in E.
    destruct (placeAll w1 (map_values objs)) as [w'|e] eqn:E'; [|discriminate].
    assert (Hp1 : placed w1 0).
    { unfold placed, position, pageCountOf in *. unfold w1, w0 in *.
      cbn [pageIndex pages offsetInPage remainingSpace] in *.
      repeat split; try lia. }
    pose proof (placeObjects_placed _ w1 w' 0 Hc Hp1 E') as (Hi & _ & Hb & Hs).
    pose proof (placeObjects_keeps 4 NVM3_OBJ_HEADER_SIZE_SMALL NVM_COUNTER_SIZE
                  writeObject fragmentLargeObject pageSize Page put
                  (fun _ => True) (fun _ _ _ _ => I) (map_values objs) w1) as Hk.
    rewrite E' in Hk. destruct Hk as (Hl & _).
    unfold position, pageCountOf in *. rewrite Hl in Hi.
    unfold w1, w0 in Hi. cbn [pages] in Hi.
    rewrite Z.add_0_l in Hs.
    unfold NVM3_PAGE_HEADER_SIZE in *. nia.
  Qed.
End Capacity.

Section SpaceFacts.
  Variables NVM3_WORD_SIZE NVM3_OBJ_HEADER_SIZE_SMALL NVM_COUNTER_SIZE : Z.
  Variable NVM3_OBJ_HEADER_SIZE_LARGE : Z.
  Variable writeObject : NVMObject -> Buffer.
  Variable fragmentLargeObject : NVMObject -> Z -> Z -> list NVMObject.

  Local Abbreviation encodeNVM' :=
    (encodeNVM NVM3_WORD_SIZE NVM3_OBJ_HEADER_SIZE_SMALL NVM_COUNTER_SIZE
               writeObject fragmentLargeObject).
  Local Abbreviation contract :=
    (SizeContract NVM3_OBJ_HEADER_SIZE_SMALL NVM_COUNTER_SIZE
                  NVM3_OBJ_HEADER_SIZE_LARGE writeObject fragmentLargeObject).
  Local Abbreviation cost :=
    (totalCost NVM3_OBJ_HEADER_SIZE_SMALL NVM_COUNTER_SIZE
               NVM3_OBJ_HEADER_SIZE_LARGE).

  (** C9.  [nextPage] fails with "Not enough pages!" when it is to advance past
      the last page of the region, and this is the only way in which
      [encodeNVM] fails for a page size that the page header can hold.  It does
      fail whenever the objects of a region, payloads and headers together,
      exceed the capacity of the region, the page bodies of its pages, provided
      the object codec is as the specification describes it: words of 4 bytes,
      objects serialized in at least header plus payload bytes, small objects
      that fit a page, large objects fragmented as section 4.2 says. *)
Theorem encodeNVM_insufficient_space
    (applicationObjects protocolObjects : ObjectMap) (options : EncodeNVMOptions) :
    256 < opt_pageSize options <= 65536 ->
    let pageSize := opt_pageSize options in
    let capacity (regionSize : Z) :=
      Z.of_nat (pageCount regionSize pageSize) * (pageSize - NVM3_PAGE_HEADER_SIZE) in
    (forall w : Writer Buffer,
        pageCountOf Buffer w <= pageIndex w + 1 ->
        nextPage pageSize w = Err NotEnoughPages)
    /\ (forall e,
           encodeNVM' applicationObjects protocolObjects options = Err e ->
           e = NotEnoughPages)
    /\ (NVM3_WORD_SIZE = 4 ->
        0 <= NVM3_OBJ_HEADER_SIZE_LARGE ->
        Forall (contract pageSize) (map_values applicationObjects) ->
        Forall (contract pageSize) (map_values protocolObjects) ->
        capacity ZWAVE_APPLICATION_NVM_SIZE < cost (map_values applicationObjects)
        \/ capacity ZWAVE_PROTOCOL_NVM_SIZE < cost (map_values protocolObjects) ->
        encodeNVM' applicationObjects protocolObjects options = Err NotEnoughPages).
  Proof.
    intros Hps pageSize capacity.
    assert (Honly : forall e,
               encodeNVM' applicationObjects protocolObjects options = Err e ->
               e = NotEnoughPages).
    { intros e. unfold encodeNVM.
      assert (E0 : (opt_pageSize options =? 0) = false) by (apply Z.eqb_neq; lia).
      rewrite E0.
      destruct (createEmptyPage_OK options Hps) as (page & Epage & _).
      rewrite !(createPages_OK options page _ Epage). cbn [bind].
      pose proof (writeObjects_keeps NVM3_WORD_SIZE NVM3_OBJ_HEADER_SIZE_SMALL
                    NVM_COUNTER_SIZE writeObject fragmentLargeObject
                    (opt_pageSize options) 0
                    (repeat page (pageCount ZWAVE_APPLICATION_NVM_SIZE
                                            (opt_pageSize options)))
                    applicationObjects) as Ha.
      destruct (writeObjects _ _ _ _ _ _ _ applicationObjects) as [pa|ea];
        cbn [bind]; [|congruence].
      pose proof (writeObjects_keeps NVM3_WORD_SIZE NVM3_OBJ_HEADER_SIZE_SMALL
                    NVM_COUNTER_SIZE writeObject fragmentLargeObject
                    (opt_pageSize options) 0
                    (repeat page (pageCount ZWAVE_PROTOCOL_NVM_SIZE
                                            (opt_pageSize options)))
                    protocolObjects) as Hp.
      destruct (writeObjects _ _ _ _ _ _ _ protocolObjects) as [pp|ep];
        cbn [bind]; [discriminate | congruence]. }
    split; [intros w; apply nextPage_Err|]. split; [exact Honly|].
    intros HW HL Ca Cp Hover.
    destruct (encodeNVM' applicationObjects protocolObjects options) as [buf|e]
      eqn:E; [|now rewrite (Honly e eq_refl)].
    exfalso. rewrite HW in E.
    destruct (encodeNVM_shape 4 NVM3_OBJ_HEADER_SIZE_SMALL NVM_COUNTER_SIZE
                writeObject fragmentLargeObject applicationObjects protocolObjects
                options buf Hps E)
      as (page & pa & pp & _ & Ea & Ep & _).
    unfold writeObjects in Ea, Ep.
    apply (writeObjectsWith_capacity NVM3_OBJ_HEADER_SIZE_SMALL NVM_COUNTER_SIZE
             NVM3_OBJ_HEADER_SIZE_LARGE writeObject fragmentLargeObject
             (opt_pageSize options) Buffer (putBytes writeObject)
             ltac:(unfold NVM3_PAGE_HEADER_SIZE; lia) HL) in Ea; [|exact Ca].
    apply (writeObjectsWith_capacity NVM3_OBJ_HEADER_SIZE_SMALL NVM_COUNTER_SIZE
             NVM3_OBJ_HEADER_SIZE_LARGE writeObject fragmentLargeObject
             (opt_pageSize options) Buffer (putBytes writeObject)
             ltac:(unfold NVM3_PAGE_HEADER_SIZE; lia) HL) in Ep; [|exact Cp].
    rewrite repeat_length in Ea, Ep. unfold capacity, pageSize in Hover. lia.
  Qed.
End SpaceFacts.

(** ** Compaction of the fragments of a live map *)

Lemma wellFormedObject_isWrite (obj : NVMObject) : wellFormedObject obj -> isWrite obj.
Proof.
  intros (Hf & [Ht | [Ht | [Ht | Ht]]]); unfold isWrite; auto.
Qed.

Lemma pending_delete_idem (k : Z) (p : Pending) :
  pending_delete k (pending_delete k p) = pending_delete k p.
Proof.
  induction p as [|[k' fs] p IH]; simpl; [reflexivity|].
  destruct (k' =? k) eqn:E; [exact IH|]. simpl. rewrite E. now rewrite IH.
Qed.

Lemma pending_get_set (k : Z) (fs : list NVMObject) (p : Pending) :
  pending_get k (pending_set k fs p) = Some fs.
Proof. unfold pending_set. simpl. now rewrite Z.eqb_refl. Qed.

Lemma pending_set_set (k : Z) (fs fs' : list NVMObject) (p : Pending) :
  pending_set k fs' (pending_set k fs p) = pending_set k fs' p.
Proof.
  unfold pending_set. simpl. rewrite Z.eqb_refl. now rewrite pending_delete_idem.
Qed.

Lemma pending_delete_set (k : Z) (fs : list NVMObject) (p : Pending) :
  pending_delete k (pending_set k fs p) = pending_delete k p.
Proof.
  unfold pending_set. simpl. rewrite Z.eqb_refl. apply pending_delete_idem.
Qed.

(** The next fragments of a chain are buffered after its first fragment. *)
Lemma compress_mids (k : Z) (t : ObjectType) (mids : list NVMObject) :
  forall (m : ObjectMap) (p : Pending) (acc : list NVMObject),
    isLargeType t ->
    Forall (fun f => fragmentType f = FragmentNext) mids ->
    Forall (fun f => key f = k /\ type f = t) mids ->
    fold_left compressStep mids (m, pending_set k acc p)
    = (m, pending_set k (acc ++ mids) p).
Proof.
  induction mids as [|f mids IH]; intros m p acc Ht Hn Hk.
  - simpl. now rewrite app_nil_r.
  - inversion Hn as [|? ? Hf Hn']; subst. inversion Hk as [|? ? [Hkf Htf] Hk']; subst.
    cbn [fold_left]. unfold compressStep at 2.
    assert (E : pending_get (key f) (pending_set (key f) acc p) = Some acc)
      by apply pending_get_set.
    destruct Ht as [Ht | Ht]; rewrite Ht, Hf, E, pending_set_set;
      rewrite (IH m p (acc ++ [f])); auto;
      try (now rewrite <- app_assoc); rewrite Ht; unfold isLargeType; auto.

Qed.

Lemma compress_chain (obj : NVMObject) (chain : list NVMObject)
      (m : ObjectMap) (p : Pending) :
  wellFormedObject obj ->
  FragmentChain obj chain ->
  exists p', fold_left compressStep chain (m, p) = (map_set (key obj) obj m, p').
Proof.
  intros Hwf [-> | (Hlarge & first & mids & last & -> & Hfirst & Hmids & Hlast & Hall & Hdata)].
  - exists p. cbn [fold_left]. apply compressStep_write.
    now apply wellFormedObject_isWrite.
  - exists (pending_delete (key obj) p).
    inversion Hall as [|? ? [Hk1 Ht1] Hall']; subst.
    apply Forall_app in Hall'. destruct Hall' as (Hkm & Hkl).
    inversion Hkl as [|? ? [Hk3 Ht3] _]; subst.
    cbn [fold_left]. rewrite fold_left_app. cbn [fold_left].
    assert (E1 : compressStep (m, p) first
                 = (m, pending_set (key obj) [first] p)).
    { unfold compressStep. rewrite Hfirst, Hk1, Ht1.
      destruct Hlarge as [-> | ->]; reflexivity. }
    rewrite E1.
    rewrite (compress_mids (key obj) (type obj) mids m p [first] Hlarge Hmids Hkm).
    unfold compressStep. rewrite Hlast, Hk3, Ht3, pending_get_set,
      pending_delete_set.
    assert (Eo : reassemble ([first] ++ mids) last = obj).
    { unfold reassemble. rewrite Hk3, Ht3.
      destruct Hwf as (Hnone & _). destruct obj as [t f k d]. cbn in *.
      subst f. rewrite Hdata. reflexivity. }
    rewrite Eo.
    destruct Hlarge as [-> | ->]; reflexivity.
Qed.

Lemma compress_chains (objs : list NVMObject) :
  forall (chains : list (list NVMObject)) (m : ObjectMap) (p : Pending),
    Forall wellFormedObject objs ->
    Forall2 FragmentChain objs chains ->
    exists p',
      fold_left compressStep (List.concat chains) (m, p)
      = (fold_left (fun m obj => map_set (key obj) obj m) objs m, p').
Proof.
  induction objs as [|obj objs IH]; intros chains m p Hwf Hch.
  - inversion Hch; subst. exists p. reflexivity.
  - inversion Hch as [|? chain ? chains' Hc Hcs]; subst.
    inversion Hwf as [|? ? Hobj Hobjs]; subst.
    cbn [List.concat]. rewrite fold_left_app.
    destruct (compress_chain obj chain m p Hobj Hc) as (p1 & ->).
    destruct (IH chains' (map_set (key obj) obj m) p1 Hobjs Hcs) as (p' & ->).
    exists p'. reflexivity.
Qed.

Lemma map_set_new (k : Z) (v : NVMObject) (m : ObjectMap) :
  ~ In k (List.map fst m) -> map_set k v m = m ++ [(k, v)].
Proof.
  induction m as [|[k' v'] m IH]; intros Hn; simpl; [reflexivity|].
  destruct (k' =? k) eqn:E.
  - apply Z.eqb_eq in E. subst k'. exfalso. apply Hn. now left.
  - rewrite IH; [reflexivity|]. intros Hin. apply Hn. now right.
Qed.

Lemma map_set_entries (m2 : ObjectMap) :
  forall m1 : ObjectMap,
    NoDup (List.map fst (m1 ++ m2)) ->
    Forall (fun e => fst e = key (snd e)) m2 ->
    fold_left (fun m obj => map_set (key obj) obj m) (map_values m2) m1 = m1 ++ m2.
Proof.
  induction m2 as [|[k v] m2 IH]; intros m1 Hnd Hk.
  - simpl. now rewrite app_nil_r.
  - inversion Hk as [|? ? Hkv Hk']; subst. cbn [fst snd] in Hkv. subst k.
    cbn [map_values List.map snd fold_left].
    rewrite map_set_new.
    + fold (map_values m2). rewrite IH; [now rewrite <- app_assoc | | exact Hk'].
      now rewrite <- app_assoc.
    + rewrite map_app in Hnd. apply NoDup_remove_2 in Hnd.
      intros Hin. apply Hnd. apply in_or_app. now left.
Qed.

(** The compaction of the chains of the objects of a live map, in the order of
    the map, is the map. *)
Lemma compressObjects_chains (m : ObjectMap) (chains : list (list NVMObject)) :
  WellFormedMap m ->
  Forall2 FragmentChain (map_values m) chains ->
  compressObjects (List.concat chains) = m.
Proof.
  intros (Hnd & Hwf) Hch. unfold compressObjects.
  destruct (compress_chains (map_values m) chains [] []) as (p' & Hc).
  - unfold map_values. apply Forall_map.
    eapply Forall_impl; [|exact Hwf]. intros e He. apply He.
  - exact Hch.
  - transitivity (fst (fold_left (fun m obj => map_set (key obj) obj m)
                                 (map_values m) [], p')).
    + f_equal. exact Hc.
    + cbn [fst]. rewrite (map_set_entries m []); [reflexivity | exact Hnd |].
      eapply Forall_impl; [|exact Hwf]. intros e He. apply He.
Qed.

(** ** The placement, told by fragments *)

Lemma setNth_split (A : Type) (i : nat) (x v : A) (l : list A) :
  nth_error l i = Some x ->
  l = firstn i l ++ x :: skipn (S i) l
  /\ setNth i v l = firstn i l ++ v :: skipn (S i) l.
Proof.
  revert i. induction l as [|y l IH]; intros [|i] E; simpl in *; try discriminate.
  - injection E as ->. auto.
  - destruct (IH i E) as (E1 & E2). rewrite <- E1, E2. auto.
Qed.

Lemma concat_nil_skipn (A : Type) (k : nat) (l : list (list A)) :
  List.concat l = [] -> List.concat (skipn k l) = [].
Proof.
  revert k. induction l as [|x l IH]; intros [|k] E; simpl in *; auto.
  apply app_eq_nil in E. destruct E as (_ & E). now apply IH.
Qed.

Section LogFacts.
  Variables NVM3_WORD_SIZE NVM3_OBJ_HEADER_SIZE_SMALL NVM_COUNTER_SIZE : Z.
  Variable writeObject : NVMObject -> Buffer.
  Variable fragmentLargeObject : NVMObject -> Z -> Z -> list NVMObject.
  Variable pageSize : Z.

  Local Abbreviation LogWriter := (Writer (list NVMObject)).
  Local Abbreviation writeFrags :=
    (writeFragments NVM3_WORD_SIZE writeObject putLog pageSize).
  Local Abbreviation place :=
    (placeObject NVM3_WORD_SIZE NVM3_OBJ_HEADER_SIZE_SMALL NVM_COUNTER_SIZE
                 writeObject fragmentLargeObject putLog pageSize).
  Local Abbreviation placeAll :=
    (placeObjects NVM3_WORD_SIZE NVM3_OBJ_HEADER_SIZE_SMALL NVM_COUNTER_SIZE
                  writeObject fragmentLargeObject putLog pageSize).
  Local Abbreviation after :=
    (afterFragment NVM3_WORD_SIZE writeObject pageSize (list NVMObject) putLog).


Lemma log_after (w : LogWriter) (f : NVMObject) :
    logInv w ->
    logInv (after w f)
    /\ List.concat (pages (after w f)) = List.concat (pages w) ++ [f].
  Proof.
    intros (Hi & He).
    destruct (afterFragment_fields NVM3_WORD_SIZE writeObject pageSize
                (list NVMObject) putLog w f) as (Ai & _ & _ & Ap).
    destruct (putFragment_fields (list NVMObject) putLog w f) as (_ & _ & _ & Hl).
    unfold pageCountOf in *.
    destruct (nth_error (pages w) (Z.to_nat (pageIndex w))) as [page|] eqn:Epage.
    2:{ apply nth_error_None in Epage. lia. }
    pose proof (putFragment_pages (list NVMObject) putLog w f page Epage) as Hpp.
    destruct (setNth_split _ (Z.to_nat (pageIndex w)) page
                (putLog f (offsetInPage w) page) (pages w) Epage) as (E1 & E2).
    unfold logInv, pageCountOf. rewrite Ai, Ap, Hl, Hpp, E2.
    split; [split; [lia|]|].
    - rewrite skipn_app, length_firstn.
      replace (Nat.min (Z.to_nat (pageIndex w)) (length (pages w)))
        with (Z.to_nat (pageIndex w)) by lia.
      rewrite skipn_all2 by (rewrite length_firstn; lia).
      replace (S (Z.to_nat (pageIndex w)) - Z.to_nat (pageIndex w))%nat
        with 1%nat by lia.
      simpl. exact He.
    - rewrite E1 at 3. rewrite !concat_app. cbn [List.concat].
      rewrite He, !app_nil_r. unfold putLog. now rewrite app_assoc.
  Qed.

Lemma log_next (w w' : LogWriter) :
    logInv w -> nextPage pageSize w = OK w' ->
    logInv w' /\ pages w' = pages w.
  Proof.
    intros (Hi & He) E.
    destruct (nextPage_cases pageSize (list NVMObject) w) as [[_ En] | [Hlt En]];
      rewrite En in E; [discriminate|].
    apply (OK_inj _) in E. subst w'.
    unfold logInv, pageCountOf in *. cbn [pageIndex pages].
    split; [|reflexivity]. split; [lia|].
    replace (S (Z.to_nat (pageIndex w + 1)))
      with (1 + S (Z.to_nat (pageIndex w)))%nat by lia.
    rewrite <- skipn_skipn. now apply concat_nil_skipn.
  Qed.

Lemma log_writeFragments (several : bool) (fs : list NVMObject) :
    forall w w' : LogWriter,
      logInv w -> writeFrags several w fs = OK w' ->
      logInv w' /\ List.concat (pages w') = List.concat (pages w) ++ fs.
  Proof.
    induction fs as [|f fs IH]; intros w w' Hw E; cbn [writeFragments] in E.
    - apply (OK_inj _) in E. subst w'. now rewrite app_nil_r.
    - destruct (log_after w f Hw) as (Ha & Ec).
      destruct several.
      + rewrite writeFragment_several in E.
        destruct (nextPage pageSize (after w f)) as [w1|e] eqn:En; [|discriminate].
        cbn [bind] in E.
        destruct (log_next _ _ Ha En) as (H1 & Ep).
        destruct (IH w1 w' H1 E) as (H' & Ec').
        split; [exact H'|]. rewrite Ec', Ep, Ec. now rewrite <- app_assoc.
      + rewrite writeFragment_single in E. cbn [bind] in E.
        destruct (IH _ w' Ha E) as (H' & Ec').
        split; [exact H'|]. rewrite Ec', Ec. now rewrite <- app_assoc.
  Qed.

Lemma log_placeObject (w w' : LogWriter) (obj : NVMObject) :
    logInv w -> place w obj = OK w' ->
    logInv w'
    /\ exists chain,
        chosenFragments fragmentLargeObject pageSize obj chain
        /\ List.concat (pages w') = List.concat (pages w) ++ chain.
  Proof.
    intros Hw E. unfold placeObject in E.
    destruct (ObjectType_eqb (type obj) Deleted) eqn:Ed.
    { apply ObjectType_eqb_eq in Ed. apply (OK_inj _) in E. subst w'.
      split; [exact Hw|]. exists []. unfold chosenFragments. rewrite Ed.
      now rewrite app_nil_r. }
    assert (Hself :
              forall w1, logInv w1 -> pages w1 = pages w ->
                         writeFrags (1 <? Z.of_nat (length [obj])) w1 [obj] = OK w' ->
                         logInv w'
                         /\ List.concat (pages w') = List.concat (pages w) ++ [obj]).
    { intros w1 H1 Ep E1. destruct (log_writeFragments _ _ w1 w' H1 E1) as (H' & Ec).
      rewrite Ep in Ec. auto. }
    unfold chooseFragments in E. unfold chosenFragments.
    destruct (type obj) eqn:Et; cbn [ObjectType_eqb andb orb] in E;
      try discriminate; cbn [bind] in E.
    - destruct (log_writeFragments _ _ w w' Hw E) as (H' & Ec). eauto.
    - destruct (log_writeFragments _ _ w w' Hw E) as (H' & Ec). eauto.
    - rewrite orb_false_r in E.
      destruct (remainingSpace w <? _).
      + destruct (nextPage pageSize w) as [w1|e] eqn:En; [|discriminate].
        cbn [bind] in E. destruct (log_next _ _ Hw En) as (H1 & Ep).
        destruct (Hself w1 H1 Ep E). eauto.
      + cbn [bind] in E. destruct (Hself w Hw eq_refl E). eauto.
    - destruct (remainingSpace w <? _).
      + destruct (nextPage pageSize w) as [w1|e] eqn:En; [|discriminate].
        cbn [bind] in E. destruct (log_next _ _ Hw En) as (H1 & Ep).
        destruct (Hself w1 H1 Ep E). eauto.
      + cbn [bind] in E. destruct (Hself w Hw eq_refl E). eauto.
    - destruct (Hself w Hw eq_refl E). eauto.
  Qed.

Lemma log_placeObjects (objs : list NVMObject) :
    forall w w' : LogWriter,
      logInv w -> placeAll w objs = OK w' ->
      exists chains,
        Forall2 (chosenFragments fragmentLargeObject pageSize) objs chains
        /\ List.concat (pages w') = List.concat (pages w) ++ List.concat chains.
  Proof.
    induction objs as [|obj objs IH]; intros w w' Hw E; cbn [placeObjects] in E.
    - apply (OK_inj _) in E. subst w'. exists []. split; [constructor|].
      simpl. now rewrite app_nil_r.
    - destruct (place w obj) as [w1|e] eqn:E1; [|discriminate]. cbn [bind] in E.
      destruct (log_placeObject w w1 obj Hw E1) as (H1 & chain & Hc & Ec).
      destruct (IH w1 w' H1 E) as (chains & Hcs & Ecs).
      exists (chain :: chains). split; [now constructor|].
      rewrite Ecs, Ec. cbn [List.concat]. now rewrite <- app_assoc.
  Qed.

  (** The fragments on the pages of a region, page after page, are the
      fragments chosen for the objects of the map, object after object. *)
Lemma placementLog_chains (n : nat) (objs : ObjectMap)
        (logs : list (list NVMObject)) :
    placementLog NVM3_WORD_SIZE NVM3_OBJ_HEADER_SIZE_SMALL NVM_COUNTER_SIZE
                 writeObject fragmentLargeObject pageSize n objs = OK logs ->
    length logs = n
    /\ exists chains,
        Forall2 (chosenFragments fragmentLargeObject pageSize)
                (map_values objs) chains
        /\ List.concat logs = List.concat chains.
  Proof.
    unfold placementLog. intros E.
    pose proof (writeObjectsWith_keeps NVM3_WORD_SIZE NVM3_OBJ_HEADER_SIZE_SMALL
                  NVM_COUNTER_SIZE writeObject fragmentLargeObject pageSize
                  (list NVMObject) putLog (fun _ => True) (fun _ _ _ _ => I)
                  (repeat [] n) objs) as Hk.
    rewrite E in Hk. destruct Hk as (Hl & _). rewrite repeat_length in Hl.
    split; [exact Hl|].
    unfold writeObjectsWith in E.
    set (w0 := mkWriter (repeat ([] : list NVMObject) n) (-1) (-1) (-1)) in E.
    destruct (nextPage_cases pageSize (list NVMObject) w0) as [[_ En] | [Hlt En]];
      rewrite En in E; cbn [bind] in E; [discriminate|].
    set (w1 := mkWriter (pages w0) (pageIndex w0 + 1) NVM3_PAGE_HEADER_SIZE
                        (pageSize - NVM3_PAGE_HEADER_SIZE)) in E.
    destruct (placeObjects _ _ _ _ _ _ _ w1 (map_values objs)) as [w'|e] eqn:E';
      [|discriminate].
    cbn [bind] in E. apply (OK_inj _) in E. subst logs.
    assert (Hnil : forall k, List.concat (repeat ([] : list NVMObject) k) = [])
      by (induction k; simpl; auto).
    assert (H1 : logInv w1).
    { unfold logInv, pageCountOf in *. unfold w1, w0 in *.
      cbn [pageIndex pages] in *. split; [lia|].
      apply concat_nil_skipn, Hnil. }
    destruct (log_placeObjects _ w1 w' H1 E') as (chains & Hcs & Ecs).
    exists chains. split; [exact Hcs|].
    rewrite Ecs. unfold w1, w0. cbn [pages]. now rewrite Hnil.
  Qed.
End LogFacts.

(** ** The page headers stay in place *)

Section HeaderKept.
  Variables NVM3_WORD_SIZE NVM3_OBJ_HEADER_SIZE_SMALL NVM_COUNTER_SIZE : Z.
  Variable writeObject : NVMObject -> Buffer.
  Variable fragmentLargeObject : NVMObject -> Z -> Z -> list NVMObject.
  Variable pageSize : Z.
  Variable Page : Type.
  Variable put : NVMObject -> Z -> Page -> Page.
  Variable P : Page -> Prop.
  Hypothesis put_keeps :
    forall f pos page, NVM3_PAGE_HEADER_SIZE <= pos -> P page -> P (put f pos page).

  Local Abbreviation writeFrags :=
    (writeFragments NVM3_WORD_SIZE writeObject put pageSize).
  Local Abbreviation choose :=
    (@chooseFragments NVM3_OBJ_HEADER_SIZE_SMALL NVM_COUNTER_SIZE
                      fragmentLargeObject Page pageSize).
  Local Abbreviation place :=
    (placeObject NVM3_WORD_SIZE NVM3_OBJ_HEADER_SIZE_SMALL NVM_COUNTER_SIZE
                 writeObject fragmentLargeObject put pageSize).
  Local Abbreviation placeAll :=
    (placeObjects NVM3_WORD_SIZE NVM3_OBJ_HEADER_SIZE_SMALL NVM_COUNTER_SIZE
                  writeObject fragmentLargeObject put pageSize).
  Local Abbreviation after :=
    (afterFragment NVM3_WORD_SIZE writeObject pageSize Page put).
  Local Abbreviation fits := (sizeFits NVM3_WORD_SIZE writeObject).

  Local Abbreviation behindHeader := (behindHeader Page P).

Lemma chooseFragments_chosen (w w1 : Writer Page) (obj : NVMObject)
        (fragments : list NVMObject) :
    ObjectType_eqb (type obj) Deleted = false ->
    choose w obj = OK (w1, fragments) ->
    chosenFragments fragmentLargeObject pageSize obj fragments
    /\ (w1 = w \/ nextPage pageSize w = OK w1).
  Proof.
    intros Hd E. unfold chooseFragments in E. unfold chosenFragments.
    assert (Hnext : bind (nextPage pageSize w) (fun w' => OK (w', [obj]))
                    = OK (w1, fragments) ->
                    fragments = [obj] /\ (w1 = w \/ nextPage pageSize w = OK w1)).
    { destruct (nextPage pageSize w) as [w2|e]; cbn [bind]; [|discriminate].
      intros E'. apply (OK_inj _) in E'. injection E' as -> <-. auto. }
    assert (Hstay : @OK (Writer Page * list NVMObject) (w, [obj])
                    = OK (w1, fragments) ->
                    fragments = [obj] /\ (w1 = w \/ nextPage pageSize w = OK w1)).
    { intros E'. apply (OK_inj _) in E'. injection E' as <- <-. auto. }
    destruct (type obj) eqn:Et; cbn [ObjectType_eqb andb orb] in E, Hd;
      try discriminate.
    - apply (OK_inj _) in E. injection E as <- <-. eauto.
    - apply (OK_inj _) in E. injection E as <- <-. eauto.
    - rewrite orb_false_r in E. destruct (remainingSpace w <? _); auto.
    - destruct (remainingSpace w <? _); auto.
    - auto.
  Qed.

Lemma behindHeader_after (w : Writer Page) (f : NVMObject) :
    fits f -> behindHeader w -> behindHeader (after w f).
  Proof.
    intros Hf (Ho & HP).
    destruct (afterFragment_fields NVM3_WORD_SIZE writeObject pageSize Page put w f)
      as (_ & Ao & _ & Ap).
    unfold behindHeader. rewrite Ao, Ap. unfold sizeFits in Hf.
    split; [lia|]. unfold putFragment.
    destruct (nth_error (pages w) (Z.to_nat (pageIndex w))) as [page|] eqn:E;
      [|exact HP].
    cbn [pages]. apply setNth_Forall; [exact HP|].
    apply put_keeps; [exact Ho|]. apply nth_error_In in E.
    rewrite Forall_forall in HP. auto.
  Qed.

Lemma behindHeader_next (w w' : Writer Page) :
    Forall P (pages w) -> nextPage pageSize w = OK w' -> behindHeader w'.
  Proof.
    intros HP E.
    destruct (nextPage_cases pageSize Page w) as [[_ En] | [_ En]];
      rewrite En in E; [discriminate|].
    apply (OK_inj _) in E. subst w'. split; [cbn; lia | exact HP].
  Qed.

Lemma behindHeader_writeFragments (several : bool) (fs : list NVMObject) :
    forall w w',
      Forall fits fs -> behindHeader w -> writeFrags several w fs = OK w' ->
      behindHeader w'.
  Proof.
    induction fs as [|f fs IH]; intros w w' Hf Hw E; cbn [writeFragments] in E.
    - apply (OK_inj _) in E. now subst w'.
    - inversion Hf as [|? ? Hf1 Hfs]; subst.
      pose proof (behindHeader_after w f Hf1 Hw) as Ha.
      destruct several.
      + rewrite writeFragment_several in E.
        destruct (nextPage pageSize (after w f)) as [w1|e] eqn:En; [|discriminate].
        cbn [bind] in E.
        apply (IH w1 w' Hfs); [|exact E].
        apply (behindHeader_next (after w f) w1); [apply Ha | exact En].
      + rewrite writeFragment_single in E. cbn [bind] in E.
        now apply (IH (after w f) w' Hfs).
  Qed.

Lemma behindHeader_placeObject (w w' : Writer Page) (obj : NVMObject) :
    FragmentsFit NVM3_WORD_SIZE writeObject fragmentLargeObject pageSize obj ->
    behindHeader w -> place w obj = OK w' -> behindHeader w'.
  Proof.
    intros Hfit Hw E. unfold placeObject in E.
    destruct (ObjectType_eqb (type obj) Deleted) eqn:Ed.
    { apply (OK_inj _) in E. now subst w'. }
    destruct (choose w obj) as [[w1 fragments]|e] eqn:Ec; [|discriminate].
    cbn [bind] in E.
    destruct (chooseFragments_chosen w w1 obj fragments Ed Ec) as (Hch & Hw1).
    apply (behindHeader_writeFragments (1 <? Z.of_nat (length fragments))
             fragments w1 w'); [apply Hfit, Hch | | exact E].
    destruct Hw1 as [-> | En]; [exact Hw|].
    apply (behindHeader_next w w1); [apply Hw | exact En].
  Qed.

Lemma behindHeader_placeObjects (objs : list NVMObject) :
    forall w w',
      Forall (FragmentsFit NVM3_WORD_SIZE writeObject fragmentLargeObject pageSize)
             objs ->
      behindHeader w -> placeAll w objs = OK w' -> behindHeader w'.
  Proof.
    induction objs as [|obj objs IH]; intros w w' Hf Hw E; cbn [placeObjects] in E.
    - apply (OK_inj _) in E. now subst w'.
    - inversion Hf as [|? ? Hf1 Hfs]; subst.
      destruct (place w obj) as [w1|e] eqn:E1; [|discriminate]. cbn [bind] in E.
      apply (IH w1 w' Hfs); [|exact E].
      now apply (behindHeader_placeObject w w1 obj).
  Qed.

Lemma writeObjectsWith_kept (pages0 pages' : list Page) (objs : ObjectMap) :
    Forall (FragmentsFit NVM3_WORD_SIZE writeObject fragmentLargeObject pageSize)
           (map_values objs) ->
    Forall P pages0 ->
    writeObjectsWith NVM3_WORD_SIZE NVM3_OBJ_HEADER_SIZE_SMALL NVM_COUNTER_SIZE
                     writeObject fragmentLargeObject put pageSize pages0 objs
    = OK pages' ->
    Forall P pages'.
  Proof.
    intros Hf HP E. unfold writeObjectsWith in E.
    destruct (nextPage pageSize (mkWriter pages0 (-1) (-1) (-1))) as [w1|e] eqn:En;
      [|discriminate].
    cbn [bind] in E.
    destruct (placeAll w1 (map_values objs)) as [w'|e] eqn:E'; [|discriminate].
    cbn [bind] in E. apply (OK_inj _) in E. subst pages'.
    pose proof (behindHeader_next (mkWriter pages0 (-1) (-1) (-1)) w1 HP En) as H1.
    exact (proj2 (behindHeader_placeObjects _ w1 w' Hf H1 E')).
  Qed.
End HeaderKept.

Lemma copy_keeps_header (source page : Buffer) (pos : Z) :
  NVM3_PAGE_HEADER_SIZE <= pos ->
  firstn 20 (copy source page pos) = firstn 20 page.
Proof.
  intros Hpos. unfold copy, NVM3_PAGE_HEADER_SIZE in *.
  destruct (len page <=? pos) eqn:E; [reflexivity|].
  apply Z.leb_gt in E. unfold len in E.
  rewrite firstn_app, length_firstn.
  replace (20 - Nat.min (Z.to_nat pos) (length page))%nat with 0%nat by lia.
  rewrite firstn_firstn, firstn_O, app_nil_r. f_equal. lia.
Qed.

(** ** Reading back the pages of [encodeNVM] *)

Lemma nth_error_concat (n : nat) (pages : list Buffer) :
  forall (i j : nat) (p : Buffer),
    Forall (fun p => length p = n) pages ->
    nth_error pages i = Some p ->
    (j < n)%nat ->
    nth_error (List.concat pages) (n * i + j) = nth_error p j.
Proof.
  induction pages as [|q pages IH]; intros i j p Hall Ei Hj.
  - destruct i; discriminate.
  - inversion Hall as [|? ? Hq Hrest]; subst. cbn [List.concat].
    destruct i as [|i].
    + injection Ei as ->. rewrite Nat.mul_0_r, Nat.add_0_l.
      apply nth_error_app1. lia.
    + cbn [nth_error] in Ei. rewrite nth_error_app2 by lia.
      replace (length q * S i + j - length q)%nat with (length q * i + j)%nat by lia.
      now apply IH.
Qed.

Lemma slice_concat (n : nat) (pages : list Buffer) (i : nat) (p : Buffer) (a b : Z) :
  Forall (fun p => length p = n) pages ->
  nth_error pages i = Some p ->
  0 <= a -> b <= Z.of_nat n ->
  slice (List.concat pages) (Z.of_nat n * Z.of_nat i + a) (Z.of_nat n * Z.of_nat i + b)
  = slice p a b.
Proof.
  intros Hall Ei Ha Hb. apply nth_error_ext. intros j.
  rewrite !nth_error_slice.
  replace (Z.of_nat n * Z.of_nat i + b - (Z.of_nat n * Z.of_nat i + a)) with (b - a)
    by lia.
  destruct (j <? Z.to_nat (b - a))%nat eqn:E; [|reflexivity].
  apply Nat.ltb_lt in E.
  replace (Z.to_nat (Z.of_nat n * Z.of_nat i + a) + j)%nat
    with (n * i + (Z.to_nat a + j))%nat by lia.
  apply nth_error_concat with (p := p); auto. lia.
Qed.

Lemma slice_at (b h : Buffer) (pos j : Z) (n : Z) :
  slice b pos (pos + n) = h -> 0 <= pos -> 0 <= j < n ->
  at_ b (pos + j) = at_ h j.
Proof.
  intros E H0 Hj. unfold at_. f_equal. apply nth_of_nth_error.
  rewrite <- E, nth_error_slice.
  assert (Et : (Z.to_nat j <? Z.to_nat (pos + n - pos))%nat = true)
    by (apply Nat.ltb_lt; lia).
  rewrite Et. f_equal. lia.
Qed.

Lemma slice_length_full (b : Buffer) (pos n : Z) :
  0 <= pos -> 0 < n -> len (slice b pos (pos + n)) = n -> pos + n <= len b.
Proof.
  intros H0 Hn. unfold slice, len.
  rewrite length_firstn, length_skipn. lia.
Qed.

Lemma slice_readUInt16LE (b h : Buffer) (pos j n : Z) :
  slice b pos (pos + n) = h -> len h = n -> 0 <= pos -> 0 <= j -> j + 2 <= n ->
  readUInt16LE b (pos + j) = readUInt16LE h j.
Proof.
  intros E Hl H0 Hj Hn.
  pose proof (slice_length_full b pos n H0 ltac:(lia) ltac:(now rewrite E)) as Hfit.
  unfold readUInt16LE.
  assert (E1 : inBounds b (pos + j) 2 = true) by (apply inBounds_true; lia).
  assert (E2 : inBounds h j 2 = true) by (apply inBounds_true; lia).
  rewrite E1, E2. f_equal.
  rewrite <- (slice_at b h pos j n E), <- (slice_at b h pos (j + 1) n E) by lia.
  now rewrite Z.add_assoc.
Qed.

Lemma slice_readUInt32LE (b h : Buffer) (pos j n : Z) :
  slice b pos (pos + n) = h -> len h = n -> 0 <= pos -> 0 <= j -> j + 4 <= n ->
  readUInt32LE b (pos + j) = readUInt32LE h j.
Proof.
  intros E Hl H0 Hj Hn.
  pose proof (slice_length_full b pos n H0 ltac:(lia) ltac:(now rewrite E)) as Hfit.
  unfold readUInt32LE.
  assert (E1 : inBounds b (pos + j) 4 = true) by (apply inBounds_true; lia).
  assert (E2 : inBounds h j 4 = true) by (apply inBounds_true; lia).
  rewrite E1, E2. f_equal.
  rewrite <- (slice_at b h pos j n E), <- (slice_at b h pos (j + 1) n E),
    <- (slice_at b h pos (j + 2) n E), <- (slice_at b h pos (j + 3) n E) by lia.
  now rewrite !Z.add_assoc.
Qed.

Section ReadBack.
  Variable readObjects : Buffer -> result (list NVMObject).

  (** [readPage] on a page that starts with the default header. *)
Lemma readPage_default (buf : Buffer) (i : nat) :
    slice buf (2048 * Z.of_nat i) (2048 * Z.of_nat i + 20) = defaultHeaderBytes ->
    2048 * Z.of_nat i + 2048 <= len buf ->
    readPage readObjects buf (2048 * Z.of_nat i)
    = bind (readObjects (slice buf (2048 * Z.of_nat i + 20)
                               (2048 * Z.of_nat i + 2048)))
           (fun objs => OK (defaultPage i objs, 2048)).
  Proof.
    intros Eh Hfit.
    set (pos := 2048 * Z.of_nat i) in *.
    assert (H0 : 0 <= pos) by (unfold pos; lia).
    assert (Hl : len defaultHeaderBytes = 20) by reflexivity.
    assert (R16 : forall j, 0 <= j -> j + 2 <= 20 ->
                            readUInt16LE buf (pos + j)
                            = readUInt16LE defaultHeaderBytes j)
      by (intros; now apply (slice_readUInt16LE buf _ pos j 20)).
    assert (R32 : forall j, 0 <= j -> j + 4 <= 20 ->
                            readUInt32LE buf (pos + j)
                            = readUInt32LE defaultHeaderBytes j)
      by (intros; now apply (slice_readUInt32LE buf _ pos j 20)).
    assert (Hvalid : ValidHeader buf pos 3623878656 134217727 4294967295 24575).
    { constructor.
      - replace pos with (pos + 0) by lia. rewrite R16 by lia. reflexivity.
      - rewrite R16 by lia. reflexivity.
      - rewrite R32 by lia. reflexivity.
      - reflexivity.
      - rewrite R32 by lia. reflexivity.
      - reflexivity.
      - reflexivity.
      - rewrite R32 by lia. reflexivity.
      - rewrite R16 by lia. reflexivity. }
    rewrite (readPage_valid readObjects buf pos _ _ _ _ Hvalid).
    change (declaredPageSize 24575) with 2048.
    change (Z.min 2048 FLASH_MAX_PAGE_SIZE) with 2048.
    assert (E : (len buf <? pos + 2048) = false) by (apply Z.ltb_ge; lia).
    rewrite E, R16 by lia.
    change (readUInt16LE defaultHeaderBytes 18) with (@OK Z 65535).
    cbn [bind]. reflexivity.
  Qed.

  (** The walk over an image whose pages start with the default header and
      whose bodies decode to [logs]. *)
Lemma readPages_default (buf : Buffer) (rest : list (list NVMObject)) :
    forall (k fuel : nat),
      (length rest <= fuel)%nat ->
      len buf = 2048 * Z.of_nat (k + length rest) ->
      (forall i objs,
          nth_error rest i = Some objs ->
          slice buf (2048 * Z.of_nat (k + i)) (2048 * Z.of_nat (k + i) + 20)
          = defaultHeaderBytes
          /\ readObjects (slice buf (2048 * Z.of_nat (k + i) + 20)
                                (2048 * Z.of_nat (k + i) + 2048)) = OK objs) ->
      readPages readObjects fuel buf (2048 * Z.of_nat k) = OK (pagesFrom k rest).
  Proof.
    induction rest as [|objs rest IH]; intros k fuel Hfuel Hlen Hpages.
    - simpl length in Hlen. rewrite Nat.add_0_r in Hlen.
      destruct fuel; cbn [readPages]; rewrite Hlen, Z.ltb_irrefl; reflexivity.
    - simpl length in Hlen, Hfuel.
      destruct fuel as [|fuel]; [lia|]. cbn [readPages].
      assert (E : (2048 * Z.of_nat k <? len buf) = true)
        by (apply Z.ltb_lt; lia).
      rewrite E.
      destruct (Hpages 0%nat objs eq_refl) as (Eh & Eo).
      rewrite Nat.add_0_r in Eh, Eo.
      rewrite (readPage_default buf k Eh) by lia.
      rewrite Eo. cbn [bind].
      replace (2048 * Z.of_nat k + 2048) with (2048 * Z.of_nat (S k)) by lia.
      rewrite (IH (S k) fuel); [reflexivity | lia | rewrite Hlen; f_equal; lia |].
      intros i objs' Ei. specialize (Hpages (S i) objs' Ei).
      replace (k + S i)%nat with (S k + i)%nat in Hpages by lia. exact Hpages.
  Qed.
End ReadBack.

Lemma pagesFrom_app (l1 l2 : list (list NVMObject)) :
  forall k, pagesFrom k (l1 ++ l2) = pagesFrom k l1 ++ pagesFrom (k + length l1) l2.
Proof.
  induction l1 as [|x l1 IH]; intros k; simpl.
  - now rewrite Nat.add_0_r.
  - rewrite IH. do 3 f_equal. lia.
Qed.

Lemma pagesFrom_objects (l : list (list NVMObject)) :
  forall k, List.map objects (pagesFrom k l) = l.
Proof. induction l as [|x l IH]; intros k; simpl; [|rewrite IH]; reflexivity. Qed.

Lemma pagesFrom_offsets (l : list (list NVMObject)) :
  forall k p, In p (pagesFrom k l) ->
              exists i, (k <= i < k + length l)%nat
                        /\ offset (header p) = 2048 * Z.of_nat i
                        /\ eraseCount (header p) = 0.
Proof.
  induction l as [|x l IH]; intros k p Hin; simpl in Hin; [contradiction|].
  destruct Hin as [<- | Hin].
  - exists k. simpl. repeat split; lia.
  - destruct (IH (S k) p Hin) as (i & Hi & Ho & He).
    exists i. simpl. repeat split; auto; lia.
Qed.

Lemma filter_all (A : Type) (f : A -> bool) (l : list A) :
  (forall x, In x l -> f x = true) -> filter f l = l.
Proof.
  induction l as [|x l IH]; intros H; simpl; [reflexivity|].
  rewrite (H x (or_introl eq_refl)), IH; [reflexivity|].
  intros y Hy. apply H. now right.
Qed.

Lemma filter_none (A : Type) (f : A -> bool) (l : list A) :
  (forall x, In x l -> f x = false) -> filter f l = [].
Proof.
  induction l as [|x l IH]; intros H; simpl; [reflexivity|].
  rewrite (H x (or_introl eq_refl)), IH; [reflexivity|].
  intros y Hy. apply H. now right.
Qed.

Lemma insert_sorted_id (A : Type) (cmp : A -> A -> Z) (x : A) (l : list A) :
  HdRel (fun a b => cmp a b <= 0) x l -> insert cmp x l = x :: l.
Proof.
  intros H. destruct l as [|y l]; [reflexivity|]. simpl.
  inversion H as [|? ? Hxy]; subst. apply Z.leb_le in Hxy. now rewrite Hxy.
Qed.

Lemma sort_sorted_id (A : Type) (cmp : A -> A -> Z) (l : list A) :
  Sorted (fun a b => cmp a b <= 0) l -> sort cmp l = l.
Proof.
  induction 1 as [|x l Hl IH Hx]; simpl; [reflexivity|].
  rewrite IH. now apply insert_sorted_id.
Qed.

Lemma pagesFrom_sorted (l : list (list NVMObject)) :
  forall k, Sorted (fun a b => comparePages a b <= 0) (pagesFrom k l).
Proof.
  induction l as [|x l IH]; intros k; simpl; constructor; [apply IH|].
  destruct l as [|y l]; simpl; constructor.
  apply comparePages_le. right. unfold defaultPage.
  cbn [header eraseCount offset]. split; lia.
Qed.

(** ** The round trip *)

Lemma createEmptyPage_default :
  exists page,
    createEmptyPage defaultOptions = OK page
    /\ firstn 20 page = defaultHeaderBytes.
Proof. eexists. split; [vm_compute; reflexivity | reflexivity]. Qed.

Lemma Forall2_Forall_impl (A B : Type) (R S : A -> B -> Prop) (l : list A)
      (l' : list B) :
  Forall (fun a => forall b, R a b -> S a b) l ->
  Forall2 R l l' -> Forall2 S l l'.
Proof.
  intros HF H2. induction H2 as [|a b l l' Hab H2 IH]; constructor;
    inversion HF; subst; auto.
Qed.

Section RoundTrip.
  Variables NVM3_WORD_SIZE NVM3_OBJ_HEADER_SIZE_SMALL NVM_COUNTER_SIZE : Z.
  Variable writeObject : NVMObject -> Buffer.
  Variable readObjects : Buffer -> result (list NVMObject).
  Variable fragmentLargeObject : NVMObject -> Z -> Z -> list NVMObject.

  Local Abbreviation encodeNVM' :=
    (encodeNVM NVM3_WORD_SIZE NVM3_OBJ_HEADER_SIZE_SMALL NVM_COUNTER_SIZE
               writeObject fragmentLargeObject).
  Local Abbreviation log :=
    (placementLog NVM3_WORD_SIZE NVM3_OBJ_HEADER_SIZE_SMALL NVM_COUNTER_SIZE
                  writeObject fragmentLargeObject 2048).
  Local Abbreviation fit :=
    (FragmentsFit NVM3_WORD_SIZE writeObject fragmentLargeObject 2048).

  (** The live map of a region is the compaction of the fragments put on its
      pages. *)
Lemma compressObjects_log (m : ObjectMap) (n : nat) (logs : list (list NVMObject)) :
    WellFormedMap m ->
    Forall (ChainsOK fragmentLargeObject 2048) (map_values m) ->
    log n m = OK logs ->
    length logs = n /\ compressObjects (List.concat logs) = m.
  Proof.
    intros Hwf Hch E.
    destruct (placementLog_chains _ _ _ _ _ _ n m logs E)
      as (Hl & chains & Hchosen & Ec).
    split; [exact Hl|]. rewrite Ec.
    apply compressObjects_chains; [exact Hwf|].
    apply (Forall2_Forall_impl _ _ _ _ _ _ Hch Hchosen).
  Qed.

  (** The image codec's part of the round trip, for any object codec: if the
      codec reads from each page body of the image the fragments put on the
      page, the fragments of an object are a chain that the compaction
      reassembles, and the aligned lengths do not wrap around 32 bits, then
      [parseNVM] of the image returns the two maps. *)
Lemma parseNVM_of_decoded_image
    (A P : ObjectMap) (buf : Buffer) (appLog protoLog : list (list NVMObject)) :
    WellFormedMap A -> WellFormedMap P ->
    Forall (ChainsOK fragmentLargeObject 2048) (map_values A) ->
    Forall (ChainsOK fragmentLargeObject 2048) (map_values P) ->
    Forall fit (map_values A) -> Forall fit (map_values P) ->
    encodeNVM' A P defaultOptions = OK buf ->
    log 6%nat A = OK appLog ->
    log 18%nat P = OK protoLog ->
    decodes readObjects buf (appLog ++ protoLog) ->
    exists r,
      parseNVM readObjects buf = OK r
      /\ applicationObjects r = A
      /\ protocolObjects r = P.
  Proof.
    intros WA WP CA CP FA FP E La Lp Hdec.
    destruct (encodeNVM_shape _ _ _ _ _ A P defaultOptions buf
                ltac:(unfold defaultOptions, FLASH_MAX_PAGE_SIZE;
                      cbn [opt_pageSize]; lia) E)
      as (page & pa & pp & Epage & Ea & Ep & -> & Lpa & Lpp & Hlen).
    change (opt_pageSize defaultOptions) with 2048 in *.
    change (pageCount ZWAVE_APPLICATION_NVM_SIZE 2048) with 6%nat in *.
    change (pageCount ZWAVE_PROTOCOL_NVM_SIZE 2048) with 18%nat in *.
    change (Z.to_nat 2048) with 2048%nat in Hlen.
    destruct createEmptyPage_default as (page' & Epage' & Hhdr).
    rewrite Epage in Epage'. apply (OK_inj _) in Epage'. subst page'.
    (* the headers are still there *)
    assert (Hkept : forall n objs pages',
               Forall fit (map_values objs) ->
               writeObjects NVM3_WORD_SIZE NVM3_OBJ_HEADER_SIZE_SMALL
                            NVM_COUNTER_SIZE writeObject fragmentLargeObject
                            2048 (repeat page n) objs = OK pages' ->
               Forall (fun p => firstn 20 p = defaultHeaderBytes) pages').
    { intros n objs pages' Hf Ew. unfold writeObjects in Ew.
      apply (writeObjectsWith_kept _ _ _ _ _ _ _ _
               (fun p => firstn 20 p = defaultHeaderBytes)
               (fun f pos pg Hpos Hp =>
                  eq_trans (copy_keeps_header (writeObject f) pg pos Hpos) Hp)
               _ _ _ Hf) in Ew; [exact Ew|].
      apply Forall_forall. intros x Hx. apply repeat_spec in Hx. now subst x. }
    pose proof (Hkept _ _ _ FA Ea) as Ha.
    pose proof (Hkept _ _ _ FP Ep) as Hp.
    assert (Hhdrs : Forall (fun p => firstn 20 p = defaultHeaderBytes) (pa ++ pp))
      by (apply Forall_app; auto).
    rewrite <- concat_app in *.
    set (pages := pa ++ pp) in *.
    assert (Lpages : length pages = 24%nat)
      by (unfold pages; rewrite length_app; lia).
    (* the fragments on the pages *)
    destruct (compressObjects_log A 6 appLog WA CA La) as (Lla & Ca).
    destruct (compressObjects_log P 18 protoLog WP CP Lp) as (Llp & Cp).
    set (logs := appLog ++ protoLog) in *.
    assert (Llogs : length logs = 24%nat)
      by (unfold logs; rewrite length_app; lia).
    assert (Hbuf : len (List.concat pages) = 2048 * 24).
    { unfold len. rewrite (concat_length_uniform 2048 _ Hlen), Lpages. reflexivity. }
    (* the walk *)
    assert (Hwalk : readPages readObjects (length (List.concat pages))
                              (List.concat pages) 0
                    = OK (pagesFrom 0 logs)).
    { apply (readPages_default readObjects (List.concat pages) logs 0).
      - unfold len in Hbuf. lia.
      - rewrite Hbuf, Llogs. reflexivity.
      - intros i objs Ei. rewrite Nat.add_0_l. split; [|now apply Hdec].
        assert (Hi : (i < length pages)%nat).
        { rewrite Lpages, <- Llogs. apply nth_error_Some. congruence. }
        destruct (nth_error pages i) as [p|] eqn:Epi;
          [|apply nth_error_None in Epi; lia].
        pose proof (slice_concat 2048 pages i p 0 20 Hlen Epi ltac:(lia) ltac:(lia))
          as Es.
        change (Z.of_nat 2048) with 2048 in Es. rewrite Z.add_0_r in Es.
        rewrite Es. unfold slice. simpl skipn.
        rewrite Forall_forall in Hhdrs. apply Hhdrs.
        now apply nth_error_In in Epi. }
    rewrite parseNVM_pages.
    match goal with
    | |- context [readPages readObjects ?n ?b 0] =>
        change (readPages readObjects n b 0)
          with (readPages readObjects (length (List.concat pages))
                          (List.concat pages) 0)
    end.
    rewrite Hwalk. cbn [bind].
    eexists. split; [reflexivity|].
    cbn [applicationObjects protocolObjects].
    unfold logs. rewrite pagesFrom_app, !filter_app, Lla, Nat.add_0_l.
    assert (Fa1 : filter inApplicationRegion (pagesFrom 0 appLog) = pagesFrom 0 appLog).
    { apply filter_all. intros p Hin.
      destruct (pagesFrom_offsets _ _ _ Hin) as (i & Hi & Ho & _).
      unfold inApplicationRegion. rewrite Ho. apply Z.ltb_lt.
      unfold ZWAVE_APPLICATION_NVM_SIZE. lia. }
    assert (Fa2 : filter inApplicationRegion (pagesFrom 6 protoLog) = []).
    { apply filter_none. intros p Hin.
      destruct (pagesFrom_offsets _ _ _ Hin) as (i & Hi & Ho & _).
      unfold inApplicationRegion. rewrite Ho. apply Z.ltb_ge.
      unfold ZWAVE_APPLICATION_NVM_SIZE. lia. }
    assert (Fp1 : filter inProtocolRegion (pagesFrom 0 appLog) = []).
    { apply filter_none. intros p Hin.
      destruct (pagesFrom_offsets _ _ _ Hin) as (i & Hi & Ho & _).
      unfold inProtocolRegion. rewrite Ho, Z.geb_leb. apply Z.leb_gt.
      unfold ZWAVE_APPLICATION_NVM_SIZE. lia. }
    assert (Fp2 : filter inProtocolRegion (pagesFrom 6 protoLog) = pagesFrom 6 protoLog).
    { apply filter_all. intros p Hin.
      destruct (pagesFrom_offsets _ _ _ Hin) as (i & Hi & Ho & _).
      unfold inProtocolRegion. rewrite Ho, Z.geb_leb. apply Z.leb_le.
      unfold ZWAVE_APPLICATION_NVM_SIZE. lia. }
    rewrite Fa1, Fa2, Fp1, Fp2, app_nil_r, app_nil_l.
    rewrite !(sort_sorted_id _ _ _ (pagesFrom_sorted _ _)).
    rewrite !allObjects_concat, !pagesFrom_objects.
    auto.
  Qed.
End RoundTrip.

(** * The reference codec *)

(** The properties above ask the object codec for what sections 4.2 and 6 say
    of it.  The reference codec meets each of these contracts. *)

Lemma chunks_nonempty (fuel c : nat) (rest : Buffer) :
  Reference.chunks fuel c rest <> [].
Proof.
  destruct fuel as [|fuel]; simpl; [discriminate|].
  destruct (length rest <=? c)%nat; discriminate.
Qed.

Lemma chunks_concat (fuel c : nat) :
  forall rest, List.concat (Reference.chunks fuel c rest) = rest.
Proof.
  induction fuel as [|fuel IH]; intros rest; simpl.
  - apply app_nil_r.
  - destruct (length rest <=? c)%nat; simpl.
    + apply app_nil_r.
    + rewrite IH. apply firstn_skipn.
Qed.

Lemma chunks_bound (c : nat) :
  (1 <= c)%nat ->
  forall fuel rest,
    (length rest <= fuel)%nat ->
    Forall (fun ch => (length ch <= c)%nat) (Reference.chunks fuel c rest).
Proof.
  intros Hc. induction fuel as [|fuel IH]; intros rest Hl; simpl.
  - constructor; [lia | constructor].
  - destruct (length rest <=? c)%nat eqn:E.
    + apply Nat.leb_le in E. constructor; [exact E | constructor].
    + constructor.
      * rewrite length_firstn. lia.
      * apply IH. rewrite length_skipn. lia.
Qed.

Lemma chunks_within (fuel c : nat) :
  forall rest,
    Forall (fun ch => (length ch <= length rest)%nat) (Reference.chunks fuel c rest).
Proof.
  induction fuel as [|fuel IH]; intros rest; simpl.
  - constructor; [lia | constructor].
  - destruct (length rest <=? c)%nat.
    + constructor; [lia | constructor].
    + constructor.
      * rewrite length_firstn. lia.
      * eapply Forall_impl; [|apply IH].
        intros ch Hch. cbn beta in Hch. rewrite length_skipn in Hch. lia.
Qed.

Lemma continuation_length (obj : NVMObject) (cs : list Buffer) :
  length (Reference.continuation obj cs) = length cs.
Proof.
  induction cs as [|c [|c' cs] IH]; [reflexivity | reflexivity |].
  change (Reference.continuation obj (c :: c' :: cs))
    with (mkObject (type obj) FragmentNext (key obj) (Some c)
          :: Reference.continuation obj (c' :: cs)).
  cbn [length]. now rewrite IH.
Qed.

(** The fragments after the first: next fragments and a last one, of the key
    and type of the object, with the pieces as payloads. *)
Lemma continuation_shape (obj : NVMObject) (cs : list Buffer) :
  cs <> [] ->
  exists mids last,
    Reference.continuation obj cs = mids ++ [last]
    /\ Forall (fun f => fragmentType f = FragmentNext) mids
    /\ fragmentType last = FragmentLast.
Proof.
  induction cs as [|c [|c' cs] IH]; intros Hne; [congruence | |].
  - exists [], (mkObject (type obj) FragmentLast (key obj) (Some c)).
    repeat split. constructor.
  - destruct IH as (mids & last & E & Hm & Hl); [discriminate|].
    exists (mkObject (type obj) FragmentNext (key obj) (Some c) :: mids), last.
    change (Reference.continuation obj (c :: c' :: cs))
      with (mkObject (type obj) FragmentNext (key obj) (Some c)
            :: Reference.continuation obj (c' :: cs)).
    rewrite E. repeat split; [|exact Hl].
    constructor; [reflexivity | exact Hm].
Qed.

Lemma continuation_fields (obj : NVMObject) (cs : list Buffer) :
  Forall2 (fun f c => key f = key obj /\ type f = type obj /\ data f = Some c)
          (Reference.continuation obj cs) cs.
Proof.
  induction cs as [|c [|c' cs] IH]; [constructor | |].
  - repeat constructor.
  - change (Reference.continuation obj (c :: c' :: cs))
      with (mkObject (type obj) FragmentNext (key obj) (Some c)
            :: Reference.continuation obj (c' :: cs)).
    constructor; [repeat split | exact IH].
Qed.

Lemma continuation_payloads (obj : NVMObject) (cs : list Buffer) :
  payloads (Reference.continuation obj cs) = List.concat cs.
Proof.
  pose proof (continuation_fields obj cs) as F.
  induction F as [|f c fs cs' (_ & _ & Hd) _ IH]; [reflexivity|].
  unfold payloads in *. cbn [List.map List.concat]. rewrite Hd, IH. reflexivity.
Qed.

Lemma continuation_totalDataLength (obj : NVMObject) (cs : list Buffer) :
  totalDataLength (Reference.continuation obj cs) = len (List.concat cs).
Proof.
  pose proof (continuation_fields obj cs) as F.
  induction F as [|f c fs cs' (_ & _ & Hd) _ IH]; [reflexivity|].
  change (totalDataLength (f :: fs)) with (dataLength f + totalDataLength fs).
  cbn [List.concat]. rewrite len_app, IH. unfold dataLength. now rewrite Hd.
Qed.

Lemma dataLength_payload (obj : NVMObject) :
  dataLength obj = len (Reference.payload obj).
Proof. unfold dataLength, Reference.payload. now destruct (data obj). Qed.

Lemma len_pad (b : Buffer) : len b <= len (Reference.pad b) < len b + 4.
Proof.
  unfold Reference.pad. rewrite len_app.
  assert (E : len (repeat xff (Z.to_nat ((- len b) mod 4))) = (- len b) mod 4).
  { unfold len at 1. rewrite repeat_length, Z2Nat.id; [reflexivity|].
    apply Z.mod_pos_bound. lia. }
  rewrite E. pose proof (Z.mod_pos_bound (- len b) 4 ltac:(lia)). lia.
Qed.

Lemma le_bytes_len (n : nat) (v : Z) : len (le_bytes n v) = Z.of_nat n.
Proof. unfold len. now rewrite le_bytes_length. Qed.

(** The reference serialization takes header plus payload bytes, and up to
    three bytes of padding. *)
Lemma writeObject_len (obj : NVMObject) :
  match type obj with
  | DataSmall => 4 + dataLength obj <= len (Reference.writeObject obj) < 8 + dataLength obj
  | CounterSmall => len (Reference.writeObject obj) = 8
  | Deleted | Link => len (Reference.writeObject obj) = 4
  | DataLarge | CounterLarge =>
      8 + dataLength obj <= len (Reference.writeObject obj) < 12 + dataLength obj
  end.
Proof.
  unfold Reference.writeObject. rewrite dataLength_payload.
  destruct (type obj).
  - match goal with |- context [Reference.pad ?b] => pose proof (len_pad b) as P end.
    rewrite !len_app, !le_bytes_len in P. lia.
  - match goal with |- context [Reference.pad ?b] => pose proof (len_pad b) as P end.
    rewrite !len_app, !le_bytes_len in P. lia.
  - rewrite len_app, le_bytes_len. unfold len.
    rewrite length_firstn, length_app, repeat_length.
    change (Z.to_nat Reference.NVM_COUNTER_SIZE) with 4%nat. lia.
  - apply le_bytes_len.
  - match goal with |- context [Reference.pad ?b] => pose proof (len_pad b) as P end.
    rewrite !len_app, !le_bytes_len in P. lia.
  - apply le_bytes_len.
Qed.

(** Section 4.2: an object is left whole only if it fits the space of the
    first fragment. *)
Lemma fragmentLargeObject_whole (o : NVMObject) (firstFit subsequentFit : Z) :
  (length (Reference.fragmentLargeObject o firstFit subsequentFit) <= 1)%nat ->
  dataLength o <= firstFit.
Proof.
  unfold Reference.fragmentLargeObject.
  destruct (Reference.NVM3_OBJ_HEADER_SIZE_LARGE + dataLength o <=? firstFit) eqn:E.
  - intros _. apply Z.leb_le in E. unfold Reference.NVM3_OBJ_HEADER_SIZE_LARGE in E. lia.
  - cbn [length]. rewrite continuation_length.
    match goal with |- context [Reference.chunks ?f ?c ?r] =>
      pose proof (chunks_nonempty f c r) as N;
      destruct (Reference.chunks f c r) end; [congruence|].
    cbn [length]. lia.
Qed.


Lemma continuation_bound (obj : NVMObject) (n : nat) (cs : list Buffer) :
  Forall (fun ch => (length ch <= n)%nat) cs ->
  Forall (fun g => dataLength g <= Z.of_nat n) (Reference.continuation obj cs).
Proof.
  intros Hcs. pose proof (continuation_fields obj cs) as F.
  induction F as [|f c fs cs' (_ & _ & Hd) _ IH]; [constructor|].
  inversion Hcs as [|? ? Hc Hcs']; subst.
  constructor; [|now apply IH].
  unfold dataLength, len. rewrite Hd. lia.
Qed.

Lemma continuation_same (obj : NVMObject) (cs : list Buffer) :
  Forall (fun f => key f = key obj /\ type f = type obj)
         (Reference.continuation obj cs).
Proof.
  pose proof (continuation_fields obj cs) as F.
  induction F as [|f c fs cs' (Hk & Ht & _) _ IH]; constructor; auto.
Qed.

Lemma len_firstn_skipn (n : nat) (b : Buffer) :
  len (firstn n b) + len (skipn n b) = len b.
Proof. rewrite <- len_app. now rewrite firstn_skipn. Qed.

(** The fragments of the reference codec are as section 4.2 says. *)
Lemma fragmentLargeObject_LargeFit (obj : NVMObject) (firstFit subsequentFit : Z) :
  isLargeType (type obj) ->
  dataLength obj < 2 ^ 31 - 16 ->
  9 <= subsequentFit ->
  LargeFit 8 Reference.writeObject obj firstFit subsequentFit
           (Reference.fragmentLargeObject obj firstFit subsequentFit).
Proof.
  intros Ht Hd Hs. unfold Reference.fragmentLargeObject.
  change Reference.NVM3_OBJ_HEADER_SIZE_LARGE with 8.
  destruct (8 + dataLength obj <=? firstFit) eqn:E.
  - apply Z.leb_le in E. split; [exact E|].
    pose proof (writeObject_len obj) as L.
    destruct Ht as [Ht | Ht]; rewrite Ht in L; lia.
  - set (n0 := Z.to_nat (firstFit - 8)).
    set (c := Z.to_nat (Z.max 1 (subsequentFit - 8))).
    set (rest := skipn n0 (Reference.payload obj)).
    set (cs := Reference.chunks (length rest) c rest).
    set (first := mkObject (type obj) FragmentFirst (key obj)
                           (Some (firstn n0 (Reference.payload obj)))).
    pose proof (continuation_length obj cs) as Hl.
    pose proof (chunks_nonempty (length rest) c rest) as Hne. fold cs in Hne.
    pose proof (continuation_bound obj c cs) as Hb.
    pose proof (continuation_totalDataLength obj cs) as Htot.
    destruct (Reference.continuation obj cs) as [|g gs] eqn:Ec.
    { destruct cs; [congruence | discriminate]. }
    cbn [LargeFit]. split; [|split].
    + unfold first, dataLength, len. cbn [data]. rewrite length_firstn.
      subst n0. lia.
    + eapply Forall_impl; [|apply Hb].
      * intros a Ha. cbn beta in Ha. subst c. lia.
      * apply chunks_bound; [subst c; lia | lia].
    + change (totalDataLength (first :: g :: gs))
        with (dataLength first + totalDataLength (g :: gs)).
      rewrite Htot. unfold cs. rewrite chunks_concat, (dataLength_payload obj).
      unfold first, dataLength, rest. cbn [data]. apply len_firstn_skipn.
Qed.

(** The fragments of the reference codec are a chain of the object. *)
Lemma fragmentLargeObject_chain (obj : NVMObject) (d : Buffer)
      (firstFit subsequentFit : Z) :
  isLargeType (type obj) ->
  data obj = Some d ->
  FragmentChain obj (Reference.fragmentLargeObject obj firstFit subsequentFit).
Proof.
  intros Ht Hd. unfold Reference.fragmentLargeObject.
  destruct (Reference.NVM3_OBJ_HEADER_SIZE_LARGE + dataLength obj <=? firstFit).
  { now left. }
  right. split; [exact Ht|].
  set (n0 := Z.to_nat (firstFit - Reference.NVM3_OBJ_HEADER_SIZE_LARGE)).
  set (c := Z.to_nat (Z.max 1 (subsequentFit - Reference.NVM3_OBJ_HEADER_SIZE_LARGE))).
  set (rest := skipn n0 (Reference.payload obj)).
  set (cs := Reference.chunks (length rest) c rest).
  destruct (continuation_shape obj cs) as (mids & last & E & Hm & Hl).
  { apply chunks_nonempty. }
  exists (mkObject (type obj) FragmentFirst (key obj)
                   (Some (firstn n0 (Reference.payload obj)))), mids, last.
  split; [now rewrite E|]. split; [reflexivity|].
  split; [exact Hm|]. split; [exact Hl|]. split.
  - constructor; [now split | apply continuation_same].
  - unfold payloads. cbn [List.map List.concat data].
    fold (payloads (Reference.continuation obj cs)).
    rewrite continuation_payloads. subst cs. rewrite chunks_concat.
    subst rest. rewrite firstn_skipn. unfold Reference.payload. now rewrite Hd.
Qed.

(** The aligned length of a serialized object does not wrap around. *)
Lemma sizeFits_reference (f : NVMObject) :
  dataLength f < 2 ^ 31 - 16 -> sizeFits 4 Reference.writeObject f.
Proof.
  intros Hd. unfold sizeFits.
  assert (0 <= dataLength f).
  { unfold dataLength. destruct (data f); [apply len_nonneg | lia]. }
  pose proof (writeObject_len f) as L.
  pose proof (alignedDelta_4_ge (len (Reference.writeObject f))) as G.
  destruct (type f); lia.
Qed.

Lemma fragmentLargeObject_within (obj : NVMObject) (firstFit subsequentFit : Z) :
  Forall (fun f => dataLength f <= dataLength obj)
         (Reference.fragmentLargeObject obj firstFit subsequentFit).
Proof.
  unfold Reference.fragmentLargeObject.
  destruct (Reference.NVM3_OBJ_HEADER_SIZE_LARGE + dataLength obj <=? firstFit).
  { constructor; [lia | constructor]. }
  rewrite dataLength_payload.
  constructor.
  - unfold dataLength, len. cbn [data]. rewrite length_firstn. lia.
  - match goal with |- context [Reference.chunks ?f ?c ?r] =>
      pose proof (chunks_within f c r) as W;
      pose proof (continuation_fields obj (Reference.chunks f c r)) as F;
      remember (Reference.chunks f c r) as cs eqn:Ecs; clear Ecs;
      assert (Hr : (length r <= length (Reference.payload obj))%nat)
        by (rewrite length_skipn; lia);
      remember r as rest eqn:Er; clear Er
    end.
    induction F as [|g ch gs cs' (_ & _ & Hd) _ IH]; [constructor|].
    inversion W as [|? ? Hc W']; subst.
    constructor; [|now apply IH].
    unfold dataLength, len. rewrite Hd. lia.
Qed.

Lemma fragmentLargeObject_fits (obj : NVMObject) (firstFit subsequentFit : Z) :
  dataLength obj < 2 ^ 31 - 16 ->
  Forall (sizeFits 4 Reference.writeObject)
         (Reference.fragmentLargeObject obj firstFit subsequentFit).
Proof.
  intros Hd. eapply Forall_impl; [|apply fragmentLargeObject_within].
  intros f Hf. cbn beta in Hf. apply sizeFits_reference. lia.
Qed.

(** The reference codec meets the size contract, for objects of less than
    2 GiB and small objects that fit a page body. *)
Lemma reference_SizeContract (pageSize : Z) (obj : NVMObject) :
  type obj <> Link ->
  29 <= pageSize ->
  dataLength obj < 2 ^ 31 - 16 ->
  (type obj = CounterSmall \/ type obj = DataSmall ->
   objectCost 4 4 8 obj <= pageSize - NVM3_PAGE_HEADER_SIZE) ->
  SizeContract 4 4 8 Reference.writeObject Reference.fragmentLargeObject
               pageSize obj.
Proof.
  intros Hlink Hp Hd Hsmall. constructor.
  - exact Hlink.
  - intros Ht. split; [now apply Hsmall|].
    pose proof (writeObject_len obj) as L. unfold objectCost.
    destruct Ht as [Ht | Ht]; rewrite Ht in *; lia.
  - intros Ht firstFit. apply fragmentLargeObject_LargeFit.
    + unfold isLargeType. tauto.
    + exact Hd.
    + unfold NVM3_PAGE_HEADER_SIZE. lia.
Qed.

Lemma reference_ChainsOK (pageSize : Z) (obj : NVMObject) :
  wellFormedObject obj ->
  (isLargeType (type obj) -> data obj <> None) ->
  ChainsOK Reference.fragmentLargeObject pageSize obj.
Proof.
  intros (Hf & Ht) Hd chain Hc. unfold chosenFragments in Hc.
  destruct Ht as [Ht | [Ht | [Ht | Ht]]]; rewrite Ht in Hc;
    try (subst chain; now left);
    destruct Hc as (firstFit & ->);
    (destruct (data obj) as [d|] eqn:Ed;
     [ apply (fragmentLargeObject_chain obj d); [unfold isLargeType; tauto | exact Ed]
     | exfalso; apply Hd; [unfold isLargeType; tauto | reflexivity] ]).
Qed.

Lemma reference_FragmentsFit (pageSize : Z) (obj : NVMObject) :
  dataLength obj < 2 ^ 31 - 16 ->
  FragmentsFit 4 Reference.writeObject Reference.fragmentLargeObject pageSize obj.
Proof.
  intros Hd chain Hc. unfold chosenFragments in Hc.
  destruct (type obj);
    try (destruct Hc as (firstFit & ->); now apply fragmentLargeObject_fits);
    subst chain; repeat constructor; now apply sizeFits_reference.
Qed.

Lemma succeeds_OK {A : Type} (r : result A) (d : A) :
  succeeds r = true -> r = OK (match r with OK a => a | Err _ => d end).
Proof. destruct r; [reflexivity | discriminate]. Qed.

Lemma sampleImage_encoded :
  Reference.encodeNVM Reference.sampleApplication Reference.sampleProtocol
                      defaultOptions
  = OK Reference.sampleImage.
Proof. apply succeeds_OK. vm_compute. reflexivity. Qed.

Lemma emptyImage_encoded :
  Reference.encodeNVM [] [] defaultOptions = OK Reference.emptyImage.
Proof. apply succeeds_OK. vm_compute. reflexivity. Qed.

(** * The properties at the reference codec *)

(** C8 at a page that declares 65536 bytes in an image of 2048 bytes. *)
Lemma readPage_clamps_pageSize_witness :
  ValidHeader Reference.clampedImage 0 3623878656 134217727 4294967295 65535
  /\ FLASH_MAX_PAGE_SIZE < declaredPageSize 65535
  /\ exists h,
      Reference.readPage Reference.clampedImage 0
      = OK (mkPage h [Reference.sampleSmall], 2048)
      /\ pageSize h = 65536.
Proof.
  assert (V : ValidHeader Reference.clampedImage 0 3623878656 134217727
                          4294967295 65535)
    by (constructor; vm_compute; reflexivity).
  split; [exact V|]. split; [vm_compute; reflexivity|].
  destruct (readPage_clamps_pageSize Reference.readObjects _ _ _ _ _ _ V)
    as (_ & _ & H).
  destruct H as (h & E & Hp & _); [vm_compute; discriminate|].
  exists h. split; [|rewrite Hp; vm_compute; reflexivity].
  unfold Reference.readPage. rewrite E. vm_compute. reflexivity.
Defined.



(** C7 at a large object of 3000 bytes placed at the top of a page. *)
Lemma large_object_one_fragment_per_page_witness :
  (type Reference.sampleLarge = CounterLarge \/ type Reference.sampleLarge = DataLarge)
  /\ 0 <= pageIndex Reference.freshWriter < pageCountOf Buffer Reference.freshWriter
  /\ (2 <= length (Reference.fragmentLargeObject Reference.sampleLarge 2028 2028))%nat
  /\ exists w',
      placeObject 4 4 4 Reference.writeObject Reference.fragmentLargeObject
                  (putBytes Reference.writeObject) 2048
                  Reference.freshWriter Reference.sampleLarge
      = OK w'
      /\ pageIndex w' = 2
      /\ offsetInPage w' = 20.
Proof.
  assert (H1 : type Reference.sampleLarge = CounterLarge
               \/ type Reference.sampleLarge = DataLarge) by (right; reflexivity).
  assert (H2 : 0 <= pageIndex Reference.freshWriter
               < pageCountOf Buffer Reference.freshWriter)
    by (split; vm_compute; [discriminate | reflexivity]).
  split; [exact H1|]. split; [exact H2|].
  destruct (large_object_one_fragment_per_page
              4 4 4 Reference.writeObject Reference.fragmentLargeObject 2048
              Reference.freshWriter Reference.sampleLarge H1 H2) as [T1 T2].
  assert (L : (2 <= length (Reference.fragmentLargeObject
                              Reference.sampleLarge 2028 2028))%nat).
  { apply T2.
    - apply fragmentLargeObject_whole.
    - vm_compute. discriminate.
    - vm_compute. reflexivity. }
  split; [exact L|].
  specialize (T1 L).
  destruct (placeObject 4 4 4 Reference.writeObject Reference.fragmentLargeObject
                        (putBytes Reference.writeObject) 2048
                        Reference.freshWriter Reference.sampleLarge)
    as [w'|e].
  - destruct T1 as (Hi & _ & Ho & _).
    exists w'. split; [reflexivity|].
    split; [rewrite Hi; vm_compute; reflexivity | exact Ho].
  - destruct T1 as [_ T]. exfalso. vm_compute in T. apply T. reflexivity.
Defined.

(** C1 at the sample maps. *)
Lemma encodeNVM_default_length_witness :
  Reference.encodeNVM Reference.sampleApplication Reference.sampleProtocol
                      defaultOptions
  = OK Reference.sampleImage
  /\ exists page applicationPages protocolPages,
      createEmptyPage defaultOptions = OK page
      /\ writeObjects Reference.NVM3_WORD_SIZE Reference.NVM3_OBJ_HEADER_SIZE_SMALL
                      Reference.NVM_COUNTER_SIZE Reference.writeObject
                      Reference.fragmentLargeObject 2048 (repeat page 6)
                      Reference.sampleApplication
         = OK applicationPages
      /\ writeObjects Reference.NVM3_WORD_SIZE Reference.NVM3_OBJ_HEADER_SIZE_SMALL
                      Reference.NVM_COUNTER_SIZE Reference.writeObject
                      Reference.fragmentLargeObject 2048 (repeat page 18)
                      Reference.sampleProtocol
         = OK protocolPages
      /\ Reference.sampleImage
         = List.concat applicationPages ++ List.concat protocolPages
      /\ len (List.concat applicationPages) = 0x3000
      /\ len (List.concat protocolPages) = 0x9000
      /\ slice Reference.sampleImage 0 0x3000 = List.concat applicationPages
      /\ slice Reference.sampleImage 0x3000 0xC000 = List.concat protocolPages
      /\ len Reference.sampleImage = 0xC000.
Proof.
  pose proof sampleImage_encoded as E.
  split; [exact E|].
  exact (encodeNVM_default_length
           Reference.NVM3_WORD_SIZE Reference.NVM3_OBJ_HEADER_SIZE_SMALL
           Reference.NVM_COUNTER_SIZE
           Reference.writeObject Reference.fragmentLargeObject
           Reference.sampleApplication Reference.sampleProtocol
           Reference.sampleImage E).
Defined.

(** The image of two empty maps with the default options takes 0xC000 bytes,
    not 0xF000: the protocol region is the 0x9000 bytes that the application
    region leaves of 0xC000. *)
Lemma encodeNVM_default_length_counterexample :
  exists buf,
    Reference.encodeNVM [] [] defaultOptions = OK buf
    /\ len buf = 0xC000
    /\ len buf <> 0xF000.
Proof.
  exists Reference.emptyImage.
  split; [exact emptyImage_encoded|].
  split; [vm_compute; reflexivity | vm_compute; discriminate].
Qed.

(** C2 at a page size of 5000 bytes: an image of 3 + 8 pages. *)
Lemma encodeNVM_any_page_size_witness :
  256 < opt_pageSize Reference.oddOptions <= 65536
  /\ exists buf,
      Reference.encodeNVM [] [] Reference.oddOptions = OK buf
      /\ len buf = 55000.
Proof.
  assert (H : 256 < opt_pageSize Reference.oddOptions <= 65536)
    by (split; vm_compute; [reflexivity | discriminate]).
  split; [exact H|].
  destruct (encodeNVM_any_page_size
              Reference.NVM3_WORD_SIZE Reference.NVM3_OBJ_HEADER_SIZE_SMALL
              Reference.NVM_COUNTER_SIZE
              Reference.writeObject Reference.fragmentLargeObject
              Reference.oddOptions H) as (buf & E & L).
  exists buf. split; [exact E|]. rewrite L. vm_compute. reflexivity.
Defined.

(** A page size of 5000 bytes divides neither region size, and [encodeNVM]
    returns an image all the same: there is no check of the option. *)
Lemma encodeNVM_any_page_size_counterexample :
  ZWAVE_APPLICATION_NVM_SIZE mod opt_pageSize Reference.oddOptions <> 0
  /\ ZWAVE_PROTOCOL_NVM_SIZE mod opt_pageSize Reference.oddOptions <> 0
  /\ exists buf, Reference.encodeNVM [] [] Reference.oddOptions = OK buf.
Proof.
  split; [vm_compute; discriminate|].
  split; [vm_compute; discriminate|].
  eexists. apply (succeeds_OK _ []). vm_compute. reflexivity.
Qed.

Lemma ringImage_pages :
  readPages Reference.readObjects (length Reference.ringImage) Reference.ringImage 0
  = OK [Reference.pageA; Reference.pageB].
Proof. vm_compute. reflexivity. Qed.

(** C4 at scenario S5. *)
Lemma parseNVM_ring_order_witness :
  exists r,
    parseNVM Reference.readObjects Reference.ringImage = OK r
    /\ applicationPages r = [Reference.pageB; Reference.pageA]
    /\ map_get 7 (applicationObjects r) = Some Reference.valueA.
Proof.
  pose (r := match parseNVM Reference.readObjects Reference.ringImage with
             | OK a => a
             | Err _ => mkParsed [] [] [] []
             end).
  assert (E : parseNVM Reference.readObjects Reference.ringImage = OK r)
    by (apply succeeds_OK; vm_compute; reflexivity).
  exists r. split; [exact E|]. split; [vm_compute; reflexivity|].
  destruct (parseNVM_ring_order Reference.readObjects Reference.ringImage r E)
    as (pages & Hr & _ & _ & _ & _ & _ & _ & Hkey).
  rewrite ringImage_pages in Hr. injection Hr as <-.
  apply (Hkey Reference.pageA Reference.pageB Reference.valueA Reference.valueB).
  - apply Permutation_refl.
  - vm_compute. reflexivity.
  - reflexivity.
  - reflexivity.
  - left. reflexivity.
  - left. reflexivity.
  - reflexivity.
Defined.

(** C10 at the image of scenario S5 and the same image with a bad first
    page. *)
Lemma parseNVM_ignores_page_status_witness :
  statusVariant Reference.readObjects Reference.ringImage Reference.ringImageBad
  /\ readUInt32LE Reference.ringImageBad 12 = OK PageStatus_Bad
  /\ sameObjects (parseNVM Reference.readObjects Reference.ringImage)
                 (parseNVM Reference.readObjects Reference.ringImageBad).
Proof.
  assert (V : statusVariant Reference.readObjects Reference.ringImage
                            Reference.ringImageBad).
  { unfold Reference.ringImageBad.
    apply (variant_step Reference.readObjects _ _ _ 0 _
                        (variant_same _ _) ringImage_pages).
    - left. reflexivity.
    - reflexivity. }
  split; [exact V|]. split; [vm_compute; reflexivity|].
  apply (parseNVM_ignores_page_status Reference.readObjects _ _ V).
Defined.

(** C6 at the second page of the image of scenario S5. *)
Lemma eraseCount_integrity_witness :
  readUInt32LE Reference.ringImage (2048 + 4) = OK 3355443203
  /\ readUInt32LE Reference.ringImage (2048 + 8) = OK 402653180
  /\ parseNVM Reference.readObjects (flipBitAt Reference.ringImage (2048 + 7) 3)
     = Err BergerCodeError.
Proof.
  assert (H1 : readUInt32LE Reference.ringImage (2048 + 4) = OK 3355443203)
    by (vm_compute; reflexivity).
  assert (H2 : readUInt32LE Reference.ringImage (2048 + 8) = OK 402653180)
    by (vm_compute; reflexivity).
  split; [exact H1|]. split; [exact H2|].
  destruct (eraseCount_integrity Reference.readObjects _ _ _ _ H1 H2)
    as (_ & _ & T).
  apply (T [Reference.pageA; Reference.pageB] 3 ringImage_pages).
  - right. left. reflexivity.
  - lia.
Defined.

(** Flipping a bit of the code of the erase count of the first page, or of the
    second page, of an image makes [parseNVM] fail with the same error: it
    does not tell the page. *)
Lemma eraseCount_integrity_counterexample :
  parseNVM Reference.readObjects (flipBitAt Reference.emptyImage (0 + 7) 3)
  = Err BergerCodeError
  /\ parseNVM Reference.readObjects (flipBitAt Reference.emptyImage (2048 + 7) 3)
     = Err BergerCodeError.
Proof. split; vm_compute; reflexivity. Qed.

(** C9 at a large object of 13000 bytes for an application region of
    6 * 2028 bytes. *)
Lemma encodeNVM_insufficient_space_witness :
  256 < opt_pageSize defaultOptions <= 65536
  /\ Forall (SizeContract 4 4 8 Reference.writeObject
                          Reference.fragmentLargeObject 2048)
            (map_values Reference.hugeApplication)
  /\ 6 * 2028 < totalCost 4 4 8 (map_values Reference.hugeApplication)
  /\ Reference.encodeNVM Reference.hugeApplication [] defaultOptions
     = Err NotEnoughPages.
Proof.
  assert (H : 256 < opt_pageSize defaultOptions <= 65536)
    by (split; vm_compute; [reflexivity | discriminate]).
  assert (C : Forall (SizeContract 4 4 8 Reference.writeObject
                                   Reference.fragmentLargeObject 2048)
                     (map_values Reference.hugeApplication)).
  { constructor; [|constructor].
    apply reference_SizeContract.
    - discriminate.
    - lia.
    - vm_compute. reflexivity.
    - intros [T | T]; discriminate. }
  assert (L : 6 * 2028 < totalCost 4 4 8 (map_values Reference.hugeApplication))
    by (vm_compute; reflexivity).
  split; [exact H|]. split; [exact C|]. split; [exact L|].
  destruct (encodeNVM_insufficient_space
              Reference.NVM3_WORD_SIZE Reference.NVM3_OBJ_HEADER_SIZE_SMALL
              Reference.NVM_COUNTER_SIZE Reference.NVM3_OBJ_HEADER_SIZE_LARGE
              Reference.writeObject Reference.fragmentLargeObject
              Reference.hugeApplication [] defaultOptions H) as (_ & _ & T).
  apply T.
  - reflexivity.
  - vm_compute. discriminate.
  - exact C.
  - constructor.
  - left. exact L.
Defined.

Lemma sampleSmall_wellFormed : wellFormedObject Reference.sampleSmall.
Proof. split; [reflexivity | left; reflexivity]. Qed.

Lemma sampleCounter_wellFormed : wellFormedObject Reference.sampleCounter.
Proof. split; [reflexivity | right; left; reflexivity]. Qed.

Lemma sampleLarge_wellFormed : wellFormedObject Reference.sampleLarge.
Proof. split; [reflexivity | right; right; left; reflexivity]. Qed.

Lemma sampleApplication_wellFormed : WellFormedMap Reference.sampleApplication.
Proof.
  split.
  - repeat constructor; cbn; intuition discriminate.
  - constructor; [split; [reflexivity | apply sampleSmall_wellFormed]|].
    constructor; [split; [reflexivity | apply sampleCounter_wellFormed]|].
    constructor; [split; [reflexivity | apply sampleLarge_wellFormed]|].
    constructor.
Qed.

Lemma sampleProtocol_wellFormed : WellFormedMap Reference.sampleProtocol.
Proof.
  split.
  - repeat constructor. intros [].
  - constructor; [split; [reflexivity | apply sampleSmall_wellFormed]|].
    constructor.
Qed.

Ltac each_object tac := repeat (apply Forall_cons; [tac|]); apply Forall_nil.

(** * Further properties of the page codec *)

Section PageChecks.
  Variable readObjects : Buffer -> result (list NVMObject).

  (** X1.  [readPage] looks at the magic word before the version: a page whose
      magic word is not 0xB29A is refused with "Not a valid NVM3 page!"
      whatever its version, and a page with the magic word and a version other
      than 1 is refused with "Unsupported NVM3 page version", which tells the
      version. *)
Theorem readPage_rejects_foreign_page (buffer : Buffer) (pos version magic : Z) :
    readUInt16LE buffer pos = OK version ->
    readUInt16LE buffer (pos + 2) = OK magic ->
    (magic <> NVM3_PAGE_MAGIC ->
     readPage readObjects buffer pos = Err NotValidPage)
    /\ (magic = NVM3_PAGE_MAGIC -> version <> 1 ->
        readPage readObjects buffer pos = Err (UnsupportedVersion version)).
  Proof.
    intros Hv Hm. unfold readPage. rewrite Hv, Hm. cbn [bind]. split.
    - intros Hne. apply Z.eqb_neq in Hne. now rewrite Hne.
    - intros -> Hne. rewrite Z.eqb_refl. cbn [negb].
      apply Z.eqb_neq in Hne. now rewrite Hne.
  Qed.

  (** X2.  What [readPage] returns of a page: the header holds the offset it
      was read at and version 1, an erase count of 27 bits, a status of 32
      bits, a device family of 11 bits, a write size of one bit, and one of the
      eight page sizes 512, 1024, ..., 65536; the bytes read are
      [min pageSize 2048], that is 512, 1024 or 2048, all within the buffer;
      and the objects are what [readObjects] makes of the rest of these
      bytes after the 20 bytes of the header. *)
Theorem readPage_result_layout (buffer : Buffer) (pos : Z) (page : NVMPage)
      (bytesRead : Z) :
    readPage readObjects buffer pos = OK (page, bytesRead) ->
    let h := header page in
    offset h = pos /\ version h = 1
    /\ 0 <= eraseCount h < 2 ^ 27
    /\ 0 <= status h < 2 ^ 32
    /\ 0 <= deviceFamily h < 2 ^ 11
    /\ 0 <= writeSize h <= 1
    /\ (exists bits, 0 <= bits <= 7 /\ pageSize h = 512 * 2 ^ bits)
    /\ bytesRead = Z.min (pageSize h) 2048
    /\ (bytesRead = 512 \/ bytesRead = 1024 \/ bytesRead = 2048)
    /\ 0 <= pos /\ pos + bytesRead <= len buffer
    /\ readObjects (slice buffer (pos + 20) (pos + bytesRead)) = OK (objects page).
  Proof.
    intros E h. pose proof (readPage_bytesRead _ _ _ _ _ E) as (Hpos & _ & _ & _).
    apply readPage_inv in E.
    destruct E as (w & wi & st & dev & fmt & Hv & _ & Hk & Hl & Ho & Hh).
    subst h. rewrite Hh. cbn [offset version eraseCount status deviceFamily
                               writeSize pageSize].
    destruct Hv as [_ _ _ _ _ _ _ Hst _].
    apply readUInt32LE_range in Hst.
    assert (Hb : 0 <= js_and (js_shr dev 13) 7 < 2 ^ 3)
      by (apply (js_and_ones_range (js_shr dev 13) 3); lia).
    assert (Hp : exists bits, 0 <= bits <= 7
                              /\ declaredPageSize dev = 512 * 2 ^ bits).
    { exists (js_and (js_shr dev 13) 7). split; [pow2; lia | reflexivity]. }
    split; [reflexivity|]. split; [reflexivity|].
    split; [rewrite js_and_mask; apply Z.mod_pos_bound; pow2; lia|].
    split; [exact Hst|].
    split; [apply (js_and_ones_range dev 11); lia|].
    split.
    { pose proof (js_and_ones_range (js_shr dev 11) 1 ltac:(lia)) as R.
      change (Z.ones 1) with 1 in R. pow2. lia. }
    split; [exact Hp|].
    split; [exact Hk|].
    split.
    { destruct Hp as (bits & Hbits & Ep). rewrite Hk, Ep.
      unfold FLASH_MAX_PAGE_SIZE.
      assert (C : bits = 0 \/ bits = 1 \/ 2 <= bits) by lia.
      destruct C as [-> | [-> | C]]; [left; reflexivity | right; left; reflexivity |].
      right. right.
      assert (2 ^ 2 <= 2 ^ bits) by (apply Z.pow_le_mono_r; lia).
      pow2. lia. }
    split; [exact Hpos|]. split; [exact Hl | exact Ho].
  Qed.
End PageChecks.

(** * Further properties of the image codec *)

Section ImageWalk.
  Variable readObjects : Buffer -> result (list NVMObject).

Lemma readPage_step (buffer : Buffer) (pos : Z) (page : NVMPage) (k : Z) :
    readPage readObjects buffer pos = OK (page, k) ->
    k = Z.min (pageSize (header page)) FLASH_MAX_PAGE_SIZE
    /\ k mod 512 = 0.
  Proof.
    intros E. apply readPage_inv in E.
    destruct E as (w & wi & st & dev & fmt & _ & _ & Hk & _ & _ & Hh).
    rewrite Hh. cbn [pageSize]. split; [exact Hk|].
    rewrite Hk. unfold declaredPageSize, pageSizeFromBits, NVM3_MIN_PAGE_SIZE,
                FLASH_MAX_PAGE_SIZE.
    destruct (Z.min_spec (512 * 2 ^ js_and (js_shr dev 13) 7) 2048)
      as [(_ & ->) | (_ & ->)]; [|reflexivity].
    rewrite Z.mul_comm. apply Z_mod_mult.
  Qed.

Lemma readPages_tiles (fuel : nat) (buffer : Buffer) :
    forall (pos : Z) (pages : list NVMPage),
      0 <= pos <= len buffer ->
      len buffer - pos <= Z.of_nat fuel ->
      readPages readObjects fuel buffer pos = OK pages ->
      tiles pages pos (len buffer)
      /\ (len buffer - pos) mod 512 = 0
      /\ Z.of_nat (length pages) * 512 <= len buffer - pos.
  Proof.
    induction fuel as [|fuel IH]; intros pos pages Hpos Hfuel E.
    - assert (pos = len buffer) by lia. subst pos.
      cbn [readPages] in E. rewrite Z.ltb_irrefl in E.
      apply OK_inj in E. subst pages.
      rewrite Z.sub_diag. repeat split. cbn. lia.
    - cbn [readPages] in E.
      destruct (pos <? len buffer) eqn:Elt.
      + destruct (readPage readObjects buffer pos) as [[page k]|e] eqn:Ep;
          [|discriminate].
        cbn [bind] in E.
        destruct (readPages readObjects fuel buffer (pos + k)) as [rest|e] eqn:Er;
          [|discriminate].
        cbn [bind] in E. apply OK_inj in E. subst pages.
        pose proof (readPage_bytesRead _ _ _ _ _ Ep) as (_ & Hk & Hl & Ho).
        destruct (readPage_step _ _ _ _ Ep) as (Ek & Hm).
        destruct (IH (pos + k) rest ltac:(lia) ltac:(lia) Er) as (T & M & L).
        split; [|split].
        * cbn [tiles]. split; [exact Ho|]. now rewrite <- Ek.
        * replace (len buffer - pos) with (len buffer - (pos + k) + k) by lia.
          rewrite Z.add_mod, M, Hm by lia. reflexivity.
        * cbn [length]. lia.
      + apply Z.ltb_ge in Elt. assert (pos = len buffer) by lia. subst pos.
        apply OK_inj in E. subst pages.
        rewrite Z.sub_diag. repeat split. cbn. lia.
  Qed.

  (** X3.  The pages that [parseNVM] returns cover the buffer: taken in the
      order of their offsets they lie one after the other from offset 0 to the
      end of the buffer, each on [min pageSize 2048] bytes, and each of them is
      in exactly one of the two lists, the application pages below offset
      0x3000 and the protocol pages from there on.  Hence only a buffer whose
      length is a multiple of 512 is parsed, into at most [length / 512]
      pages. *)
Theorem parseNVM_pages_tile_buffer (buffer : Buffer) (r : ParsedNVM) :
    parseNVM readObjects buffer = OK r ->
    exists pages,
      tiles pages 0 (len buffer)
      /\ Permutation (applicationPages r ++ protocolPages r) pages
      /\ Forall (fun p => offset (header p) < ZWAVE_APPLICATION_NVM_SIZE)
                (applicationPages r)
      /\ Forall (fun p => ZWAVE_APPLICATION_NVM_SIZE <= offset (header p))
                (protocolPages r)
      /\ len buffer mod 512 = 0
      /\ Z.of_nat (length pages) * 512 <= len buffer.
  Proof.
    intros E. rewrite parseNVM_pages in E.
    destruct (readPages readObjects (length buffer) buffer 0) as [pages|e] eqn:Er;
      [|discriminate].
    cbn [bind] in E. apply OK_inj in E. subst r.
    cbn [applicationPages protocolPages].
    destruct (readPages_tiles (length buffer) buffer 0 pages) as (T & M & L);
      [pose proof (len_nonneg buffer); lia | unfold len; lia | exact Er |].
    rewrite Z.sub_0_r in M, L.
    exists pages. split; [exact T|]. split; [|split; [|split; [|split]]].
    - apply (Permutation_trans
               (l' := filter inApplicationRegion pages
                      ++ filter inProtocolRegion pages));
        [apply Permutation_app; apply sort_perm|].
      clear. induction pages as [|p pages IH]; [constructor|].
      cbn [filter]. unfold inApplicationRegion at 1, inProtocolRegion at 1.
      rewrite Z.geb_leb.
      destruct (offset (header p) <? ZWAVE_APPLICATION_NVM_SIZE) eqn:E1;
        destruct (ZWAVE_APPLICATION_NVM_SIZE <=? offset (header p)) eqn:E2.
      + apply Z.ltb_lt in E1. apply Z.leb_le in E2. lia.
      + cbn [app]. now constructor.
      + apply Permutation_sym, Permutation_cons_app, Permutation_sym, IH.
      + apply Z.ltb_ge in E1. apply Z.leb_gt in E2. lia.
    - eapply Permutation_Forall; [apply Permutation_sym, sort_perm|].
      apply Forall_forall. intros p Hp. apply filter_In in Hp.
      destruct Hp as [_ Hp]. now apply Z.ltb_lt in Hp.
    - eapply Permutation_Forall; [apply Permutation_sym, sort_perm|].
      apply Forall_forall. intros p Hp. apply filter_In in Hp.
      destruct Hp as [_ Hp]. unfold inProtocolRegion in Hp.
      rewrite Z.geb_leb in Hp. now apply Z.leb_le in Hp.
    - exact M.
    - exact L.
  Qed.
End ImageWalk.

Section PageWindow.
  Variable readObjects : Buffer -> result (list NVMObject).

  (** X4.  [readPage] reads nothing but the length of the buffer and the 2048
      bytes from the offset of the page on: on two buffers of the same length
      that hold the same bytes there, it returns the same result, page or
      error. *)
Theorem readPage_reads_only_its_page (b b' : Buffer) (pos : Z) :
    len b = len b' ->
    agree b b' pos (pos + FLASH_MAX_PAGE_SIZE) ->
    readPage readObjects b' pos = readPage readObjects b pos.
  Proof.
    intros Hl Ha.
    apply (readPage_local_same readObjects b b' pos (pos + FLASH_MAX_PAGE_SIZE));
      [exact Hl | exact Ha | unfold FLASH_MAX_PAGE_SIZE; lia |].
    intros dev _. lia.
  Qed.
End PageWindow.

Section Placement.
  Variables NVM3_WORD_SIZE NVM3_OBJ_HEADER_SIZE_SMALL NVM_COUNTER_SIZE : Z.
  Variable writeObject : NVMObject -> Buffer.
  Variable fragmentLargeObject : NVMObject -> Z -> Z -> list NVMObject.

  Local Abbreviation encodeNVM' :=
    (encodeNVM NVM3_WORD_SIZE NVM3_OBJ_HEADER_SIZE_SMALL NVM_COUNTER_SIZE
               writeObject fragmentLargeObject).

Lemma placeObjects_live (Page : Type) (put : NVMObject -> Z -> Page -> Page)
      (pageSize : Z) (objs : ObjectMap) :
    forall w : Writer Page,
      placeObjects NVM3_WORD_SIZE NVM3_OBJ_HEADER_SIZE_SMALL NVM_COUNTER_SIZE
                   writeObject fragmentLargeObject put pageSize w
                   (map_values (live objs))
      = placeObjects NVM3_WORD_SIZE NVM3_OBJ_HEADER_SIZE_SMALL NVM_COUNTER_SIZE
                     writeObject fragmentLargeObject put pageSize w
                     (map_values objs).
  Proof.
    induction objs as [|[k obj] objs IH]; intros w; [reflexivity|].
    unfold live, map_values in *. cbn [filter snd List.map].
    destruct (ObjectType_eqb (type obj) Deleted) eqn:E; cbn [negb].
    - cbn [List.map snd placeObjects].
      assert (D : placeObject NVM3_WORD_SIZE NVM3_OBJ_HEADER_SIZE_SMALL
                              NVM_COUNTER_SIZE writeObject fragmentLargeObject put
                              pageSize w obj = OK w)
        by (unfold placeObject; now rewrite E).
      rewrite D. cbn [bind]. apply IH.
    - cbn [List.map snd placeObjects].
      destruct (placeObject NVM3_WORD_SIZE NVM3_OBJ_HEADER_SIZE_SMALL
                            NVM_COUNTER_SIZE writeObject fragmentLargeObject put
                            pageSize w obj) as [w'|e]; [|reflexivity].
      cbn [bind]. apply IH.
  Qed.

  (** X5.  [Deleted] entries of the maps leave no trace in the image:
      [encodeNVM] returns the same result, image or error, for two maps and for
      the same maps without their [Deleted] entries. *)
Theorem encodeNVM_skips_deleted (applicationObjects protocolObjects : ObjectMap)
      (options : EncodeNVMOptions) :
    encodeNVM' (live applicationObjects) (live protocolObjects) options
    = encodeNVM' applicationObjects protocolObjects options.
  Proof.
    unfold encodeNVM, writeObjects, writeObjectsWith.
    destruct (opt_pageSize options =? 0); [reflexivity|].
    destruct (createPages _ options) as [pa|e]; [|reflexivity]. cbn [bind].
    destruct (createPages _ options) as [pp|e]; [|reflexivity]. cbn [bind].
    assert (W : forall pages0 objs,
               (w <- nextPage (opt_pageSize options)
                              (mkWriter pages0 (-1) (-1) (-1)) ;;
                w <- placeObjects NVM3_WORD_SIZE NVM3_OBJ_HEADER_SIZE_SMALL
                                  NVM_COUNTER_SIZE writeObject fragmentLargeObject
                                  (putBytes writeObject) (opt_pageSize options)
                                  w (map_values (live objs)) ;;
                OK (pages w))
               = (w <- nextPage (opt_pageSize options)
                                (mkWriter pages0 (-1) (-1) (-1)) ;;
                  w <- placeObjects NVM3_WORD_SIZE NVM3_OBJ_HEADER_SIZE_SMALL
                                    NVM_COUNTER_SIZE writeObject fragmentLargeObject
                                    (putBytes writeObject) (opt_pageSize options)
                                    w (map_values objs) ;;
                  OK (pages w))).
    { intros pages0 objs.
      destruct (nextPage _ _) as [w|e]; [|reflexivity]. cbn [bind].
      now rewrite placeObjects_live. }
    rewrite !W. reflexivity.
  Qed.
End Placement.

Lemma toInt32_mod4 (z : Z) : toInt32 z mod 4 = z mod 4.
Proof.
  unfold toInt32.
  rewrite (Z.mod_eq (z + 2 ^ 31) (2 ^ 32)) by (pow2; lia).
  replace (z + 2 ^ 31 - 2 ^ 32 * ((z + 2 ^ 31) / 2 ^ 32) - 2 ^ 31)
    with (z + (- (2 ^ 30 * ((z + 2 ^ 31) / 2 ^ 32))) * 4) by (pow2; lia).
  apply Z.mod_add. lia.
Qed.

(** The step of [incrementOffset] is a multiple of the word size 4, whatever
    the length. *)
Lemma alignedDelta_4_mod (n : Z) : alignedDelta 4 n mod 4 = 0.
Proof.
  unfold alignedDelta. change (js_not (4 - 1)) with (-4).
  unfold js_and. rewrite toInt32_mod4.
  change (toInt32 (-4)) with (Z.lnot (Z.ones 2)).
  rewrite <- Z.ldiff_land, Z.ldiff_ones_r by lia.
  rewrite Z.shiftl_mul_pow2 by lia. change (2 ^ 2) with 4.
  apply Z_mod_mult.
Qed.

Section Aligned.
  Variables NVM3_OBJ_HEADER_SIZE_SMALL NVM_COUNTER_SIZE : Z.
  Variable writeObject : NVMObject -> Buffer.
  Variable fragmentLargeObject : NVMObject -> Z -> Z -> list NVMObject.
  Variable pageSize : Z.
  Variable Page : Type.
  Variable put : NVMObject -> Z -> Page -> Page.
  Variable P : Page -> Prop.
  Hypothesis put_aligned :
    forall f pos page, pos mod 4 = 0 -> P page -> P (put f pos page).

  Local Abbreviation writeFrags := (writeFragments 4 writeObject put pageSize).
  Local Abbreviation place :=
    (placeObject 4 NVM3_OBJ_HEADER_SIZE_SMALL NVM_COUNTER_SIZE
                 writeObject fragmentLargeObject put pageSize).
  Local Abbreviation placeAll :=
    (placeObjects 4 NVM3_OBJ_HEADER_SIZE_SMALL NVM_COUNTER_SIZE
                  writeObject fragmentLargeObject put pageSize).
  Local Abbreviation after := (afterFragment 4 writeObject pageSize Page put).
  Local Abbreviation aligned := (alignedWriter Page P).

Lemma aligned_after (w : Writer Page) (f : NVMObject) :
    aligned w -> aligned (after w f).
  Proof.
    intros (Ho & HP).
    destruct (afterFragment_fields 4 writeObject pageSize Page put w f)
      as (_ & Ao & _ & Ap).
    unfold alignedWriter. rewrite Ao, Ap. split.
    - fold (alignedDelta 4 (len (writeObject f))).
      rewrite Z.add_mod, Ho, alignedDelta_4_mod by lia. reflexivity.
    - unfold putFragment.
      destruct (nth_error (pages w) (Z.to_nat (pageIndex w))) as [page|] eqn:E;
        [|exact HP].
      cbn [pages]. apply setNth_Forall; [exact HP|].
      apply put_aligned; [exact Ho|]. apply nth_error_In in E.
      rewrite Forall_forall in HP. auto.
  Qed.

Lemma aligned_next (w w' : Writer Page) :
    Forall P (pages w) -> nextPage pageSize w = OK w' -> aligned w'.
  Proof.
    intros HP E.
    destruct (nextPage_cases pageSize Page w) as [[_ En] | [_ En]];
      rewrite En in E; [discriminate|].
    apply (OK_inj _) in E. subst w'. split; [reflexivity | exact HP].
  Qed.

Lemma aligned_writeFragments (several : bool) (fs : list NVMObject) :
    forall w w', aligned w -> writeFrags several w fs = OK w' -> aligned w'.
  Proof.
    induction fs as [|f fs IH]; intros w w' Hw E; cbn [writeFragments] in E.
    - apply (OK_inj _) in E. now subst w'.
    - pose proof (aligned_after w f Hw) as Ha.
      destruct several.
      + rewrite writeFragment_several in E.
        destruct (nextPage pageSize (after w f)) as [w1|e] eqn:En; [|discriminate].
        cbn [bind] in E. apply (IH w1 w'); [|exact E].
        apply (aligned_next (after w f) w1); [apply Ha | exact En].
      + rewrite writeFragment_single in E. cbn [bind] in E.
        now apply (IH (after w f) w').
  Qed.

Lemma aligned_placeObject (w w' : Writer Page) (obj : NVMObject) :
    aligned w -> place w obj = OK w' -> aligned w'.
  Proof.
    intros Hw E. unfold placeObject in E.
    destruct (ObjectType_eqb (type obj) Deleted) eqn:Ed.
    { apply (OK_inj _) in E. now subst w'. }
    destruct (chooseFragments NVM3_OBJ_HEADER_SIZE_SMALL NVM_COUNTER_SIZE
                              fragmentLargeObject pageSize w obj)
      as [[w1 fragments]|e] eqn:Ec; [|discriminate].
    cbn [bind] in E.
    destruct (chooseFragments_chosen _ _ _ _ _ w w1 obj fragments Ed Ec)
      as (_ & Hw1).
    apply (aligned_writeFragments (1 <? Z.of_nat (length fragments))
             fragments w1 w'); [|exact E].
    destruct Hw1 as [-> | En]; [exact Hw|].
    apply (aligned_next w w1); [apply Hw | exact En].
  Qed.

Lemma aligned_placeObjects (objs : list NVMObject) :
    forall w w', aligned w -> placeAll w objs = OK w' -> aligned w'.
  Proof.
    induction objs as [|obj objs IH]; intros w w' Hw E; cbn [placeObjects] in E.
    - apply (OK_inj _) in E. now subst w'.
    - destruct (place w obj) as [w1|e] eqn:E1; [|discriminate]. cbn [bind] in E.
      apply (IH w1 w'); [|exact E]. now apply (aligned_placeObject w w1 obj).
  Qed.

Lemma writeObjectsWith_aligned (pages0 pages' : list Page) (objs : ObjectMap) :
    Forall P pages0 ->
    writeObjectsWith 4 NVM3_OBJ_HEADER_SIZE_SMALL NVM_COUNTER_SIZE
                     writeObject fragmentLargeObject put pageSize pages0 objs
    = OK pages' ->
    Forall P pages'.
  Proof.
    intros HP E. unfold writeObjectsWith in E.
    destruct (nextPage pageSize (mkWriter pages0 (-1) (-1) (-1))) as [w1|e] eqn:En;
      [|discriminate].
    cbn [bind] in E.
    destruct (placeAll w1 (map_values objs)) as [w'|e] eqn:E'; [|discriminate].
    cbn [bind] in E. apply (OK_inj _) in E. subst pages'.
    pose proof (aligned_next (mkWriter pages0 (-1) (-1) (-1)) w1 HP En) as H1.
    exact (proj2 (aligned_placeObjects _ w1 w' H1 E')).
  Qed.
End Aligned.

Section WordAligned.
  Variables NVM3_OBJ_HEADER_SIZE_SMALL NVM_COUNTER_SIZE : Z.
  Variable writeObject : NVMObject -> Buffer.
  Variable fragmentLargeObject : NVMObject -> Z -> Z -> list NVMObject.

  (** X6.  With words of 4 bytes, [writeObjects] copies every fragment to an
      offset in its page that is a multiple of 4, whatever the objects, the
      object codec and the page size: the offset starts at 20 on each page and
      advances by lengths rounded to a multiple of 4. *)
Theorem writeObjects_offsets_aligned (pageSize : Z) (n : nat) (objs : ObjectMap)
      (offsets : list (list Z)) :
    placementOffsets 4 NVM3_OBJ_HEADER_SIZE_SMALL NVM_COUNTER_SIZE writeObject
                     fragmentLargeObject pageSize n objs
    = OK offsets ->
    length offsets = n
    /\ Forall (Forall (fun pos => pos mod 4 = 0)) offsets.
  Proof.
    intros E. unfold placementOffsets in E. split.
    - pose proof (writeObjectsWith_keeps
                    4 NVM3_OBJ_HEADER_SIZE_SMALL NVM_COUNTER_SIZE writeObject
                    fragmentLargeObject pageSize (list Z) putOffset
                    (fun _ => True) (fun _ _ _ _ => I) (repeat [] n) objs) as K.
      rewrite E in K. destruct K as [K _]. now rewrite K, repeat_length.
    - apply (writeObjectsWith_aligned
               NVM3_OBJ_HEADER_SIZE_SMALL NVM_COUNTER_SIZE writeObject
               fragmentLargeObject pageSize (list Z) putOffset
               (Forall (fun pos => pos mod 4 = 0))) with (3 := E).
      + intros f pos page Hpos Hpage. unfold putOffset.
        apply Forall_app. split; [exact Hpage | now constructor].
      + apply Forall_forall. intros page Hin. apply repeat_spec in Hin.
        subst page. constructor.
  Qed.
End WordAligned.

Section LastPage.
  Variables NVM3_WORD_SIZE NVM3_OBJ_HEADER_SIZE_SMALL NVM_COUNTER_SIZE : Z.
  Variable writeObject : NVMObject -> Buffer.
  Variable fragmentLargeObject : NVMObject -> Z -> Z -> list NVMObject.
  Variable pageSize : Z.

  (** X7.  A large object that comes in [n > 1] fragments needs [n + 1] pages
      from the current one on: [nextPage] is called after every fragment, the
      last one too, so the placement fails with "Not enough pages!" exactly
      when the region has no page after the one of the last fragment, also
      when every fragment has found its page. *)
Theorem fragmented_object_needs_page_after_last
      (w : Writer Buffer) (obj : NVMObject) :
    let fragments :=
      fragmentLargeObject obj (remainingSpace w) (pageSize - NVM3_PAGE_HEADER_SIZE) in
    type obj = CounterLarge \/ type obj = DataLarge ->
    0 <= pageIndex w < pageCountOf Buffer w ->
    (1 < length fragments)%nat ->
    (placeObject NVM3_WORD_SIZE NVM3_OBJ_HEADER_SIZE_SMALL NVM_COUNTER_SIZE
                 writeObject fragmentLargeObject (putBytes writeObject) pageSize
                 w obj
     = Err NotEnoughPages
     <-> pageCountOf Buffer w <= pageIndex w + Z.of_nat (length fragments)).
  Proof.
    intros fragments Ht Hw Hn.
    assert (E : placeObject NVM3_WORD_SIZE NVM3_OBJ_HEADER_SIZE_SMALL
                            NVM_COUNTER_SIZE writeObject fragmentLargeObject
                            (putBytes writeObject) pageSize w obj
                = writeFragments NVM3_WORD_SIZE writeObject (putBytes writeObject)
                                 pageSize true w fragments).
    { unfold placeObject, chooseFragments.
      destruct Ht as [Ht | Ht]; rewrite Ht; cbn [ObjectType_eqb andb orb bind];
        fold fragments;
        (replace (1 <? Z.of_nat (length fragments)) with true
          by (symmetry; apply Z.ltb_lt; lia)); reflexivity. }
    rewrite E.
    pose proof (writeFragments_several NVM3_WORD_SIZE writeObject pageSize Buffer
                  (putBytes writeObject) fragments w Hw) as S.
    destruct (writeFragments NVM3_WORD_SIZE writeObject (putBytes writeObject)
                             pageSize true w fragments) as [w'|e].
    - destruct S as (Hi & Hlt & _).
      assert (Hne : fragments <> []) by (destruct fragments; [cbn in Hn; lia | discriminate]).
      destruct (Hlt Hne) as (Hlt' & _).
      split; [discriminate | lia].
    - destruct S as (-> & Hge). split; [intros _; exact Hge | reflexivity].
  Qed.
End LastPage.

(** ** The header written and read back *)

Lemma toInt32_shape (z : Z) : exists q, toInt32 z = z + q * 2 ^ 32.
Proof.
  unfold toInt32. exists (- ((z + 2 ^ 31) / 2 ^ 32)).
  rewrite Z.mod_eq by (pow2; lia). pow2. lia.
Qed.

Lemma toInt32_mod32 (z : Z) : toInt32 z mod 2 ^ 32 = z mod 2 ^ 32.
Proof.
  destruct (toInt32_shape z) as (q & ->). apply Z.mod_add. pow2. lia.
Qed.

(** Bits that do not overlap add up. *)
Lemma lor_low (a b k : Z) :
  0 <= k -> 0 <= a < 2 ^ k -> Z.lor a (b * 2 ^ k) = a + b * 2 ^ k.
Proof.
  intros Hk Ha.
  assert (L : Z.land a (b * 2 ^ k) = 0).
  { apply Z.bits_inj'. intros n Hn. rewrite Z.land_spec, Z.bits_0.
    destruct (Z.lt_ge_cases n k).
    - rewrite Z.mul_pow2_bits_low by lia. apply andb_false_r.
    - rewrite <- (Z.mod_small a (2 ^ k)) by lia.
      rewrite Z.mod_pow2_bits_high by lia. reflexivity. }
  rewrite <- Z.lxor_lor by exact L. symmetry. apply Z.add_nocarry_lxor. exact L.
Qed.

Lemma le16_value (v : Z) :
  v mod 256 + 2 ^ 8 * (v / 256 mod 256) = v mod 2 ^ 16.
Proof. pow2. Z.div_mod_to_equations. lia. Qed.

Lemma le32_value (v : Z) :
  v mod 256 + 2 ^ 8 * (v / 256 mod 256) + 2 ^ 16 * (v / 256 / 256 mod 256)
  + 2 ^ 24 * (v / 256 / 256 / 256 mod 256)
  = v mod 2 ^ 32.
Proof. pow2. Z.div_mod_to_equations. lia. Qed.

Lemma writeUInt16LE_eq (b : Buffer) (value pos : Z) :
  0 <= value <= 65535 -> 0 <= pos -> pos + 2 <= len b ->
  writeUInt16LE b value pos = OK (writeBytes b pos (le_bytes 2 value)).
Proof.
  intros Hv H0 H1. unfold writeUInt16LE.
  assert (E1 : (0 <=? value) = true) by (apply Z.leb_le; lia).
  assert (E2 : (value <=? 2 ^ 16 - 1) = true) by (apply Z.leb_le; pow2; lia).
  assert (E3 : inBounds b pos 2 = true) by (apply inBounds_true; lia).
  now rewrite E1, E2, E3.
Qed.

Lemma writeUInt32LE_eq (b : Buffer) (value pos : Z) :
  0 <= value < 2 ^ 32 -> 0 <= pos -> pos + 4 <= len b ->
  writeUInt32LE b value pos = OK (writeBytes b pos (le_bytes 4 value)).
Proof.
  intros Hv H0 H1. unfold writeUInt32LE.
  assert (E1 : (0 <=? value) = true) by (apply Z.leb_le; lia).
  assert (E2 : (value <=? 2 ^ 32 - 1) = true) by (apply Z.leb_le; pow2; lia).
  assert (E3 : inBounds b pos 4 = true) by (apply inBounds_true; lia).
  now rewrite E1, E2, E3.
Qed.

Lemma writeInt32LE_eq (b : Buffer) (value pos : Z) :
  - 2 ^ 31 <= value < 2 ^ 31 -> 0 <= pos -> pos + 4 <= len b ->
  writeInt32LE b value pos = OK (writeBytes b pos (le_bytes 4 value)).
Proof.
  intros Hv H0 H1. unfold writeInt32LE.
  assert (E1 : (- 2 ^ 31 <=? value) = true) by (apply Z.leb_le; lia).
  assert (E2 : (value <=? 2 ^ 31 - 1) = true) by (apply Z.leb_le; pow2; lia).
  assert (E3 : inBounds b pos 4 = true) by (apply inBounds_true; lia).
  now rewrite E1, E2, E3.
Qed.

Lemma counterWord_unfold (count : Z) :
  counterWord count
  = js_or count (js_shl (computeBergerCode count NVM3_PAGE_COUNTER_SIZE)
                        NVM3_PAGE_COUNTER_SIZE).
Proof. reflexivity. Qed.

Lemma devInfoWord_unfold (h : PageHeader) :
  devInfoWord h
  = js_or (js_or (js_or (js_and (deviceFamily h) 0x7ff)
                        (js_shl (js_and (writeSize h) 1) 11))
                 (js_shl (if memoryMapped h then 1 else 0) 12))
          (js_shl (pageSizeToBits (pageSize h)) 13).
Proof. reflexivity. Qed.

Lemma counterWord_range (count : Z) : - 2 ^ 31 <= counterWord count < 2 ^ 31.
Proof. rewrite counterWord_unfold. unfold js_or. apply toInt32_range. Qed.

Lemma header_writes (v w1 w2 s d f : Z) :
  0 <= v <= 65535 ->
  - 2 ^ 31 <= w1 < 2 ^ 31 ->
  - 2 ^ 31 <= w2 < 2 ^ 31 ->
  0 <= s < 2 ^ 32 ->
  0 <= d <= 65535 ->
  0 <= f <= 65535 ->
  (ret <- writeUInt16LE (alloc NVM3_PAGE_HEADER_SIZE x00) v 0 ;;
   ret <- writeUInt16LE ret NVM3_PAGE_MAGIC 2 ;;
   ret <- writeInt32LE ret w1 4 ;;
   ret <- writeInt32LE ret w2 8 ;;
   ret <- writeUInt32LE ret s 12 ;;
   ret <- writeUInt16LE ret d 16 ;;
   ret <- writeUInt16LE ret f 18 ;;
   OK ret)
  = OK (le_bytes 2 v ++ le_bytes 2 NVM3_PAGE_MAGIC ++ le_bytes 4 w1
        ++ le_bytes 4 w2 ++ le_bytes 4 s ++ le_bytes 2 d ++ le_bytes 2 f).
Proof.
  intros Hv H1 H2 Hs Hd Hf.
  set (b0 := alloc NVM3_PAGE_HEADER_SIZE x00).
  assert (L0 : len b0 = 20) by reflexivity.
  rewrite (writeUInt16LE_eq b0) by lia. cbn [bind].
  set (b1 := writeBytes b0 0 _).
  assert (L1 : len b1 = 20)
    by (unfold b1; rewrite writeBytes_len;
        [exact L0 | lia | rewrite le_bytes_length, L0; lia]).
  rewrite (writeUInt16LE_eq b1) by (unfold NVM3_PAGE_MAGIC; lia). cbn [bind].
  set (b2 := writeBytes b1 2 _).
  assert (L2 : len b2 = 20)
    by (unfold b2; rewrite writeBytes_len;
        [exact L1 | lia | rewrite le_bytes_length, L1; lia]).
  rewrite (writeInt32LE_eq b2) by lia. cbn [bind].
  set (b3 := writeBytes b2 4 _).
  assert (L3 : len b3 = 20)
    by (unfold b3; rewrite writeBytes_len;
        [exact L2 | lia | rewrite le_bytes_length, L2; lia]).
  rewrite (writeInt32LE_eq b3) by lia. cbn [bind].
  set (b4 := writeBytes b3 8 _).
  assert (L4 : len b4 = 20)
    by (unfold b4; rewrite writeBytes_len;
        [exact L3 | lia | rewrite le_bytes_length, L3; lia]).
  rewrite (writeUInt32LE_eq b4) by lia. cbn [bind].
  set (b5 := writeBytes b4 12 _).
  assert (L5 : len b5 = 20)
    by (unfold b5; rewrite writeBytes_len;
        [exact L4 | lia | rewrite le_bytes_length, L4; lia]).
  rewrite (writeUInt16LE_eq b5) by lia. cbn [bind].
  set (b6 := writeBytes b5 16 _).
  assert (L6 : len b6 = 20)
    by (unfold b6; rewrite writeBytes_len;
        [exact L5 | lia | rewrite le_bytes_length, L5; lia]).
  rewrite (writeUInt16LE_eq b6) by lia. cbn [bind].
  reflexivity.
Qed.

(** The bytes that [writePageHeader] returns. *)
Lemma writePageHeader_bytes (h : PageHeader) :
  0 <= version h <= 65535 ->
  0 <= status h < 2 ^ 32 ->
  0 <= devInfoWord h <= 65535 ->
  writePageHeader h = OK (headerBytes h).
Proof.
  intros Hv Hs Hd.
  unfold writePageHeader. cbv zeta.
  rewrite <- !counterWord_unfold, <- devInfoWord_unfold.
  unfold headerBytes.
  apply header_writes; try assumption; try apply counterWord_range.
  destruct (encrypted h); lia.
Qed.

Lemma headerBytes_len (h : PageHeader) : len (headerBytes h) = 20.
Proof. reflexivity. Qed.

Lemma read16_pair (b : Buffer) (i v : Z) :
  inBounds b i 2 = true ->
  at_ b i = byte_to_Z (byte_of_Z v) ->
  at_ b (i + 1) = byte_to_Z (byte_of_Z (v / 256)) ->
  readUInt16LE b i = OK (v mod 2 ^ 16).
Proof.
  intros Hb E0 E1. unfold readUInt16LE. rewrite Hb, E0, E1, !byte_to_of_Z.
  f_equal. apply le16_value.
Qed.

Lemma read32_quad (b : Buffer) (i v : Z) :
  inBounds b i 4 = true ->
  at_ b i = byte_to_Z (byte_of_Z v) ->
  at_ b (i + 1) = byte_to_Z (byte_of_Z (v / 256)) ->
  at_ b (i + 2) = byte_to_Z (byte_of_Z (v / 256 / 256)) ->
  at_ b (i + 3) = byte_to_Z (byte_of_Z (v / 256 / 256 / 256)) ->
  readUInt32LE b i = OK (v mod 2 ^ 32).
Proof.
  intros Hb E0 E1 E2 E3. unfold readUInt32LE.
  rewrite Hb, E0, E1, E2, E3, !byte_to_of_Z. f_equal. apply le32_value.
Qed.

(** The words that the reads of [readPage] find in the bytes of a header. *)
Lemma headerBytes_words (h : PageHeader) :
  readUInt16LE (headerBytes h) 0 = OK (version h mod 2 ^ 16)
  /\ readUInt16LE (headerBytes h) 2 = OK NVM3_PAGE_MAGIC
  /\ readUInt32LE (headerBytes h) 4
     = OK (counterWord (js_and (eraseCount h) NVM3_PAGE_COUNTER_MASK) mod 2 ^ 32)
  /\ readUInt32LE (headerBytes h) 8
     = OK (counterWord (js_and (js_not (eraseCount h)) NVM3_PAGE_COUNTER_MASK)
           mod 2 ^ 32)
  /\ readUInt32LE (headerBytes h) 12 = OK (status h mod 2 ^ 32)
  /\ readUInt16LE (headerBytes h) 16 = OK (devInfoWord h mod 2 ^ 16)
  /\ readUInt16LE (headerBytes h) 18
     = OK (if encrypted h then 0xfffe else 0xffff).
Proof.
  refine (conj _ (conj _ (conj _ (conj _ (conj _ (conj _ _)))))).
  - now apply read16_pair.
  - change (readUInt16LE (headerBytes h) 2 = OK (NVM3_PAGE_MAGIC mod 2 ^ 16)).
    now apply read16_pair.
  - now apply read32_quad.
  - now apply read32_quad.
  - now apply read32_quad.
  - now apply read16_pair.
  - replace (if encrypted h then 0xfffe else 0xffff)
      with ((if encrypted h then 0xfffe else 0xffff) mod 2 ^ 16)
      by (destruct (encrypted h); reflexivity).
    now apply read16_pair.
Qed.

Lemma toInt32_mod_pow2 (z n : Z) :
  0 <= n <= 32 -> toInt32 z mod 2 ^ n = z mod 2 ^ n.
Proof.
  intros Hn. destruct (toInt32_shape z) as (q & ->).
  replace (q * 2 ^ 32) with (q * 2 ^ (32 - n) * 2 ^ n).
  - apply Z.mod_add. apply Z.pow_nonzero; lia.
  - rewrite <- Z.mul_assoc, <- Z.pow_add_r by lia. do 2 f_equal. lia.
Qed.

Lemma computeBergerCode_range (word : Z) :
  0 <= computeBergerCode word NVM3_PAGE_COUNTER_SIZE < 32.
Proof.
  unfold computeBergerCode, NVM3_PAGE_COUNTER_SIZE.
  change (2 ^ Z.log2_up (27 + 1)) with 32. apply Z.mod_pos_bound. lia.
Qed.

(** The word of an erase count, read as an unsigned number: the count in its
    low 27 bits, the code in the 5 bits above. *)
Lemma counterWord_value (count : Z) :
  0 <= count < 2 ^ 27 ->
  counterWord count mod 2 ^ 32
  = count + computeBergerCode count NVM3_PAGE_COUNTER_SIZE * 2 ^ 27.
Proof.
  intros Hc. rewrite counterWord_unfold. unfold js_or.
  pose proof (computeBergerCode_range count) as Hcode.
  set (code := computeBergerCode count NVM3_PAGE_COUNTER_SIZE) in *.
  rewrite toInt32_mod32, (toInt32_small count) by (pow2; lia).
  unfold js_shl, NVM3_PAGE_COUNTER_SIZE.
  change (27 mod 32) with 27.
  rewrite (toInt32_small code) by (pow2; lia).
  rewrite Z.shiftl_mul_pow2 by lia.
  destruct (toInt32_shape (code * 2 ^ 27)) as (q1 & E1). rewrite E1.
  destruct (toInt32_shape (code * 2 ^ 27 + q1 * 2 ^ 32)) as (q2 & E2). rewrite E2.
  replace (code * 2 ^ 27 + q1 * 2 ^ 32 + q2 * 2 ^ 32)
    with ((code + 32 * (q1 + q2)) * 2 ^ 27) by (pow2; lia).
  rewrite lor_low by lia.
  replace (count + (code + 32 * (q1 + q2)) * 2 ^ 27)
    with (count + code * 2 ^ 27 + (q1 + q2) * 2 ^ 32) by (pow2; lia).
  rewrite Z.mod_add by (pow2; lia).
  apply Z.mod_small. pow2. lia.
Qed.

Lemma counterWord_split (count : Z) :
  0 <= count < 2 ^ 27 ->
  let w := counterWord count mod 2 ^ 32 in
  js_and w NVM3_PAGE_COUNTER_MASK = count
  /\ js_ushr w NVM3_PAGE_COUNTER_SIZE
     = computeBergerCode count NVM3_PAGE_COUNTER_SIZE.
Proof.
  intros Hc w. subst w. rewrite counterWord_value by exact Hc.
  pose proof (computeBergerCode_range count) as Hcode.
  set (code := computeBergerCode count NVM3_PAGE_COUNTER_SIZE) in *.
  split.
  - rewrite js_and_mask, Z.mod_add by (pow2; lia). apply Z.mod_small. exact Hc.
  - rewrite js_ushr_counter by (pow2; lia).
    rewrite Z.div_add by (pow2; lia). rewrite Z.div_small by exact Hc. lia.
Qed.

(** The two counts that [writePageHeader] writes are complements on 27
    bits. *)
Lemma counts_complement (ec : Z) :
  js_and ec NVM3_PAGE_COUNTER_MASK
  = js_and (js_not (js_and (js_not ec) NVM3_PAGE_COUNTER_MASK))
           NVM3_PAGE_COUNTER_MASK.
Proof.
  rewrite !js_complement, js_and_mask, !Z.land_ones by lia.
  unfold Z.lnot. pow2. Z.div_mod_to_equations. lia.
Qed.

Lemma js_or_small (a b : Z) :
  0 <= a < 2 ^ 16 -> 0 <= b < 2 ^ 16 -> js_or a b = Z.lor a b.
Proof.
  intros Ha Hb. unfold js_or.
  rewrite (toInt32_small a), (toInt32_small b) by (pow2; lia).
  pose proof (lor_range a b 16 ltac:(lia) Ha Hb).
  apply toInt32_small. pow2. lia.
Qed.

(** The device-info word, field by field. *)
Lemma devInfoWord_sum (h : PageHeader) :
  -9 <= pageSizeToBits (pageSize h) <= 21 ->
  devInfoWord h
  = deviceFamily h mod 2 ^ 11
    + (writeSize h mod 2) * 2 ^ 11
    + (if memoryMapped h then 1 else 0) * 2 ^ 12
    + pageSizeToBits (pageSize h) * 2 ^ 13.
Proof.
  intros Hb. rewrite devInfoWord_unfold.
  change 0x7ff with (Z.ones 11). change 1 with (Z.ones 1) at 1.
  rewrite !js_and_ones, !toInt32_mod_pow2 by lia.
  change (2 ^ 1) with 2.
  pose proof (Z.mod_pos_bound (deviceFamily h) (2 ^ 11) ltac:(lia)) as Hf.
  pose proof (Z.mod_pos_bound (writeSize h) 2 ltac:(lia)) as Hw.
  set (A := deviceFamily h mod 2 ^ 11) in *.
  set (B := writeSize h mod 2) in *.
  set (C := if memoryMapped h then 1 else 0).
  assert (HC : 0 <= C <= 1) by (subst C; destruct (memoryMapped h); lia).
  set (D := pageSizeToBits (pageSize h)) in *.
  change (2 ^ 11) with 2048 in *.
  rewrite (js_shl_small B 11), (js_shl_small C 12)
    by (pow2; change (2 ^ 11) with 2048; change (2 ^ 12) with 4096; lia).
  change (2 ^ 11) with 2048. change (2 ^ 12) with 4096.
  rewrite (js_or_small A (B * 2048)) by (pow2; lia).
  change 2048 with (2 ^ 11) at 1. rewrite lor_low by (change (2 ^ 11) with 2048; lia).
  change (2 ^ 11) with 2048.
  rewrite (js_or_small (A + B * 2048) (C * 4096)) by (pow2; lia).
  change 4096 with (2 ^ 12) at 1. rewrite lor_low by (change (2 ^ 12) with 4096; lia).
  change (2 ^ 12) with 4096.
  set (X := A + B * 2048 + C * 4096).
  assert (HX : 0 <= X < 2 ^ 13) by (subst X; change (2 ^ 13) with 8192; lia).
  assert (ED : js_shl D 13 = D * 2 ^ 13).
  { unfold js_shl. change (13 mod 32) with 13.
    rewrite (toInt32_small D) by (pow2; lia).
    rewrite Z.shiftl_mul_pow2 by lia.
    apply toInt32_small. change (2 ^ 13) with 8192. pow2. lia. }
  rewrite ED. unfold js_or.
  rewrite (toInt32_small X), (toInt32_small (D * 2 ^ 13))
    by (change (2 ^ 13) with 8192 in *; pow2; lia).
  rewrite lor_low by lia.
  apply toInt32_small. change (2 ^ 13) with 8192 in *. pow2. lia.
Qed.

Lemma devInfoWord_value (h : PageHeader) :
  0 <= pageSizeToBits (pageSize h) <= 7 ->
  devInfoWord h
  = deviceFamily h mod 2 ^ 11
    + (writeSize h mod 2) * 2 ^ 11
    + (if memoryMapped h then 1 else 0) * 2 ^ 12
    + pageSizeToBits (pageSize h) * 2 ^ 13.
Proof. intros Hb. apply devInfoWord_sum. lia. Qed.

Lemma js_shr_small (d n : Z) :
  0 <= d < 2 ^ 16 -> 0 <= n < 32 -> js_shr d n = d / 2 ^ n.
Proof.
  intros Hd Hn. unfold js_shr.
  rewrite toInt32_small by (pow2; lia).
  rewrite Z.mod_small by lia. apply Z.shiftr_div_pow2. lia.
Qed.

(** The fields that [readPage] takes out of a device-info word. *)
Lemma devInfo_fields (A B C D : Z) :
  0 <= A < 2 ^ 11 -> 0 <= B <= 1 -> 0 <= C <= 1 -> 0 <= D <= 7 ->
  let d := A + B * 2 ^ 11 + C * 2 ^ 12 + D * 2 ^ 13 in
  0 <= d < 2 ^ 16
  /\ js_and d 2047 = A
  /\ js_and (js_shr d 11) 1 = B
  /\ js_and (js_shr d 12) 1 = C
  /\ js_and (js_shr d 13) 7 = D.
Proof.
  intros HA HB HC HD d.
  change (2 ^ 11) with 2048 in *. change (2 ^ 12) with 4096 in *.
  change (2 ^ 13) with 8192 in *.
  assert (Hd : 0 <= d < 2 ^ 16) by (subst d; pow2; lia).
  split; [exact Hd|].
  rewrite !js_shr_small by (try exact Hd; lia).
  change 2047 with (Z.ones 11). change 1 with (Z.ones 1).
  change 7 with (Z.ones 3).
  rewrite !js_and_ones, !toInt32_mod_pow2 by lia.
  change (2 ^ 1) with 2. change (2 ^ 3) with 8.
  change (2 ^ 11) with 2048. change (2 ^ 12) with 4096. change (2 ^ 13) with 8192.
  subst d. repeat split; Z.div_mod_to_equations; lia.
Qed.

Section HeaderRoundTrip.
  Variable readObjects : Buffer -> result (list NVMObject).

Lemma headerBytes_valid (h : PageHeader) (buffer : Buffer) (pos : Z) :
    version h = 1 ->
    0 <= status h < 2 ^ 32 ->
    0 <= pageSizeToBits (pageSize h) <= 7 ->
    0 <= pos ->
    slice buffer pos (pos + 20) = headerBytes h ->
    ValidHeader buffer pos
      (counterWord (js_and (eraseCount h) NVM3_PAGE_COUNTER_MASK) mod 2 ^ 32)
      (counterWord (js_and (js_not (eraseCount h)) NVM3_PAGE_COUNTER_MASK) mod 2 ^ 32)
      (status h) (devInfoWord h)
    /\ readUInt16LE buffer (pos + 18)
       = OK (if encrypted h then 0xfffe else 0xffff)
    /\ 0 <= devInfoWord h < 2 ^ 16.
  Proof.
    intros Hv Hs Hb Hpos E.
    destruct (headerBytes_words h) as (R0 & R2 & R4 & R8 & R12 & R16 & R18).
    pose proof (headerBytes_len h) as L.
    assert (Hd : 0 <= devInfoWord h < 2 ^ 16).
    { rewrite devInfoWord_value by exact Hb.
      pose proof (Z.mod_pos_bound (deviceFamily h) (2 ^ 11) ltac:(lia)).
      pose proof (Z.mod_pos_bound (writeSize h) 2 ltac:(lia)).
      apply devInfo_fields; (destruct (memoryMapped h); lia). }
    assert (C1 : 0 <= js_and (eraseCount h) NVM3_PAGE_COUNTER_MASK < 2 ^ 27)
      by (rewrite js_and_mask; apply Z.mod_pos_bound; pow2; lia).
    assert (C2 : 0 <= js_and (js_not (eraseCount h)) NVM3_PAGE_COUNTER_MASK < 2 ^ 27)
      by (rewrite js_and_mask; apply Z.mod_pos_bound; pow2; lia).
    destruct (counterWord_split _ C1) as (M1 & D1).
    destruct (counterWord_split _ C2) as (M2 & D2).
    split; [|split; [|exact Hd]].
    - constructor.
      + rewrite <- (Z.add_0_r pos).
        rewrite (slice_readUInt16LE buffer (headerBytes h) pos 0 20 E L) by lia.
        rewrite R0, Hv. reflexivity.
      + rewrite (slice_readUInt16LE buffer (headerBytes h) pos 2 20 E L) by lia.
        exact R2.
      + rewrite (slice_readUInt32LE buffer (headerBytes h) pos 4 20 E L) by lia.
        exact R4.
      + rewrite M1, D1. reflexivity.
      + rewrite (slice_readUInt32LE buffer (headerBytes h) pos 8 20 E L) by lia.
        exact R8.
      + rewrite M2, D2. reflexivity.
      + rewrite M1, M2. apply counts_complement.
      + rewrite (slice_readUInt32LE buffer (headerBytes h) pos 12 20 E L) by lia.
        rewrite R12, Z.mod_small by exact Hs. reflexivity.
      + rewrite (slice_readUInt16LE buffer (headerBytes h) pos 16 20 E L) by lia.
        rewrite R16, Z.mod_small by exact Hd. reflexivity.
    - rewrite (slice_readUInt16LE buffer (headerBytes h) pos 18 20 E L) by lia.
      exact R18.
  Qed.

  (** What [readPage] makes of a page that starts with the bytes of a
      header. *)
Lemma readPage_headerBytes (h : PageHeader) (buffer : Buffer) (pos : Z) :
    version h = 1 ->
    0 <= status h < 2 ^ 32 ->
    0 <= pageSizeToBits (pageSize h) <= 7 ->
    0 <= pos ->
    slice buffer pos (pos + 20) = headerBytes h ->
    readPage readObjects buffer pos
    = if len buffer <? pos + Z.min (pageSize (decodedHeader pos h)) FLASH_MAX_PAGE_SIZE
      then Err IncompletePage
      else
        objects <- readObjects
                     (slice buffer (pos + 20)
                            (pos + Z.min (pageSize (decodedHeader pos h))
                                         FLASH_MAX_PAGE_SIZE)) ;;
        OK (mkPage (decodedHeader pos h) objects,
            Z.min (pageSize (decodedHeader pos h)) FLASH_MAX_PAGE_SIZE).
  Proof.
    intros Hv Hs Hb Hpos E.
    destruct (headerBytes_valid h buffer pos Hv Hs Hb Hpos E) as (V & F & Hd).
    rewrite (readPage_valid readObjects _ _ _ _ _ _ V), F.
    pose proof (Z.mod_pos_bound (deviceFamily h) (2 ^ 11) ltac:(lia)) as HA.
    pose proof (Z.mod_pos_bound (writeSize h) 2 ltac:(lia)) as HB.
    assert (HC : 0 <= (if memoryMapped h then 1 else 0) <= 1)
      by (destruct (memoryMapped h); lia).
    destruct (devInfo_fields (deviceFamily h mod 2 ^ 11) (writeSize h mod 2)
                             (if memoryMapped h then 1 else 0)
                             (pageSizeToBits (pageSize h)) HA ltac:(lia) HC Hb)
      as (_ & FA & FB & FC & FD).
    rewrite <- devInfoWord_value in FA, FB, FC, FD by exact Hb.
    assert (P : declaredPageSize (devInfoWord h)
                = pageSizeFromBits (pageSizeToBits (pageSize h)))
      by (unfold declaredPageSize; now rewrite FD).
    assert (H' : mkHeader pos 1
                   (js_and (counterWord (js_and (eraseCount h) NVM3_PAGE_COUNTER_MASK)
                            mod 2 ^ 32) NVM3_PAGE_COUNTER_MASK)
                   (status h)
                   (js_and (if encrypted h then 0xfffe else 0xffff) 1 =? 0)
                   (declaredPageSize (devInfoWord h))
                   (js_and (js_shr (devInfoWord h) 11) 1)
                   (negb (js_and (js_shr (devInfoWord h) 12) 1 =? 0))
                   (js_and (devInfoWord h) 2047)
                 = decodedHeader pos h).
    { unfold decodedHeader. rewrite FA, FB, FC, P.
      assert (C1 : 0 <= js_and (eraseCount h) NVM3_PAGE_COUNTER_MASK < 2 ^ 27)
        by (rewrite js_and_mask; apply Z.mod_pos_bound; pow2; lia).
      rewrite (proj1 (counterWord_split _ C1)), js_and_mask.
      f_equal; [destruct (encrypted h); reflexivity
               | destruct (memoryMapped h); reflexivity]. }
    cbn [bind]. rewrite H'.
    replace (declaredPageSize (devInfoWord h))
      with (pageSize (decodedHeader pos h)) by (symmetry; exact P).
    reflexivity.
  Qed.
End HeaderRoundTrip.

Lemma devInfoWord_range (h : PageHeader) :
  256 < pageSize h <= 65536 -> 0 <= devInfoWord h <= 65535.
Proof.
  intros Hp. pose proof (pageSizeToBits_range (pageSize h) Hp) as Hb.
  rewrite devInfoWord_value by exact Hb.
  pose proof (Z.mod_pos_bound (deviceFamily h) (2 ^ 11) ltac:(lia)).
  pose proof (Z.mod_pos_bound (writeSize h) 2 ltac:(lia)).
  assert (0 <= (if memoryMapped h then 1 else 0) <= 1)
    by (destruct (memoryMapped h); lia).
  change (2 ^ 11) with 2048 in *. change (2 ^ 12) with 4096.
  change (2 ^ 13) with 8192. lia.
Qed.

Section HeaderProperties.
  Variable readObjects : Buffer -> result (list NVMObject).

  (** X8.  A header written by [writePageHeader] is read back by [readPage]:
      of a page that starts with the bytes written for a header of version 1,
      a status of 32 bits and a page size from 257 to 65536, [readPage]
      returns the offset, the status, the flags, the erase count on 27 bits,
      the device family on 11 bits, the write size on one bit and the page
      size rounded up to a power of two, with the objects of the body of
      [min pageSize 2048] bytes; or "Incomplete page in buffer!" when the
      buffer is shorter. *)
Theorem readPage_writePageHeader (h : PageHeader) (hdr buffer : Buffer) (pos : Z) :
    version h = 1 ->
    0 <= status h < 2 ^ 32 ->
    256 < pageSize h <= 65536 ->
    writePageHeader h = OK hdr ->
    0 <= pos ->
    slice buffer pos (pos + 20) = hdr ->
    let h' := decodedHeader pos h in
    let n := Z.min (pageSize h') FLASH_MAX_PAGE_SIZE in
    readPage readObjects buffer pos
    = if len buffer <? pos + n then Err IncompletePage
      else objects <- readObjects (slice buffer (pos + 20) (pos + n)) ;;
           OK (mkPage h' objects, n).
  Proof.
    intros Hv Hs Hp Hw Hpos E h' n.
    rewrite writePageHeader_bytes in Hw
      by (try apply devInfoWord_range; try exact Hs; try exact Hp; lia).
    apply OK_inj in Hw. subst hdr.
    apply readPage_headerBytes; auto.
    now apply pageSizeToBits_range.
  Qed.
End HeaderProperties.

Lemma log2_up_small (p : Z) : 0 < p <= 256 -> Z.log2_up p <= 8.
Proof.
  intros Hp. change 8 with (Z.log2_up 256). apply Z.log2_up_le_mono. lia.
Qed.

Lemma log2_up_large (p : Z) : 65536 < p -> 17 <= Z.log2_up p.
Proof.
  intros Hp.
  destruct (Z.le_gt_cases 17 (Z.log2_up p)) as [H | H]; [exact H|].
  pose proof (Z.log2_up_spec p ltac:(lia)) as (_ & Hu).
  assert (2 ^ Z.log2_up p <= 2 ^ 16) by (apply Z.pow_le_mono_r; lia).
  pow2. lia.
Qed.

Lemma log2_up_bound (p : Z) : 0 < p <= 2 ^ 30 -> Z.log2_up p <= 30.
Proof.
  intros Hp. change 30 with (Z.log2_up (2 ^ 30)). apply Z.log2_up_le_mono. lia.
Qed.

(** The device-info word of a page size that the three bits cannot hold is
    negative or takes more than 16 bits. *)
Lemma devInfoWord_out_of_range (h : PageHeader) :
  0 < pageSize h <= 256 \/ 65536 < pageSize h <= 2 ^ 30 ->
  devInfoWord h < 0 \/ 65535 < devInfoWord h.
Proof.
  intros Hp.
  assert (HD : -9 <= pageSizeToBits (pageSize h) <= -1
               \/ 8 <= pageSizeToBits (pageSize h) <= 21).
  { unfold pageSizeToBits.
    assert (E : (0 <? pageSize h) = true) by (apply Z.ltb_lt; lia). rewrite E.
    change (Z.log2 NVM3_MIN_PAGE_SIZE) with 9.
    pose proof (Z.log2_up_nonneg (pageSize h)).
    destruct Hp as [Hp | Hp].
    - pose proof (log2_up_small _ Hp). lia.
    - pose proof (log2_up_large (pageSize h) ltac:(lia)).
      pose proof (log2_up_bound (pageSize h) ltac:(lia)). lia. }
  rewrite devInfoWord_sum by lia.
  pose proof (Z.mod_pos_bound (deviceFamily h) (2 ^ 11) ltac:(lia)) as Hf.
  pose proof (Z.mod_pos_bound (writeSize h) 2 ltac:(lia)) as Hw.
  assert (HC : 0 <= (if memoryMapped h then 1 else 0) <= 1)
    by (destruct (memoryMapped h); lia).
  change (2 ^ 11) with 2048 in *. change (2 ^ 12) with 4096.
  change (2 ^ 13) with 8192. lia.
Qed.

Lemma writePageHeader_out_of_range (h : PageHeader) :
  0 <= version h <= 65535 ->
  0 <= status h < 2 ^ 32 ->
  0 < pageSize h <= 256 \/ 65536 < pageSize h <= 2 ^ 30 ->
  writePageHeader h = Err OutOfRange.
Proof.
  intros Hv Hs Hp. apply devInfoWord_out_of_range in Hp.
  unfold writePageHeader. cbv zeta.
  rewrite <- !counterWord_unfold, <- devInfoWord_unfold.
  set (b0 := alloc NVM3_PAGE_HEADER_SIZE x00).
  assert (L0 : len b0 = 20) by reflexivity.
  rewrite (writeUInt16LE_eq b0) by lia. cbn [bind].
  set (b1 := writeBytes b0 0 _).
  assert (L1 : len b1 = 20)
    by (unfold b1; rewrite writeBytes_len;
        [exact L0 | lia | rewrite le_bytes_length, L0; lia]).
  rewrite (writeUInt16LE_eq b1) by (unfold NVM3_PAGE_MAGIC; lia). cbn [bind].
  set (b2 := writeBytes b1 2 _).
  assert (L2 : len b2 = 20)
    by (unfold b2; rewrite writeBytes_len;
        [exact L1 | lia | rewrite le_bytes_length, L1; lia]).
  rewrite (writeInt32LE_eq b2) by (try apply counterWord_range; lia). cbn [bind].
  set (b3 := writeBytes b2 4 _).
  assert (L3 : len b3 = 20)
    by (unfold b3; rewrite writeBytes_len;
        [exact L2 | lia | rewrite le_bytes_length, L2; lia]).
  rewrite (writeInt32LE_eq b3) by (try apply counterWord_range; lia). cbn [bind].
  set (b4 := writeBytes b3 8 _).
  assert (L4 : len b4 = 20)
    by (unfold b4; rewrite writeBytes_len;
        [exact L3 | lia | rewrite le_bytes_length, L3; lia]).
  rewrite (writeUInt32LE_eq b4) by lia. cbn [bind].
  set (b5 := writeBytes b4 12 _).
  unfold writeUInt16LE at 1.
  assert (E : (0 <=? devInfoWord h) && (devInfoWord h <=? 2 ^ 16 - 1) = false).
  { apply andb_false_iff. destruct Hp as [Hp | Hp];
      [left; apply Z.leb_gt; lia | right; apply Z.leb_gt; pow2; lia]. }
  rewrite E. reflexivity.
Qed.

(** X9.  [writePageHeader] returns 20 bytes, the fields of the header in
    little-endian order, for a version of 16 bits, a status of 32 bits and a
    page size from 257 to 65536; for any other positive page size (up to
    2^30) the device-info word does not fit 16 bits and the function fails
    with a range error. *)
Theorem writePageHeader_range (h : PageHeader) :
  0 <= version h <= 65535 ->
  0 <= status h < 2 ^ 32 ->
  (256 < pageSize h <= 65536 ->
   writePageHeader h = OK (headerBytes h) /\ len (headerBytes h) = 20)
  /\ (0 < pageSize h <= 256 \/ 65536 < pageSize h <= 2 ^ 30 ->
      writePageHeader h = Err OutOfRange).
Proof.
  intros Hv Hs. split.
  - intros Hp. split; [|reflexivity].
    apply writePageHeader_bytes; [exact Hv | exact Hs | now apply devInfoWord_range].
  - intros Hp. now apply writePageHeader_out_of_range.
Qed.

Lemma pageSize_declared (pageSize : Z) :
  256 < pageSize <= 65536 ->
  0 <= pageSizeToBits pageSize <= 7
  /\ pageSizeFromBits (pageSizeToBits pageSize) = 2 ^ Z.log2_up pageSize
  /\ pageSize <= pageSizeFromBits (pageSizeToBits pageSize)
  /\ pageSizeFromBits (pageSizeToBits pageSize) < 2 * pageSize.
Proof.
  intros Hp.
  pose proof (pageSizeToBits_range pageSize Hp) as Hb.
  assert (Eb : pageSizeToBits pageSize = Z.log2_up pageSize - 9).
  { unfold pageSizeToBits.
    assert (E : (0 <? pageSize) = true) by (apply Z.ltb_lt; lia).
    now rewrite E. }
  assert (Ed : pageSizeFromBits (pageSizeToBits pageSize) = 2 ^ Z.log2_up pageSize).
  { unfold pageSizeFromBits, NVM3_MIN_PAGE_SIZE.
    change 512 with (2 ^ 9). rewrite <- Z.pow_add_r by lia. f_equal. lia. }
  pose proof (Z.log2_up_spec pageSize ltac:(lia)) as (Hlo & Hhi).
  split; [exact Hb|]. split; [exact Ed|]. rewrite Ed. split; [exact Hhi|].
  replace (Z.log2_up pageSize) with (Z.succ (Z.pred (Z.log2_up pageSize))) by lia.
  rewrite Z.pow_succ_r by lia. lia.
Qed.

(** X10.  The page size that a header declares is the page size given, rounded
    up to a power of two: for a page size from 257 to 65536,
    [pageSizeFromBits (pageSizeToBits pageSize)] is the power of two
    [2 ^ ceil (log2 pageSize)], from 512 to 65536, at least the page size and
    less than twice the page size; it is the page size itself exactly when
    that is 512 times a power of two. *)
Theorem pageSize_bits_round_trip (pageSize : Z) :
  256 < pageSize <= 65536 ->
  let bits := pageSizeToBits pageSize in
  let declared := pageSizeFromBits bits in
  0 <= bits <= 7
  /\ declared = 2 ^ Z.log2_up pageSize
  /\ pageSize <= declared < 2 * pageSize
  /\ (declared = pageSize <-> exists k, 0 <= k <= 7 /\ pageSize = 512 * 2 ^ k).
Proof.
  intros Hp bits declared. subst bits declared.
  destruct (pageSize_declared pageSize Hp) as (Hb & Ed & Hge & Hlt).
  split; [exact Hb|]. split; [exact Ed|]. split; [lia|]. split.
  - intros E. exists (pageSizeToBits pageSize). split; [exact Hb|].
    rewrite <- E at 1. reflexivity.
  - intros (k & Hk & Ek). rewrite Ed, Ek. change 512 with (2 ^ 9).
    rewrite <- Z.pow_add_r by lia. rewrite Z.log2_up_pow2 by lia. reflexivity.
Qed.

(** ** The pages that [encodeNVM] creates *)

Lemma skipn_repeat_sub (A : Type) (x : A) (n m : nat) :
  skipn n (repeat x m) = repeat x (m - n).
Proof.
  revert m. induction n as [|n IH]; intros m.
  - now rewrite Nat.sub_0_r.
  - destruct m as [|m]; [reflexivity|]. cbn [repeat skipn]. apply IH.
Qed.

Lemma emptyHeader_bytes (options : EncodeNVMOptions) :
  256 < opt_pageSize options <= 65536 ->
  writePageHeader (emptyHeader options) = OK (headerBytes (emptyHeader options)).
Proof.
  intros Hp. apply writePageHeader_bytes.
  - cbn [emptyHeader version]. lia.
  - cbn [emptyHeader status]. unfold PageStatus_OK. pow2. lia.
  - apply devInfoWord_range. exact Hp.
Qed.

(** The page that [createEmptyPage] returns: the header and erased bytes. *)
Lemma createEmptyPage_bytes (options : EncodeNVMOptions) :
  256 < opt_pageSize options <= 65536 ->
  createEmptyPage options
  = OK (headerBytes (emptyHeader options)
        ++ repeat xff (Z.to_nat (opt_pageSize options) - 20)).
Proof.
  intros Hp. unfold createEmptyPage.
  fold (emptyHeader options). rewrite (emptyHeader_bytes options Hp).
  cbn [bind]. f_equal. unfold copy, alloc.
  assert (E : (len (repeat xff (Z.to_nat (opt_pageSize options))) <=? 0) = false).
  { apply Z.leb_gt. unfold len. rewrite repeat_length. lia. }
  rewrite E. cbn [Z.to_nat firstn app]. rewrite repeat_length, Nat.sub_0_r.
  rewrite firstn_all2
    by (change (length (headerBytes (emptyHeader options))) with 20%nat; lia).
  f_equal. apply skipn_repeat_sub.
Qed.

Lemma createEmptyPage_out_of_range (options : EncodeNVMOptions) :
  0 < opt_pageSize options <= 256 \/ 65536 < opt_pageSize options <= 2 ^ 30 ->
  createEmptyPage options = Err OutOfRange.
Proof.
  intros Hp. unfold createEmptyPage. fold (emptyHeader options).
  pose proof (writePageHeader_out_of_range (emptyHeader options)) as W.
  rewrite W;
    [ reflexivity
    | cbn [emptyHeader version]; lia
    | cbn [emptyHeader status]; unfold PageStatus_OK; pow2; lia
    | exact Hp ].
Qed.

Lemma firstn_headerBytes (h : PageHeader) (rest : Buffer) :
  firstn 20 (headerBytes h ++ rest) = headerBytes h.
Proof.
  change 20%nat with (length (headerBytes h) + 0)%nat.
  rewrite firstn_app_2. cbn [firstn]. apply app_nil_r.
Qed.

Section CreatedPages.
  Variables NVM3_WORD_SIZE NVM3_OBJ_HEADER_SIZE_SMALL NVM_COUNTER_SIZE : Z.
  Variable writeObject : NVMObject -> Buffer.
  Variable fragmentLargeObject : NVMObject -> Z -> Z -> list NVMObject.

  Local Abbreviation encodeNVM' :=
    (encodeNVM NVM3_WORD_SIZE NVM3_OBJ_HEADER_SIZE_SMALL NVM_COUNTER_SIZE
               writeObject fragmentLargeObject).

  (** X11.  [encodeNVM] returns no image for a positive page size below 257 or
      above 65536 (up to 2^30): the first page cannot be created, because the
      header cannot hold the page size, and the function fails with the range
      error of the header writer, whatever the maps. *)
Theorem encodeNVM_rejects_page_size
      (applicationObjects protocolObjects : ObjectMap) (options : EncodeNVMOptions) :
    0 < opt_pageSize options <= 256 \/ 65536 < opt_pageSize options <= 2 ^ 30 ->
    encodeNVM' applicationObjects protocolObjects options = Err OutOfRange.
  Proof.
    intros Hp. unfold encodeNVM.
    assert (E : (opt_pageSize options =? 0) = false) by (apply Z.eqb_neq; lia).
    rewrite E.
    pose proof (pageCount_pos ZWAVE_APPLICATION_NVM_SIZE (opt_pageSize options)
                  ltac:(unfold ZWAVE_APPLICATION_NVM_SIZE; lia) ltac:(lia)) as Hn.
    destruct (pageCount ZWAVE_APPLICATION_NVM_SIZE (opt_pageSize options))
      as [|n]; [lia|].
    cbn [createPages]. rewrite (createEmptyPage_out_of_range options Hp).
    reflexivity.
  Qed.

Lemma encodeNVM_empty (options : EncodeNVMOptions) :
    256 < opt_pageSize options <= 65536 ->
    encodeNVM' [] [] options
    = OK (List.concat
            (repeat (headerBytes (emptyHeader options)
                     ++ repeat xff (Z.to_nat (opt_pageSize options) - 20))
                    (pageCount ZWAVE_APPLICATION_NVM_SIZE (opt_pageSize options)
                     + pageCount ZWAVE_PROTOCOL_NVM_SIZE (opt_pageSize options)))).
  Proof.
    intros Hp. unfold encodeNVM.
    assert (E : (opt_pageSize options =? 0) = false) by (apply Z.eqb_neq; lia).
    rewrite E.
    pose proof (createEmptyPage_bytes options Hp) as Ec.
    rewrite !(createPages_OK options _ _ Ec). cbn [bind].
    pose proof (pageCount_pos ZWAVE_APPLICATION_NVM_SIZE (opt_pageSize options)
                  ltac:(unfold ZWAVE_APPLICATION_NVM_SIZE; lia) ltac:(lia)) as Ha.
    pose proof (pageCount_pos ZWAVE_PROTOCOL_NVM_SIZE (opt_pageSize options)
                  ltac:(unfold ZWAVE_PROTOCOL_NVM_SIZE, ZWAVE_APPLICATION_NVM_SIZE; lia)
                  ltac:(lia)) as Hq.
    rewrite !writeObjects_empty
      by (intros C; apply (f_equal (@length _)) in C;
          rewrite repeat_length in C; cbn [length] in C; lia).
    cbn [bind]. now rewrite repeat_app.
  Qed.

  (** X12.  For two empty maps and a page size from 257 to 65536, [encodeNVM]
      returns [ceil (0x3000 / pageSize) + ceil (0x9000 / pageSize)] copies of
      the empty page: the 20 bytes of the header of erase count 0 and status
      OK, followed by erased bytes (0xff) up to the page size. *)
Theorem encodeNVM_empty_maps (options : EncodeNVMOptions) :
    256 < opt_pageSize options <= 65536 ->
    let page :=
      headerBytes (emptyHeader options)
      ++ repeat xff (Z.to_nat (opt_pageSize options) - 20) in
    encodeNVM' [] [] options
    = OK (List.concat
            (repeat page
                    (pageCount ZWAVE_APPLICATION_NVM_SIZE (opt_pageSize options)
                     + pageCount ZWAVE_PROTOCOL_NVM_SIZE (opt_pageSize options))))
    /\ len page = opt_pageSize options.
  Proof.
    intros Hp page. split; [now apply encodeNVM_empty|].
    subst page. rewrite len_app. unfold len at 2. rewrite repeat_length.
    change (len (headerBytes (emptyHeader options))) with 20. lia.
  Qed.

  (** X13.  [writeObjects] never touches a page header: in the image that
      [encodeNVM] returns for a page size from 257 to 65536, every page has
      the page size as its length and starts with the 20 bytes of the header
      of the empty page, whatever objects have been written, provided the
      aligned lengths of the serialized fragments do not wrap around 32
      bits. *)
Theorem encodeNVM_keeps_page_headers
      (applicationObjects protocolObjects : ObjectMap) (options : EncodeNVMOptions)
      (buf : Buffer) :
    256 < opt_pageSize options <= 65536 ->
    Forall (FragmentsFit NVM3_WORD_SIZE writeObject fragmentLargeObject
                         (opt_pageSize options))
           (map_values applicationObjects) ->
    Forall (FragmentsFit NVM3_WORD_SIZE writeObject fragmentLargeObject
                         (opt_pageSize options))
           (map_values protocolObjects) ->
    encodeNVM' applicationObjects protocolObjects options = OK buf ->
    exists pages,
      buf = List.concat pages
      /\ length pages
         = (pageCount ZWAVE_APPLICATION_NVM_SIZE (opt_pageSize options)
            + pageCount ZWAVE_PROTOCOL_NVM_SIZE (opt_pageSize options))%nat
      /\ Forall (fun p => len p = opt_pageSize options
                          /\ firstn 20 p = headerBytes (emptyHeader options))
                pages.
  Proof.
    intros Hp Fa Fp E.
    destruct (encodeNVM_shape _ _ _ _ _ _ _ _ _ Hp E)
      as (page & pa & pp & Epage & Ea & Eq & -> & La & Lp & Hall).
    rewrite (createEmptyPage_bytes options Hp) in Epage.
    apply OK_inj in Epage.
    assert (Hh : firstn 20 page = headerBytes (emptyHeader options)).
    { subst page. apply firstn_headerBytes. }
    assert (K : forall n pages0 pages' objs,
               Forall (FragmentsFit NVM3_WORD_SIZE writeObject fragmentLargeObject
                                    (opt_pageSize options)) (map_values objs) ->
               writeObjects NVM3_WORD_SIZE NVM3_OBJ_HEADER_SIZE_SMALL
                            NVM_COUNTER_SIZE writeObject fragmentLargeObject
                            (opt_pageSize options) (repeat page n) objs
               = OK pages' ->
               pages0 = repeat page n ->
               Forall (fun p => firstn 20 p = headerBytes (emptyHeader options))
                      pages').
    { intros n pages0 pages' objs Hf Ew _.
      apply (writeObjectsWith_kept
               NVM3_WORD_SIZE NVM3_OBJ_HEADER_SIZE_SMALL NVM_COUNTER_SIZE
               writeObject fragmentLargeObject (opt_pageSize options) Buffer
               (putBytes writeObject)
               (fun p => firstn 20 p = headerBytes (emptyHeader options)))
        with (pages0 := repeat page n) (objs := objs).
      - intros f pos p Hpos Hk. unfold putBytes.
        rewrite copy_keeps_header by exact Hpos. exact Hk.
      - exact Hf.
      - apply Forall_forall. intros p Hin. apply repeat_spec in Hin. now subst p.
      - exact Ew. }
    exists (pa ++ pp). split; [now rewrite concat_app|].
    split; [rewrite length_app; lia|].
    pose proof (K _ (repeat page _) pa _ Fa Ea eq_refl) as Ka.
    pose proof (K _ (repeat page _) pp _ Fp Eq eq_refl) as Kp.
    pose proof (proj2 (Forall_app _ _ _) (conj Ka Kp)) as Kall.
    rewrite Forall_forall in *. intros p Hin. split.
    - unfold len. rewrite (Hall p Hin). lia.
    - apply Kall. exact Hin.
  Qed.
End CreatedPages.

(** ** Page sizes above the flash maximum *)

Lemma firstn_repeat_le (A : Type) (x : A) (n m : nat) :
  (n <= m)%nat -> firstn n (repeat x m) = repeat x n.
Proof.
  revert m. induction n as [|n IH]; intros m Hn; [reflexivity|].
  destruct m as [|m]; [lia|]. cbn [repeat firstn]. f_equal. apply IH. lia.
Qed.

Lemma nth_erased (h : PageHeader) (m : nat) (rest : Buffer) (i : nat) :
  (20 <= i < 20 + m)%nat ->
  nth i (headerBytes h ++ repeat xff m ++ rest) x00 = xff.
Proof.
  intros Hi. rewrite app_nth2
    by (change (length (headerBytes h)) with 20%nat; lia).
  change (length (headerBytes h)) with 20%nat.
  rewrite app_nth1 by (rewrite repeat_length; lia).
  rewrite (nth_indep _ x00 xff) by (rewrite repeat_length; lia).
  apply nth_repeat.
Qed.

Lemma skipn_headerBytes (h : PageHeader) (rest : Buffer) :
  skipn 20 (headerBytes h ++ rest) = rest.
Proof.
  rewrite skipn_app. change (length (headerBytes h)) with 20%nat.
  rewrite (skipn_all2 (headerBytes h))
    by (change (length (headerBytes h)) with 20%nat; lia).
  reflexivity.
Qed.

Section LargePages.
  Variables NVM3_WORD_SIZE NVM3_OBJ_HEADER_SIZE_SMALL NVM_COUNTER_SIZE : Z.
  Variable writeObject : NVMObject -> Buffer.
  Variable fragmentLargeObject : NVMObject -> Z -> Z -> list NVMObject.
  Variable readObjects : Buffer -> result (list NVMObject).

  Local Abbreviation encodeNVM' :=
    (encodeNVM NVM3_WORD_SIZE NVM3_OBJ_HEADER_SIZE_SMALL NVM_COUNTER_SIZE
               writeObject fragmentLargeObject).

  (** An image that starts with an empty page of more than 2051 bytes. *)
Lemma readPages_large_page (options : EncodeNVMOptions) (rest : Buffer) :
    2052 <= opt_pageSize options <= 65536 ->
    let buf := (headerBytes (emptyHeader options)
                ++ repeat xff (Z.to_nat (opt_pageSize options) - 20)) ++ rest in
    readPages readObjects (length buf) buf 0
    = match readObjects (repeat xff 2028) with
      | OK _ => Err NotValidPage
      | Err e => Err e
      end.
  Proof.
    intros Hp buf.
    set (m := (Z.to_nat (opt_pageSize options) - 20)%nat) in *.
    assert (Hm : (2032 <= m)%nat) by (subst m; lia).
    assert (Eb : buf = headerBytes (emptyHeader options) ++ repeat xff m ++ rest)
      by (subst buf; now rewrite <- app_assoc).
    assert (Ll : (20 + m <= length buf)%nat).
    { rewrite Eb, !length_app, repeat_length.
      change (length (headerBytes (emptyHeader options))) with 20%nat. lia. }
    assert (Hl : 2052 <= len buf) by (unfold len; lia).
    (* the first page *)
    assert (E0 : readPage readObjects buf 0
                 = objects <- readObjects (repeat xff 2028) ;;
                   OK (mkPage (decodedHeader 0 (emptyHeader options)) objects, 2048)).
    { rewrite (readPage_headerBytes readObjects (emptyHeader options) buf 0);
        [ | reflexivity
          | cbn [emptyHeader status]; unfold PageStatus_OK; pow2; lia
          | apply pageSizeToBits_range; cbn [emptyHeader pageSize]; lia
          | lia
          | rewrite Eb; apply firstn_headerBytes ].
      assert (Ed : Z.min (pageSize (decodedHeader 0 (emptyHeader options)))
                         FLASH_MAX_PAGE_SIZE = 2048).
      { cbn [decodedHeader pageSize emptyHeader].
        pose proof (pageSize_declared (opt_pageSize options) ltac:(lia))
          as (_ & _ & Hge & _).
        unfold FLASH_MAX_PAGE_SIZE. lia. }
      rewrite Ed.
      assert (El : (len buf <? 0 + 2048) = false) by (apply Z.ltb_ge; lia).
      rewrite El.
      assert (Es : slice buf (0 + 20) (0 + 2048) = repeat xff 2028).
      { unfold slice. change (Z.to_nat (0 + 2048 - (0 + 20))) with 2028%nat.
        change (Z.to_nat (0 + 20)) with 20%nat.
        rewrite Eb, skipn_headerBytes.
        rewrite firstn_app, repeat_length.
        replace (2028 - m)%nat with 0%nat by lia.
        rewrite firstn_O, app_nil_r. apply firstn_repeat_le. lia. }
      rewrite Es. reflexivity. }
    (* the bytes at 2048 *)
    assert (Hat : forall i, 2048 <= i < 2052 -> at_ buf i = 255).
    { intros i Hi. unfold at_. rewrite Eb, nth_erased by lia. reflexivity. }
    assert (E1 : readPage readObjects buf 2048 = Err NotValidPage).
    { unfold readPage, readUInt16LE.
      assert (B0 : inBounds buf 2048 2 = true) by (apply inBounds_true; lia).
      assert (B2 : inBounds buf (2048 + 2) 2 = true) by (apply inBounds_true; lia).
      rewrite B0, B2. cbn [bind].
      rewrite !Hat by lia. reflexivity. }
    destruct (length buf) as [|[|fuel]] eqn:Ef; [lia | lia |].
    cbn [readPages].
    assert (T0 : (0 <? len buf) = true) by (apply Z.ltb_lt; lia).
    rewrite T0, E0.
    destruct (readObjects (repeat xff 2028)) as [objs|e]; [|reflexivity].
    cbn [bind].
    assert (T1 : (0 + 2048 <? len buf) = true) by (apply Z.ltb_lt; lia).
    rewrite T1. change (0 + 2048) with 2048. rewrite E1. reflexivity.
  Qed.

  (** X14.  An image that [encodeNVM] makes with a page size above the flash
      maximum is not parsed back: [readPage] lays every page out on 2048 bytes
      at most, so after the first page [parseNVM] looks for a header in the
      erased bytes of its body and fails with "Not a valid NVM3 page!" (or
      with the error of [readObjects] on the erased body, if it has one).
      This is shown for empty maps and every page size from 2052 to
      65536. *)
Theorem parseNVM_refuses_large_pages (options : EncodeNVMOptions) :
    2052 <= opt_pageSize options <= 65536 ->
    exists buf,
      encodeNVM' [] [] options = OK buf
      /\ parseNVM readObjects buf
         = match readObjects (repeat xff 2028) with
           | OK _ => Err NotValidPage
           | Err e => Err e
           end.
  Proof.
    intros Hp.
    set (page := headerBytes (emptyHeader options)
                 ++ repeat xff (Z.to_nat (opt_pageSize options) - 20)).
    exists (List.concat
              (repeat page
                      (pageCount ZWAVE_APPLICATION_NVM_SIZE (opt_pageSize options)
                       + pageCount ZWAVE_PROTOCOL_NVM_SIZE (opt_pageSize options)))).
    split; [apply encodeNVM_empty; lia|].
    pose proof (pageCount_pos ZWAVE_APPLICATION_NVM_SIZE (opt_pageSize options)
                  ltac:(unfold ZWAVE_APPLICATION_NVM_SIZE; lia) ltac:(lia)) as Ha.
    destruct (pageCount ZWAVE_APPLICATION_NVM_SIZE (opt_pageSize options)
              + pageCount ZWAVE_PROTOCOL_NVM_SIZE (opt_pageSize options))%nat
      as [|n] eqn:En; [lia|].
    change (List.concat (repeat page (S n)))
      with (page ++ List.concat (repeat page n)).
    rewrite parseNVM_pages.
    pose proof (readPages_large_page options (List.concat (repeat page n)) Hp) as R.
    cbv zeta in R. fold page in R. rewrite R.
    destruct (readObjects (repeat xff 2028)); reflexivity.
  Qed.
End LargePages.

(** * The further properties at the reference codec *)

(** X1 at an erased page, and at the image of scenario S5 with version 2. *)
Lemma readPage_rejects_foreign_page_witness :
  readUInt16LE (alloc 2048 xff) 0 = OK 65535
  /\ readUInt16LE (alloc 2048 xff) (0 + 2) = OK 65535
  /\ readPage Reference.readObjects (alloc 2048 xff) 0 = Err NotValidPage
  /\ readUInt16LE versionTwoImage 0 = OK 2
  /\ readUInt16LE versionTwoImage (0 + 2) = OK NVM3_PAGE_MAGIC
  /\ readPage Reference.readObjects versionTwoImage 0 = Err (UnsupportedVersion 2).
Proof.
  assert (H1 : readUInt16LE (alloc 2048 xff) 0 = OK 65535)
    by (vm_compute; reflexivity).
  assert (H2 : readUInt16LE (alloc 2048 xff) (0 + 2) = OK 65535)
    by (vm_compute; reflexivity).
  assert (H3 : readUInt16LE versionTwoImage 0 = OK 2)
    by (vm_compute; reflexivity).
  assert (H4 : readUInt16LE versionTwoImage (0 + 2) = OK NVM3_PAGE_MAGIC)
    by (vm_compute; reflexivity).
  split; [exact H1|]. split; [exact H2|]. split.
  - apply (readPage_rejects_foreign_page Reference.readObjects _ _ _ _ H1 H2).
    vm_compute. discriminate.
  - split; [exact H3|]. split; [exact H4|].
    apply (readPage_rejects_foreign_page Reference.readObjects _ _ _ _ H3 H4).
    + reflexivity.
    + discriminate.
Defined.

(** X2 at the page that declares 65536 bytes. *)
Lemma readPage_result_layout_witness :
  exists page,
    readPage Reference.readObjects Reference.clampedImage 0 = OK (page, 2048)
    /\ pageSize (header page) = 65536
    /\ 2048 = Z.min (pageSize (header page)) 2048
    /\ 0 + 2048 <= len Reference.clampedImage.
Proof.
  pose (r := match readPage Reference.readObjects Reference.clampedImage 0 with
             | OK a => a
             | Err _ => (Reference.pageA, 0)
             end).
  assert (E : readPage Reference.readObjects Reference.clampedImage 0
              = OK (fst r, 2048)).
  { transitivity (OK r); [apply succeeds_OK; vm_compute; reflexivity|].
    vm_compute. reflexivity. }
  exists (fst r). split; [exact E|].
  destruct (readPage_result_layout Reference.readObjects _ _ _ _ E)
    as (_ & _ & _ & _ & _ & _ & _ & Hk & _ & _ & Hl & _).
  split; [vm_compute; reflexivity|]. split; [exact Hk | exact Hl].
Defined.

(** X3 at the image of scenario S5. *)
Lemma parseNVM_pages_tile_buffer_witness :
  exists r pages,
    parseNVM Reference.readObjects Reference.ringImage = OK r
    /\ tiles pages 0 (len Reference.ringImage)
    /\ Permutation (applicationPages r ++ protocolPages r) pages
    /\ len Reference.ringImage mod 512 = 0.
Proof.
  pose (r := match parseNVM Reference.readObjects Reference.ringImage with
             | OK a => a
             | Err _ => mkParsed [] [] [] []
             end).
  assert (E : parseNVM Reference.readObjects Reference.ringImage = OK r)
    by (apply succeeds_OK; vm_compute; reflexivity).
  destruct (parseNVM_pages_tile_buffer Reference.readObjects _ _ E)
    as (pages & T & Hperm & _ & _ & M & _).
  exists r, pages. auto.
Defined.

(** X4 at the image of scenario S5 and the same image with a byte of its second
    page changed. *)
Lemma readPage_reads_only_its_page_witness :
  len Reference.ringImage = len touchedImage
  /\ agree Reference.ringImage touchedImage 0 (0 + FLASH_MAX_PAGE_SIZE)
  /\ Reference.ringImage <> touchedImage
  /\ readPage Reference.readObjects touchedImage 0
     = readPage Reference.readObjects Reference.ringImage 0.
Proof.
  assert (L : len Reference.ringImage = len touchedImage)
    by (vm_compute; reflexivity).
  assert (A : agree Reference.ringImage touchedImage 0 (0 + FLASH_MAX_PAGE_SIZE)).
  { eapply agree_sub;
      [ apply (writeBytes_agree_before Reference.ringImage 4000 [x00] 0);
        [lia | vm_compute; discriminate]
      | lia | unfold FLASH_MAX_PAGE_SIZE; lia ]. }
  split; [exact L|]. split; [exact A|]. split.
  - intros C. apply (f_equal (fun b => nth 4000 b x00)) in C.
    vm_compute in C. discriminate.
  - apply (readPage_reads_only_its_page Reference.readObjects _ _ _ L A).
Defined.

(** X6 at the sample application map on six pages. *)
Lemma writeObjects_offsets_aligned_witness :
  placementOffsets 4 Reference.NVM3_OBJ_HEADER_SIZE_SMALL Reference.NVM_COUNTER_SIZE
                   Reference.writeObject Reference.fragmentLargeObject 2048 6
                   Reference.sampleApplication
  = OK [[20; 28; 36]; [20]; []; []; []; []]
  /\ Forall (Forall (fun pos => pos mod 4 = 0)) [[20; 28; 36]; [20]; []; []; []; []].
Proof.
  assert (E : placementOffsets 4 Reference.NVM3_OBJ_HEADER_SIZE_SMALL
                               Reference.NVM_COUNTER_SIZE Reference.writeObject
                               Reference.fragmentLargeObject 2048 6
                               Reference.sampleApplication
              = OK [[20; 28; 36]; [20]; []; []; []; []])
    by (vm_compute; reflexivity).
  split; [exact E|].
  apply (writeObjects_offsets_aligned _ _ _ _ _ _ _ _ E).
Defined.

(** X7 at a large object of 3000 bytes, two fragments, on the first of two
    pages: both fragments have a page, and the placement fails. *)
Lemma fragmented_object_needs_page_after_last_witness :
  (type Reference.sampleLarge = CounterLarge \/ type Reference.sampleLarge = DataLarge)
  /\ 0 <= pageIndex lastPagesWriter < pageCountOf Buffer lastPagesWriter
  /\ length (Reference.fragmentLargeObject Reference.sampleLarge 2028 2028) = 2%nat
  /\ pageCountOf Buffer lastPagesWriter = 2
  /\ placeObject 4 4 4 Reference.writeObject Reference.fragmentLargeObject
                 (putBytes Reference.writeObject) 2048
                 lastPagesWriter Reference.sampleLarge
     = Err NotEnoughPages.
Proof.
  assert (H1 : type Reference.sampleLarge = CounterLarge
               \/ type Reference.sampleLarge = DataLarge) by (right; reflexivity).
  assert (H2 : 0 <= pageIndex lastPagesWriter < pageCountOf Buffer lastPagesWriter)
    by (split; vm_compute; [discriminate | reflexivity]).
  assert (H3 : length (Reference.fragmentLargeObject Reference.sampleLarge 2028 2028)
               = 2%nat) by (vm_compute; reflexivity).
  split; [exact H1|]. split; [exact H2|]. split; [exact H3|].
  split; [reflexivity|].
  apply (fragmented_object_needs_page_after_last
           4 4 4 Reference.writeObject Reference.fragmentLargeObject 2048
           lastPagesWriter Reference.sampleLarge H1 H2).
  - change (1 < length (Reference.fragmentLargeObject Reference.sampleLarge 2028 2028))%nat.
    rewrite H3. lia.
  - change (pageCountOf Buffer lastPagesWriter
            <= pageIndex lastPagesWriter
               + Z.of_nat (length (Reference.fragmentLargeObject
                                     Reference.sampleLarge 2028 2028))).
    rewrite H3. vm_compute. discriminate.
Defined.

(** X8 at the first page of the image of scenario S5. *)
Lemma readPage_writePageHeader_witness :
  writePageHeader (header Reference.pageA) = OK (slice Reference.ringImage 0 (0 + 20))
  /\ decodedHeader 0 (header Reference.pageA) = header Reference.pageA
  /\ readPage Reference.readObjects Reference.ringImage 0
     = OK (Reference.pageA, 2048).
Proof.
  assert (W : writePageHeader (header Reference.pageA)
              = OK (slice Reference.ringImage 0 (0 + 20)))
    by (vm_compute; reflexivity).
  assert (D : decodedHeader 0 (header Reference.pageA) = header Reference.pageA)
    by (vm_compute; reflexivity).
  split; [exact W|]. split; [exact D|].
  pose proof (readPage_writePageHeader
                Reference.readObjects (header Reference.pageA)
                (slice Reference.ringImage 0 (0 + 20)) Reference.ringImage 0
                eq_refl ltac:(vm_compute; split; [discriminate | reflexivity])
                ltac:(vm_compute; split; [reflexivity | discriminate])
                W ltac:(lia) eq_refl) as R.
  cbv zeta in R. rewrite R, D. vm_compute. reflexivity.
Defined.

(** X9 at the header of the empty page with the default options, and with a
    page size of 256 bytes. *)
Lemma writePageHeader_range_witness :
  (writePageHeader (emptyHeader defaultOptions)
   = OK (headerBytes (emptyHeader defaultOptions)))
  /\ writePageHeader (emptyHeader smallPageOptions) = Err OutOfRange.
Proof.
  split.
  - apply (writePageHeader_range (emptyHeader defaultOptions)).
    + vm_compute. split; discriminate.
    + vm_compute. split; [discriminate | reflexivity].
    + vm_compute. split; [reflexivity | discriminate].
  - apply (writePageHeader_range (emptyHeader smallPageOptions)).
    + vm_compute. split; discriminate.
    + vm_compute. split; [discriminate | reflexivity].
    + left. vm_compute. split; [reflexivity | discriminate].
Defined.

(** X10 at a page size of 5000 bytes: the header declares 8192. *)
Lemma pageSize_bits_round_trip_witness :
  256 < 5000 <= 65536
  /\ pageSizeToBits 5000 = 4
  /\ pageSizeFromBits (pageSizeToBits 5000) = 8192
  /\ 5000 <= pageSizeFromBits (pageSizeToBits 5000) < 2 * 5000.
Proof.
  assert (H : 256 < 5000 <= 65536) by lia.
  split; [exact H|].
  destruct (pageSize_bits_round_trip 5000 H) as (_ & _ & R & _).
  split; [reflexivity|]. split; [reflexivity | exact R].
Defined.

(** X11 at a page size of 256 bytes. *)
Lemma encodeNVM_rejects_page_size_witness :
  (0 < opt_pageSize smallPageOptions <= 256
   \/ 65536 < opt_pageSize smallPageOptions <= 2 ^ 30)
  /\ Reference.encodeNVM Reference.sampleApplication Reference.sampleProtocol
                         smallPageOptions
     = Err OutOfRange.
Proof.
  assert (H : 0 < opt_pageSize smallPageOptions <= 256
              \/ 65536 < opt_pageSize smallPageOptions <= 2 ^ 30)
    by (left; vm_compute; split; [reflexivity | discriminate]).
  split; [exact H|].
  exact (encodeNVM_rejects_page_size
           Reference.NVM3_WORD_SIZE Reference.NVM3_OBJ_HEADER_SIZE_SMALL
           Reference.NVM_COUNTER_SIZE Reference.writeObject
           Reference.fragmentLargeObject
           Reference.sampleApplication Reference.sampleProtocol
           smallPageOptions H).
Defined.

(** X12 at the default options: 24 pages of 2048 bytes. *)
Lemma encodeNVM_empty_maps_witness :
  256 < opt_pageSize defaultOptions <= 65536
  /\ Reference.encodeNVM [] [] defaultOptions
     = OK (List.concat
             (repeat (headerBytes (emptyHeader defaultOptions) ++ repeat xff 2028)
                     24)).
Proof.
  assert (H : 256 < opt_pageSize defaultOptions <= 65536)
    by (vm_compute; split; [reflexivity | discriminate]).
  split; [exact H|].
  exact (proj1 (encodeNVM_empty_maps
                  Reference.NVM3_WORD_SIZE Reference.NVM3_OBJ_HEADER_SIZE_SMALL
                  Reference.NVM_COUNTER_SIZE Reference.writeObject
                  Reference.fragmentLargeObject defaultOptions H)).
Defined.

(** X13 at the sample maps. *)
Lemma encodeNVM_keeps_page_headers_witness :
  exists pages,
    Reference.sampleImage = List.concat pages
    /\ length pages = 24%nat
    /\ Forall (fun p => len p = 2048
                        /\ firstn 20 p = headerBytes (emptyHeader defaultOptions))
              pages.
Proof.
  apply (encodeNVM_keeps_page_headers
           Reference.NVM3_WORD_SIZE Reference.NVM3_OBJ_HEADER_SIZE_SMALL
           Reference.NVM_COUNTER_SIZE Reference.writeObject
           Reference.fragmentLargeObject
           Reference.sampleApplication Reference.sampleProtocol defaultOptions
           Reference.sampleImage).
  - vm_compute. split; [reflexivity | discriminate].
  - each_object ltac:(apply reference_FragmentsFit; vm_compute; reflexivity).
  - each_object ltac:(apply reference_FragmentsFit; vm_compute; reflexivity).
  - exact sampleImage_encoded.
Defined.

(** X14 at a page size of 4096 bytes. *)
Lemma parseNVM_refuses_large_pages_witness :
  2052 <= opt_pageSize largePageOptions <= 65536
  /\ exists buf,
      Reference.encodeNVM [] [] largePageOptions = OK buf
      /\ parseNVM Reference.readObjects buf = Err NotValidPage.
Proof.
  assert (H : 2052 <= opt_pageSize largePageOptions <= 65536)
    by (vm_compute; split; discriminate).
  split; [exact H|].
  destruct (parseNVM_refuses_large_pages
              Reference.NVM3_WORD_SIZE Reference.NVM3_OBJ_HEADER_SIZE_SMALL
              Reference.NVM_COUNTER_SIZE Reference.writeObject
              Reference.fragmentLargeObject Reference.readObjects
              largePageOptions H) as (buf & E & R).
  exists buf. split; [exact E|]. rewrite R.
  assert (O : Reference.readObjects (repeat xff 2028) = OK [])
    by (vm_compute; reflexivity).
  rewrite O. reflexivity.
Defined.

Section WriteOrder.
  Variables NVM3_WORD_SIZE NVM3_OBJ_HEADER_SIZE_SMALL NVM_COUNTER_SIZE : Z.
  Variable writeObject : NVMObject -> Buffer.
  Variable fragmentLargeObject : NVMObject -> Z -> Z -> list NVMObject.

End WriteOrder.


(** * The round trip at the reference codec *)

(** ** The reference codec reads what it writes *)

Lemma headerWord_fields (tc fc k n : Z) :
  0 <= tc < 8 -> 0 <= fc < 4 -> 0 <= k < 2 ^ 20 -> 0 <= n < 2 ^ 7 ->
  let w := tc + 2 ^ 3 * fc + 2 ^ 5 * k + 2 ^ 25 * n in
  0 <= w < 2 ^ 32
  /\ w mod 2 ^ 3 = tc
  /\ (w / 2 ^ 3) mod 2 ^ 2 = fc
  /\ (w / 2 ^ 5) mod 2 ^ 20 = k
  /\ w / 2 ^ 25 = n.
Proof.
  intros Ht Hf Hk Hn w. subst w.
  change (2 ^ 2) with 4. change (2 ^ 20) with 1048576 in *.
  change (2 ^ 25) with 33554432. pow2.
  repeat split; Z.div_mod_to_equations; lia.
Qed.

Lemma typeCode_range (t : ObjectType) : 0 <= Reference.typeCode t < 8.
Proof. destruct t; cbn; lia. Qed.

Lemma typeOfCode_typeCode (t : ObjectType) :
  Reference.typeOfCode (Reference.typeCode t) = Some t.
Proof. destruct t; reflexivity. Qed.

Lemma fragmentCode_range (f : FragmentType) : 0 <= Reference.fragmentCode f < 4.
Proof. destruct f; cbn; lia. Qed.

Lemma fragmentOfCode_fragmentCode (f : FragmentType) :
  Reference.fragmentOfCode (Reference.fragmentCode f) = f.
Proof. destruct f; reflexivity. Qed.

(** The header word of an object, read back field by field. *)
Lemma headerWord_decode (obj : NVMObject) (n : Z) :
  0 <= key obj < 2 ^ 20 -> 0 <= n < 2 ^ 7 ->
  let w := Reference.headerWord obj n in
  0 <= w < 2 ^ 32
  /\ w <> 0xffffffff
  /\ Reference.typeOfCode (w mod 2 ^ 3) = Some (type obj)
  /\ Reference.fragmentOfCode ((w / 2 ^ 3) mod 2 ^ 2) = fragmentType obj
  /\ (w / 2 ^ 5) mod 2 ^ 20 = key obj
  /\ w / 2 ^ 25 = n.
Proof.
  intros Hk Hn w. subst w. unfold Reference.headerWord.
  rewrite (Z.mod_small (key obj)), (Z.mod_small n) by assumption.
  destruct (headerWord_fields _ _ _ _ (typeCode_range (type obj))
              (fragmentCode_range (fragmentType obj)) Hk Hn)
    as (Hr & Ht & Hf & Hkk & Hnn).
  cbv zeta in *.
  split; [exact Hr|]. split.
  - intros E. rewrite E in Ht. pose proof (typeCode_range (type obj)) as R.
    change (4294967295 mod 2 ^ 3) with 7 in Ht.
    destruct (type obj); cbn in Ht; discriminate.
  - rewrite Ht, Hf, Hkk, Hnn.
    rewrite typeOfCode_typeCode, fragmentOfCode_fragmentCode. auto.
Qed.

Lemma at_cons_0 (x : byte) (b : Buffer) : at_ (x :: b) 0 = byte_to_Z x.
Proof. reflexivity. Qed.

Lemma at_cons_succ (x : byte) (b : Buffer) (i : Z) :
  0 <= i -> at_ (x :: b) (i + 1) = at_ b i.
Proof.
  intros Hi. unfold at_. replace (Z.to_nat (i + 1)) with (S (Z.to_nat i)) by lia.
  reflexivity.
Qed.

(** A little-endian word at the head of a buffer. *)
Lemma read32_head (v : Z) (rest : Buffer) :
  readUInt32LE (le_bytes 4 v ++ rest) 0 = OK (v mod 2 ^ 32).
Proof.
  apply read32_quad.
  - apply inBounds_true. rewrite len_app. pose proof (len_nonneg rest).
    change (len (le_bytes 4 v)) with 4. lia.
  - reflexivity.
  - reflexivity.
  - reflexivity.
  - reflexivity.
Qed.

Lemma readUInt32LE_skip (pre b : Buffer) (i : Z) :
  0 <= i ->
  readUInt32LE (pre ++ b) (len pre + i) = readUInt32LE b i.
Proof.
  intros Hi. unfold readUInt32LE, inBounds. rewrite len_app.
  pose proof (len_nonneg pre) as Hp.
  assert (A : forall j, 0 <= j -> at_ (pre ++ b) (len pre + j) = at_ b j).
  { intros j Hj. unfold at_, len. f_equal.
    replace (Z.to_nat (Z.of_nat (length pre) + j))
      with (length pre + Z.to_nat j)%nat by lia.
    rewrite app_nth2 by lia. f_equal. lia. }
  replace (len pre + i + 1) with (len pre + (i + 1)) by lia.
  replace (len pre + i + 2) with (len pre + (i + 2)) by lia.
  replace (len pre + i + 3) with (len pre + (i + 3)) by lia.
  rewrite !A by lia.
  replace (0 <=? len pre + i) with (0 <=? i)
    by (symmetry; destruct (0 <=? i) eqn:E;
        [apply Z.leb_le; lia | apply Z.leb_gt in E; lia]).
  replace (len pre + i + 4 <=? len pre + len b) with (i + 4 <=? len b);
    [reflexivity|].
  destruct (i + 4 <=? len b) eqn:E; symmetry;
    [apply Z.leb_le; apply Z.leb_le in E | apply Z.leb_gt; apply Z.leb_gt in E];
    lia.
Qed.

Lemma pad_eq (b : Buffer) :
  Reference.pad b = b ++ repeat xff (Z.to_nat ((- len b) mod 4)).
Proof. reflexivity. Qed.

Lemma len_pad_align (b : Buffer) : len (Reference.pad b) = Reference.align (len b).
Proof.
  rewrite pad_eq, len_app. unfold Reference.align, len at 2.
  rewrite repeat_length, Z2Nat.id by (apply Z.mod_pos_bound; lia).
  pose proof (len_nonneg b). Z.div_mod_to_equations. lia.
Qed.

Lemma slice_middle (pre d rest : Buffer) :
  slice (pre ++ d ++ rest) (len pre) (len pre + len d) = d.
Proof.
  unfold slice, len.
  replace (Z.to_nat (Z.of_nat (length pre) + Z.of_nat (length d)
                     - Z.of_nat (length pre))) with (length d) by lia.
  rewrite Nat2Z.id, skipn_app, skipn_all, Nat.sub_diag. cbn [skipn app].
  rewrite firstn_app, firstn_all, Nat.sub_diag. cbn [firstn]. apply app_nil_r.
Qed.

Lemma read32_second (x v : Z) (rest : Buffer) :
  readUInt32LE (le_bytes 4 x ++ le_bytes 4 v ++ rest) 4 = OK (v mod 2 ^ 32).
Proof.
  pose proof (readUInt32LE_skip (le_bytes 4 x) (le_bytes 4 v ++ rest) 0 ltac:(lia))
    as H.
  change (len (le_bytes 4 x) + 0) with 4 in H. rewrite H. apply read32_head.
Qed.

Lemma slice_after_word (x : Z) (d rest : Buffer) :
  slice (le_bytes 4 x ++ d ++ rest) 4 (4 + len d) = d.
Proof. apply (slice_middle (le_bytes 4 x) d rest). Qed.

Lemma slice_after_words (x y : Z) (d rest : Buffer) :
  slice (le_bytes 4 x ++ le_bytes 4 y ++ d ++ rest) 8 (8 + len d) = d.
Proof.
  rewrite (app_assoc (le_bytes 4 x)).
  apply (slice_middle (le_bytes 4 x ++ le_bytes 4 y) d rest).
Qed.

(** The serializations, written out. *)
Lemma writeObject_large (obj : NVMObject) (d : Buffer) :
  isLargeType (type obj) -> data obj = Some d ->
  Reference.writeObject obj
  = le_bytes 4 (Reference.headerWord obj 0) ++ le_bytes 4 (len d) ++ d
    ++ repeat xff (Z.to_nat ((- (8 + len d)) mod 4))
  /\ len (Reference.writeObject obj) = Reference.align (8 + len d).
Proof.
  intros Ht Hd.
  assert (E : Reference.writeObject obj
              = Reference.pad (le_bytes 4 (Reference.headerWord obj 0)
                               ++ le_bytes 4 (len d) ++ d)).
  { unfold Reference.writeObject, dataLength, Reference.payload. rewrite Hd.
    destruct Ht as [-> | ->]; reflexivity. }
  assert (L : len (le_bytes 4 (Reference.headerWord obj 0) ++ le_bytes 4 (len d) ++ d)
              = 8 + len d).
  { rewrite !len_app. change (len (le_bytes 4 (Reference.headerWord obj 0))) with 4.
    change (len (le_bytes 4 (len d))) with 4. lia. }
  split.
  - rewrite E, pad_eq, L, <- !app_assoc. reflexivity.
  - rewrite E, len_pad_align, L. reflexivity.
Qed.

Lemma writeObject_dataSmall (obj : NVMObject) (d : Buffer) :
  type obj = DataSmall -> data obj = Some d ->
  Reference.writeObject obj
  = le_bytes 4 (Reference.headerWord obj (len d)) ++ d
    ++ repeat xff (Z.to_nat ((- (4 + len d)) mod 4))
  /\ len (Reference.writeObject obj) = Reference.align (4 + len d).
Proof.
  intros Ht Hd.
  assert (E : Reference.writeObject obj
              = Reference.pad (le_bytes 4 (Reference.headerWord obj (len d)) ++ d)).
  { unfold Reference.writeObject, dataLength, Reference.payload.
    rewrite Hd, Ht. reflexivity. }
  assert (L : len (le_bytes 4 (Reference.headerWord obj (len d)) ++ d) = 4 + len d).
  { rewrite !len_app.
    change (len (le_bytes 4 (Reference.headerWord obj (len d)))) with 4. lia. }
  split.
  - rewrite E, pad_eq, L, <- !app_assoc. reflexivity.
  - rewrite E, len_pad_align, L. reflexivity.
Qed.

Lemma writeObject_counterSmall (obj : NVMObject) (d : Buffer) :
  type obj = CounterSmall -> data obj = Some d -> len d = 4 ->
  Reference.writeObject obj = le_bytes 4 (Reference.headerWord obj 0) ++ d
  /\ len (Reference.writeObject obj) = 8.
Proof.
  intros Ht Hd Hl.
  assert (L : length d = 4%nat) by (unfold len in Hl; lia).
  assert (E : Reference.writeObject obj
              = le_bytes 4 (Reference.headerWord obj 0) ++ d).
  { unfold Reference.writeObject, Reference.payload. rewrite Hd, Ht.
    change (Z.to_nat Reference.NVM_COUNTER_SIZE) with 4%nat.
    rewrite firstn_app, L, Nat.sub_diag, firstn_O, app_nil_r.
    now rewrite firstn_all2 by lia. }
  split; [exact E|]. rewrite E, len_app.
  change (len (le_bytes 4 (Reference.headerWord obj 0))) with 4. lia.
Qed.

(** An object within the data model is read back from its serialization,
    whatever follows it, with the number of bytes it took. *)
Lemma readObject_writeObject (obj : NVMObject) (rest : Buffer) :
  withinDataModel obj ->
  exists w,
    readUInt32LE (Reference.writeObject obj ++ rest) 0 = OK w
    /\ w <> 0xffffffff
    /\ Reference.readObject (Reference.writeObject obj ++ rest) w
       = OK (obj, len (Reference.writeObject obj)).
Proof.
  intros (Hk & d & Hd & Hsize).
  pose proof (len_nonneg d) as Hd0.
  assert (Large :
            isLargeType (type obj) -> len d < 2 ^ 31 - 16 ->
            exists w,
              readUInt32LE (Reference.writeObject obj ++ rest) 0 = OK w
              /\ w <> 0xffffffff
              /\ Reference.readObject (Reference.writeObject obj ++ rest) w
                 = OK (obj, len (Reference.writeObject obj))).
  { intros Ht Hs.
    destruct (writeObject_large obj d Ht Hd) as (E & L).
    destruct (headerWord_decode obj 0 Hk ltac:(pow2; lia))
      as (Hr & Hne & Htc & Hf & Hkk & _).
    cbv zeta in *. rewrite L, E. clear E L.
    set (w := Reference.headerWord obj 0) in *.
    exists w. rewrite <- !app_assoc.
    split; [rewrite read32_head; f_equal; now apply Z.mod_small|].
    split; [exact Hne|].
    unfold Reference.readObject. rewrite Htc, Hf, Hkk.
    set (filler := repeat xff _ ++ rest).
    assert (Eb : (len (le_bytes 4 w ++ le_bytes 4 (len d) ++ d ++ filler)
                  <? 8 + len d) = false).
    { apply Z.ltb_ge. rewrite !len_app. change (len (le_bytes 4 w)) with 4.
      change (len (le_bytes 4 (len d))) with 4. pose proof (len_nonneg filler). lia. }
    assert (Body :
              (n <- readUInt32LE (le_bytes 4 w ++ le_bytes 4 (len d) ++ d ++ filler) 4 ;;
               if len (le_bytes 4 w ++ le_bytes 4 (len d) ++ d ++ filler) <? 8 + n
               then Err (ObjectError 2)
               else OK (mkObject (type obj) (fragmentType obj) (key obj)
                                 (Some (slice (le_bytes 4 w ++ le_bytes 4 (len d)
                                               ++ d ++ filler) 8 (8 + n))),
                        Reference.align (8 + n)))
              = OK (obj, Reference.align (8 + len d))).
    { rewrite read32_second, (Z.mod_small (len d)) by (pow2; lia). cbn [bind].
      rewrite Eb, slice_after_words. destruct obj as [t f k dat].
      cbn [type fragmentType key data] in *. now subst dat. }
    destruct Ht as [Ht | Ht]; rewrite Ht in *; exact Body. }
  destruct (type obj) eqn:Et; try contradiction.
  - apply Large; [left; reflexivity | exact Hsize].
  - apply Large; [right; reflexivity | exact Hsize].
  - (* CounterSmall *)
    destruct (writeObject_counterSmall obj d Et Hd Hsize) as (E & L).
    destruct (headerWord_decode obj 0 Hk ltac:(pow2; lia))
      as (Hr & Hne & Htc & Hf & Hkk & _).
    cbv zeta in *. rewrite L, E. clear E L.
    set (w := Reference.headerWord obj 0) in *.
    exists w. rewrite <- !app_assoc.
    split; [rewrite read32_head; f_equal; now apply Z.mod_small|].
    split; [exact Hne|].
    unfold Reference.readObject. rewrite Htc, Hf, Hkk, Et.
    assert (Eb : (len (le_bytes 4 w ++ d ++ rest) <? 4 + Reference.NVM_COUNTER_SIZE)
                 = false).
    { apply Z.ltb_ge. rewrite !len_app. change (len (le_bytes 4 w)) with 4.
      pose proof (len_nonneg rest). unfold Reference.NVM_COUNTER_SIZE. lia. }
    rewrite Eb. change Reference.NVM_COUNTER_SIZE with 4.
    pose proof (slice_after_word w d rest) as S. rewrite Hsize in S. rewrite S.
    destruct obj as [t f k dat].
    cbn [type fragmentType key data] in *. subst dat t. reflexivity.
  - (* DataSmall *)
    destruct (writeObject_dataSmall obj d Et Hd) as (E & L).
    destruct (headerWord_decode obj (len d) Hk ltac:(lia))
      as (Hr & Hne & Htc & Hf & Hkk & Hn).
    cbv zeta in *. rewrite L, E. clear E L.
    set (w := Reference.headerWord obj (len d)) in *.
    exists w. rewrite <- !app_assoc.
    split; [rewrite read32_head; f_equal; now apply Z.mod_small|].
    split; [exact Hne|].
    unfold Reference.readObject. rewrite Htc, Hf, Hkk, Hn, Et.
    set (filler := repeat xff _ ++ rest).
    assert (Eb : (len (le_bytes 4 w ++ d ++ filler) <? 4 + len d) = false).
    { apply Z.ltb_ge. rewrite !len_app. change (len (le_bytes 4 w)) with 4.
      pose proof (len_nonneg filler). lia. }
    rewrite Eb, slice_after_word. destruct obj as [t f k dat].
    cbn [type fragmentType key data] in *. subst dat t. reflexivity.
Qed.

Lemma align_mod4 (n : Z) : Reference.align n mod 4 = 0.
Proof. unfold Reference.align. rewrite Z.mul_comm. apply Z.mod_mul. lia. Qed.

(** Every serialization takes a whole number of words, one at least. *)
Lemma writeObject_words (obj : NVMObject) :
  len (Reference.writeObject obj) mod 4 = 0 /\ 4 <= len (Reference.writeObject obj).
Proof.
  pose proof (writeObject_len obj) as L.
  assert (0 <= dataLength obj)
    by (unfold dataLength; destruct (data obj); [apply len_nonneg | lia]).
  split; [|destruct (type obj); lia].
  unfold Reference.writeObject in *.
  destruct (type obj); rewrite ?len_pad_align; try apply align_mod4;
    rewrite L; reflexivity.
Qed.

Lemma written_app (t1 t2 : list (NVMObject * Z)) :
  written (t1 ++ t2) = written t1 ++ written t2.
Proof. unfold written. now rewrite map_app, concat_app. Qed.

Lemma written_fragments (t : list (NVMObject * Z)) :
  written t = List.concat (List.map Reference.writeObject (List.map fst t)).
Proof. unfold written. now rewrite map_map. Qed.

Lemma written_words (t : list (NVMObject * Z)) :
  len (written t) mod 4 = 0 /\ 4 * Z.of_nat (length t) <= len (written t).
Proof.
  induction t as [|e t (IH1 & IH2)]; [split; reflexivity|].
  change (written (e :: t)) with (Reference.writeObject (fst e) ++ written t).
  rewrite len_app. destruct (writeObject_words (fst e)) as (M & P).
  cbn [length]. split; [|lia].
  rewrite Z.add_mod, M, IH1 by lia. reflexivity.
Qed.

Lemma read32_erased (m : nat) :
  match readUInt32LE (repeat xff m) 0 with
  | OK w => w = 0xffffffff
  | Err _ => True
  end.
Proof.
  destruct m as [|[|[|[|m]]]]; try exact I.
  change (repeat xff (S (S (S (S m)))))
    with (le_bytes 4 0xffffffff ++ repeat xff m).
  rewrite read32_head. reflexivity.
Qed.

(** The fragments of a page are read back from their bytes followed by
    erased bytes. *)
Lemma readObjectsFrom_written (fs : list NVMObject) (m : nat) :
  forall fuel : nat,
    Forall withinDataModel fs ->
    (length fs <= fuel)%nat ->
    Reference.readObjectsFrom
      fuel (List.concat (List.map Reference.writeObject fs) ++ repeat xff m)
    = OK fs.
Proof.
  induction fs as [|f fs IH]; intros fuel Hwf Hfuel.
  - cbn [List.map List.concat app].
    destruct fuel as [|fuel]; [reflexivity|]. cbn [Reference.readObjectsFrom].
    pose proof (read32_erased m) as R.
    destruct (readUInt32LE (repeat xff m) 0) as [w|e]; [|reflexivity].
    subst w. reflexivity.
  - inversion Hwf as [|? ? Hf Hfs]; subst.
    destruct fuel as [|fuel]; [cbn [length] in Hfuel; lia|].
    cbn [List.map List.concat]. rewrite <- app_assoc.
    set (rest := List.concat (List.map Reference.writeObject fs) ++ repeat xff m).
    destruct (readObject_writeObject f rest Hf) as (w & Ew & Hne & Er).
    cbn [Reference.readObjectsFrom]. rewrite Ew.
    apply Z.eqb_neq in Hne. rewrite Hne, Er. cbn [bind].
    assert (Es : skipn (Z.to_nat (len (Reference.writeObject f)))
                       (Reference.writeObject f ++ rest) = rest).
    { unfold len. rewrite Nat2Z.id, skipn_app, skipn_all, Nat.sub_diag.
      reflexivity. }
    rewrite Es. unfold rest. rewrite (IH fuel Hfs) by (cbn [length] in Hfuel; lia).
    reflexivity.
Qed.

Lemma readObjects_written (t : list (NVMObject * Z)) (m : nat) :
  Forall withinDataModel (List.map fst t) ->
  Reference.readObjects (written t ++ repeat xff m) = OK (List.map fst t).
Proof.
  intros Hwf. unfold Reference.readObjects. rewrite written_fragments.
  apply readObjectsFrom_written; [exact Hwf|].
  rewrite length_app, <- written_fragments, length_map.
  destruct (written_words t) as (_ & P). unfold len in P. lia.
Qed.

(** ** One placement, seen through its pages *)

Lemma setNth_map (A B : Type) (h : A -> B) (i : nat) (v : A) (l : list A) :
  setNth i (h v) (List.map h l) = List.map h (setNth i v l).
Proof.
  revert i. induction l as [|x l IH]; intros [|i]; cbn; try reflexivity.
  now rewrite IH.
Qed.

Section MapPages.
  Variables NVM3_WORD_SIZE NVM3_OBJ_HEADER_SIZE_SMALL NVM_COUNTER_SIZE : Z.
  Variable writeObject : NVMObject -> Buffer.
  Variable fragmentLargeObject : NVMObject -> Z -> Z -> list NVMObject.
  Variable pageSize : Z.
  Variables Page1 Page2 : Type.
  Variable h : Page1 -> Page2.
  Variable put1 : NVMObject -> Z -> Page1 -> Page1.
  Variable put2 : NVMObject -> Z -> Page2 -> Page2.
  Hypothesis Hput : forall f pos p, h (put1 f pos p) = put2 f pos (h p).

  Local Abbreviation mw := (mapWriter Page1 Page2 h).
  Local Abbreviation mr := (mapResult (Writer Page1) (Writer Page2) mw).

Lemma nextPage_map (w : Writer Page1) :
    nextPage pageSize (mw w) = mr (nextPage pageSize w).
  Proof.
    unfold nextPage, mapWriter. cbn [pages pageIndex]. rewrite length_map.
    destruct (pageIndex w + 1 >=? Z.of_nat (length (pages w))); reflexivity.
  Qed.

Lemma putFragment_map (w : Writer Page1) (f : NVMObject) :
    putFragment put2 (mw w) f = mw (putFragment put1 w f).
  Proof.
    unfold putFragment, mapWriter. cbn [pages pageIndex offsetInPage remainingSpace].
    rewrite nth_error_map.
    destruct (nth_error (pages w) (Z.to_nat (pageIndex w))) as [page|];
      cbn [option_map pages pageIndex offsetInPage remainingSpace]; [|reflexivity].
    now rewrite <- Hput, setNth_map.
  Qed.

Lemma writeFragment_map (several : bool) (w : Writer Page1) (f : NVMObject) :
    writeFragment NVM3_WORD_SIZE writeObject put2 pageSize several (mw w) f
    = mr (writeFragment NVM3_WORD_SIZE writeObject put1 pageSize several w f).
  Proof.
    unfold writeFragment. rewrite putFragment_map.
    change (incrementOffset NVM3_WORD_SIZE pageSize (mw (putFragment put1 w f))
                            (len (writeObject f)))
      with (mw (incrementOffset NVM3_WORD_SIZE pageSize (putFragment put1 w f)
                                (len (writeObject f)))).
    destruct several; [apply nextPage_map | reflexivity].
  Qed.

Lemma writeFragments_map (several : bool) (fs : list NVMObject) :
    forall w : Writer Page1,
      writeFragments NVM3_WORD_SIZE writeObject put2 pageSize several (mw w) fs
      = mr (writeFragments NVM3_WORD_SIZE writeObject put1 pageSize several w fs).
  Proof.
    induction fs as [|f fs IH]; intros w; cbn [writeFragments]; [reflexivity|].
    rewrite writeFragment_map.
    destruct (writeFragment NVM3_WORD_SIZE writeObject put1 pageSize several w f)
      as [w1|e]; cbn [mapResult bind]; [apply IH | reflexivity].
  Qed.

Lemma placeObject_map (w : Writer Page1) (obj : NVMObject) :
    placeObject NVM3_WORD_SIZE NVM3_OBJ_HEADER_SIZE_SMALL NVM_COUNTER_SIZE
                writeObject fragmentLargeObject put2 pageSize (mw w) obj
    = mr (placeObject NVM3_WORD_SIZE NVM3_OBJ_HEADER_SIZE_SMALL NVM_COUNTER_SIZE
                      writeObject fragmentLargeObject put1 pageSize w obj).
  Proof.
    unfold placeObject.
    destruct (ObjectType_eqb (type obj) Deleted); [reflexivity|].
    unfold chooseFragments.
    change (remainingSpace (mw w)) with (remainingSpace w).
    destruct (ObjectType_eqb (type obj) CounterSmall
              && (remainingSpace w <? NVM3_OBJ_HEADER_SIZE_SMALL + NVM_COUNTER_SIZE)
              || ObjectType_eqb (type obj) DataSmall
                 && (remainingSpace w <? NVM3_OBJ_HEADER_SIZE_SMALL + dataLength obj)).
    - rewrite nextPage_map.
      destruct (nextPage pageSize w) as [w1|e]; cbn [mapResult bind];
        [apply writeFragments_map | reflexivity].
    - destruct (ObjectType_eqb (type obj) CounterLarge
                || ObjectType_eqb (type obj) DataLarge);
        cbn [bind]; apply writeFragments_map.
  Qed.

Lemma placeObjects_map (objs : list NVMObject) :
    forall w : Writer Page1,
      placeObjects NVM3_WORD_SIZE NVM3_OBJ_HEADER_SIZE_SMALL NVM_COUNTER_SIZE
                   writeObject fragmentLargeObject put2 pageSize (mw w) objs
      = mr (placeObjects NVM3_WORD_SIZE NVM3_OBJ_HEADER_SIZE_SMALL NVM_COUNTER_SIZE
                         writeObject fragmentLargeObject put1 pageSize w objs).
  Proof.
    induction objs as [|obj objs IH]; intros w; cbn [placeObjects]; [reflexivity|].
    rewrite placeObject_map.
    destruct (placeObject NVM3_WORD_SIZE NVM3_OBJ_HEADER_SIZE_SMALL NVM_COUNTER_SIZE
                          writeObject fragmentLargeObject put1 pageSize w obj)
      as [w1|e]; cbn [mapResult bind]; [apply IH | reflexivity].
  Qed.

  (** The control flow of the placement does not depend on the pages: a
      placement over pages seen through [h] is the placement seen through
      [h]. *)
Lemma writeObjectsWith_map (pages0 : list Page1) (objs : ObjectMap) :
    writeObjectsWith NVM3_WORD_SIZE NVM3_OBJ_HEADER_SIZE_SMALL NVM_COUNTER_SIZE
                     writeObject fragmentLargeObject put2 pageSize
                     (List.map h pages0) objs
    = mapResult (list Page1) (list Page2) (List.map h)
        (writeObjectsWith NVM3_WORD_SIZE NVM3_OBJ_HEADER_SIZE_SMALL NVM_COUNTER_SIZE
                          writeObject fragmentLargeObject put1 pageSize pages0 objs).
  Proof.
    unfold writeObjectsWith.
    change (mkWriter (List.map h pages0) (-1) (-1) (-1))
      with (mw (mkWriter pages0 (-1) (-1) (-1))).
    rewrite nextPage_map.
    destruct (nextPage pageSize (mkWriter pages0 (-1) (-1) (-1))) as [w1|e];
      cbn [mapResult bind]; [|reflexivity].
    rewrite placeObjects_map.
    destruct (placeObjects NVM3_WORD_SIZE NVM3_OBJ_HEADER_SIZE_SMALL NVM_COUNTER_SIZE
                           writeObject fragmentLargeObject put1 pageSize w1
                           (map_values objs)) as [w2|e];
      reflexivity.
  Qed.
End MapPages.

(** ** The bytes of the pages that [writeObjects] fills *)

Lemma copy_behind (pre src : Buffer) (m : nat) :
  (length src <= m)%nat ->
  copy src (pre ++ repeat xff m) (len pre)
  = pre ++ src ++ repeat xff (m - length src).
Proof.
  intros Hl. unfold copy. rewrite len_app. unfold len.
  rewrite repeat_length, Nat2Z.id.
  destruct (Z.of_nat (length pre) + Z.of_nat m <=? Z.of_nat (length pre)) eqn:E.
  - apply Z.leb_le in E. assert (m = 0%nat) by lia. subst m.
    destruct src; [reflexivity | cbn in Hl; lia].
  - rewrite firstn_app, firstn_all, Nat.sub_diag, firstn_O, app_nil_r.
    rewrite length_app, repeat_length.
    replace (length pre + m - length pre)%nat with m by lia.
    rewrite (firstn_all2 (n := m) src) by lia.
    rewrite skipn_app, (skipn_all2 (n := (length pre + length src)%nat) pre) by lia.
    replace (length pre + length src - length pre)%nat with (length src) by lia.
    now rewrite skipn_repeat_sub.
Qed.

(** The fragments of a large object of the data model: the object itself
    when it fits the first space with its header; otherwise a first fragment
    within that space, if the space holds a header, and fragments that fit a
    page body each. *)
Lemma fragmentLargeObject_model (obj : NVMObject) (firstFit : Z) :
  withinDataModel obj -> isLargeType (type obj) ->
  (8 + dataLength obj <= firstFit
   /\ Reference.fragmentLargeObject obj firstFit 2028 = [obj])
  \/ (exists first conts,
         Reference.fragmentLargeObject obj firstFit 2028 = first :: conts
         /\ conts <> []
         /\ withinDataModel first /\ isLargeType (type first)
         /\ dataLength first <= Z.max 0 (firstFit - 8)
         /\ Forall (fun g => withinDataModel g
                             /\ len (Reference.writeObject g) <= 2028) conts).
Proof.
  intros (Hk & d & Hd & Hsize) Ht.
  assert (Hs : len d < 2 ^ 31 - 16) by (destruct Ht as [E | E]; now rewrite E in Hsize).
  assert (Hp : Reference.payload obj = d) by (unfold Reference.payload; now rewrite Hd).
  unfold Reference.fragmentLargeObject.
  change Reference.NVM3_OBJ_HEADER_SIZE_LARGE with 8.
  destruct (8 + dataLength obj <=? firstFit) eqn:E.
  { left. apply Z.leb_le in E. now split. }
  right. rewrite Hp.
  set (n0 := Z.to_nat (firstFit - 8)).
  change (Z.to_nat (Z.max 1 (2028 - 8))) with 2020%nat.
  set (rest := skipn n0 d).
  set (cs := Reference.chunks (length rest) 2020 rest).
  assert (Model : forall g c, key g = key obj -> type g = type obj ->
                              data g = Some c -> (length c <= length d)%nat ->
                              withinDataModel g).
  { intros g c Kg Tg Dg Lc. split; [now rewrite Kg|].
    exists c. split; [exact Dg|]. rewrite Tg. unfold len in *.
    destruct Ht as [-> | ->]; lia. }
  eexists _, (Reference.continuation obj cs).
  split; [reflexivity|]. split.
  { intros C. apply (f_equal (@length _)) in C.
    rewrite continuation_length in C. cbn [length] in C.
    pose proof (chunks_nonempty (length rest) 2020 rest) as N. fold cs in N.
    destruct cs; [congruence | discriminate]. }
  split.
  { apply (Model _ (firstn n0 d)); try reflexivity. rewrite length_firstn. lia. }
  split; [exact Ht|]. split.
  { unfold dataLength, len. cbn [data]. rewrite length_firstn. subst n0. lia. }
  pose proof (continuation_fields obj cs) as F.
  pose proof (chunks_bound 2020 ltac:(lia) (length rest) rest (le_n _)) as B.
  pose proof (chunks_within (length rest) 2020 rest) as W.
  fold cs in B, W.
  assert (Lr : (length rest <= length d)%nat)
    by (unfold rest; rewrite length_skipn; lia).
  clearbody cs. clear -F B W Lr Model Ht.
  induction F as [|g c gs cs' (Kg & Tg & Dg) _ IH]; [constructor|].
  inversion B as [|? ? Bc B']; subst. inversion W as [|? ? Wc W']; subst.
  constructor; [|now apply IH].
  split; [apply (Model g c); auto; lia|].
  pose proof (writeObject_len g) as L.
  destruct (writeObject_words g) as (M & _).
  assert (Dl : dataLength g = len c) by (unfold dataLength; now rewrite Dg).
  rewrite Tg in L. unfold len in Dl.
  destruct Ht as [E | E]; rewrite E in L; Z.div_mod_to_equations; lia.
Qed.

Section Traced.
  Variable hdr : Buffer.
  Hypothesis Hhdr : len hdr = 20.

  Local Abbreviation WO := Reference.writeObject.
  Local Abbreviation put := (putTraced Reference.writeObject).
  Local Abbreviation after :=
    (afterFragment 4 Reference.writeObject 2048 Traced put).
  Local Abbreviation room :=
    (Forall (headerFits Reference.NVM3_OBJ_HEADER_SIZE_LARGE 2048)).

  (** A fragment that lies within the page, if the fragments of the page
      found room for their headers, keeps the invariant. *)
Lemma traced_after (w : Writer Traced) (f : NVMObject) :
    tracedInv hdr w -> withinDataModel f ->
    (forall page,
        nth_error (pages w) (Z.to_nat (pageIndex w)) = Some page ->
        room (snd page) ->
        headerFits Reference.NVM3_OBJ_HEADER_SIZE_LARGE 2048 (f, offsetInPage w) ->
        offsetInPage w + len (WO f) <= 2048) ->
    tracedInv hdr (after w f).
  Proof.
    intros (Hi & Hr & Hpages & Hwire & Hoff & Hfresh) Hf Hfit.
    destruct (afterFragment_fields 4 WO 2048 Traced put w f) as (Ai & Ao & Ar & Ap).
    unfold pageCountOf in *.
    destruct (nth_error (pages w) (Z.to_nat (pageIndex w))) as [[b t]|] eqn:Epage.
    2:{ apply nth_error_None in Epage. lia. }
    rewrite (putFragment_pages Traced put w f (b, t) Epage) in Ap.
    change (putTraced WO f (offsetInPage w) (b, t))
      with (copy (WO f) b (offsetInPage w), t ++ [(f, offsetInPage w)]) in Ap.
    assert (Hlt : (Z.to_nat (pageIndex w) < length (pages w))%nat) by lia.
    pose proof (proj1 (Forall_forall _ _) Hpages (b, t) (nth_error_In _ _ Epage))
      as Hpage.
    pose proof (proj1 (Forall_forall _ _) Hwire (b, t) (nth_error_In _ _ Epage))
      as Hwt.
    cbn [snd] in Hwt.
    assert (Key : room (t ++ [(f, offsetInPage w)]) ->
                  copy (WO f) b (offsetInPage w)
                  = hdr ++ written (t ++ [(f, offsetInPage w)])
                        ++ repeat xff (Z.to_nat
                                         (2028 - len (written (t ++ [(f, offsetInPage w)]))))
                  /\ len (written (t ++ [(f, offsetInPage w)])) <= 2028
                  /\ offsetInPage w + alignedDelta 4 (len (WO f))
                     = 20 + len (written (t ++ [(f, offsetInPage w)]))).
    { intros Hroom. apply Forall_app in Hroom. destruct Hroom as (Hrt & Hrf).
      inversion Hrf as [|? ? Hrf' _]; subst.
      destruct (Hpage Hrt) as (Eb & Lb). cbn [fst snd] in Eb, Lb.
      pose proof (Hoff (b, t) eq_refl Hrt) as Eo. cbn [snd] in Eo.
      pose proof (Hfit (b, t) eq_refl Hrt Hrf') as Fit.
      destruct (writeObject_words f) as (M4 & P4).
      pose proof (len_nonneg (written t)) as Wt0.
      rewrite written_app.
      change (written [(f, offsetInPage w)]) with (WO f ++ []).
      rewrite app_nil_r, len_app.
      split; [|split].
      - rewrite Eb, (app_assoc hdr).
        replace (offsetInPage w) with (len (hdr ++ written t))
          by (rewrite len_app; lia).
        rewrite copy_behind by (unfold len in *; lia).
        rewrite <- !app_assoc. do 4 apply f_equal. unfold len in *. lia.
      - lia.
      - rewrite alignedDelta_4 by (pow2; lia). Z.div_mod_to_equations. lia. }
    unfold tracedInv, pageCountOf.
    refine (conj _ (conj Ar (conj _ (conj _ (conj _ _))))).
    - rewrite Ai, Ap, setNth_length. exact Hi.
    - rewrite Ap. apply setNth_Forall; [exact Hpages|].
      intros Hroom. cbn [fst snd] in *.
      destruct (Key Hroom) as (K1 & K2 & _). now split.
    - rewrite Ap. apply setNth_Forall; [exact Hwire|].
      cbn [snd]. rewrite map_app. apply Forall_app. split; [exact Hwt|].
      constructor; [exact Hf | constructor].
    - intros page Ep Hroom. rewrite Ai, Ap in Ep.
      rewrite nth_error_setNth_same in Ep by exact Hlt.
      injection Ep as <-. cbn [snd] in *. rewrite Ao.
      exact (proj2 (proj2 (Key Hroom))).
    - intros j page Hj Ej. rewrite Ai in Hj.
      rewrite Ap, nth_error_setNth_other in Ej by lia.
      now apply (Hfresh j).
  Qed.

Lemma traced_next (w w' : Writer Traced) :
    tracedInv hdr w -> nextPage 2048 w = OK w' ->
    tracedInv hdr w' /\ offsetInPage w' = 20.
  Proof.
    intros (Hi & Hr & Hpages & Hwire & Hoff & Hfresh) E.
    destruct (nextPage_cases 2048 Traced w) as [[_ En] | [Hlt En]];
      rewrite En in E; [discriminate|].
    apply OK_inj in E. subst w'. unfold pageCountOf in *.
    split; [|reflexivity].
    unfold tracedInv, pageCountOf.
    cbn [pages pageIndex offsetInPage remainingSpace].
    split; [lia|]. split; [reflexivity|]. split; [exact Hpages|].
    split; [exact Hwire|]. split.
    - intros page Ep _.
      rewrite (Hfresh (Z.to_nat (pageIndex w + 1)) page ltac:(lia) Ep).
      reflexivity.
    - intros j page Hj Ej. apply (Hfresh j); [lia | exact Ej].
  Qed.

  (** A single fragment that needs no more than the space that is left. *)
Lemma traced_single (w w' : Writer Traced) (g : NVMObject) (cost : Z) :
    tracedInv hdr w -> withinDataModel g ->
    cost <= len (WO g) < cost + 4 ->
    cost <= remainingSpace w ->
    writeFragments 4 WO put 2048 false w [g] = OK w' ->
    tracedInv hdr w'.
  Proof.
    intros Hw Hg Hc Hrem E. cbn [writeFragments] in E.
    rewrite writeFragment_single in E. cbn [bind] in E.
    apply OK_inj in E. subst w'.
    apply traced_after; [exact Hw | exact Hg |].
    intros page Ep Hroom _.
    destruct Hw as (_ & Hr & _ & _ & Hoff & _).
    pose proof (Hoff page Ep Hroom) as Eo.
    destruct (written_words (snd page)) as (M & _).
    destruct (writeObject_words g) as (Mg & _).
    Z.div_mod_to_equations. lia.
  Qed.

  (** The fragments after the first, each at the top of a page. *)
Lemma traced_continuation (fs : list NVMObject) :
    forall w w' : Writer Traced,
      tracedInv hdr w -> offsetInPage w = 20 ->
      Forall (fun g => withinDataModel g /\ len (WO g) <= 2028) fs ->
      writeFragments 4 WO put 2048 true w fs = OK w' ->
      tracedInv hdr w'.
  Proof.
    induction fs as [|f fs IH]; intros w w' Hw Ho Hfs E; cbn [writeFragments] in E.
    - apply OK_inj in E. now subst.
    - inversion Hfs as [|? ? (Hf & Lf) Hfs']; subst.
      rewrite writeFragment_several in E.
      assert (Ha : tracedInv hdr (after w f)).
      { apply traced_after; [exact Hw | exact Hf |].
        intros page _ _ _. rewrite Ho. lia. }
      destruct (nextPage 2048 (after w f)) as [w1|e] eqn:En; [|discriminate].
      cbn [bind] in E.
      destruct (traced_next _ _ Ha En) as (H1 & O1).
      exact (IH w1 w' H1 O1 Hfs' E).
  Qed.

Lemma traced_placeObject (w w' : Writer Traced) (obj : NVMObject) :
    tracedInv hdr w -> withinDataModel obj ->
    placeObject 4 4 4 WO Reference.fragmentLargeObject put 2048 w obj = OK w' ->
    tracedInv hdr w'.
  Proof.
    intros Hw Hobj E.
    pose proof Hobj as (Hk & d & Hd & Hsize).
    assert (Hdl : dataLength obj = len d) by (unfold dataLength; now rewrite Hd).
    pose proof (len_nonneg d) as Hd0.
    pose proof (writeObject_len obj) as L.
    unfold placeObject, chooseFragments in E.
    change (2048 - NVM3_PAGE_HEADER_SIZE) with 2028 in E.
    assert (Large :
              isLargeType (type obj) ->
              writeFragments 4 WO put 2048
                (1 <? Z.of_nat (length (Reference.fragmentLargeObject
                                          obj (remainingSpace w) 2028)))
                w (Reference.fragmentLargeObject obj (remainingSpace w) 2028)
              = OK w' ->
              tracedInv hdr w').
    { intros Ht E'.
      destruct (fragmentLargeObject_model obj (remainingSpace w) Hobj Ht)
        as [(Hfit & Efs) | (first & conts & Efs & Hne & Hf & Htf & Hdf & Hcs)];
        rewrite Efs in E'.
      - change (1 <? Z.of_nat (length [obj])) with false in E'.
        apply (traced_single w w' obj (8 + dataLength obj)); auto.
        destruct Ht as [Et | Et]; rewrite Et in L; lia.
      - assert (Es : (1 <? Z.of_nat (length (first :: conts))) = true).
        { apply Z.ltb_lt. destruct conts; [congruence | cbn [length]; lia]. }
        rewrite Es in E'. cbn [writeFragments] in E'.
        rewrite writeFragment_several in E'.
        assert (Ha : tracedInv hdr (after w first)).
        { apply traced_after; [exact Hw | exact Hf |].
          intros page Ep Hroom Hh. specialize (Hh Htf). cbn [snd] in Hh.
          change Reference.NVM3_OBJ_HEADER_SIZE_LARGE with 8 in Hh.
          destruct Hw as (_ & Hr & _ & _ & Hoff & _).
          pose proof (Hoff page Ep Hroom) as Eo.
          destruct (written_words (snd page)) as (M & _).
          destruct (writeObject_words first) as (Mg & _).
          pose proof (writeObject_len first) as Lf.
          destruct Htf as [Et | Et]; rewrite Et in Lf;
            Z.div_mod_to_equations; lia. }
        destruct (nextPage 2048 (after w first)) as [w1|e] eqn:En; [|discriminate].
        cbn [bind] in E'.
        destruct (traced_next _ _ Ha En) as (H1 & O1).
        exact (traced_continuation conts w1 w' H1 O1 Hcs E'). }
    destruct (type obj) eqn:Et; try contradiction;
      cbn [ObjectType_eqb andb orb bind] in E.
    - apply Large; [now left | exact E].
    - apply Large; [now right | exact E].
    - (* CounterSmall *)
      rewrite orb_false_r in E.
      change (1 <? Z.of_nat (length [obj])) with false in E.
      destruct (remainingSpace w <? 4 + 4) eqn:Er.
      + destruct (nextPage 2048 w) as [w1|e] eqn:En; [|discriminate].
        cbn [bind] in E. destruct (traced_next _ _ Hw En) as (H1 & O1).
        apply (traced_single w1 w' obj 8); auto; [lia|].
        destruct H1 as (_ & Hr1 & _). lia.
      + cbn [bind] in E. apply Z.ltb_ge in Er.
        apply (traced_single w w' obj 8); auto; lia.
    - (* DataSmall *)
      change (1 <? Z.of_nat (length [obj])) with false in E.
      destruct (remainingSpace w <? 4 + dataLength obj) eqn:Er.
      + destruct (nextPage 2048 w) as [w1|e] eqn:En; [|discriminate].
        cbn [bind] in E. destruct (traced_next _ _ Hw En) as (H1 & O1).
        apply (traced_single w1 w' obj (4 + dataLength obj)); auto; [lia|].
        destruct H1 as (_ & Hr1 & _). pow2. lia.
      + cbn [bind] in E. apply Z.ltb_ge in Er.
        apply (traced_single w w' obj (4 + dataLength obj)); auto; lia.
  Qed.

Lemma traced_placeObjects (objs : list NVMObject) :
    forall w w' : Writer Traced,
      tracedInv hdr w -> Forall withinDataModel objs ->
      placeObjects 4 4 4 WO Reference.fragmentLargeObject put 2048 w objs = OK w' ->
      tracedInv hdr w'.
  Proof.
    induction objs as [|obj objs IH]; intros w w' Hw Hobjs E; cbn [placeObjects] in E.
    - apply OK_inj in E. now subst.
    - inversion Hobjs as [|? ? Hobj Hobjs']; subst.
      destruct (placeObject 4 4 4 WO Reference.fragmentLargeObject put 2048 w obj)
        as [w1|e] eqn:E1; [|discriminate].
      cbn [bind] in E.
      exact (IH w1 w' (traced_placeObject w w1 obj Hw Hobj E1) Hobjs' E).
  Qed.

  (** The pages of a region after [writeObjects], with their fragments. *)
Lemma traced_writeObjects (n : nat) (objs : ObjectMap) (traced : list Traced) :
    Forall withinDataModel (map_values objs) ->
    writeObjectsWith 4 4 4 WO Reference.fragmentLargeObject put 2048
                     (repeat (hdr ++ repeat xff 2028, []) n) objs
    = OK traced ->
    Forall (tracedPage hdr) traced
    /\ Forall (fun page => Forall withinDataModel (List.map fst (snd page))) traced.
  Proof.
    intros Hobjs E. unfold writeObjectsWith in E.
    set (page0 := (hdr ++ repeat xff 2028, @nil (NVMObject * Z))) in *.
    match type of E with context [nextPage 2048 ?w] => set (w0 := w) in E end.
    destruct (nextPage_cases 2048 Traced w0) as [[_ En] | [Hlt En]];
      rewrite En in E; cbn [bind] in E; [discriminate|].
    match type of E with context [placeObjects _ _ _ _ _ _ _ ?w _] =>
      set (w1 := w) in E end.
    destruct (placeObjects 4 4 4 WO Reference.fragmentLargeObject put 2048 w1
                           (map_values objs)) as [w'|e] eqn:E'; [|discriminate].
    cbn [bind] in E. apply OK_inj in E. subst traced.
    assert (Hall : forall P : Traced -> Prop, P page0 -> Forall P (repeat page0 n)).
    { intros P HP. apply Forall_forall. intros x Hx.
      apply repeat_spec in Hx. now subst x. }
    assert (H1 : tracedInv hdr w1).
    { unfold tracedInv, pageCountOf, w1, w0 in *.
      cbn [pages pageIndex offsetInPage remainingSpace] in *.
      split; [lia|]. split; [reflexivity|]. split.
      { apply Hall. intros _. cbn [fst snd]. split; reflexivity || (cbn; lia). }
      split; [apply Hall; constructor|]. split.
      - intros page Ep _. apply nth_error_In, repeat_spec in Ep. subst page.
        reflexivity.
      - intros j page _ Ej. apply nth_error_In, repeat_spec in Ej. now subst page. }
    destruct (traced_placeObjects _ w1 w' H1 Hobjs E') as (_ & _ & Hp & Hw & _).
    now split.
  Qed.
End Traced.

(** ** The round trip at the reference codec *)

Lemma createEmptyPage_default_bytes :
  createEmptyPage defaultOptions = OK (defaultHeaderBytes ++ repeat xff 2028).
Proof. vm_compute. reflexivity. Qed.

Lemma mapResult_OK (A B : Type) (h : A -> B) (r : result A) (b : B) :
  mapResult A B h r = OK b -> exists a, r = OK a /\ b = h a.
Proof.
  destruct r as [a|e]; cbn; intros E; [|discriminate].
  apply OK_inj in E. eauto.
Qed.

Lemma Forall2_map_same (A B C : Type) (R : B -> C -> Prop) (f : A -> B) (g : A -> C)
      (l : list A) :
  Forall (fun x => R (f x) (g x)) l -> Forall2 R (List.map f l) (List.map g l).
Proof. induction 1; cbn; constructor; auto. Qed.

Lemma Forall2_nth_error (A B : Type) (R : A -> B -> Prop) (l : list A) (l' : list B) :
  Forall2 R l l' ->
  forall i y, nth_error l' i = Some y ->
              exists x, nth_error l i = Some x /\ R x y.
Proof.
  induction 1 as [|x y l l' Hxy _ IH]; intros [|i] z E; cbn in E; try discriminate.
  - injection E as <-. exists x. now split.
  - now apply IH.
Qed.

Lemma withinDataModel_dataLength (obj : NVMObject) :
  withinDataModel obj -> dataLength obj < 2 ^ 31 - 16 /\ data obj <> None.
Proof.
  intros (_ & d & Hd & Hs). unfold dataLength. rewrite Hd.
  split; [|discriminate]. destruct (type obj); try contradiction; pow2; lia.
Qed.

(** The pages of a region as [writeObjects] leaves them: the reference codec
    reads from the body of each page the fragments that the placement has put
    on it, when every large object has found room for its header. *)
Lemma region_decodes (n : nat) (objs : ObjectMap) (pages' : list Buffer) :
  Forall withinDataModel (map_values objs) ->
  largeHeadersFit n objs ->
  writeObjects Reference.NVM3_WORD_SIZE Reference.NVM3_OBJ_HEADER_SIZE_SMALL
               Reference.NVM_COUNTER_SIZE Reference.writeObject
               Reference.fragmentLargeObject 2048
               (repeat (defaultHeaderBytes ++ repeat xff 2028) n) objs
  = OK pages' ->
  exists logs,
    placementLog Reference.NVM3_WORD_SIZE Reference.NVM3_OBJ_HEADER_SIZE_SMALL
                 Reference.NVM_COUNTER_SIZE Reference.writeObject
                 Reference.fragmentLargeObject 2048 n objs
    = OK logs
    /\ Forall2 (fun p l => Reference.readObjects (slice p 20 2048) = OK l)
               pages' logs.
Proof.
  intros Hobjs Hroom E.
  set (page0 := (defaultHeaderBytes ++ repeat xff 2028, @nil (NVMObject * Z))).
  pose (T := writeObjectsWith
               Reference.NVM3_WORD_SIZE Reference.NVM3_OBJ_HEADER_SIZE_SMALL
               Reference.NVM_COUNTER_SIZE Reference.writeObject
               Reference.fragmentLargeObject (putTraced Reference.writeObject)
               2048 (repeat page0 n) objs).
  (* the bytes *)
  pose proof (writeObjectsWith_map
                Reference.NVM3_WORD_SIZE Reference.NVM3_OBJ_HEADER_SIZE_SMALL
                Reference.NVM_COUNTER_SIZE Reference.writeObject
                Reference.fragmentLargeObject 2048 Traced Buffer fst
                (putTraced Reference.writeObject) (putBytes Reference.writeObject)
                (fun f pos p => eq_refl) (repeat page0 n) objs) as Mb.
  rewrite map_repeat in Mb. cbn [fst page0] in Mb.
  assert (E2 : mapResult (list Traced) (list Buffer) (List.map fst) T = OK pages')
    by exact (eq_trans (eq_sym Mb) E).
  destruct (mapResult_OK _ _ _ _ _ E2) as (traced & ET & ->).
  (* the fragments and their offsets *)
  pose proof (writeObjectsWith_map
                Reference.NVM3_WORD_SIZE Reference.NVM3_OBJ_HEADER_SIZE_SMALL
                Reference.NVM_COUNTER_SIZE Reference.writeObject
                Reference.fragmentLargeObject 2048 Traced (list (NVMObject * Z)) snd
                (putTraced Reference.writeObject) putPlaced
                (fun f pos p => eq_refl) (repeat page0 n) objs) as Mp.
  rewrite map_repeat in Mp. cbn [snd page0] in Mp.
  assert (Mp' : placement Reference.NVM3_WORD_SIZE Reference.NVM3_OBJ_HEADER_SIZE_SMALL
                          Reference.NVM_COUNTER_SIZE Reference.writeObject
                          Reference.fragmentLargeObject 2048 n objs
                = OK (List.map snd traced)).
  { refine (eq_trans Mp _). change (mapResult _ _ (List.map snd) T = OK (List.map snd traced)).
    now rewrite ET. }
  unfold largeHeadersFit in Hroom. rewrite Mp' in Hroom.
  (* the fragments *)
  pose proof (writeObjectsWith_map
                Reference.NVM3_WORD_SIZE Reference.NVM3_OBJ_HEADER_SIZE_SMALL
                Reference.NVM_COUNTER_SIZE Reference.writeObject
                Reference.fragmentLargeObject 2048 Traced (list NVMObject)
                (fun p => List.map fst (snd p))
                (putTraced Reference.writeObject) putLog
                (fun f pos p => map_app fst (snd p) [(f, pos)])
                (repeat page0 n) objs) as Ml.
  rewrite map_repeat in Ml. cbn [snd page0 List.map] in Ml.
  exists (List.map (fun p => List.map fst (snd p)) traced).
  split.
  { refine (eq_trans Ml _).
    change (mapResult _ _ (List.map (fun p : Traced => List.map fst (snd p))) T
            = OK (List.map (fun p : Traced => List.map fst (snd p)) traced)).
    now rewrite ET. }
  destruct (traced_writeObjects defaultHeaderBytes eq_refl n objs traced Hobjs ET)
    as (Hp & Hw).
  apply Forall2_map_same. apply Forall_forall. intros [b t] Hin.
  cbn [fst snd].
  pose proof (proj1 (Forall_forall _ _) Hp _ Hin) as Hb.
  pose proof (proj1 (Forall_forall _ _) Hw _ Hin) as Hwt.
  pose proof (proj1 (Forall_forall _ _) Hroom t (in_map snd _ _ Hin)) as Hr.
  destruct (Hb Hr) as (Eb & Lb). cbn [fst snd] in Eb, Lb, Hwt.
  rewrite Eb.
  set (body := written t ++ repeat xff (Z.to_nat (2028 - len (written t)))).
  assert (Lbody : len body = 2028).
  { unfold body. rewrite len_app. unfold len at 2. rewrite repeat_length.
    pose proof (len_nonneg (written t)). lia. }
  pose proof (slice_middle defaultHeaderBytes body []) as S.
  rewrite app_nil_r, Lbody in S. change (len defaultHeaderBytes) with 20 in S.
  change (20 + 2028) with 2048 in S. rewrite S.
  unfold body. now apply readObjects_written.
Qed.


Ltac headers_fit :=
  repeat match goal with
         | |- Forall _ [] => apply Forall_nil
         | |- Forall _ (_ :: _) => apply Forall_cons
         | |- headerFits _ _ _ => intros _; vm_compute; discriminate
         end.

Ltac in_model :=
  split; [vm_compute; split; [discriminate | reflexivity]
         | eexists; split; [reflexivity | vm_compute; reflexivity]].

Lemma sampleApplication_live : LiveMap Reference.sampleApplication.
Proof.
  split; [exact sampleApplication_wellFormed|].
  unfold map_values, Reference.sampleApplication. cbn [List.map snd].
  repeat (apply Forall_cons; [in_model|]). apply Forall_nil.
Qed.

Lemma sampleProtocol_live : LiveMap Reference.sampleProtocol.
Proof.
  split; [exact sampleProtocol_wellFormed|].
  unfold map_values, Reference.sampleProtocol. cbn [List.map snd].
  repeat (apply Forall_cons; [in_model|]). apply Forall_nil.
Qed.

Lemma sampleApplication_room : largeHeadersFit 6 Reference.sampleApplication.
Proof.
  unfold largeHeadersFit.
  destruct (placement _ _ _ _ _ _ _ Reference.sampleApplication)
    as [placed|e] eqn:E; [|exact I].
  vm_compute in E. apply OK_inj in E. subst placed. headers_fit.
Qed.

Lemma sampleProtocol_room : largeHeadersFit 18 Reference.sampleProtocol.
Proof.
  unfold largeHeadersFit.
  destruct (placement _ _ _ _ _ _ _ Reference.sampleProtocol)
    as [placed|e] eqn:E; [|exact I].
  vm_compute in E. apply OK_inj in E. subst placed. headers_fit.
Qed.


Lemma crowdedApplication_live : LiveMap crowdedApplication.
Proof.
  split.
  - split.
    + repeat constructor; cbn; intuition discriminate.
    + repeat (apply Forall_cons;
              [split; [reflexivity
                      | split; [reflexivity | right; right; left; reflexivity]]|]).
      apply Forall_nil.
  - unfold map_values, crowdedApplication. cbn [List.map snd].
    repeat (apply Forall_cons; [in_model|]). apply Forall_nil.
Qed.

Lemma crowdedApplication_no_room : ~ largeHeadersFit 6 crowdedApplication.
Proof.
  unfold largeHeadersFit.
  destruct (placement _ _ _ _ _ _ _ crowdedApplication) as [placed|e] eqn:E;
    vm_compute in E; [|discriminate].
  apply OK_inj in E. subst placed. intros H.
  apply Forall_inv, Forall_inv_tail, Forall_inv in H.
  specialize (H (or_introl eq_refl)). vm_compute in H. apply H. reflexivity.
Qed.

